(** * Expression Panda: order placement, ingredient sufficiency and the kitchen lane

    A shallow embedding of the order core of the restaurant server
    ([expression-panda/amazon.js]: [checkSufficientIngredients] and the
    handlers of [POST /api/placeOrder], [PUT /api/kitchenNext] and [GET
    /api/kitchenOrders]) and of the cart of the customer client
    ([ExpressionPanda/src/components/CartContext.tsx]).

    Conventions of the embedding.
    - The schema is not among the sources. Tables with a serial key
      ([inventory], [menu], [orders]) are finite maps from the key to the
      remaining columns, so a key identifies one row; tables without a key
      of their own ([menu_ingredients], [order_menu]) are lists of rows. No
      other constraint is assumed: two inventory rows may carry one name.
    - Integers are [Z]. The sufficiency query casts the ids and the
      quantities of the cart to [int[]] and computes its amounts in [int4]
      (they come back as JavaScript numbers, which the check adds up): a
      value outside [int4] there raises an error, which [POST
      /api/placeOrder] answers with 500. The sums of the check are kept as
      integers: a sum of [int4] amounts is exact in JavaScript numbers for
      a result of fewer than 2^22 rows.
    - The price of a cart line and the totals the clients compute are
      JavaScript numbers, IEEE 754 binary64 ([SpecFloat] at precision 53
      with [emax] 1024); the total of an order is stored as the number the
      request carries.
    - A [SELECT] without a total [ORDER BY] returns its rows in an order the
      server chooses: every query result goes through [scan], of which only
      [scan l ≡ₚ l] is assumed.
    - Handlers run one after the other; a handler is a computation in the
      monad [Js], which threads the session (the store and the snapshot
      taken by [BEGIN]) and may throw. [FOR UPDATE SKIP LOCKED] finds no row
      locked. The pool hands a handler the clients it asks for: the
      handlers of the order core release theirs. *)

From Stdlib Require Import ZArith QArith Lia Floats.SpecFloat.
From stdpp Require Import base gmap strings list fin_maps sorting pretty.

Local Open Scope Z_scope.
Set Default Proof Using "Type".
Set Warnings "-clear-no-such-hyp".

(** ** JavaScript numbers *)

Definition number : Type := spec_float.

Global Instance number_eq_dec : EqDecision number.
Proof. solve_decision. Defined.

Definition Number_add (x y : number) : number := SFadd 53 1024 x y.

Definition Number_mul (x y : number) : number := SFmul 53 1024 x y.

(** The number nearest to an integer; an integer below 2^53 in magnitude
    is a number itself. *)
Definition Number_of_Z (z : Z) : number := binary_normalize 53 1024 z 0 false.

(** The literal [0.0825]: the number nearest to it, 0x1.51eb851eb851fp-4. *)
Definition Number_0_0825 : number := S754_finite false 5944751508129055 (-56).

(** What [JSON.stringify] and [JSON.parse] make of a number, and [Number]
    of the outcome: NaN and the infinities are written [null], of which
    [Number] makes 0, and -0 is written [0]. *)
Definition JSON_number (x : number) : number :=
  match x with
  | S754_finite _ _ _ => x
  | _ => S754_zero false
  end.

(** The value of a number that is finite. *)
Definition Number_value (x : number) : option Q :=
  match x with
  | S754_zero _ => Some 0%Q
  | S754_finite s m e =>
      Some (inject_Z (if s then Z.neg m else Z.pos m)
            * (if bool_decide (0 ≤ e) then inject_Z (2 ^ e)
               else / inject_Z (2 ^ (- e))))%Q
  | _ => None
  end.

(** The range of [int4]. *)
Definition int4 (z : Z) : Prop := -2147483648 ≤ z ≤ 2147483647.

Global Instance int4_dec z : Decision (int4 z).
Proof. unfold int4. apply _. Defined.

(** ** Persisted state *)

Inductive status := building | waiting | complete.

Global Instance status_eq_dec : EqDecision status.
Proof. solve_decision. Defined.

Record inventory_row := {
  inv_item_name : string;
  inv_stock_level : Z;
  inv_purchase_price : Q }.

Record menu_row := {
  menu_item_name : string;
  sales_price : Q;
  menu_category : string;
  is_active : bool }.

Record menu_ingredients_row := {
  mi_menu_item_id : Z;
  mi_inventory_id : Z;
  mi_quantity_needed : Z }.

Record orders_row := {
  employee_id : Z;
  order_time : Z;
  order_total : number;
  order_status : status }.

Record order_menu_row := {
  om_order_id : Z;
  om_menu_item_id : Z;
  om_quantity_ordered : Z }.

Record db := {
  inventory : gmap Z inventory_row;
  menu : gmap Z menu_row;
  menu_ingredients : list menu_ingredients_row;
  orders : gmap Z orders_row;
  order_menu : list order_menu_row;
  orders_order_id_seq : Z }.

(** ** Requests and responses *)

(** A cart line as the clients send it ([SelectedItem]). *)
Record SelectedItem := {
  id : Z;
  name : string;
  price : number;
  quantity : Z }.

(** The body of [POST /api/placeOrder]. *)
Record Order := {
  itemAmount : list SelectedItem;
  total : number;
  emID : Z }.

Inductive response :=
  | Created (message : string)
  | BadRequest (error : string)
  | Success (message : string)
  | ServerError.

(** ** The handler monad *)

(** What is thrown: a [TypeError] of JavaScript, or an error of the
    database, 23505 (a key that is taken) or 22003 (a number outside the
    range of its type). *)
Inductive exn := TypeError | UniqueViolation | NumericValueOutOfRange.

Inductive completion (A : Type) :=
  | Normal (a : A)
  | Abrupt (e : exn).
Arguments Normal {A} a.
Arguments Abrupt {A} e.

Record session := {
  store : db;
  txn : option db }.

Definition Js (A : Type) : Type := session → completion A * session.

Global Instance js_ret : MRet Js := λ A a s, (Normal a, s).

Global Instance js_bind : MBind Js := λ A B k m s,
  match m s with
  | (Normal a, s') => k a s'
  | (Abrupt e, s') => (Abrupt e, s')
  end.

Definition js_lift {A} (c : completion A) : Js A := λ s, (c, s).

Definition try_catch {A} (body : Js A) (handler : exn → Js A) : Js A := λ s,
  match body s with
  | (Normal a, s') => (Normal a, s')
  | (Abrupt e, s') => handler e s'
  end.

(** [for (const x of l) await f(x)]. *)
Fixpoint for_of {A} (l : list A) (f : A → Js unit) : Js unit :=
  match l with
  | [] => mret ()
  | x :: l' => f x;; for_of l' f
  end.

(** [array.forEach] with an accumulator that the callback may abandon by
    throwing. *)
Fixpoint forEach {S A} (f : S → A → completion S) (l : list A) (s : S)
    : completion S :=
  match l with
  | [] => Normal s
  | x :: l' =>
      match f s x with
      | Normal s' => forEach f l' s'
      | Abrupt e => Abrupt e
      end
  end.

(** ** Transactions *)

Definition BEGIN : Js unit := λ s,
  (Normal (),
   {| store := store s;
      txn := Some (default (store s) (txn s)) |}).

Definition COMMIT : Js unit := λ s,
  (Normal (), {| store := store s; txn := None |}).

(** Sequences are not transactional: a rollback restores the tables and
    keeps the value the sequence has reached. *)
Definition restore (snapshot current : db) : db :=
  {| inventory := inventory snapshot;
     menu := menu snapshot;
     menu_ingredients := menu_ingredients snapshot;
     orders := orders snapshot;
     order_menu := order_menu snapshot;
     orders_order_id_seq := orders_order_id_seq current |}.

Definition ROLLBACK : Js unit := λ s,
  (Normal (),
   match txn s with
   | Some snapshot => {| store := restore snapshot (store s); txn := None |}
   | None => s
   end).

(** ** JavaScript [Map]: insertion-ordered, [set] on a present key keeps the
    key's position *)

Module JsMap.
Section JsMap.
Context {K V : Type} `{EqDecision K}.

Fixpoint get (k : K) (m : list (K * V)) : option V :=
  match m with
  | [] => None
  | (k', v) :: m' => if decide (k = k') then Some v else get k m'
  end.

Fixpoint set (k : K) (v : V) (m : list (K * V)) : list (K * V) :=
  match m with
  | [] => [(k, v)]
  | (k', v') :: m' =>
      if decide (k = k') then (k, v) :: m' else (k', v') :: set k v m'
  end.

Definition values (m : list (K * V)) : list V := m.*2.

End JsMap.
End JsMap.

(** ** The sufficiency query *)

(** One row of [unnest($1::int[], $2::text[], $3::int[]) AS t(item_id,
    menu_name, quantity)]; the three arrays are mapped from one cart and
    have one length. *)
Record oi_row := {
  oi_item_id : Z;
  oi_menu_name : string;
  oi_quantity : Z }.

Fixpoint unnest (a : list Z) (b : list string) (c : list Z) : list oi_row :=
  match a, b, c with
  | x :: a', y :: b', z :: c' =>
      {| oi_item_id := x; oi_menu_name := y; oi_quantity := z |}
        :: unnest a' b' c'
  | _, _, _ => []
  end.

(** One row of the result, with the columns the query selects. *)
Record ingredient_row := {
  r_menu_item_id : Z;
  r_inventory_id : Z;
  r_total_quantity_needed : Z;
  r_item_name : string;
  r_stock_level : Z;
  r_item_id : Z;
  r_menu_name : string;
  r_quantity : Z }.

(** [FROM menu_ingredients mi JOIN inventory i ON mi.inventory_id =
    i.inventory_id JOIN oi ON mi.menu_item_id = oi.item_id], as nested
    loops, with the columns of the select list. *)
Definition sufficiency_from (itemIds : list Z) (itemNames : list string)
    (itemQuantities : list Z) (d : db) : list ingredient_row :=
  let oi := unnest itemIds itemNames itemQuantities in
  mi ← menu_ingredients d;
  i ← option_list (inventory d !! mi_inventory_id mi);
  o ← filter (λ o, mi_menu_item_id mi = oi_item_id o) oi;
  [ {| r_menu_item_id := mi_menu_item_id mi;
       r_inventory_id := mi_inventory_id mi;
       r_total_quantity_needed := mi_quantity_needed mi * oi_quantity o;
       r_item_name := inv_item_name i;
       r_stock_level := inv_stock_level i;
       r_item_id := oi_item_id o;
       r_menu_name := oi_menu_name o;
       r_quantity := oi_quantity o |} ].

(** The statement: [$1::int[]] and [$3::int[]] reject an id or a quantity
    outside [int4], and so does the product [mi.quantity_needed *
    oi.quantity] of a row of the join; the statement then fails as a
    whole. *)
Definition sufficiency_select (itemIds : list Z) (itemNames : list string)
    (itemQuantities : list Z) (d : db) : completion (list ingredient_row) :=
  let rows := sufficiency_from itemIds itemNames itemQuantities d in
  if bool_decide (Forall int4 itemIds ∧ Forall int4 itemQuantities
                  ∧ Forall (λ row, int4 (r_total_quantity_needed row)) rows)
  then Normal rows
  else Abrupt NumericValueOutOfRange.

(** ** checkSufficientIngredients: the JavaScript over the rows *)

(** A value of [allIngredientsUsed]. *)
Record usage := {
  used_total : Z;
  itemUsed : list string }.

Record ingredient := {
  ingredientName : string;
  amount : Z }.

(** A value of [itemToIngredientMap]: what is sent to the kitchen for one
    menu item. *)
Record item_entry := {
  it_name : string;
  it_amount : Z;
  it_ingredient : list ingredient }.

(** The [second] of a low result. *)
Record shortage := {
  low_ingredientName : string;
  currStock : Z;
  neededStock : Z;
  menuItemsUsing : list string }.

(** [{ low, second }]. *)
Inductive sufficiency :=
  | Low (second : shortage)
  | NotLow (second : list item_entry).

Definition init_itemToIngredientMap (itemOrdered : list SelectedItem)
    : list (Z * item_entry) :=
  foldl (λ itemToIngredientMap selectedItem,
           JsMap.set (id selectedItem)
             {| it_name := name selectedItem;
                it_amount := quantity selectedItem;
                it_ingredient := [] |}
             itemToIngredientMap)
        [] itemOrdered.

Definition push_ingredient (x : ingredient) (e : item_entry) : item_entry :=
  {| it_name := it_name e;
     it_amount := it_amount e;
     it_ingredient := it_ingredient e ++ [x] |}.

(** The body of [res.rows.forEach((row) => ...)]. *)
Definition process_row
    (maps : gmap string usage * list (Z * item_entry)) (row : ingredient_row)
    : completion (gmap string usage * list (Z * item_entry)) :=
  let '(allIngredientsUsed, itemToIngredientMap) := maps in
  let temp :=
    default {| used_total := 0; itemUsed := [] |}
            (allIngredientsUsed !! r_item_name row) in
  let allIngredientsUsed' :=
    <[ r_item_name row :=
         {| used_total := used_total temp + r_total_quantity_needed row;
            itemUsed := itemUsed temp ++
              [r_menu_name row +:+ " x" +:+ pretty (r_quantity row)] |} ]>
      allIngredientsUsed in
  match JsMap.get (r_menu_item_id row) itemToIngredientMap with
  | None => Abrupt TypeError
  | Some e =>
      Normal (allIngredientsUsed',
              JsMap.set (r_menu_item_id row)
                (push_ingredient
                   {| ingredientName := r_item_name row;
                      amount := r_total_quantity_needed row |} e)
                itemToIngredientMap)
  end.

(** [for (const row of res.rows)]: the first row whose stock is below the
    total recorded for its name ends the loop. *)
Fixpoint find_low (allIngredientsUsed : gmap string usage)
    (rows : list ingredient_row) : completion (option shortage) :=
  match rows with
  | [] => Normal None
  | row :: rows' =>
      match allIngredientsUsed !! r_item_name row with
      | None => Abrupt TypeError
      | Some u =>
          if bool_decide (r_stock_level row < used_total u)
          then Normal (Some {| low_ingredientName := r_item_name row;
                               currStock := r_stock_level row;
                               neededStock := used_total u;
                               menuItemsUsing := itemUsed u |})
          else find_low allIngredientsUsed rows'
      end
  end.

Definition check_rows (itemOrdered : list SelectedItem)
    (rows : list ingredient_row) : completion sufficiency :=
  match forEach process_row rows (∅, init_itemToIngredientMap itemOrdered) with
  | Abrupt e => Abrupt e
  | Normal (allIngredientsUsed, itemToIngredientMap) =>
      match find_low allIngredientsUsed rows with
      | Abrupt e => Abrupt e
      | Normal (Some second) => Normal (Low second)
      | Normal None => Normal (NotLow (JsMap.values itemToIngredientMap))
      end
  end.

(** Membership in a list that is written out. *)
Ltac elem_cases H :=
  repeat (apply elem_of_cons in H as [->|H]); [..|by apply elem_of_nil in H].

(** ** Sample stores and carts *)

Definition sample_inventory (l : list (Z * (string * Z)))
    : gmap Z inventory_row :=
  list_to_map
    ((λ x, (x.1, {| inv_item_name := x.2.1;
                    inv_stock_level := x.2.2;
                    inv_purchase_price := 1 |})) <$> l).

Definition sample_menu : gmap Z menu_row :=
  {[ 7 := {| menu_item_name := "Entree-X"; sales_price := 10;
             menu_category := "entree"; is_active := true |} ]}.

Definition sample_order (st : status) : orders_row :=
  {| employee_id := 1; order_time := 0; order_total := Number_of_Z 0;
     order_status := st |}.

Definition sample_db (inv : list (Z * (string * Z)))
    (recipe : list (Z * Z)) (os : list (Z * status))
    (lines : list order_menu_row) : db :=
  {| inventory := sample_inventory inv;
     menu := sample_menu;
     menu_ingredients :=
       (λ x, {| mi_menu_item_id := 7; mi_inventory_id := x.1;
                mi_quantity_needed := x.2 |}) <$> recipe;
     orders := list_to_map ((λ x, (x.1, sample_order x.2)) <$> os);
     order_menu := lines;
     orders_order_id_seq := Z.of_nat (length os) |}.

(** Scenarios A and B of the specification: Entree-X needs 2 units of
    Ingredient-Y. *)
Definition db_stock (stock : Z) : db :=
  sample_db [(1, ("Ingredient-Y", stock))] [(1, 2)] [] [].

Definition cart_X (q : Z) : list SelectedItem :=
  [ {| id := 7; name := "Entree-X"; price := Number_of_Z 10; quantity := q |} ].

(** Two inventory rows named salt, both used by Entree-X. *)
Definition db_salt (stock1 stock2 needed1 needed2 : Z) : db :=
  sample_db [(1, ("salt", stock1)); (2, ("salt", stock2))]
            [(1, needed1); (2, needed2)] [] [].

(** The same with a third row, pepper, of which there is too little. *)
Definition db_salt_pepper : db :=
  sample_db [(1, ("salt", 5)); (2, ("salt", 100)); (3, ("pepper", 1))]
            [(1, 3); (2, 50); (3, 2)] [] [].

(** One order in the lane, of two Entree-X. *)
Definition db_kitchen : db :=
  sample_db [(1, ("Ingredient-Y", 5))] [(1, 2)] [(1, building)]
            [ {| om_order_id := 1; om_menu_item_id := 7;
                 om_quantity_ordered := 2 |} ].

Definition db_lane (os : list (Z * status)) : db :=
  sample_db [(1, ("Ingredient-Y", 5))] [(1, 2)] os [].

(** Entree-X with no recipe. *)
Definition db_plain : db :=
  sample_db [(1, ("Ingredient-Y", 5))] [] [] [].

(** Two ingredients, salt and pepper, with one unit of each in stock and
    two of each in the recipe. *)
Definition db_two_short : db :=
  sample_db [(1, ("salt", 1)); (2, ("pepper", 1))] [(1, 2); (2, 2)] [] [].

(** A server that returns the rows in the order of the nested loops, and
    one that returns them in the opposite order. *)
Definition scan_id : ∀ R : Type, list R → list R := λ _ l, l.

Definition scan_rev : ∀ R : Type, list R → list R := λ _ l, reverse l.

(** ** The handlers *)

Section Server.

(** The order in which the server returns the rows of a query. *)
Variable scan : ∀ R : Type, list R → list R.
Hypothesis scan_perm : ∀ (R : Type) (l : list R), scan R l ≡ₚ l.

(** [pool.query] and [client.query] of a [SELECT]; [order_by] is the sort
    the statement asks for, the identity when it asks for none. *)
Definition pool_query {R} (order_by : list R → list R) (select : db → list R)
    : Js (list R) := λ s,
  (Normal (order_by (scan R (select (store s)))), s).

Definition client_query {R} := @pool_query R.

(** [pool.query] of a [SELECT] that may fail. *)
Definition pool_query_select {R} (select : db → completion (list R))
    : Js (list R) := λ s,
  match select (store s) with
  | Normal rows => (Normal (scan R rows), s)
  | Abrupt e => (Abrupt e, s)
  end.

(** A statement that writes. The handlers run it on values that have
    passed the casts of the sufficiency query, and no constraint is assumed
    that it could violate. *)
Definition client_exec (statement : db → db) : Js unit := λ s,
  (Normal (), {| store := statement (store s); txn := txn s |}).

Definition checkSufficientIngredients (itemOrdered : list SelectedItem)
    : Js sufficiency :=
  let itemIds := map id itemOrdered in
  let itemNames := map name itemOrdered in
  let itemQuantities := map quantity itemOrdered in
  res_rows ←
    pool_query_select (sufficiency_select itemIds itemNames itemQuantities);
  js_lift (check_rows itemOrdered res_rows).

(** *** POST /api/placeOrder *)

(** [SELECT * FROM orders WHERE order_status = st]. *)
Definition select_orders_where (st : status) (d : db)
    : list (Z * orders_row) :=
  filter (λ o, order_status o.2 = st) (map_to_list (orders d)).

Definition with_orders (d : db) (o : gmap Z orders_row) : db :=
  {| inventory := inventory d;
     menu := menu d;
     menu_ingredients := menu_ingredients d;
     orders := o;
     order_menu := order_menu d;
     orders_order_id_seq := orders_order_id_seq d |}.

Definition with_order_menu (d : db) (om : list order_menu_row) : db :=
  {| inventory := inventory d;
     menu := menu d;
     menu_ingredients := menu_ingredients d;
     orders := orders d;
     order_menu := om;
     orders_order_id_seq := orders_order_id_seq d |}.

Definition with_seq (d : db) (v : Z) : db :=
  {| inventory := inventory d;
     menu := menu d;
     menu_ingredients := menu_ingredients d;
     orders := orders d;
     order_menu := order_menu d;
     orders_order_id_seq := v |}.

(** [INSERT INTO orders (...) VALUES (...) RETURNING order_id]: the key
    comes from the table's sequence, and a key already present violates the
    primary key. *)
Definition insert_orders (row : orders_row) : Js Z := λ s,
  let order_id := orders_order_id_seq (store s) + 1 in
  let d := with_seq (store s) order_id in
  match orders d !! order_id with
  | Some _ => (Abrupt UniqueViolation, {| store := d; txn := txn s |})
  | None =>
      (Normal order_id,
       {| store := with_orders d (<[order_id := row]> (orders d));
          txn := txn s |})
  end.

(** [INSERT INTO order_menu (order_id, menu_item_id, quantity_ordered)]. *)
Definition insert_order_menu (row : order_menu_row) : Js unit :=
  client_exec (λ d, with_order_menu d (order_menu d ++ [row])).

Definition low_stock_alert (second : shortage) : string :=
  "Low Stock Alert: The ingredient " +:+ low_ingredientName second +:+
  " is being ordered in " +:+ String.concat ", " (menuItemsUsing second) +:+
  ", which uses total of " +:+ pretty (neededStock second) +:+
  ", and there is " +:+ pretty (currStock second) +:+ " available.".

(** [now] is the value of [new Date()]. *)
Definition api_placeOrder (now : Z) (order : Order) : Js response :=
  let itemOrdered := itemAmount order in
  try_catch
    (itemLowOrIngredient ← checkSufficientIngredients itemOrdered;
     match itemLowOrIngredient with
     | NotLow _ =>
         BEGIN;;
         checkBuilding ← client_query (λ l, l) (select_orders_where building);
         let employeeId := emID order in
         orderID ← insert_orders
           {| employee_id := employeeId;
              order_time := now;
              order_total := total order;
              order_status :=
                if bool_decide (0 < length checkBuilding)%nat
                then waiting else building |};
         for_of itemOrdered (λ selectedItem,
           insert_order_menu
             {| om_order_id := orderID;
                om_menu_item_id := id selectedItem;
                om_quantity_ordered := quantity selectedItem |});;
         COMMIT;;
         mret (Created ("Order placed successfully, your number is: "
                        +:+ pretty orderID))
     | Low second => mret (BadRequest (low_stock_alert second))
     end)
    (λ error, ROLLBACK;; mret ServerError).

(** *** PUT /api/kitchenNext *)

(** [SELECT order_id FROM orders WHERE order_status = st ORDER BY order_id
    ASC LIMIT 1]; no row is locked by another caller. *)
Definition first_order_id (st : status) (d : db) : option Z :=
  head (merge_sort Z.le (select_orders_where st d).*1).

Definition set_status (st : status) (o : orders_row) : orders_row :=
  {| employee_id := employee_id o;
     order_time := order_time o;
     order_total := order_total o;
     order_status := st |}.

(** The single [UPDATE orders SET order_status = CASE ... END WHERE order_id
    IN (...)] over the two common table expressions. *)
Definition updateOrderQuery (d : db) : db :=
  let next_order := first_order_id waiting d in
  let building_order := first_order_id building d in
  with_orders d
    (map_imap (λ order_id o,
       Some
         (if bool_decide
               (order_id ∈ option_list building_order ++ option_list next_order)
          then
            set_status
              (if bool_decide (Some order_id = building_order) then complete
               else if bool_decide (Some order_id = next_order) then building
               else order_status o) o
          else o))
       (orders d)).

Definition api_kitchenNext : Js response :=
  try_catch
    (BEGIN;;
     client_exec updateOrderQuery;;
     COMMIT;;
     mret (Success "Order status updated successfully"))
    (λ error, ROLLBACK;; mret ServerError).

(** *** GET /api/kitchenOrders?source=kitchen *)

Record kitchen_row := {
  k_order_id : Z;
  k_order_status : status;
  k_item_name : option string;
  k_item_quantity : option Z;
  k_ingredient_name : option string;
  k_ingredient_amount : option Z }.

(** The right side of a [LEFT JOIN]: the matching rows, or one row of
    NULLs when there is none. *)
Definition left_join {B} (matching : list B) : list (option B) :=
  match matching with
  | [] => [None]
  | _ => Some <$> matching
  end.

(** The columns selected for an order, one of its lines and one recipe
    row of the line's menu item; [menu] and [inventory] are joined on their
    keys. *)
Definition kitchen_row_of (d : db) (order_id : Z) (o : orders_row)
    (om : option order_menu_row) (mi : option menu_ingredients_row)
    : kitchen_row :=
  let m := om ≫= λ om, menu d !! om_menu_item_id om in
  let inv := mi ≫= λ mi, inventory d !! mi_inventory_id mi in
  {| k_order_id := order_id;
     k_order_status := order_status o;
     k_item_name := menu_item_name <$> m;
     k_item_quantity := om_quantity_ordered <$> om;
     k_ingredient_name := inv_item_name <$> inv;
     k_ingredient_amount := mi_quantity_needed <$> mi |}.

(** The recipe rows joined to a line: [LEFT JOIN menu_ingredients mi ON
    om.menu_item_id = mi.menu_item_id]. *)
Definition recipe_of (d : db) (om : option order_menu_row)
    : list menu_ingredients_row :=
  match om with
  | Some om =>
      filter (λ mi, mi_menu_item_id mi = om_menu_item_id om)
             (menu_ingredients d)
  | None => []
  end.

(** [FROM orders o LEFT JOIN order_menu om ... LEFT JOIN menu m ... LEFT
    JOIN menu_ingredients mi ... LEFT JOIN inventory inv ... WHERE
    o.order_status IN ('building', 'waiting')]. *)
Definition kitchen_select (d : db) : list kitchen_row :=
  o ← filter (λ o, order_status o.2 ∈ [building; waiting])
             (map_to_list (orders d));
  om ← left_join (filter (λ om, om_order_id om = o.1) (order_menu d));
  mi ← left_join (recipe_of d om);
  [ kitchen_row_of d o.1 o.2 om mi ].

(** The text order of the status column: 'building' < 'complete' <
    'waiting'. *)
Definition status_rank (st : status) : Z :=
  match st with building => 0 | complete => 1 | waiting => 2 end.

(** [ORDER BY o.order_status ASC, o.order_id ASC]. *)
Definition kitchen_le (a b : kitchen_row) : Prop :=
  status_rank (k_order_status a) < status_rank (k_order_status b)
  ∨ (status_rank (k_order_status a) = status_rank (k_order_status b)
     ∧ k_order_id a ≤ k_order_id b).

Global Instance kitchen_le_dec a b : Decision (kitchen_le a b).
Proof. unfold kitchen_le. apply _. Defined.

Record kitchen_ingredient := {
  ki_ingredientName : option string;
  ki_amount : option Z }.

Record kitchen_item := {
  kit_name : option string;
  kit_amount : option Z;
  kit_ingredient : list kitchen_ingredient }.

Record kitchen_order := {
  ko_id : Z;
  ko_status : status;
  ko_item : list kitchen_item }.

(** [item = items.find((i) => i.name === item_name)], created and pushed
    when there is none, then [item.ingredient.push(x)]. *)
Fixpoint push_to_item (item_name : option string) (item_quantity : option Z)
    (x : kitchen_ingredient) (items : list kitchen_item) : list kitchen_item :=
  match items with
  | [] =>
      [ {| kit_name := item_name;
           kit_amount := item_quantity;
           kit_ingredient := [x] |} ]
  | i :: items' =>
      if decide (kit_name i = item_name)
      then {| kit_name := kit_name i;
              kit_amount := kit_amount i;
              kit_ingredient := kit_ingredient i ++ [x] |} :: items'
      else i :: push_to_item item_name item_quantity x items'
  end.

(** The body of [result.rows.forEach((row) => ...)]; [ordersMap] is an
    object, its entries kept here in insertion order. *)
Definition kitchen_add_row (ordersMap : list (Z * kitchen_order))
    (row : kitchen_row) : list (Z * kitchen_order) :=
  let entry :=
    default {| ko_id := k_order_id row;
               ko_status := k_order_status row;
               ko_item := [] |}
            (JsMap.get (k_order_id row) ordersMap) in
  JsMap.set (k_order_id row)
    {| ko_id := ko_id entry;
       ko_status := ko_status entry;
       ko_item :=
         push_to_item (k_item_name row) (k_item_quantity row)
           {| ki_ingredientName := k_ingredient_name row;
              ki_amount := k_ingredient_amount row |}
           (ko_item entry) |}
    ordersMap.

(** A property key that is an array index. *)
Definition is_array_index (k : Z) : Prop := 0 ≤ k < 4294967295.

Global Instance is_array_index_dec k : Decision (is_array_index k).
Proof. unfold is_array_index. apply _. Defined.

Definition key_le {V} (a b : Z * V) : Prop := a.1 ≤ b.1.

Global Instance key_le_dec {V} (a b : Z * V) : Decision (key_le a b).
Proof. unfold key_le. apply _. Defined.

(** [Object.values]: the integer keys in ascending order, then the other
    keys in insertion order. *)
Definition Object_values {V} (o : list (Z * V)) : list V :=
  (merge_sort key_le (filter (λ kv, is_array_index kv.1) o)).*2
  ++ (filter (λ kv, ¬ is_array_index kv.1) o).*2.

(** The branch [source === "kitchen"] of the handler. *)
Definition api_kitchenOrders_kitchen : Js (list kitchen_order) :=
  result_rows ← pool_query (merge_sort kitchen_le) kitchen_select;
  let ordersMap := foldl kitchen_add_row [] result_rows in
  mret (Object_values ordersMap).

(** A handler runs on a fresh connection, with no transaction open. *)
Definition run {A} (handler : Js A) (d : db) : completion A * db :=
  let '(c, s) := handler {| store := d; txn := None |} in (c, store s).

(** *** The cart of the customer client (CartContext.tsx) *)

(** [selectedItems.reduce((acc, item) => acc + item.price * item.quantity,
    0)], [subtotal * 0.0825] and [subtotal + tax], in the arithmetic of
    JavaScript numbers. *)
Definition CartContext_subtotal (selectedItems : list SelectedItem) : number :=
  foldl (λ acc item,
           Number_add acc (Number_mul (price item) (Number_of_Z (quantity item))))
        (Number_of_Z 0) selectedItems.

Definition CartContext_tax (selectedItems : list SelectedItem) : number :=
  Number_mul (CartContext_subtotal selectedItems) Number_0_0825.

Definition CartContext_total (selectedItems : list SelectedItem) : number :=
  Number_add (CartContext_subtotal selectedItems)
             (CartContext_tax selectedItems).

(** How the promise of [placeOrder] settles. *)
Inductive settled :=
  | Resolved
  | Rejected (message : string).

(** [placeOrder(userId)]: the result, the cart afterwards and the store
    afterwards. The request is sent only past the guard; its body is JSON,
    so the total arrives as [JSON_number] has it. *)
Definition CartContext_placeOrder (now userId : Z)
    (selectedItems : list SelectedItem) (d : db)
    : settled * list SelectedItem * db :=
  if bool_decide (length selectedItems = 0%nat)
  then (Rejected "Your order is empty. Please add items first.",
        selectedItems, d)
  else
    let '(response, d') :=
      run (api_placeOrder now
             {| itemAmount := selectedItems;
                total := JSON_number (CartContext_total selectedItems);
                emID := userId |}) d in
    match response with
    | Normal (Created message) | Normal (Success message) =>
        (Resolved, [], d')
    | Normal (BadRequest error) =>
        (Rejected (if decide (error = "") then "Error placing order"
                   else error),
         selectedItems, d')
    | Normal ServerError | Abrupt _ =>
        (Rejected "[object Object]", selectedItems, d')
    end.

(** The request the cart sends for one Entree-X. *)
Definition sample_order_body : Order :=
  {| itemAmount := cart_X 1;
     total := JSON_number (CartContext_total (cart_X 1)); emID := 1 |}.

(** ** Notions the statements use *)

Definition sumZ (l : list Z) : Z := foldr Z.add 0 l.

(** The rows of the sufficiency query for a cart, before the server orders
    them. *)
Definition cart_rows (d : db) (cart : list SelectedItem)
    : list ingredient_row :=
  sufficiency_from (map id cart) (map name cart) (map quantity cart) d.

(** The statement of the sufficiency query does not fail. *)
Definition int4_query (d : db) (cart : list SelectedItem) : Prop :=
  Forall int4 (map id cart) ∧ Forall int4 (map quantity cart)
  ∧ Forall (λ row, int4 (r_total_quantity_needed row)) (cart_rows d cart).

Global Instance int4_query_dec d cart : Decision (int4_query d cart).
Proof. unfold int4_query. apply _. Defined.

(** The cart is within [int4] for the store: every id and every quantity
    of the cart is, and so is quantityNeeded times quantity ordered for
    every cart line and every recipe row of the line's menu item whose
    inventory row exists. *)
Definition within_int4 (d : db) (cart : list SelectedItem) : Prop :=
  (∀ line, line ∈ cart → int4 (id line) ∧ int4 (quantity line))
  ∧ ∀ mi line, mi ∈ menu_ingredients d → line ∈ cart →
      mi_menu_item_id mi = id line →
      is_Some (inventory d !! mi_inventory_id mi) →
      int4 (mi_quantity_needed mi * quantity line).

Global Instance within_int4_dec (d : db) (cart : list SelectedItem) :
  Decision (within_int4 d cart).
Proof.
  refine (cast_if
    (decide
       (Forall (λ line, int4 (id line) ∧ int4 (quantity line)) cart
        ∧ Forall (λ mi,
            Forall (λ line,
                      mi_menu_item_id mi = id line →
                      is_Some (inventory d !! mi_inventory_id mi) →
                      int4 (mi_quantity_needed mi * quantity line)) cart)
            (menu_ingredients d))));
    match goal with H : _ |- _ => revert H end;
    unfold within_int4; repeat setoid_rewrite Forall_forall; naive_solver.
Defined.

(** The row the join produces for a recipe row, its inventory row and a
    cart line of the recipe's menu item. *)
Definition row_of (mi : menu_ingredients_row) (i : inventory_row)
    (line : SelectedItem) : ingredient_row :=
  {| r_menu_item_id := mi_menu_item_id mi;
     r_inventory_id := mi_inventory_id mi;
     r_total_quantity_needed := mi_quantity_needed mi * quantity line;
     r_item_name := inv_item_name i;
     r_stock_level := inv_stock_level i;
     r_item_id := id line;
     r_menu_name := name line;
     r_quantity := quantity line |}.

(** The rows as the check receives them ([res.rows]). *)
Definition res_rows (d : db) (cart : list SelectedItem)
    : list ingredient_row :=
  scan ingredient_row (cart_rows d cart).

(** Demand aggregated by ingredient name over the rows of a result, as
    [allIngredientsUsed] records it. *)
Definition name_demand (rows : list ingredient_row) (n : string) : Z :=
  sumZ (r_total_quantity_needed <$> filter (λ r, r_item_name r = n) rows).

(** Demand on one ingredient name: quantityNeeded times quantity ordered,
    summed over every cart line and every recipe row of the line's menu
    item whose inventory row carries the name, whichever row of that name
    it is. *)
Definition demand_of_name (d : db) (cart : list SelectedItem) (n : string)
    : Z :=
  sumZ (mi ← menu_ingredients d;
        line ← cart;
        match inventory d !! mi_inventory_id mi with
        | Some inv =>
            if decide (mi_menu_item_id mi = id line ∧ inv_item_name inv = n)
            then [mi_quantity_needed mi * quantity line] else []
        | None => []
        end).

(** Demand on the rows that consume one inventory row. *)
Definition item_demand (rows : list ingredient_row) (i : Z) : Z :=
  sumZ (r_total_quantity_needed <$> filter (λ r, r_inventory_id r = i) rows).

(** Demand on one inventory item in the words of the specification:
    quantityNeeded times quantity ordered, summed over every cart line and
    every recipe row of the line's menu item that uses the item. *)
Definition demand_of_item (d : db) (cart : list SelectedItem) (i : Z) : Z :=
  sumZ (mi ← menu_ingredients d;
        line ← cart;
        if decide (mi_menu_item_id mi = id line ∧ mi_inventory_id mi = i)
        then [mi_quantity_needed mi * quantity line] else []).

(** The cart consumes inventory item [i]. *)
Definition uses (d : db) (cart : list SelectedItem) (i : Z) : Prop :=
  ∃ mi line, mi ∈ menu_ingredients d ∧ line ∈ cart
    ∧ mi_menu_item_id mi = id line ∧ mi_inventory_id mi = i.

(** No two inventory rows carry one name. *)
Definition distinct_names (d : db) : Prop :=
  ∀ i j a b, inventory d !! i = Some a → inventory d !! j = Some b →
    inv_item_name a = inv_item_name b → i = j.

Definition used_label (r : ingredient_row) : string :=
  r_menu_name r +:+ " x" +:+ pretty (r_quantity r).

(** The test of the second pass: the row's stock is below the demand
    recorded for the row's name. *)
Definition is_low (rows : list ingredient_row) (r : ingredient_row) : Prop :=
  r_stock_level r < name_demand rows (r_item_name r).

Global Instance is_low_dec rows r : Decision (is_low rows r).
Proof. unfold is_low. apply _. Defined.

(** What the check reports when [r] is the row that fails. *)
Definition shortage_at (rows : list ingredient_row) (r : ingredient_row)
    : shortage :=
  {| low_ingredientName := r_item_name r;
     currStock := r_stock_level r;
     neededStock := name_demand rows (r_item_name r);
     menuItemsUsing :=
       used_label <$> filter (λ r', r_item_name r' = r_item_name r) rows |}.

(** The ingredients pushed for the menu item [k]. *)
Definition ingredients_of (rows : list ingredient_row) (k : Z)
    : list ingredient :=
  (λ r, {| ingredientName := r_item_name r;
           amount := r_total_quantity_needed r |})
    <$> filter (λ r, r_menu_item_id r = k) rows.

(** The entry [itemToIngredientMap] starts with for a cart line. *)
Definition entry_of (line : SelectedItem) : item_entry :=
  {| it_name := name line; it_amount := quantity line; it_ingredient := [] |}.

Definition add_ingredients (rows : list ingredient_row)
    (ke : Z * item_entry) : Z * item_entry :=
  (ke.1,
   {| it_name := it_name ke.2;
      it_amount := it_amount ke.2;
      it_ingredient := it_ingredient ke.2 ++ ingredients_of rows ke.1 |}).

(** The update of [allIngredientsUsed] for one row. *)
Definition tally (allIngredientsUsed : gmap string usage)
    (row : ingredient_row) : gmap string usage :=
  let temp :=
    default {| used_total := 0; itemUsed := [] |}
            (allIngredientsUsed !! r_item_name row) in
  <[ r_item_name row :=
       {| used_total := used_total temp + r_total_quantity_needed row;
          itemUsed := itemUsed temp ++ [used_label row] |} ]>
    allIngredientsUsed.

(** What [allIngredientsUsed] holds for a name after the rows. *)
Definition usage_after (a : gmap string usage) (rows : list ingredient_row)
    (n : string) : option usage :=
  if decide (is_Some (a !! n) ∨ Exists (λ r, r_item_name r = n) rows)
  then
    let u0 := default {| used_total := 0; itemUsed := [] |} (a !! n) in
    Some {| used_total := used_total u0 + name_demand rows n;
            itemUsed := itemUsed u0
              ++ (used_label <$> filter (λ r, r_item_name r = n) rows) |}
  else None.

(** The status [api_placeOrder] gives a new order. *)
Definition new_status (d : db) : status :=
  if bool_decide
       (0 < length (scan (Z * orders_row) (select_orders_where building d)))%nat
  then waiting else building.

(** The store after a placement that commits. *)
Definition placed (now : Z) (order : Order) (d : db) : db :=
  let orderID := orders_order_id_seq d + 1 in
  {| inventory := inventory d;
     menu := menu d;
     menu_ingredients := menu_ingredients d;
     orders :=
       <[ orderID := {| employee_id := emID order;
                        order_time := now;
                        order_total := total order;
                        order_status := new_status d |} ]> (orders d);
     order_menu :=
       order_menu d
       ++ ((λ selectedItem,
              {| om_order_id := orderID;
                 om_menu_item_id := id selectedItem;
                 om_quantity_ordered := quantity selectedItem |})
             <$> itemAmount order);
     orders_order_id_seq := orderID |}.

(** The sum over the cart lines of price times quantity, exactly; none
    when a price is not finite. *)
Definition sum_price_quantity (cart : list SelectedItem) : option Q :=
  foldr (λ line acc,
           p ← Number_value (price line);
           a ← acc;
           Some (p * inject_Z (quantity line) + a)%Q)
        (Some 0%Q) cart.

(** The ingredient entry the kitchen view pushes for a row. *)
Definition ki_of (r : kitchen_row) : kitchen_ingredient :=
  {| ki_ingredientName := k_ingredient_name r;
     ki_amount := k_ingredient_amount r |}.

(** Where the entries of [ordersMap] come from, after the rows [rows]:
    an entry sits under its own id, has the status of a row of its order,
    holds at most one item per name, and every item has the quantity of a
    row of that order and name. *)
Definition kitchen_provenance (rows : list kitchen_row)
    (ordersMap : list (Z * kitchen_order)) : Prop :=
  ∀ k ko, JsMap.get k ordersMap = Some ko →
    ko_id ko = k
    ∧ (∃ r, r ∈ rows ∧ k_order_id r = k ∧ ko_status ko = k_order_status r)
    ∧ NoDup (kit_name <$> ko_item ko)
    ∧ ∀ item, item ∈ ko_item ko →
        ∃ r, r ∈ rows ∧ k_order_id r = k ∧ k_item_name r = kit_name item
          ∧ kit_amount item = k_item_quantity r.

(** Every row is in [ordersMap]: under the row's order, an item of the
    row's item name lists the row's ingredient. *)
Definition kitchen_coverage (rows : list kitchen_row)
    (ordersMap : list (Z * kitchen_order)) : Prop :=
  ∀ r, r ∈ rows →
    ∃ ko item, JsMap.get (k_order_id r) ordersMap = Some ko
      ∧ item ∈ ko_item ko
      ∧ kit_name item = k_item_name r
      ∧ ki_of r ∈ kit_ingredient item.

(** The lane. *)
Definition has_status (st : status) (d : db) (k : Z) : Prop :=
  ∃ o, orders d !! k = Some o ∧ order_status o = st.

Definition at_most_one_building (d : db) : Prop :=
  ∀ k1 k2, has_status building d k1 → has_status building d k2 → k1 = k2.

Inductive call :=
  | PlaceOrder (now : Z) (order : Order)
  | KitchenNext.

Definition step (d : db) (c : call) : db :=
  match c with
  | PlaceOrder now order => (run (api_placeOrder now order) d).2
  | KitchenNext => (run api_kitchenNext d).2
  end.

(** ** The lane in the order of arrival *)

(** The sequence behind [orders.order_id] has reached every key of the
    table, as it has when every row got its key from the sequence. *)
Definition seq_ahead (d : db) : Prop :=
  ∀ k o, orders d !! k = Some o → k ≤ orders_order_id_seq d.

(** Orders are served in the order of their ids: the completed orders are
    older than every order still in the lane, and a waiting order waits
    behind an older order that is building. *)
Definition lane_in_order (d : db) : Prop :=
  seq_ahead d
  ∧ at_most_one_building d
  ∧ (∀ kw, has_status waiting d kw → ∃ kb, has_status building d kb ∧ kb < kw)
  ∧ (∀ kc k o, has_status complete d kc → orders d !! k = Some o →
       order_status o ≠ complete → kc < k).

(** The ids of the orders that are not complete. *)
Definition active_ids (d : db) : gset Z :=
  dom (filter (λ ko, order_status ko.2 ≠ complete) (orders d)).

(** *** GET /api/kitchenOrders: the whole handler *)

(** [SELECT MAX(order_id) FROM orders WHERE order_status = 'complete']:
    NULL when no order is complete. *)
Definition max_complete_id (d : db) : option Z :=
  last (merge_sort Z.le (select_orders_where complete d).*1).

(** A row of the query behind [source=menu]: the two columns it selects
    and the value of the [CASE] it sorts by first. *)
Record board_row := {
  b_case : Z;
  b_order_id : Z;
  b_order_status : status }.

Definition is_latest_complete (d : db) (o : Z * orders_row) : Prop :=
  order_status o.2 = complete ∧ Some o.1 = max_complete_id d.

Global Instance is_latest_complete_dec d o : Decision (is_latest_complete d o).
Proof. unfold is_latest_complete. apply _. Defined.

(** [WHERE o.order_status IN ('building', 'waiting') OR (o.order_status =
    'complete' AND o.order_id = (SELECT MAX(order_id) ...))]. *)
Definition board_select (d : db) : list board_row :=
  (λ o, {| b_case := if decide (is_latest_complete d o) then 0 else 1;
           b_order_id := o.1;
           b_order_status := order_status o.2 |})
    <$> filter (λ o, order_status o.2 ∈ [building; waiting]
                     ∨ is_latest_complete d o)
               (map_to_list (orders d)).

(** [ORDER BY CASE ... END, o.order_status ASC, o.order_id ASC]. *)
Definition board_le (a b : board_row) : Prop :=
  b_case a < b_case b
  ∨ (b_case a = b_case b
     ∧ (status_rank (b_order_status a) < status_rank (b_order_status b)
        ∨ (status_rank (b_order_status a) = status_rank (b_order_status b)
           ∧ b_order_id a ≤ b_order_id b))).

Global Instance board_le_dec a b : Decision (board_le a b).
Proof. unfold board_le. apply _. Defined.

(** An element of the array the handler answers with: the kitchen gets
    [{ id, status, item }], the menu board [{ id, status }]. *)
Record order_json := {
  oj_id : Z;
  oj_status : status;
  oj_item : option (list kitchen_item) }.

Definition kitchen_json (ko : kitchen_order) : order_json :=
  {| oj_id := ko_id ko; oj_status := ko_status ko;
     oj_item := Some (ko_item ko) |}.

Definition board_json (row : board_row) : order_json :=
  {| oj_id := b_order_id row; oj_status := b_order_status row;
     oj_item := None |}.

Inductive kitchenOrders_response :=
  | OrdersOk (orders : list order_json)
  | OrdersError.

(** [source] is [req.query.source]. *)
Definition api_kitchenOrders (source : option string)
    : Js kitchenOrders_response :=
  try_catch
    (let source := default "" source in
     if decide (source = "kitchen") then
       orders ← api_kitchenOrders_kitchen;
       mret (OrdersOk (kitchen_json <$> orders))
     else if decide (source = "menu") then
       result_rows ← pool_query (merge_sort board_le) board_select;
       mret (OrdersOk (board_json <$> result_rows))
     else mret (OrdersOk []))
    (λ error, mret OrdersError).

(** *** The screens that poll the handler *)

(** MenuBoard.tsx, [fetchOrders]: the board keeps the first six orders of
    the answer, and keeps what it shows when the request fails. *)
Definition MenuBoard_fetchOrders (orders : list order_json) (d : db)
    : list order_json :=
  match (run (api_kitchenOrders (Some "menu")) d).1 with
  | Normal (OrdersOk data) => take 6 data
  | _ => orders
  end.

(** Kitchen.tsx, [fetchOrders]. *)
Definition Kitchen_fetchOrders (orders : list order_json) (d : db)
    : list order_json :=
  match (run (api_kitchenOrders (Some "kitchen")) d).1 with
  | Normal (OrdersOk data) => data
  | _ => orders
  end.

Definition with_oj_status (st : status) (o : order_json) : order_json :=
  {| oj_id := oj_id o; oj_status := st; oj_item := oj_item o |}.

(** Kitchen.tsx, [handleNextOrder]: after the server has advanced the lane
    the screen marks its second order as building and drops the first. With
    fewer than two orders [orders[1]] is undefined, the assignment throws,
    and the handler's [catch] leaves the list as it is. *)
Definition Kitchen_handleNextOrder (orders : list order_json) (d : db)
    : list order_json * db :=
  let '(response, d') := run api_kitchenNext d in
  match response with
  | Normal (Success _) =>
      match orders with
      | o0 :: o1 :: rest => (with_oj_status building o1 :: rest, d')
      | _ => (orders, d')
      end
  | _ => (orders, d')
  end.

(** The ids of the orders of a status, in ascending order. *)
Definition ids_of (st : status) (d : db) : list Z :=
  merge_sort Z.le (select_orders_where st d).*1.

(** The id and the status of each order of an answer. *)
Definition id_status (orders : list order_json) : list (Z * status) :=
  (λ o, (oj_id o, oj_status o)) <$> orders.

(** An order as the menu board is sent it. *)
Definition listed (st : status) (k : Z) : order_json :=
  {| oj_id := k; oj_status := st; oj_item := None |}.

(** The latest completed order, then the building orders, then the waiting
    orders, each group by ascending id. *)
Definition board_of (d : db) : list order_json :=
  (listed complete <$> option_list (max_complete_id d))
  ++ (listed building <$> ids_of building d)
  ++ (listed waiting <$> ids_of waiting d).

Definition board_row_of (c : Z) (st : status) (k : Z) : board_row :=
  {| b_case := c; b_order_id := k; b_order_status := st |}.

(** The rows behind [board_of]. *)
Definition board_rows (d : db) : list board_row :=
  (board_row_of 0 complete <$> option_list (max_complete_id d))
  ++ (board_row_of 1 building <$> ids_of building d)
  ++ (board_row_of 1 waiting <$> ids_of waiting d).

(** What the kitchen is sent. *)
Definition kitchen_view (d : db) : list order_json :=
  kitchen_json
    <$> Object_values
          (foldl kitchen_add_row []
             (merge_sort kitchen_le (scan kitchen_row (kitchen_select d)))).

(** *** The operations of the cart (CartContext.tsx) *)

(** A menu item. [GET /api/active-items] sends the price as the column has
    it, a decimal; the menu page makes a number of it, [Number(item.price)],
    and the cart is handed that. *)
Record MenuItem {P : Type} := {
  m_id : Z;
  m_name : string;
  m_price : P;
  m_category : string }.

Definition with_quantity (q : Z) (x : SelectedItem) : SelectedItem :=
  {| id := id x; name := name x; price := price x; quantity := q |}.

(** [addItem(item)]: the first line of the item's name gets one more, and
    when there is none a line of quantity 1 is appended. *)
Definition CartContext_addItem (item : @MenuItem number)
    (prev : list SelectedItem) : list SelectedItem :=
  match list_find (λ x, name x = m_name item) prev with
  | Some (idx, x) => <[idx := with_quantity (quantity x + 1) x]> prev
  | None =>
      prev ++ [ {| id := m_id item; name := m_name item;
                   price := m_price item; quantity := 1 |} ]
  end.

(** [removeItem(index)]: [prev.filter((_, i) => i !== index)]. *)
Definition CartContext_removeItem (index : nat) (prev : list SelectedItem)
    : list SelectedItem :=
  (filter (λ ix, ix.1 ≠ index) (imap pair prev)).*2.

Definition CartContext_clearOrder : list SelectedItem := [].

(** [setQuantity(index, qty)], for the index of a line of the cart, which
    is what the cart panel passes. At an index past the end the array would
    get a line without id, name and price: no cart of [SelectedItem], and
    no value here. *)
Definition CartContext_setQuantity (index : nat) (qty : Z)
    (prev : list SelectedItem) : option (list SelectedItem) :=
  x ← prev !! index;
  Some (<[index := with_quantity (Z.max 0 qty) x]> prev).

(** The quantity field of the cart panel (Navbar.tsx): [parseInt(value, 10)
    || 1], where [parsed] is the result of [parseInt], [None] for NaN. *)
Definition Navbar_newQty (parsed : option Z) : Z :=
  match parsed with
  | Some q => if decide (q = 0) then 1 else q
  | None => 1
  end.

(** What the customer can do to the cart. *)
Inductive cart_action :=
  | AddItem (item : @MenuItem number)
  | RemoveItem (index : nat)
  | ClearOrder
  | SetQuantity (index : nat) (qty : Z).

Definition cart_step (prev : list SelectedItem) (a : cart_action)
    : option (list SelectedItem) :=
  match a with
  | AddItem item => Some (CartContext_addItem item prev)
  | RemoveItem index => Some (CartContext_removeItem index prev)
  | ClearOrder => Some CartContext_clearOrder
  | SetQuantity index qty => CartContext_setQuantity index qty prev
  end.

Fixpoint cart_run (prev : list SelectedItem) (actions : list cart_action)
    : option (list SelectedItem) :=
  match actions with
  | [] => Some prev
  | a :: actions' => next ← cart_step prev a; cart_run next actions'
  end.

(** The units of a name in the cart. *)
Definition units_of (n : string) (cart : list SelectedItem) : Z :=
  sumZ (quantity <$> filter (λ x, name x = n) cart).

(** ** The back office: handlers over tables beside the orders *)

(** The store of a handler: its tables and what a [ROLLBACK] keeps of the
    current state (the sequences) when it restores the tables. *)
Class Store (S : Type) := restore_tables : S → S → S.

Inductive pg_error :=
  | syntax_error
  | unique_violation
  | invalid_text_representation.

Inductive result (A : Type) :=
  | Returned (a : A)
  | Threw (e : pg_error).
Global Arguments Returned {A} a.
Global Arguments Threw {A} e.

Record connection (S : Type) := {
  tables : S;
  snapshot : option S }.
Global Arguments tables {S} c.
Global Arguments snapshot {S} c.

Definition Pg (S A : Type) : Type := connection S → result A * connection S.

Global Instance pg_ret {S} : MRet (Pg S) := λ A a c, (Returned a, c).

Global Instance pg_bind {S} : MBind (Pg S) := λ A B k m c,
  match m c with
  | (Returned a, c') => k a c'
  | (Threw e, c') => (Threw e, c')
  end.

Definition pg_try {S A} (body : Pg S A) (handler : pg_error → Pg S A)
    : Pg S A := λ c,
  match body c with
  | (Returned a, c') => (Returned a, c')
  | (Threw e, c') => handler e c'
  end.

Definition pg_BEGIN {S} : Pg S unit := λ c,
  (Returned (),
   {| tables := tables c; snapshot := Some (default (tables c) (snapshot c)) |}).

Definition pg_COMMIT {S} : Pg S unit := λ c,
  (Returned (), {| tables := tables c; snapshot := None |}).

Definition pg_ROLLBACK {S} `{Store S} : Pg S unit := λ c,
  (Returned (),
   match snapshot c with
   | Some before =>
       {| tables := restore_tables before (tables c); snapshot := None |}
   | None => c
   end).

(** A statement: its outcome and the store it leaves, which for a
    statement that is rejected differs from the store before in the
    sequences only. *)
Definition pg_exec {S A} (statement : S → result A * S) : Pg S A := λ c,
  let '(r, s) := statement (tables c) in
  (r, {| tables := s; snapshot := snapshot c |}).

(** The rows of a [SELECT], in the order the server returns them. *)
Definition pg_query {S R} (order_by : list R → list R) (select : S → list R)
    : Pg S (list R) := λ c,
  (Returned (order_by (scan R (select (tables c)))), c).

Fixpoint pg_for_of {S A} (l : list A) (f : A → Pg S unit) : Pg S unit :=
  match l with
  | [] => mret ()
  | x :: l' => f x;; pg_for_of l' f
  end.

(** A handler on a fresh connection. *)
Definition pg_run {S A} (handler : Pg S A) (s : S) : result A * S :=
  let '(r, c) := handler {| tables := s; snapshot := None |} in (r, tables c).

(** A field of a JSON body, for the handlers that tell [null] from a field
    that is absent. *)
Inductive field (A : Type) :=
  | undefined
  | null
  | value (a : A).
Global Arguments undefined {A}.
Global Arguments null {A}.
Global Arguments value {A} a.

(** [x != null]. *)
Definition not_nullish {A} (x : field A) : option A :=
  match x with value a => Some a | _ => None end.

(** [Number(x).toFixed(2)] as the server reads it back: the multiple of
    1/100 nearest to [x], the one larger in magnitude of two. *)
Definition toFixed2 (x : Q) : Q :=
  let floor (y : Q) : Z := Qnum y / Z.pos (Qden y) in
  let round (y : Q) : Q := (inject_Z (floor (y * 100 + (1 # 2))) / 100)%Q in
  if Qlt_le_dec x 0 then (- round (- x))%Q else round x.

(** *** The catalog: inventory and menu *)

(** The ledger with the column [menu.description], which the order core
    never reads, and the sequences behind the keys of [menu] and
    [inventory]. A missing description is NULL. *)
Record catalog := {
  ledger : db;
  menu_description : gmap Z string;
  menu_menu_item_id_seq : Z;
  inventory_inventory_id_seq : Z }.

Global Instance catalog_store : Store catalog := λ before current,
  {| ledger := restore (ledger before) (ledger current);
     menu_description := menu_description before;
     menu_menu_item_id_seq := menu_menu_item_id_seq current;
     inventory_inventory_id_seq := inventory_inventory_id_seq current |}.

Definition with_inventory (c : catalog) (i : gmap Z inventory_row) : catalog :=
  {| ledger :=
       {| inventory := i;
          menu := menu (ledger c);
          menu_ingredients := menu_ingredients (ledger c);
          orders := orders (ledger c);
          order_menu := order_menu (ledger c);
          orders_order_id_seq := orders_order_id_seq (ledger c) |};
     menu_description := menu_description c;
     menu_menu_item_id_seq := menu_menu_item_id_seq c;
     inventory_inventory_id_seq := inventory_inventory_id_seq c |}.

Definition with_inventory_seq (c : catalog) (v : Z) : catalog :=
  {| ledger := ledger c;
     menu_description := menu_description c;
     menu_menu_item_id_seq := menu_menu_item_id_seq c;
     inventory_inventory_id_seq := v |}.

Definition with_menu (c : catalog) (m : gmap Z menu_row)
    (descriptions : gmap Z string) : catalog :=
  {| ledger :=
       {| inventory := inventory (ledger c);
          menu := m;
          menu_ingredients := menu_ingredients (ledger c);
          orders := orders (ledger c);
          order_menu := order_menu (ledger c);
          orders_order_id_seq := orders_order_id_seq (ledger c) |};
     menu_description := descriptions;
     menu_menu_item_id_seq := menu_menu_item_id_seq c;
     inventory_inventory_id_seq := inventory_inventory_id_seq c |}.

Definition with_menu_seq (c : catalog) (v : Z) : catalog :=
  {| ledger := ledger c;
     menu_description := menu_description c;
     menu_menu_item_id_seq := v;
     inventory_inventory_id_seq := inventory_inventory_id_seq c |}.

Definition with_menu_ingredients (c : catalog)
    (mi : list menu_ingredients_row) : catalog :=
  {| ledger :=
       {| inventory := inventory (ledger c);
          menu := menu (ledger c);
          menu_ingredients := mi;
          orders := orders (ledger c);
          order_menu := order_menu (ledger c);
          orders_order_id_seq := orders_order_id_seq (ledger c) |};
     menu_description := menu_description c;
     menu_menu_item_id_seq := menu_menu_item_id_seq c;
     inventory_inventory_id_seq := inventory_inventory_id_seq c |}.

(** *** The pool of connections *)

(** [new Pool({...})] sets no [max] and no timeout: the pool hands out at
    most 10 clients, and a [pool.connect()] that finds them all checked out
    waits for a release. A handler that releases its client in [finally]
    leaves the pool as it found it and is embedded from the point where it
    holds the client. Of the process, beside the store, the number of
    clients that are checked out counts. *)
Definition Pool_max : nat := 10.

Record process := {
  checked_out : nat;
  database : catalog }.

(** What the caller gets: the answer of the handler, or none while the
    handler waits for a client. *)
Inductive reply (R : Type) :=
  | Answered (response : R)
  | NoAnswer.
Global Arguments Answered {R} response.
Global Arguments NoAnswer {R}.

(** [const client = await pool.connect()] and the handler on that client,
    which it releases in the end or does not. *)
Definition pool_connect {R} (release : bool) (handler : Pg catalog R)
    (p : process) : reply (result R) * process :=
  if decide (checked_out p < Pool_max)%nat
  then
    let '(r, c) := pg_run handler (database p) in
    (Answered r,
     {| checked_out := if release then checked_out p else S (checked_out p);
        database := c |})
  else (NoAnswer, p).

(** *** The inventory *)

(** An item as the inventory page holds and sends it; a new item has no
    id. *)
Record InventoryItem := {
  inventory_id : option Z;
  item_name : string;
  stockLevel : Z;
  cost : Q }.

(** *** POST /api/add-inventory *)

Inductive inventory_response :=
  | InventoryCreated (message : string)
  | InventoryError.

(** [INSERT INTO inventory (item_name, stock_level, purchase_price)]: the
    key comes from the sequence. *)
Definition insert_inventory (row : inventory_row) : Pg catalog unit :=
  pg_exec (λ c,
    let key := inventory_inventory_id_seq c + 1 in
    let c := with_inventory_seq c key in
    match inventory (ledger c) !! key with
    | Some _ => (Threw unique_violation, c)
    | None =>
        (Returned (),
         with_inventory c (<[key := row]> (inventory (ledger c))))
    end).

(** The [try] and [catch] of the handler, on the client it holds. *)
Definition add_inventory_try (body : InventoryItem)
    : Pg catalog inventory_response :=
  pg_try
    (pg_BEGIN;;
     insert_inventory
       {| inv_item_name := item_name body;
          inv_stock_level := stockLevel body;
          inv_purchase_price := toFixed2 (cost body) |};;
     pg_COMMIT;;
     mret (InventoryCreated "Successfully add item."))
    (λ error, pg_ROLLBACK;; mret InventoryError).

(** The handler: [pool.connect()], then the [try] and [catch], and no
    [finally]: the client is not released. *)
Definition api_add_inventory (body : InventoryItem)
    : process → reply (result inventory_response) * process :=
  pool_connect false (add_inventory_try body).

(** *** PUT /api/update-inventory *)

(** The body; [None] is a name, stock level or cost that is absent or
    null, and an id that is absent, of which [Number] makes no number. *)
Record inventory_update := {
  iu_id : option Z;
  iu_name : option string;
  iu_stockLevel : option Z;
  iu_cost : option Q }.

(** One [column = $i] of the [SET] list the handler builds. *)
Inductive inventory_assignment :=
  | set_item_name (v : string)
  | set_stock_level (v : Z)
  | set_purchase_price (v : Q).

Definition assign_inventory (row : inventory_row) (a : inventory_assignment)
    : inventory_row :=
  match a with
  | set_item_name v =>
      {| inv_item_name := v; inv_stock_level := inv_stock_level row;
         inv_purchase_price := inv_purchase_price row |}
  | set_stock_level v =>
      {| inv_item_name := inv_item_name row; inv_stock_level := v;
         inv_purchase_price := inv_purchase_price row |}
  | set_purchase_price v =>
      {| inv_item_name := inv_item_name row;
         inv_stock_level := inv_stock_level row; inv_purchase_price := v |}
  end.

(** [UPDATE inventory SET ... WHERE inventory_id = $i]. An empty [SET]
    list does not parse; [Number(id)] of an absent id is NaN, which is no
    integer; an id with no row updates nothing. *)
Definition update_inventory (assignments : list inventory_assignment)
    (id : option Z) : Pg catalog unit :=
  pg_exec (λ c,
    match assignments, id with
    | [], _ => (Threw syntax_error, c)
    | _ :: _, None => (Threw invalid_text_representation, c)
    | _ :: _, Some id =>
        (Returned (),
         with_inventory c
           (alter (λ row, foldl assign_inventory row assignments) id
                  (inventory (ledger c))))
    end).

Definition api_update_inventory (itemToChange : inventory_update)
    : Pg catalog inventory_response :=
  pg_try
    (pg_BEGIN;;
     let updateInventory :=
       (set_item_name <$> option_list (iu_name itemToChange))
       ++ (set_stock_level <$> option_list (iu_stockLevel itemToChange))
       ++ (set_purchase_price
             <$> option_list (toFixed2 <$> iu_cost itemToChange)) in
     update_inventory updateInventory (iu_id itemToChange);;
     pg_COMMIT;;
     mret (InventoryCreated "Successfully update inventory"))
    (λ error, pg_ROLLBACK;; mret InventoryError).

(** *** The inventory form (Inventory.tsx) *)

Global Instance Qlt_decision (x y : Q) : Decision (x < y)%Q.
Proof.
  destruct (Qlt_le_dec x y) as [H|H]; [left; exact H|].
  right. by apply Qle_not_lt.
Defined.

Inductive form_outcome (R : Type) :=
  | Alerted (message : string)
  | Sent (response : R).
Global Arguments Alerted {R} message.
Global Arguments Sent {R} response.

(** [handleSubmit]: the checks of the form, then [updateInventory] for an
    item with an id and [addInventory] for one without; the id is a number,
    and 0 counts as none. The handler of update-inventory releases its
    client. *)
Definition Inventory_handleSubmit (selectedItem : InventoryItem)
    (p : process)
    : form_outcome (reply (result inventory_response)) * process :=
  if bool_decide (item_name selectedItem = "" ∨ stockLevel selectedItem = 0)
  then (Alerted "Please fill out all the required field", p)
  else if bool_decide ((cost selectedItem < 0)%Q ∨ stockLevel selectedItem < 0)
  then (Alerted "Cannot have negative number!", p)
  else
    let updateInventory (id : Z) :=
      pool_connect true
        (api_update_inventory
           {| iu_id := Some id;
              iu_name := Some (item_name selectedItem);
              iu_stockLevel := Some (stockLevel selectedItem);
              iu_cost := Some (cost selectedItem) |}) p in
    let addInventory := api_add_inventory selectedItem p in
    let '(response, p') :=
      match inventory_id selectedItem with
      | Some id => if decide (id = 0) then addInventory else updateInventory id
      | None => addInventory
      end in
    (Sent response, p').

(** *** POST /api/add-menu *)

Record IngredientQuantity := {
  ingredient_id : Z;
  ingredient_name : string;
  ingredient_quantity : Z }.

Record add_menu_body := {
  am_name : string;
  am_price : Q;
  am_category : string;
  am_description : option string;
  am_isActive : bool;
  am_ingredientList : list IngredientQuantity }.

Inductive menu_response :=
  | MenuOk (message : string)
  | MenuError.

(** [INSERT INTO menu (...) VALUES (...) RETURNING menu_item_id]. *)
Definition insert_menu (row : menu_row) (description : option string)
    : Pg catalog Z :=
  pg_exec (λ c,
    let key := menu_menu_item_id_seq c + 1 in
    let c := with_menu_seq c key in
    match menu (ledger c) !! key with
    | Some _ => (Threw unique_violation, c)
    | None =>
        (Returned key,
         with_menu c (<[key := row]> (menu (ledger c)))
           match description with
           | Some text => <[key := text]> (menu_description c)
           | None => delete key (menu_description c)
           end)
    end).

(** [INSERT INTO menu_ingredients (menu_item_id, inventory_id,
    quantity_needed)]. *)
Definition insert_menu_ingredients (row : menu_ingredients_row)
    : Pg catalog unit :=
  pg_exec (λ c,
    (Returned (),
     with_menu_ingredients c (menu_ingredients (ledger c) ++ [row]))).

(** The description [add-menu] inserts: none when [!description], which
    holds of a description that is absent, null or empty. *)
Definition truthy_text (description : option string) : option string :=
  match description with
  | Some text => if decide (text = "") then None else Some text
  | None => None
  end.

Definition api_add_menu (body : add_menu_body) : Pg catalog menu_response :=
  pg_try
    (pg_BEGIN;;
     itemId ← insert_menu
       {| menu_item_name := am_name body;
          sales_price := am_price body;
          menu_category := am_category body;
          is_active := am_isActive body |}
       (truthy_text (am_description body));
     pg_for_of (am_ingredientList body) (λ ingredient,
       if bool_decide (0 < ingredient_quantity ingredient)
       then insert_menu_ingredients
              {| mi_menu_item_id := itemId;
                 mi_inventory_id := ingredient_id ingredient;
                 mi_quantity_needed := ingredient_quantity ingredient |}
       else mret ());;
     pg_COMMIT;;
     mret (MenuOk "Menu item and ingredients added successfully"))
    (λ error, pg_ROLLBACK;; mret MenuError).

(** *** PUT /api/update-menu *)

(** The body; [None] is a name, price or category that is absent or null,
    and an id that is absent. The description and the active flag are
    tested against [undefined] only. *)
Record update_menu_body := {
  um_id : option Z;
  um_name : option string;
  um_price : option Q;
  um_category : option string;
  um_description : field string;
  um_isActive : field bool;
  um_ingredientList : list IngredientQuantity }.

Inductive menu_assignment :=
  | set_menu_item_name (v : string)
  | set_sales_price (v : Q)
  | set_menu_category (v : string)
  | set_description (v : string)
  | set_is_active (v : bool).

Definition assign_menu (row : menu_row * option string) (a : menu_assignment)
    : menu_row * option string :=
  match a with
  | set_menu_item_name v =>
      ({| menu_item_name := v; sales_price := sales_price row.1;
          menu_category := menu_category row.1;
          is_active := is_active row.1 |}, row.2)
  | set_sales_price v =>
      ({| menu_item_name := menu_item_name row.1; sales_price := v;
          menu_category := menu_category row.1;
          is_active := is_active row.1 |}, row.2)
  | set_menu_category v =>
      ({| menu_item_name := menu_item_name row.1;
          sales_price := sales_price row.1; menu_category := v;
          is_active := is_active row.1 |}, row.2)
  | set_description v => (row.1, Some v)
  | set_is_active v =>
      ({| menu_item_name := menu_item_name row.1;
          sales_price := sales_price row.1;
          menu_category := menu_category row.1; is_active := v |}, row.2)
  end.

(** [String(x)] and [Boolean(x)] of a field that is not undefined. *)
Definition String_of (x : field string) : option string :=
  match x with
  | undefined => None
  | null => Some "null"
  | value text => Some text
  end.

Definition Boolean_of (x : field bool) : option bool :=
  match x with
  | undefined => None
  | null => Some false
  | value b => Some b
  end.

(** The catalog after the assignments to the row of an id. *)
Definition updated_menu (assignments : list menu_assignment) (id : Z)
    (c : catalog) : catalog :=
  match menu (ledger c) !! id with
  | None => c
  | Some row =>
      let updated :=
        foldl assign_menu (row, menu_description c !! id) assignments in
      with_menu c (<[id := updated.1]> (menu (ledger c)))
        match updated.2 with
        | Some text => <[id := text]> (menu_description c)
        | None => delete id (menu_description c)
        end
  end.

(** [UPDATE menu SET ... WHERE menu_item_id = $i]. *)
Definition update_menu (assignments : list menu_assignment) (id : option Z)
    : Pg catalog unit :=
  pg_exec (λ c,
    match assignments, id with
    | [], _ => (Threw syntax_error, c)
    | _ :: _, None => (Threw invalid_text_representation, c)
    | _ :: _, Some id => (Returned (), updated_menu assignments id c)
    end).

(** [DELETE FROM menu_ingredients WHERE menu_item_id = $1]. *)
Definition delete_menu_ingredients (id : option Z) : Pg catalog unit :=
  pg_exec (λ c,
    (Returned (),
     with_menu_ingredients c
       (filter (λ mi, Some (mi_menu_item_id mi) ≠ id)
               (menu_ingredients (ledger c))))).

Definition api_update_menu (menuToChange : update_menu_body)
    : Pg catalog menu_response :=
  pg_try
    (pg_BEGIN;;
     let updateMenu :=
       (set_menu_item_name <$> option_list (um_name menuToChange))
       ++ (set_sales_price <$> option_list (toFixed2 <$> um_price menuToChange))
       ++ (set_menu_category <$> option_list (um_category menuToChange))
       ++ (set_description
             <$> option_list (String_of (um_description menuToChange)))
       ++ (set_is_active
             <$> option_list (Boolean_of (um_isActive menuToChange))) in
     update_menu updateMenu (um_id menuToChange);;
     (if bool_decide (0 < length (um_ingredientList menuToChange))%nat
      then
        delete_menu_ingredients (um_id menuToChange);;
        pg_for_of (um_ingredientList menuToChange) (λ ingredient,
          if bool_decide (ingredient_quantity ingredient = 0)
          then mret ()
          else
            match um_id menuToChange with
            | Some id =>
                insert_menu_ingredients
                  {| mi_menu_item_id := id;
                     mi_inventory_id := ingredient_id ingredient;
                     mi_quantity_needed := ingredient_quantity ingredient |}
            | None => pg_exec (λ c, (Threw invalid_text_representation, c))
            end)
      else mret ());;
     pg_COMMIT;;
     mret (MenuOk "Successfully updated menu item and ingredients"))
    (λ error, pg_ROLLBACK;; mret MenuError).

(** *** GET /api/all-items *)

Record all_items_row := {
  ai_menu_item_id : Z;
  ai_menu_item_name : string;
  ai_sales_price : Q;
  ai_menu_category : string;
  ai_description : option string;
  ai_is_active : bool;
  ai_inventory_id : option Z;
  ai_item_name : option string;
  ai_quantity_needed : option Z }.

(** The rows of one menu row in [FROM menu m LEFT JOIN menu_ingredients mi
    ON m.menu_item_id = mi.menu_item_id LEFT JOIN inventory i ON
    mi.inventory_id = i.inventory_id]. *)
Definition all_items_rows_of (c : catalog) (m : Z * menu_row)
    : list all_items_row :=
  mi ← left_join (filter (λ mi, mi_menu_item_id mi = m.1)
                         (menu_ingredients (ledger c)));
  let i :=
    mi ≫= λ mi, (λ row, (mi_inventory_id mi, row))
                  <$> inventory (ledger c) !! mi_inventory_id mi in
  [ {| ai_menu_item_id := m.1;
       ai_menu_item_name := menu_item_name m.2;
       ai_sales_price := sales_price m.2;
       ai_menu_category := menu_category m.2;
       ai_description := menu_description c !! m.1;
       ai_is_active := is_active m.2;
       ai_inventory_id := fst <$> i;
       ai_item_name := (λ i, inv_item_name i.2) <$> i;
       ai_quantity_needed := mi_quantity_needed <$> mi |} ].

Definition all_items_select (c : catalog) : list all_items_row :=
  m ← map_to_list (menu (ledger c)); all_items_rows_of c m.

Record ingredient_json := {
  ing_id : Z;
  ing_name : option string;
  quantity_used : option Z }.

Record menu_item_json := {
  mj_id : Z;
  mj_name : string;
  mj_price : Q;
  mj_category : string;
  mj_description : option string;
  mj_isActive : bool;
  mj_ingredients : list ingredient_json }.

Definition push_ingredient_json (x : ingredient_json) (item : menu_item_json)
    : menu_item_json :=
  {| mj_id := mj_id item; mj_name := mj_name item; mj_price := mj_price item;
     mj_category := mj_category item; mj_description := mj_description item;
     mj_isActive := mj_isActive item;
     mj_ingredients := mj_ingredients item ++ [x] |}.

(** The body of [query_res.rows.forEach((row) => ...)]. [if
    (row.inventory_id)] passes over NULL and over 0. *)
Definition all_items_add_row (itemsMap : list (Z * menu_item_json))
    (row : all_items_row) : list (Z * menu_item_json) :=
  let itemsMap :=
    match JsMap.get (ai_menu_item_id row) itemsMap with
    | Some _ => itemsMap
    | None =>
        JsMap.set (ai_menu_item_id row)
          {| mj_id := ai_menu_item_id row;
             mj_name := ai_menu_item_name row;
             mj_price := ai_sales_price row;
             mj_category := ai_menu_category row;
             mj_description := ai_description row;
             mj_isActive := ai_is_active row;
             mj_ingredients := [] |}
          itemsMap
    end in
  match ai_inventory_id row, JsMap.get (ai_menu_item_id row) itemsMap with
  | Some inventory_id, Some item =>
      if decide (inventory_id = 0) then itemsMap
      else
        JsMap.set (ai_menu_item_id row)
          (push_ingredient_json
             {| ing_id := inventory_id;
                ing_name := ai_item_name row;
                quantity_used := ai_quantity_needed row |} item)
          itemsMap
  | _, _ => itemsMap
  end.

Inductive listing (A : Type) :=
  | Listed (items : list A)
  | ListingError.
Global Arguments Listed {A} items.
Global Arguments ListingError {A}.

Definition api_all_items : Pg catalog (listing menu_item_json) :=
  pg_try
    (query_res ← pg_query (λ l, l) all_items_select;
     let itemsMap := foldl all_items_add_row [] query_res in
     mret (Listed (JsMap.values itemsMap)))
    (λ error, mret ListingError).

(** *** GET /api/active-items *)

Definition api_active_items : Pg catalog (listing MenuItem) :=
  pg_try
    (query_res ←
       pg_query (λ l, l)
         (λ c, filter (λ m : Z * menu_row, is_active m.2 = true)
                 (map_to_list (menu (ledger c))));
     mret (Listed ((λ row : Z * menu_row,
                      {| m_id := row.1; m_name := menu_item_name row.2;
                         m_price := sales_price row.2;
                         m_category := menu_category row.2 |})
                     <$> query_res)))
    (λ error, mret ListingError).

(** *** The menu form (MenuAdjust) *)

(** [selectedItem]; the id is a string, empty for a new item ([None]) and
    the text of the key for an item of the menu. *)
Record MenuAdjust_item := {
  sel_id : option Z;
  sel_name : string;
  sel_price : Q;
  sel_category : string;
  sel_description : string;
  sel_isActive : bool;
  sel_ingredientList : list IngredientQuantity }.

Definition with_ingredient_quantity (q : Z) (x : IngredientQuantity)
    : IngredientQuantity :=
  {| ingredient_id := ingredient_id x; ingredient_name := ingredient_name x;
     ingredient_quantity := q |}.

(** [handleIngredientChange(ingredientId, change)], on the list of the
    item. *)
Definition MenuAdjust_handleIngredientChange (ingredientId change : Z)
    (ingredientList : list IngredientQuantity) : list IngredientQuantity :=
  (λ ingredient,
     if decide (ingredient_id ingredient = ingredientId)
     then with_ingredient_quantity
            (Z.max 0 (ingredient_quantity ingredient + change)) ingredient
     else ingredient) <$> ingredientList.

(** [handleItemClick(item)]: every ingredient of the inventory, with the
    quantity the item has for it, or 0. *)
Definition MenuAdjust_handleItemClick (ingredientList : list (Z * string))
    (item : list IngredientQuantity) : list IngredientQuantity :=
  (λ ingredient : Z * string,
     {| ingredient_id := ingredient.1; ingredient_name := ingredient.2;
        ingredient_quantity :=
          match list_find (λ i, ingredient_id i = ingredient.1) item with
          | Some (_, matchingIngredient) =>
              ingredient_quantity matchingIngredient
          | None => 0
          end |}) <$> ingredientList.

(** [toLowerCase], on the letters A to Z. *)
Definition ascii_toLowerCase (a : Ascii.ascii) : Ascii.ascii :=
  let n := Ascii.nat_of_ascii a in
  if bool_decide (65 ≤ n ≤ 90)%nat then Ascii.ascii_of_nat (n + 32) else a.

Fixpoint toLowerCase (s : string) : string :=
  match s with
  | EmptyString => EmptyString
  | String a s' => String (ascii_toLowerCase a) (toLowerCase s')
  end.

Definition validCategories : list string := ["entree"; "drink"; "side"; "extra"].

(** [handleSubmit]: the checks of the form, then [editMenu] for an item
    with an id and [addMenu] for one without; the text of any key, that of
    0 included, is an id. *)
Definition MenuAdjust_handleSubmit (selectedItem : MenuAdjust_item)
    : Pg catalog (form_outcome menu_response) :=
  if bool_decide (sel_name selectedItem = "" ∨ sel_category selectedItem = "")
  then mret (Alerted "Please fill in all required fields")
  else if bool_decide (sel_price selectedItem < 0)%Q
  then mret (Alerted "Number cannot be negative!")
  else
    let category := toLowerCase (sel_category selectedItem) in
    if bool_decide (category ∉ validCategories)
    then mret (Alerted "Invalid category. Please enter one of the following categories: Entree, Drink, Side, Extra.")
    else
      let editMenu (id : Z) : Pg catalog (form_outcome menu_response) :=
        response ← api_update_menu
          {| um_id := Some id;
             um_name := Some (sel_name selectedItem);
             um_price := Some (sel_price selectedItem);
             um_category := Some category;
             um_description := value (sel_description selectedItem);
             um_isActive := value (sel_isActive selectedItem);
             um_ingredientList := sel_ingredientList selectedItem |};
        mret (Sent response) in
      let addMenu : Pg catalog (form_outcome menu_response) :=
        response ← api_add_menu
          {| am_name := sel_name selectedItem;
             am_price := sel_price selectedItem;
             am_category := category;
             am_description := Some (sel_description selectedItem);
             am_isActive := sel_isActive selectedItem;
             am_ingredientList := sel_ingredientList selectedItem |};
        mret (Sent response) in
      match sel_id selectedItem with
      | Some id => editMenu id
      | None => addMenu
      end.

(** Every recipe row asks for a positive quantity. *)
Definition recipe_positive (d : db) : Prop :=
  ∀ mi, mi ∈ menu_ingredients d → 0 < mi_quantity_needed mi.

(** No stock level and no price of the inventory is negative. *)
Definition inventory_nonneg (d : db) : Prop :=
  ∀ i row, inventory d !! i = Some row →
    0 ≤ inv_stock_level row ∧ (0 <= inv_purchase_price row)%Q.

(** The recipe of a menu item. *)
Definition recipe (d : db) (k : Z) : list menu_ingredients_row :=
  filter (λ mi, mi_menu_item_id mi = k) (menu_ingredients d).

(** The recipe rows a list of the form stands for, under a rule for the
    quantities that count. *)
Definition recipe_rows (k : Z) (keep : Z → bool) (l : list IngredientQuantity)
    : list menu_ingredients_row :=
  (λ ingredient,
     {| mi_menu_item_id := k;
        mi_inventory_id := ingredient_id ingredient;
        mi_quantity_needed := ingredient_quantity ingredient |})
    <$> filter (λ ingredient, keep (ingredient_quantity ingredient) = true) l.

(** The sequences of the catalog have reached every key of their tables. *)
Definition catalog_seq_ahead (c : catalog) : Prop :=
  (∀ k row, inventory (ledger c) !! k = Some row →
     k ≤ inventory_inventory_id_seq c)
  ∧ (∀ k row, menu (ledger c) !! k = Some row → k ≤ menu_menu_item_id_seq c).

(** The [SET] list [update-menu] builds from a body. *)
Definition menu_assignments (menuToChange : update_menu_body)
    : list menu_assignment :=
  (set_menu_item_name <$> option_list (um_name menuToChange))
  ++ (set_sales_price <$> option_list (toFixed2 <$> um_price menuToChange))
  ++ (set_menu_category <$> option_list (um_category menuToChange))
  ++ (set_description
        <$> option_list (String_of (um_description menuToChange)))
  ++ (set_is_active <$> option_list (Boolean_of (um_isActive menuToChange))).

(** The menu row the form's values make. *)
Definition form_menu_row (n : string) (p : Q) (cat : string) (b : bool)
    : menu_row :=
  {| menu_item_name := n; sales_price := p; menu_category := cat;
     is_active := b |}.

(** Every menu row has a name, a price of zero or more and one of the four
    categories. *)
Definition menu_ok (d : db) : Prop :=
  ∀ k m, menu d !! k = Some m →
    menu_item_name m ≠ "" ∧ (0 <= sales_price m)%Q
    ∧ menu_category m ∈ validCategories.

(** The [SET] list of a body of the menu form. *)
Definition form_assignments (n : string) (p : Q) (cat desc : string)
    (b : bool) : list menu_assignment :=
  [set_menu_item_name n; set_sales_price (toFixed2 p); set_menu_category cat;
   set_description desc; set_is_active b].

(** What a row of all-items adds to the ingredients of its menu item. *)
Definition ingredient_of_row (row : all_items_row) : list ingredient_json :=
  match ai_inventory_id row with
  | Some inventory_id =>
      if decide (inventory_id = 0) then []
      else [ {| ing_id := inventory_id; ing_name := ai_item_name row;
                quantity_used := ai_quantity_needed row |} ]
  | None => []
  end.

(** The entry a row of all-items opens for its menu item. *)
Definition item_of_row (row : all_items_row)
    (ingredients : list ingredient_json) : menu_item_json :=
  {| mj_id := ai_menu_item_id row;
     mj_name := ai_menu_item_name row;
     mj_price := ai_sales_price row;
     mj_category := ai_menu_category row;
     mj_description := ai_description row;
     mj_isActive := ai_is_active row;
     mj_ingredients := ingredients |}.

(** What all-items lists of the recipe of a menu item: the recipe rows
    whose inventory row exists under an id that is not 0. *)
Definition listed_ingredients (c : catalog) (k : Z) : list ingredient_json :=
  mi ← recipe (ledger c) k;
  match inventory (ledger c) !! mi_inventory_id mi with
  | Some i =>
      if decide (mi_inventory_id mi = 0) then []
      else [ {| ing_id := mi_inventory_id mi;
                ing_name := Some (inv_item_name i);
                quantity_used := Some (mi_quantity_needed mi) |} ]
  | None => []
  end.

(** What active-items answers with. *)
Definition active_items (c : catalog) : list MenuItem :=
  (λ row : Z * menu_row,
     {| m_id := row.1; m_name := menu_item_name row.2;
        m_price := sales_price row.2; m_category := menu_category row.2 |})
    <$> scan (Z * menu_row)
          (filter (λ m : Z * menu_row, is_active m.2 = true)
                  (map_to_list (menu (ledger c)))).


(** *** Staff: the table [employees] *)

(** The columns the handlers name; a text column may be NULL. *)
Record employees_row := {
  emp_first_name : option string;
  emp_last_name : option string;
  emp_username : option string;
  emp_password_hash : option string;
  emp_is_manager : bool;
  emp_is_active : bool;
  emp_is_employee : bool }.

Record staff := {
  employees : gmap Z employees_row;
  employees_employee_id_seq : Z }.

Global Instance staff_store : Store staff := λ before current,
  {| employees := employees before;
     employees_employee_id_seq := employees_employee_id_seq current |}.

(** [String(x)], [Boolean(x)] and [Number(x)] of a field of a body;
    [Number(undefined)] is NaN, which is no number. *)
Definition String_js (x : field string) : string :=
  match x with
  | undefined => "undefined"
  | null => "null"
  | value text => text
  end.

Definition Boolean_js (x : field bool) : bool :=
  match x with
  | value b => b
  | _ => false
  end.

Definition Number_js (x : field Z) : option Z :=
  match x with
  | undefined => None
  | null => Some 0
  | value n => Some n
  end.

(** A column as JSON carries it. *)
Definition json_of_column (x : option string) : field string :=
  match x with
  | Some text => value text
  | None => null
  end.

(** [INSERT INTO employees (...)]: the key comes from the sequence, and is
    what [RETURNING employee_id] gives. *)
Definition insert_employees (row : employees_row) : Pg staff Z :=
  pg_exec (λ s,
    let key := employees_employee_id_seq s + 1 in
    match employees s !! key with
    | Some _ =>
        (Threw unique_violation,
         {| employees := employees s; employees_employee_id_seq := key |})
    | None =>
        (Returned key,
         {| employees := <[key := row]> (employees s);
            employees_employee_id_seq := key |})
    end).

(** *** POST /api/login *)

Record login_body := {
  lb_username : field string;
  lb_password : field string }.

Record login_json := {
  lj_id : Z;
  lj_firstName : option string;
  lj_isEmployee : bool;
  lj_isManager : bool }.

Inductive login_response :=
  | LoginOk (employee : login_json)
  | InvalidCredentials
  | LoginError.

(** [WHERE username = $1 AND password_hash = $2 AND is_active = true]; a
    column that is NULL equals nothing. *)
Definition login_match (u p : string) (row : employees_row) : Prop :=
  emp_username row = Some u ∧ emp_password_hash row = Some p
  ∧ emp_is_active row = true.

Global Instance login_match_dec u p row : Decision (login_match u p row).
Proof. unfold login_match. apply _. Defined.

Definition api_login (body : login_body) : Pg staff login_response :=
  pg_try
    (result ← pg_query (λ l, l)
       (λ s, filter (λ e : Z * employees_row,
                       login_match (String_js (lb_username body))
                                   (String_js (lb_password body)) e.2)
                    (map_to_list (employees s)));
     match result with
     | employee :: _ =>
         mret (LoginOk {| lj_id := employee.1;
                          lj_firstName := emp_first_name employee.2;
                          lj_isEmployee := true;
                          lj_isManager := emp_is_manager employee.2 |})
     | [] => mret InvalidCredentials
     end)
    (λ error, mret LoginError).

(** *** POST /api/google-login *)

(** What [tokeninfo] answers for a token that it accepts. *)
Record google_user := {
  email : field string;
  given_name : field string;
  family_name : field string }.

(** The request to [tokeninfo]: it fails (or its body does not parse), it
    is answered with a status that is not ok, or it verifies the token. *)
Inductive tokeninfo_result :=
  | FetchFailed
  | NotOk
  | Verified (googleUser : google_user).

Record employee_json := {
  ej_id : Z;
  ej_firstName : field string;
  ej_lastName : field string;
  ej_isEmployee : bool;
  ej_isManager : bool }.

Inductive google_response :=
  | GoogleOk (employeeData : employee_json)
  | MissingToken
  | InvalidToken
  | DatabaseError
  | InternalServerError.

(** [WHERE username = $1 AND is_active = true]; a parameter that is
    undefined or null is NULL. *)
Definition google_match (username : option string) (row : employees_row)
    : Prop :=
  is_Some username ∧ emp_username row = username ∧ emp_is_active row = true.

Global Instance google_match_dec u row : Decision (google_match u row).
Proof. unfold google_match. apply _. Defined.

Definition api_google_login (tokeninfo : string → tokeninfo_result)
    (token : option string) : Pg staff google_response :=
  match token with
  | None | Some "" => mret MissingToken
  | Some token =>
      match tokeninfo token with
      | FetchFailed => mret InternalServerError
      | NotOk => mret InvalidToken
      | Verified googleUser =>
          pg_try
            (result ← pg_query (λ l, l)
               (λ s, filter (λ e : Z * employees_row,
                               google_match (not_nullish (email googleUser))
                                            e.2)
                            (map_to_list (employees s)));
             match result with
             | employee :: _ =>
                 mret (GoogleOk
                         {| ej_id := employee.1;
                            ej_firstName :=
                              json_of_column (emp_first_name employee.2);
                            ej_lastName :=
                              json_of_column (emp_last_name employee.2);
                            ej_isEmployee := emp_is_employee employee.2;
                            ej_isManager := emp_is_manager employee.2 |})
             | [] =>
                 employee_id ← insert_employees
                   {| emp_first_name := not_nullish (given_name googleUser);
                      emp_last_name := not_nullish (family_name googleUser);
                      emp_username := not_nullish (email googleUser);
                      emp_password_hash := None;
                      emp_is_manager := false;
                      emp_is_active := true;
                      emp_is_employee := false |};
                 mret (GoogleOk
                         {| ej_id := employee_id;
                            ej_firstName := given_name googleUser;
                            ej_lastName := family_name googleUser;
                            ej_isEmployee := false;
                            ej_isManager := false |})
             end)
            (λ error, mret DatabaseError)
      end
  end.

(** *** GET /api/employees *)

Record staff_json := {
  sj_id : Z;
  sj_firstName : option string;
  sj_lastName : option string;
  sj_username : option string;
  sj_isManager : bool;
  sj_isActive : bool }.

Definition staff_json_of (row : Z * employees_row) : staff_json :=
  {| sj_id := row.1;
     sj_firstName := emp_first_name row.2;
     sj_lastName := emp_last_name row.2;
     sj_username := emp_username row.2;
     sj_isManager := emp_is_manager row.2;
     sj_isActive := emp_is_active row.2 |}.

Definition api_employees : Pg staff (list staff_json) :=
  query_res ← pg_query (λ l, l)
    (λ s, filter (λ e : Z * employees_row, emp_is_employee e.2 = true)
                 (map_to_list (employees s)));
  mret (staff_json_of <$> query_res).

(** *** POST /api/add-employee *)

Record add_employee_body := {
  ae_firstName : field string;
  ae_lastName : field string;
  ae_username : field string;
  ae_password : field string;
  ae_isManager : field bool;
  ae_isActive : field bool }.

Inductive employee_response :=
  | EmployeeCreated (message : string)
  | EmployeeError.

Definition added_employee (employee : add_employee_body) : employees_row :=
  {| emp_first_name := Some (String_js (ae_firstName employee));
     emp_last_name := Some (String_js (ae_lastName employee));
     emp_username := Some (String_js (ae_username employee));
     emp_password_hash := Some (String_js (ae_password employee));
     emp_is_manager := Boolean_js (ae_isManager employee);
     emp_is_active := Boolean_js (ae_isActive employee);
     emp_is_employee := true |}.

Definition api_add_employee (employee : add_employee_body)
    : Pg staff employee_response :=
  pg_try
    (pg_BEGIN;;
     insert_employees (added_employee employee);;
     pg_COMMIT;;
     mret (EmployeeCreated "Successfully add employee."))
    (λ error, pg_ROLLBACK;; mret EmployeeError).

(** *** PUT /api/update-employee *)

Record update_employee_body := {
  ue_id : field Z;
  ue_firstName : field string;
  ue_lastName : field string;
  ue_username : field string;
  ue_password : field string;
  ue_isManager : field bool;
  ue_isActive : field bool }.

Inductive employees_assignment :=
  | set_first_name (v : string)
  | set_last_name (v : string)
  | set_username (v : string)
  | set_password_hash (v : string)
  | set_is_manager (v : bool)
  | set_employee_is_active (v : bool).

Definition assign_employees (row : employees_row) (a : employees_assignment)
    : employees_row :=
  match a with
  | set_first_name v =>
      {| emp_first_name := Some v; emp_last_name := emp_last_name row;
         emp_username := emp_username row;
         emp_password_hash := emp_password_hash row;
         emp_is_manager := emp_is_manager row;
         emp_is_active := emp_is_active row;
         emp_is_employee := emp_is_employee row |}
  | set_last_name v =>
      {| emp_first_name := emp_first_name row; emp_last_name := Some v;
         emp_username := emp_username row;
         emp_password_hash := emp_password_hash row;
         emp_is_manager := emp_is_manager row;
         emp_is_active := emp_is_active row;
         emp_is_employee := emp_is_employee row |}
  | set_username v =>
      {| emp_first_name := emp_first_name row;
         emp_last_name := emp_last_name row; emp_username := Some v;
         emp_password_hash := emp_password_hash row;
         emp_is_manager := emp_is_manager row;
         emp_is_active := emp_is_active row;
         emp_is_employee := emp_is_employee row |}
  | set_password_hash v =>
      {| emp_first_name := emp_first_name row;
         emp_last_name := emp_last_name row;
         emp_username := emp_username row; emp_password_hash := Some v;
         emp_is_manager := emp_is_manager row;
         emp_is_active := emp_is_active row;
         emp_is_employee := emp_is_employee row |}
  | set_is_manager v =>
      {| emp_first_name := emp_first_name row;
         emp_last_name := emp_last_name row;
         emp_username := emp_username row;
         emp_password_hash := emp_password_hash row; emp_is_manager := v;
         emp_is_active := emp_is_active row;
         emp_is_employee := emp_is_employee row |}
  | set_employee_is_active v =>
      {| emp_first_name := emp_first_name row;
         emp_last_name := emp_last_name row;
         emp_username := emp_username row;
         emp_password_hash := emp_password_hash row;
         emp_is_manager := emp_is_manager row; emp_is_active := v;
         emp_is_employee := emp_is_employee row |}
  end.

(** The [SET] list the handler builds: a field that is undefined or null
    is passed over. *)
Definition employees_assignments (employee : update_employee_body)
    : list employees_assignment :=
  (set_first_name <$> option_list (not_nullish (ue_firstName employee)))
  ++ (set_last_name <$> option_list (not_nullish (ue_lastName employee)))
  ++ (set_username <$> option_list (not_nullish (ue_username employee)))
  ++ (set_password_hash <$> option_list (not_nullish (ue_password employee)))
  ++ (set_is_manager <$> option_list (not_nullish (ue_isManager employee)))
  ++ (set_employee_is_active
        <$> option_list (not_nullish (ue_isActive employee))).

(** [UPDATE employees SET ... WHERE employee_id = $i]. *)
Definition update_employees (assignments : list employees_assignment)
    (id : option Z) : Pg staff unit :=
  pg_exec (λ s,
    match assignments, id with
    | [], _ => (Threw syntax_error, s)
    | _ :: _, None => (Threw invalid_text_representation, s)
    | _ :: _, Some id =>
        (Returned (),
         {| employees :=
              alter (λ row, foldl assign_employees row assignments) id
                    (employees s);
            employees_employee_id_seq := employees_employee_id_seq s |})
    end).

Definition api_update_employee (employee : update_employee_body)
    : Pg staff employee_response :=
  pg_try
    (pg_BEGIN;;
     update_employees (employees_assignments employee)
       (Number_js (ue_id employee));;
     pg_COMMIT;;
     mret (EmployeeCreated "Successfully update employee"))
    (λ error, pg_ROLLBACK;; mret EmployeeError).

(** *** The employee page (Employee.tsx) *)

(** An entry of the list as the page holds it: [/api/employees] sends no
    password, so that field is undefined until it is typed. *)
Record Employee := {
  e_password : field string;
  e_id : Z;
  e_firstName : field string;
  e_lastName : field string;
  e_username : field string;
  e_isManager : bool;
  e_isActive : bool }.

(** [setSelectedEmployee(user)] on a row of the table. *)
Definition Employee_select (user : staff_json) : option Employee :=
  Some {| e_password := undefined;
          e_id := sj_id user;
          e_firstName := json_of_column (sj_firstName user);
          e_lastName := json_of_column (sj_lastName user);
          e_username := json_of_column (sj_username user);
          e_isManager := sj_isManager user;
          e_isActive := sj_isActive user |}.

(** A change event of one of the six controls of the edit form. *)
Inductive edit_change :=
  | change_firstName (value : string)
  | change_lastName (value : string)
  | change_username (value : string)
  | change_password (value : string)
  | change_isManager (checked : bool)
  | change_isActive (checked : bool).

Definition Employee_handleEditChange (e : edit_change)
    (selectedEmployee : option Employee) : option Employee :=
  match selectedEmployee with
  | None => None
  | Some employee =>
      Some
        match e with
        | change_firstName v =>
            {| e_password := e_password employee; e_id := e_id employee;
               e_firstName := value v; e_lastName := e_lastName employee;
               e_username := e_username employee;
               e_isManager := e_isManager employee;
               e_isActive := e_isActive employee |}
        | change_lastName v =>
            {| e_password := e_password employee; e_id := e_id employee;
               e_firstName := e_firstName employee; e_lastName := value v;
               e_username := e_username employee;
               e_isManager := e_isManager employee;
               e_isActive := e_isActive employee |}
        | change_username v =>
            {| e_password := e_password employee; e_id := e_id employee;
               e_firstName := e_firstName employee;
               e_lastName := e_lastName employee; e_username := value v;
               e_isManager := e_isManager employee;
               e_isActive := e_isActive employee |}
        | change_password v =>
            {| e_password := value v; e_id := e_id employee;
               e_firstName := e_firstName employee;
               e_lastName := e_lastName employee;
               e_username := e_username employee;
               e_isManager := e_isManager employee;
               e_isActive := e_isActive employee |}
        | change_isManager checked =>
            {| e_password := e_password employee; e_id := e_id employee;
               e_firstName := e_firstName employee;
               e_lastName := e_lastName employee;
               e_username := e_username employee; e_isManager := checked;
               e_isActive := e_isActive employee |}
        | change_isActive checked =>
            {| e_password := e_password employee; e_id := e_id employee;
               e_firstName := e_firstName employee;
               e_lastName := e_lastName employee;
               e_username := e_username employee;
               e_isManager := e_isManager employee; e_isActive := checked |}
        end
  end.

(** [JSON.stringify(selectedEmployee)] as the server parses it: a field
    that is undefined is left out. *)
Definition Employee_body (employee : Employee) : update_employee_body :=
  {| ue_id := value (e_id employee);
     ue_firstName := e_firstName employee;
     ue_lastName := e_lastName employee;
     ue_username := e_username employee;
     ue_password := e_password employee;
     ue_isManager := value (e_isManager employee);
     ue_isActive := value (e_isActive employee) |}.

(** [handleEditEmployee]: nothing is sent when no employee is selected. *)
Definition Employee_handleEditEmployee (selectedEmployee : option Employee)
    : Pg staff (option employee_response) :=
  match selectedEmployee with
  | None => mret None
  | Some employee =>
      response ← api_update_employee (Employee_body employee);
      mret (Some response)
  end.

(** The sequence of [employees] has reached every key of the table. *)
Definition staff_seq_ahead (s : staff) : Prop :=
  ∀ k row, employees s !! k = Some row → k ≤ employees_employee_id_seq s.

(** ** Further samples *)

(** A sufficient condition for [lane_in_order] that can be computed. *)
Definition lane_check (d : db) : Prop :=
  map_Forall (λ k _, k ≤ orders_order_id_seq d) (orders d)
  ∧ (length (select_orders_where building d) ≤ 1)%nat
  ∧ Forall (λ kw, Exists (λ kb, kb < kw) (ids_of building d))
           (ids_of waiting d)
  ∧ Forall (λ kc, Forall (λ k, kc < k)
                         (ids_of building d ++ ids_of waiting d))
           (ids_of complete d).

Global Instance lane_check_dec d : Decision (lane_check d).
Proof. unfold lane_check. apply _. Defined.

(** Order 1 building, orders 2 and 3 waiting behind it. *)
Definition db_queue : db :=
  db_lane [(1, building); (2, waiting); (3, waiting)].

(** Two units of one item, a negative quantity typed, a second item, and a
    removal past the end. *)
Definition sample_actions : list cart_action :=
  [ AddItem {| m_id := 7; m_name := "Entree-X"; m_price := Number_of_Z 10;
               m_category := "entree" |};
    AddItem {| m_id := 7; m_name := "Entree-X"; m_price := Number_of_Z 10;
               m_category := "entree" |};
    SetQuantity 0 (-3);
    AddItem {| m_id := 8; m_name := "Side-Z"; m_price := Number_of_Z 4;
               m_category := "side" |};
    RemoveItem 5 ].

(** The catalog of the sample ledger: Entree-X under key 7, Ingredient-Y
    under key 1, and both sequences at the last key. *)
Definition sample_catalog : catalog :=
  {| ledger := db_stock 4;
     menu_description := ∅;
     menu_menu_item_id_seq := 7;
     inventory_inventory_id_seq := 1 |}.

(** A process that has leaked no client, and one that has leaked them
    all. *)
Definition sample_process (leaked : nat) : process :=
  {| checked_out := leaked; database := sample_catalog |}.

(** A new drink that needs one unit of Ingredient-Y and none of a second
    ingredient. *)
Definition sample_add_menu : add_menu_body :=
  {| am_name := "Drink-W"; am_price := 2; am_category := "drink";
     am_description := None; am_isActive := true;
     am_ingredientList :=
       [ {| ingredient_id := 1; ingredient_name := "typed name";
            ingredient_quantity := 1 |};
         {| ingredient_id := 2; ingredient_name := "Ingredient-V";
            ingredient_quantity := 0 |} ] |}.

(** Entree-X switched off, with a negative quantity in its recipe. *)
Definition sample_update_menu : update_menu_body :=
  {| um_id := Some 7; um_name := None; um_price := None; um_category := None;
     um_description := undefined; um_isActive := value false;
     um_ingredientList :=
       [ {| ingredient_id := 1; ingredient_name := "Ingredient-Y";
            ingredient_quantity := -1 |} ] |}.

(** The form of a new item, its category typed with a capital. *)
Definition sample_form : MenuAdjust_item :=
  {| sel_id := None; sel_name := "Side-Z"; sel_price := 4;
     sel_category := "Side"; sel_description := ""; sel_isActive := true;
     sel_ingredientList :=
       [ {| ingredient_id := 1; ingredient_name := "Ingredient-Y";
            ingredient_quantity := 3 |} ] |}.

(** One employee, a manager, under key 1. *)
Definition sample_employee : employees_row :=
  {| emp_first_name := Some "Pat"; emp_last_name := Some "Lee";
     emp_username := Some "pat"; emp_password_hash := Some "secret";
     emp_is_manager := true; emp_is_active := true;
     emp_is_employee := true |}.

Definition sample_staff : staff :=
  {| employees := {[ 1 := sample_employee ]};
     employees_employee_id_seq := 1 |}.

(** A second employee, as the form of the page sends it. *)
Definition sample_add_employee : add_employee_body :=
  {| ae_firstName := value "Sam"; ae_lastName := value "Roe";
     ae_username := value "sam"; ae_password := value "hidden";
     ae_isManager := value false; ae_isActive := value true |}.

(** Employee 1 switched off. *)
Definition sample_deactivate : update_employee_body :=
  {| ue_id := value 1; ue_firstName := undefined; ue_lastName := undefined;
     ue_username := undefined; ue_password := undefined;
     ue_isManager := undefined; ue_isActive := value false |}.

(** A [tokeninfo] that verifies every token for one customer. *)
Definition sample_tokeninfo (token : string) : tokeninfo_result :=
  Verified {| email := value "customer@example.org";
              given_name := value "Kim"; family_name := undefined |}.

(** * Properties *)

(** ** The insertion-ordered map *)

Lemma JsMap_get_set_eq {V} (k : Z) (v : V) (m : list (Z * V)) :
  JsMap.get k (JsMap.set k v m) = Some v.
Proof.
  induction m as [|[k' v'] m IH]; simpl.
  - by rewrite decide_True.
  - destruct (decide (k = k')) as [->|Hne]; simpl.
    + by rewrite decide_True.
    + by rewrite decide_False.
Qed.

Lemma JsMap_get_set_ne {V} (k k' : Z) (v : V) (m : list (Z * V)) :
  k ≠ k' → JsMap.get k' (JsMap.set k v m) = JsMap.get k' m.
Proof.
  intros Hne. induction m as [|[k0 v0] m IH]; simpl.
  - by rewrite decide_False.
  - destruct (decide (k = k0)) as [->|Hne0]; simpl.
    + by rewrite !decide_False.
    + by rewrite IH.
Qed.

Lemma JsMap_get_None {V} (k : Z) (m : list (Z * V)) :
  JsMap.get k m = None ↔ k ∉ m.*1.
Proof.
  induction m as [|[k0 v0] m IH]; simpl.
  - split; [intros _; apply not_elem_of_nil | done].
  - rewrite not_elem_of_cons. destruct (decide (k = k0)); naive_solver.
Qed.

Lemma JsMap_get_is_Some {V} (k : Z) (m : list (Z * V)) :
  k ∈ m.*1 → is_Some (JsMap.get k m).
Proof.
  intros Hin. destruct (JsMap.get k m) eqn:E; [by eexists|].
  by apply JsMap_get_None in E.
Qed.

Lemma JsMap_get_elem_of {V} (k : Z) (v : V) (m : list (Z * V)) :
  JsMap.get k m = Some v → (k, v) ∈ m.
Proof.
  induction m as [|[k0 v0] m IH]; simpl; [done|].
  destruct (decide (k = k0)) as [->|Hne].
  - intros [= ->]. apply list_elem_of_here.
  - intros H. apply list_elem_of_further. by apply IH.
Qed.

Lemma JsMap_set_keys_present {V} (k : Z) (v : V) (m : list (Z * V)) :
  k ∈ m.*1 → (JsMap.set k v m).*1 = m.*1.
Proof.
  induction m as [|[k0 v0] m IH]; intros Hin.
  - by apply elem_of_nil in Hin.
  - cbn [JsMap.set]. destruct (decide (k = k0)) as [->|Hne]; [done|].
    rewrite fmap_cons in Hin. apply elem_of_cons in Hin as [?|Hin]; [done|].
    rewrite !fmap_cons. by rewrite IH.
Qed.

Lemma JsMap_set_keys_fresh {V} (k : Z) (v : V) (m : list (Z * V)) :
  k ∉ m.*1 → (JsMap.set k v m).*1 = m.*1 ++ [k].
Proof.
  induction m as [|[k0 v0] m IH]; intros Hnin; [done|].
  rewrite fmap_cons in Hnin. apply not_elem_of_cons in Hnin as [Hne Hnin].
  cbn [JsMap.set]. rewrite decide_False by done.
  rewrite !fmap_cons. by rewrite IH.
Qed.

Lemma JsMap_set_keys {V} (k : Z) (v : V) (m : list (Z * V)) :
  (JsMap.set k v m).*1 = if decide (k ∈ m.*1) then m.*1 else m.*1 ++ [k].
Proof.
  case_decide; [by apply JsMap_set_keys_present
               | by apply JsMap_set_keys_fresh].
Qed.

Lemma JsMap_set_NoDup {V} (k : Z) (v : V) (m : list (Z * V)) :
  NoDup m.*1 → NoDup (JsMap.set k v m).*1.
Proof.
  intros Hnd. rewrite JsMap_set_keys. case_decide; [done|].
  apply NoDup_app. split_and!; [done | | apply NoDup_singleton].
  intros x Hx Hx'. apply list_elem_of_singleton in Hx'. by subst.
Qed.

Lemma JsMap_values_elem_of {V} (k : Z) (v : V) (m : list (Z * V)) :
  JsMap.get k m = Some v → v ∈ JsMap.values m.
Proof.
  intros H. apply JsMap_get_elem_of in H. unfold JsMap.values.
  apply list_elem_of_fmap. by exists (k, v).
Qed.

(** ** The cart's map of menu items *)

Lemma init_fold_keys (cart : list SelectedItem) (m : list (Z * item_entry)) :
  let m' := foldl (λ acc line, JsMap.set (id line) (entry_of line) acc) m cart in
  (NoDup m.*1 → NoDup m'.*1)
  ∧ ∀ k, k ∈ m'.*1 ↔ k ∈ m.*1 ∨ k ∈ id <$> cart.
Proof.
  revert m. induction cart as [|line cart IH]; intros m; simpl.
  - split; [done|]. intros k. rewrite elem_of_nil. naive_solver.
  - destruct (IH (JsMap.set (id line) (entry_of line) m)) as [IH1 IH2].
    split.
    + intros Hnd. by apply IH1, JsMap_set_NoDup.
    + intros k. rewrite IH2, JsMap_set_keys, elem_of_cons.
      case_decide; [|rewrite elem_of_app, list_elem_of_singleton];
        naive_solver.
Qed.

Lemma init_fold_get (cart : list SelectedItem) (m : list (Z * item_entry))
    (k : Z) :
  JsMap.get k (foldl (λ acc line, JsMap.set (id line) (entry_of line) acc) m cart)
  = match last (filter (λ line, id line = k) cart) with
    | Some line => Some (entry_of line)
    | None => JsMap.get k m
    end.
Proof.
  revert m. induction cart as [|line cart IH]; intros m; simpl; [done|].
  rewrite IH. rewrite filter_cons. case_decide as Hk.
  - destruct (filter (λ line0, id line0 = k) cart) as [|l0 ls] eqn:E.
    + simpl. subst k. apply JsMap_get_set_eq.
    + rewrite last_cons_cons.
      destruct (last (l0 :: ls)) eqn:E'; [done|].
      by apply last_None in E'.
  - destruct (last (filter (λ line0, id line0 = k) cart)); [done|].
    by apply JsMap_get_set_ne.
Qed.

Lemma init_itemToIngredientMap_keys (cart : list SelectedItem) :
  NoDup (init_itemToIngredientMap cart).*1
  ∧ ∀ k, k ∈ (init_itemToIngredientMap cart).*1 ↔ k ∈ id <$> cart.
Proof.
  destruct (init_fold_keys cart []) as [H1 H2]. split.
  - apply H1. constructor.
  - intros k. unfold init_itemToIngredientMap.
    etrans; [apply H2|]. simpl. rewrite elem_of_nil. naive_solver.
Qed.

(** ** The first pass over the rows *)

Lemma ingredients_of_cons_eq (r : ingredient_row) rows :
  ingredients_of (r :: rows) (r_menu_item_id r)
  = {| ingredientName := r_item_name r;
       amount := r_total_quantity_needed r |}
      :: ingredients_of rows (r_menu_item_id r).
Proof. unfold ingredients_of. by rewrite filter_cons_True. Qed.

Lemma ingredients_of_cons_ne (r : ingredient_row) rows (k : Z) :
  r_menu_item_id r ≠ k → ingredients_of (r :: rows) k = ingredients_of rows k.
Proof. intros. unfold ingredients_of. by rewrite filter_cons_False. Qed.

Lemma add_ingredients_other (r : ingredient_row) rows
    (m : list (Z * item_entry)) :
  r_menu_item_id r ∉ m.*1 →
  add_ingredients (r :: rows) <$> m = add_ingredients rows <$> m.
Proof.
  intros Hnin. apply list_fmap_ext. intros i [k e] Hi.
  unfold add_ingredients; simpl. rewrite ingredients_of_cons_ne; [done|].
  intros Heq. apply Hnin. rewrite Heq. apply list_elem_of_fmap. exists (k, e).
  split; [done|]. by eapply list_elem_of_lookup_2.
Qed.

Lemma add_ingredients_push (r : ingredient_row) rows
    (m : list (Z * item_entry)) (e : item_entry) :
  NoDup m.*1 →
  JsMap.get (r_menu_item_id r) m = Some e →
  add_ingredients rows
    <$> JsMap.set (r_menu_item_id r)
          (push_ingredient
             {| ingredientName := r_item_name r;
                amount := r_total_quantity_needed r |} e) m
  = add_ingredients (r :: rows) <$> m.
Proof.
  induction m as [|[k0 e0] m IH]; intros Hnd Hget; [done|].
  rewrite fmap_cons in Hnd. apply NoDup_cons in Hnd as [Hk0 Hnd].
  cbn [JsMap.get JsMap.set] in *.
  destruct (decide (r_menu_item_id r = k0)) as [Hk|Hk].
  - injection Hget as ->. subst k0. rewrite !fmap_cons. f_equal.
    + unfold add_ingredients, push_ingredient; simpl.
      by rewrite ingredients_of_cons_eq, <-app_assoc.
    + symmetry. by apply add_ingredients_other.
  - rewrite !fmap_cons. f_equal.
    + unfold add_ingredients; simpl. by rewrite ingredients_of_cons_ne.
    + by apply IH.
Qed.

Lemma process_row_Normal (a : gmap string usage) (m : list (Z * item_entry))
    (r : ingredient_row) (e : item_entry) :
  JsMap.get (r_menu_item_id r) m = Some e →
  process_row (a, m) r
  = Normal (tally a r,
            JsMap.set (r_menu_item_id r)
              (push_ingredient
                 {| ingredientName := r_item_name r;
                    amount := r_total_quantity_needed r |} e) m).
Proof. intros Hget. unfold process_row. by rewrite Hget. Qed.

(** When every row names a menu item of the map, the first pass does not
    throw: it tallies the rows by name and appends to every entry the
    ingredients of its menu item. *)
Lemma forEach_process_row (rows : list ingredient_row)
    (a : gmap string usage) (m : list (Z * item_entry)) :
  NoDup m.*1 →
  (∀ r, r ∈ rows → r_menu_item_id r ∈ m.*1) →
  forEach process_row rows (a, m)
  = Normal (foldl tally a rows, add_ingredients rows <$> m).
Proof.
  revert a m. induction rows as [|r rows IH]; intros a m Hnd Hkeys.
  - simpl. f_equal. f_equal. symmetry.
    etrans; [|apply list_fmap_id]. apply list_fmap_ext.
    intros i [k e] _. unfold add_ingredients, ingredients_of; simpl.
    rewrite app_nil_r. by destruct e.
  - destruct (JsMap_get_is_Some (r_menu_item_id r) m) as [e He].
    { apply Hkeys, list_elem_of_here. }
    cbn [forEach]. rewrite (process_row_Normal _ _ _ e He).
    rewrite IH.
    + by rewrite add_ingredients_push.
    + by apply JsMap_set_NoDup.
    + intros r' Hr'. rewrite JsMap_set_keys_present.
      * apply Hkeys. by apply list_elem_of_further.
      * apply Hkeys, list_elem_of_here.
Qed.

(** ** The tally by ingredient name *)

Lemma sumZ_app (l1 l2 : list Z) : sumZ (l1 ++ l2) = sumZ l1 + sumZ l2.
Proof. unfold sumZ. induction l1 as [|x l1 IH]; simpl; lia. Qed.

Lemma sumZ_Permutation (l1 l2 : list Z) : l1 ≡ₚ l2 → sumZ l1 = sumZ l2.
Proof. unfold sumZ. induction 1; simpl; lia. Qed.

Lemma sumZ_nonneg (l : list Z) : (∀ x, x ∈ l → 0 ≤ x) → 0 ≤ sumZ l.
Proof.
  unfold sumZ. induction l as [|x l IH]; intros H; simpl; [lia|].
  assert (0 ≤ x) by apply H, list_elem_of_here.
  assert (0 ≤ foldr Z.add 0 l).
  { apply IH. intros y Hy. by apply H, list_elem_of_further. }
  lia.
Qed.

Lemma name_demand_cons (r : ingredient_row) rows (n : string) :
  name_demand (r :: rows) n
  = (if decide (r_item_name r = n) then r_total_quantity_needed r else 0)
    + name_demand rows n.
Proof.
  unfold name_demand. rewrite filter_cons.
  case_decide; [by rewrite fmap_cons | simpl; lia].
Qed.

Lemma name_demand_Permutation rows1 rows2 (n : string) :
  rows1 ≡ₚ rows2 → name_demand rows1 n = name_demand rows2 n.
Proof. intros H. unfold name_demand. apply sumZ_Permutation. by rewrite H. Qed.

Lemma usage_after_nil (a : gmap string usage) (n : string) :
  usage_after a [] n = a !! n.
Proof.
  unfold usage_after. case_decide as H.
  - destruct H as [[u Hu]|H]; [|by apply Exists_nil in H].
    rewrite Hu. simpl. destruct u as [t l]. simpl.
    by rewrite Z.add_0_r, app_nil_r.
  - destruct (a !! n) eqn:E; [|done]. exfalso. apply H. left. by eexists.
Qed.

Lemma usage_after_cons (a : gmap string usage) (r : ingredient_row) rows
    (n : string) :
  usage_after (tally a r) rows n = usage_after a (r :: rows) n.
Proof.
  unfold usage_after, tally.
  destruct (decide (r_item_name r = n)) as [Hn|Hn].
  - subst n. rewrite lookup_insert_eq.
    rewrite decide_True by (left; by eexists).
    rewrite decide_True by (right; by apply Exists_cons_hd).
    simpl. unfold name_demand. rewrite filter_cons_True by done.
    rewrite fmap_cons. simpl. f_equal. f_equal.
    + unfold sumZ. lia.
    + by rewrite <-app_assoc.
  - rewrite lookup_insert_ne by done.
    unfold name_demand. rewrite filter_cons_False by done.
    case_decide as H1; case_decide as H2; try done.
    + exfalso. apply H2. destruct H1 as [?|?]; [by left|].
      right. by apply Exists_cons_tl.
    + exfalso. apply H1. destruct H2 as [?|H2]; [by left|].
      right. apply Exists_cons in H2 as [?|?]; done.
Qed.

(** After the first pass [allIngredientsUsed] holds, for every name that
    occurs in the rows, the sum of the demand of all rows with that name. *)
Lemma foldl_tally_lookup (rows : list ingredient_row)
    (a : gmap string usage) (n : string) :
  foldl tally a rows !! n = usage_after a rows n.
Proof.
  revert a. induction rows as [|r rows IH]; intros a; simpl.
  - by rewrite usage_after_nil.
  - by rewrite IH, usage_after_cons.
Qed.

Lemma tally_row_lookup (rows : list ingredient_row) (r : ingredient_row) :
  r ∈ rows →
  foldl tally ∅ rows !! r_item_name r
  = Some {| used_total := name_demand rows (r_item_name r);
            itemUsed := used_label
              <$> filter (λ r', r_item_name r' = r_item_name r) rows |}.
Proof.
  intros Hr. rewrite foldl_tally_lookup. unfold usage_after.
  rewrite decide_True.
  - by rewrite lookup_empty.
  - right. apply Exists_exists. by exists r.
Qed.

(** ** The second pass *)

Lemma find_low_spec (all rows : list ingredient_row) :
  rows ⊆ all →
  find_low (foldl tally ∅ all) rows
  = Normal (shortage_at all <$> (snd <$> list_find (is_low all) rows)).
Proof.
  induction rows as [|r rows IH]; intros Hsub; [done|].
  cbn [find_low]. rewrite tally_row_lookup.
  2:{ apply Hsub, list_elem_of_here. }
  cbn [used_total itemUsed list_find].
  destruct (decide (is_low all r)) as [Hlow|Hlow].
  - rewrite bool_decide_eq_true_2 by done. done.
  - rewrite bool_decide_eq_false_2 by done. rewrite IH.
    + by destruct (list_find (is_low all) rows) as [[i x]|].
    + intros x Hx. by apply Hsub, list_elem_of_further.
Qed.

(** ** The check over the rows *)

(** The breakdown a sufficient cart gets. *)
Lemma check_rows_spec (cart : list SelectedItem) (rows : list ingredient_row) :
  (∀ r, r ∈ rows → r_menu_item_id r ∈ id <$> cart) →
  check_rows cart rows
  = Normal
      match list_find (is_low rows) rows with
      | Some (_, r) => Low (shortage_at rows r)
      | None =>
          NotLow (JsMap.values
                    (add_ingredients rows <$> init_itemToIngredientMap cart))
      end.
Proof.
  intros Hkeys. unfold check_rows.
  destruct (init_itemToIngredientMap_keys cart) as [Hnd Hk].
  rewrite forEach_process_row; [|done|].
  2:{ intros r Hr. by apply Hk, Hkeys. }
  rewrite find_low_spec by done.
  by destruct (list_find (is_low rows) rows) as [[i r]|].
Qed.

(** ** The rows of the query *)

Lemma unnest_map (cart : list SelectedItem) :
  unnest (map id cart) (map name cart) (map quantity cart)
  = (λ line, {| oi_item_id := id line;
                oi_menu_name := name line;
                oi_quantity := quantity line |}) <$> cart.
Proof. induction cart as [|line cart IH]; simpl; [done|]. by rewrite IH. Qed.

Lemma rows_for_recipe (mi : menu_ingredients_row) (i : inventory_row)
    (cart : list SelectedItem) :
  (o ← filter (λ o, mi_menu_item_id mi = oi_item_id o)
         ((λ line, {| oi_item_id := id line;
                      oi_menu_name := name line;
                      oi_quantity := quantity line |}) <$> cart);
   [ {| r_menu_item_id := mi_menu_item_id mi;
        r_inventory_id := mi_inventory_id mi;
        r_total_quantity_needed := mi_quantity_needed mi * oi_quantity o;
        r_item_name := inv_item_name i;
        r_stock_level := inv_stock_level i;
        r_item_id := oi_item_id o;
        r_menu_name := oi_menu_name o;
        r_quantity := oi_quantity o |} ])
  = row_of mi i <$> filter (λ line, mi_menu_item_id mi = id line) cart.
Proof.
  induction cart as [|line cart IH]; [done|].
  rewrite fmap_cons, !filter_cons. simpl.
  case_decide; [|done]. rewrite bind_cons, IH. done.
Qed.

(** The join, one recipe row at a time. *)
Lemma cart_rows_eq (d : db) (cart : list SelectedItem) :
  cart_rows d cart
  = mi ← menu_ingredients d;
    match inventory d !! mi_inventory_id mi with
    | Some i => row_of mi i <$> filter (λ line, mi_menu_item_id mi = id line) cart
    | None => []
    end.
Proof.
  unfold cart_rows, sufficiency_from. rewrite unnest_map.
  induction (menu_ingredients d) as [|mi mis IH]; [done|].
  rewrite !bind_cons, IH. f_equal.
  destruct (inventory d !! mi_inventory_id mi) as [i|]; simpl; [|done].
  by rewrite rows_for_recipe, app_nil_r.
Qed.

Lemma elem_of_cart_rows (d : db) (cart : list SelectedItem)
    (r : ingredient_row) :
  r ∈ cart_rows d cart ↔
  ∃ mi i line,
    mi ∈ menu_ingredients d ∧ inventory d !! mi_inventory_id mi = Some i
    ∧ line ∈ cart ∧ mi_menu_item_id mi = id line ∧ r = row_of mi i line.
Proof.
  rewrite cart_rows_eq, list_elem_of_bind. split.
  - intros (mi & Hr & Hmi).
    destruct (inventory d !! mi_inventory_id mi) as [i|] eqn:Hi;
      [|by apply elem_of_nil in Hr].
    apply list_elem_of_fmap in Hr as (line & -> & Hline).
    apply list_elem_of_filter in Hline as [Hid Hline].
    by exists mi, i, line.
  - intros (mi & i & line & Hmi & Hi & Hline & Hid & ->).
    exists mi. split; [|done]. rewrite Hi.
    apply list_elem_of_fmap. exists line. split; [done|].
    by apply list_elem_of_filter.
Qed.

Lemma elem_of_res_rows (d : db) (cart : list SelectedItem)
    (r : ingredient_row) :
  r ∈ res_rows d cart ↔ r ∈ cart_rows d cart.
Proof using scan_perm. unfold res_rows. by rewrite scan_perm. Qed.

Lemma res_rows_keys (d : db) (cart : list SelectedItem) (r : ingredient_row) :
  r ∈ res_rows d cart → r_menu_item_id r ∈ id <$> cart.
Proof using scan_perm.
  rewrite elem_of_res_rows, elem_of_cart_rows.
  intros (mi & i & line & _ & _ & Hline & Hid & ->). simpl. rewrite Hid.
  by apply list_elem_of_fmap_2.
Qed.

(** The statement fails exactly on a cart that is not within [int4]. *)
Lemma int4_query_within (d : db) (cart : list SelectedItem) :
  int4_query d cart ↔ within_int4 d cart.
Proof.
  unfold int4_query, within_int4. rewrite !Forall_forall. split.
  - intros (Hid & Hq & Hrows). split.
    + intros line Hline. split.
      * apply Hid. by apply (list_elem_of_fmap_2 id).
      * apply Hq. by apply (list_elem_of_fmap_2 quantity).
    + intros mi line Hmi Hline Hk [i Hi].
      apply (Hrows (row_of mi i line)), elem_of_cart_rows.
      by exists mi, i, line.
  - intros [Hlines Hrows]. split_and!.
    + intros k (line & -> & Hline)%list_elem_of_fmap. by apply Hlines.
    + intros q (line & -> & Hline)%list_elem_of_fmap. by apply Hlines.
    + intros r (mi & i & line & Hmi & Hi & Hline & Hk & ->)%elem_of_cart_rows.
      apply Hrows; [done..|]. by exists i.
Qed.

(** The check reads the store and leaves the session as it found it. *)
Lemma checkSufficientIngredients_session (cart : list SelectedItem)
    (s : session) :
  checkSufficientIngredients cart s
  = (if decide (int4_query (store s) cart)
     then check_rows cart (scan ingredient_row (cart_rows (store s) cart))
     else Abrupt NumericValueOutOfRange, s).
Proof.
  unfold checkSufficientIngredients, mbind, js_bind, pool_query_select,
    sufficiency_select.
  fold (cart_rows (store s) cart). cbv zeta.
  case_bool_decide as Hrange.
  - by rewrite decide_True.
  - by rewrite decide_False.
Qed.

(** Within [int4] the check never throws on the rows of its own query: it
    reports the first low row of [res.rows], or the breakdown. *)
Lemma checkSufficientIngredients_spec (d : db) (cart : list SelectedItem) :
  within_int4 d cart →
  run (checkSufficientIngredients cart) d
  = (Normal
       match list_find (is_low (res_rows d cart)) (res_rows d cart) with
       | Some (_, r) => Low (shortage_at (res_rows d cart) r)
       | None =>
           NotLow (JsMap.values
                     (add_ingredients (res_rows d cart)
                        <$> init_itemToIngredientMap cart))
       end, d).
Proof using scan_perm.
  intros Hrange%int4_query_within.
  unfold run. rewrite checkSufficientIngredients_session. simpl.
  rewrite decide_True by done.
  fold (res_rows d cart). rewrite check_rows_spec; [done|].
  apply res_rows_keys.
Qed.

(** Outside [int4] the statement fails and the check throws. *)
Lemma checkSufficientIngredients_throws (d : db) (cart : list SelectedItem) :
  ¬ within_int4 d cart →
  run (checkSufficientIngredients cart) d
  = (Abrupt NumericValueOutOfRange, d).
Proof.
  rewrite <-int4_query_within. intros Hrange.
  unfold run. rewrite checkSufficientIngredients_session. simpl.
  by rewrite decide_False.
Qed.

(** ** Demand by inventory row and demand by name *)

Lemma filter_sum_le {A} (f : A → Z) (P Q : A → Prop)
    `{!∀ x, Decision (P x), !∀ x, Decision (Q x)} (l : list A) :
  (∀ x, x ∈ l → P x → Q x) → (∀ x, x ∈ l → 0 ≤ f x) →
  sumZ (f <$> filter P l) ≤ sumZ (f <$> filter Q l).
Proof.
  induction l as [|x l IH]; intros HPQ Hf; [done|].
  assert (sumZ (f <$> filter P l) ≤ sumZ (f <$> filter Q l)) as IH'.
  { apply IH; intros y Hy; [apply HPQ | apply Hf]; by apply list_elem_of_further. }
  assert (0 ≤ f x) as Hx by apply Hf, list_elem_of_here.
  rewrite !filter_cons.
  destruct (decide (P x)) as [HP|HP]; destruct (decide (Q x)) as [HQ|HQ];
    rewrite ?fmap_cons; unfold sumZ in *; simpl; try lia.
  exfalso. apply HQ, HPQ; [apply list_elem_of_here | done].
Qed.

Lemma filter_sum_eq {A} (f : A → Z) (P Q : A → Prop)
    `{!∀ x, Decision (P x), !∀ x, Decision (Q x)} (l : list A) :
  (∀ x, x ∈ l → P x ↔ Q x) →
  sumZ (f <$> filter P l) = sumZ (f <$> filter Q l).
Proof.
  induction l as [|x l IH]; intros HPQ; [done|].
  assert (sumZ (f <$> filter P l) = sumZ (f <$> filter Q l)) as IH'.
  { apply IH; intros y Hy; apply HPQ; by apply list_elem_of_further. }
  assert (P x ↔ Q x) as Hx by apply HPQ, list_elem_of_here.
  rewrite !filter_cons.
  destruct (decide (P x)) as [HP|HP]; destruct (decide (Q x)) as [HQ|HQ];
    rewrite ?fmap_cons; unfold sumZ in *; simpl; try lia; tauto.
Qed.

Lemma item_demand_Permutation rows1 rows2 (i : Z) :
  rows1 ≡ₚ rows2 → item_demand rows1 i = item_demand rows2 i.
Proof. intros H. unfold item_demand. apply sumZ_Permutation. by rewrite H. Qed.

Lemma recipe_demand_match (mi : menu_ingredients_row) (inv : inventory_row)
    (cart : list SelectedItem) :
  sumZ (r_total_quantity_needed
          <$> filter (λ r, r_inventory_id r = mi_inventory_id mi)
                (row_of mi inv
                   <$> filter (λ line, mi_menu_item_id mi = id line) cart))
  = sumZ (line ← cart;
          if decide (mi_menu_item_id mi = id line
                     ∧ mi_inventory_id mi = mi_inventory_id mi)
          then [mi_quantity_needed mi * quantity line] else []).
Proof.
  induction cart as [|line cart IH]; [done|].
  rewrite bind_cons, sumZ_app, <-IH. rewrite filter_cons.
  destruct (decide (mi_menu_item_id mi = id line)) as [Hm|Hm].
  - rewrite decide_True by done. rewrite fmap_cons, filter_cons_True by done.
    rewrite fmap_cons. unfold sumZ. simpl. lia.
  - rewrite decide_False by tauto. unfold sumZ. simpl. lia.
Qed.

Lemma recipe_demand_other (mi : menu_ingredients_row)
    (cart : list SelectedItem) (i : Z) :
  mi_inventory_id mi ≠ i →
  sumZ (line ← cart;
        if decide (mi_menu_item_id mi = id line ∧ mi_inventory_id mi = i)
        then [mi_quantity_needed mi * quantity line] else []) = 0.
Proof.
  intros Hne. induction cart as [|line cart IH]; [done|].
  rewrite bind_cons, sumZ_app, IH. by rewrite decide_False by tauto.
Qed.

Lemma recipe_rows_other (mi : menu_ingredients_row) (inv : inventory_row)
    (lines : list SelectedItem) (i : Z) :
  mi_inventory_id mi ≠ i →
  filter (λ r, r_inventory_id r = i) (row_of mi inv <$> lines) = [].
Proof.
  intros Hne. induction lines as [|line lines IH]; [done|].
  rewrite fmap_cons, filter_cons_False; done.
Qed.

(** On an inventory row that exists, the demand on the rows of the query
    is the demand the specification defines from the recipes. *)
Lemma item_demand_cart_rows (d : db) (cart : list SelectedItem) (i : Z) :
  is_Some (inventory d !! i) →
  item_demand (cart_rows d cart) i = demand_of_item d cart i.
Proof.
  intros [inv Hinv]. rewrite cart_rows_eq.
  unfold item_demand, demand_of_item.
  induction (menu_ingredients d) as [|mi mis IH]; [done|].
  rewrite !bind_cons, filter_app, fmap_app, !sumZ_app, IH. f_equal.
  destruct (decide (mi_inventory_id mi = i)) as [<-|Hne].
  - rewrite Hinv. apply recipe_demand_match.
  - rewrite recipe_demand_other by done.
    destruct (inventory d !! mi_inventory_id mi); [|done].
    by rewrite recipe_rows_other.
Qed.

Lemma item_demand_res_rows (d : db) (cart : list SelectedItem) (i : Z) :
  is_Some (inventory d !! i) →
  item_demand (res_rows d cart) i = demand_of_item d cart i.
Proof using scan_perm.
  intros Hi. rewrite <-item_demand_cart_rows by done.
  apply item_demand_Permutation, scan_perm.
Qed.

(** The demand the rows of the query record for a name is the demand on
    the name as defined from the recipes. *)
Lemma name_demand_cart_rows (d : db) (cart : list SelectedItem) (n : string) :
  name_demand (cart_rows d cart) n = demand_of_name d cart n.
Proof.
  rewrite cart_rows_eq. unfold name_demand, demand_of_name.
  induction (menu_ingredients d) as [|mi mis IH]; [done|].
  rewrite !bind_cons, filter_app, fmap_app, !sumZ_app, IH. f_equal.
  clear IH. destruct (inventory d !! mi_inventory_id mi) as [inv|].
  - induction cart as [|line cart IHc]; [done|].
    rewrite bind_cons, sumZ_app, <-IHc. rewrite filter_cons.
    destruct (decide (mi_menu_item_id mi = id line)) as [Hm|Hm].
    + rewrite fmap_cons, filter_cons.
      destruct (decide (inv_item_name inv = n)) as [Hn|Hn].
      * rewrite decide_True by done. rewrite decide_True by done.
        rewrite fmap_cons. unfold sumZ. simpl. lia.
      * rewrite decide_False by done. rewrite decide_False by tauto.
        unfold sumZ. simpl. lia.
    + rewrite decide_False by tauto. unfold sumZ. simpl. lia.
  - induction cart as [|line cart IHc]; [done|].
    by rewrite bind_cons, sumZ_app, <-IHc.
Qed.

(** A row of the result carries the name and the stock of its inventory
    row. *)
Lemma res_rows_inventory (d : db) (cart : list SelectedItem)
    (r : ingredient_row) :
  r ∈ res_rows d cart →
  ∃ inv, inventory d !! r_inventory_id r = Some inv
    ∧ r_item_name r = inv_item_name inv
    ∧ r_stock_level r = inv_stock_level inv.
Proof using scan_perm.
  rewrite elem_of_res_rows, elem_of_cart_rows.
  intros (mi & inv & line & _ & Hinv & _ & _ & ->). by exists inv.
Qed.

Lemma res_rows_nonneg (d : db) (cart : list SelectedItem) :
  (∀ line, line ∈ cart → 0 ≤ quantity line) →
  (∀ mi, mi ∈ menu_ingredients d → 0 ≤ mi_quantity_needed mi) →
  ∀ r, r ∈ res_rows d cart → 0 ≤ r_total_quantity_needed r.
Proof using scan_perm.
  intros Hq Hn r. rewrite elem_of_res_rows, elem_of_cart_rows.
  intros (mi & inv & line & Hmi & _ & Hline & _ & ->). simpl.
  apply Z.mul_nonneg_nonneg; [by apply Hn | by apply Hq].
Qed.

(** A cart that uses an inventory row has a row of the result for it. *)
Lemma uses_res_rows (d : db) (cart : list SelectedItem) (i : Z)
    (inv : inventory_row) :
  uses d cart i → inventory d !! i = Some inv →
  ∃ r, r ∈ res_rows d cart ∧ r_inventory_id r = i
    ∧ r_item_name r = inv_item_name inv
    ∧ r_stock_level r = inv_stock_level inv.
Proof using scan_perm.
  intros (mi & line & Hmi & Hline & Hid & <-) Hinv.
  exists (row_of mi inv line). split; [|done].
  apply elem_of_res_rows, elem_of_cart_rows. by exists mi, inv, line.
Qed.

(** With quantities that are not negative, the demand recorded for a name
    is at least the demand on each inventory row of that name. *)
Lemma name_demand_ge_item (d : db) (cart : list SelectedItem) (i : Z)
    (inv : inventory_row) :
  (∀ line, line ∈ cart → 0 ≤ quantity line) →
  (∀ mi, mi ∈ menu_ingredients d → 0 ≤ mi_quantity_needed mi) →
  inventory d !! i = Some inv →
  demand_of_item d cart i
  ≤ name_demand (res_rows d cart) (inv_item_name inv).
Proof using scan_perm.
  intros Hq Hn Hinv. rewrite <-item_demand_res_rows by by eexists.
  unfold item_demand, name_demand. apply filter_sum_le.
  - intros r Hr Hi. destruct (res_rows_inventory _ _ _ Hr) as (inv' & H1 & H2 & _).
    rewrite Hi, Hinv in H1. by injection H1 as <-.
  - by apply res_rows_nonneg.
Qed.

(** When names are distinct the two demands agree. *)
Lemma demand_of_name_distinct (d : db) (cart : list SelectedItem) (i : Z)
    (inv : inventory_row) :
  distinct_names d →
  inventory d !! i = Some inv →
  demand_of_name d cart (inv_item_name inv) = demand_of_item d cart i.
Proof.
  intros Hdist Hinv. rewrite <-item_demand_cart_rows by by eexists.
  rewrite <-name_demand_cart_rows.
  unfold item_demand, name_demand. apply filter_sum_eq.
  intros r (mi & inv' & line & _ & Hinv' & _ & _ & ->)%elem_of_cart_rows.
  simpl. split.
  - intros Hname. by eapply Hdist.
  - intros Hi. rewrite Hi, Hinv in Hinv'. by injection Hinv' as <-.
Qed.

Lemma name_demand_distinct (d : db) (cart : list SelectedItem) (i : Z)
    (inv : inventory_row) :
  distinct_names d →
  inventory d !! i = Some inv →
  name_demand (res_rows d cart) (inv_item_name inv) = demand_of_item d cart i.
Proof using scan_perm.
  intros Hdist Hinv. rewrite <-(demand_of_name_distinct d cart i inv) by done.
  rewrite <-name_demand_cart_rows. apply name_demand_Permutation, scan_perm.
Qed.

Lemma name_demand_res_rows (d : db) (cart : list SelectedItem) (n : string) :
  name_demand (res_rows d cart) n = demand_of_name d cart n.
Proof using scan_perm.
  rewrite <-name_demand_cart_rows. apply name_demand_Permutation, scan_perm.
Qed.

Lemma res_rows_uses (d : db) (cart : list SelectedItem) (r : ingredient_row) :
  r ∈ res_rows d cart → uses d cart (r_inventory_id r).
Proof using scan_perm.
  rewrite elem_of_res_rows, elem_of_cart_rows.
  intros (mi & inv & line & Hmi & _ & Hline & Hid & ->).
  by exists mi, line.
Qed.

(** When no two inventory rows share a name, demand within stock item by
    item is demand within stock name by name. *)
Lemma by_item_implies_by_name (d : db) (cart : list SelectedItem) :
  distinct_names d →
  (∀ i inv, inventory d !! i = Some inv →
     demand_of_item d cart i ≤ inv_stock_level inv) →
  ∀ i inv, uses d cart i → inventory d !! i = Some inv →
    demand_of_name d cart (inv_item_name inv) ≤ inv_stock_level inv.
Proof.
  intros Hdist Hitem i inv _ Hinv.
  rewrite (demand_of_name_distinct d cart i inv) by done. by apply Hitem.
Qed.

(** ** The breakdown *)

Lemma JsMap_set_elem_of {V} (k : Z) (v : V) (m : list (Z * V)) (x : Z * V) :
  x ∈ JsMap.set k v m → x = (k, v) ∨ x ∈ m.
Proof.
  induction m as [|[k0 v0] m IH]; cbn [JsMap.set].
  - intros H%list_elem_of_singleton. by left.
  - destruct (decide (k = k0)) as [->|Hne]; rewrite !elem_of_cons; naive_solver.
Qed.

Lemma init_fold_entries (cart : list SelectedItem)
    (m : list (Z * item_entry)) (ke : Z * item_entry) :
  ke ∈ foldl (λ acc line, JsMap.set (id line) (entry_of line) acc) m cart →
  ke ∈ m ∨ ∃ line, line ∈ cart ∧ ke = (id line, entry_of line).
Proof.
  revert m. induction cart as [|line cart IH]; intros m; simpl; [by left|].
  intros H. apply IH in H as [H|(l & Hl & ->)].
  - apply JsMap_set_elem_of in H as [->|H]; [|by left].
    right. exists line. split; [apply list_elem_of_here | done].
  - right. exists l. split; [by apply list_elem_of_further | done].
Qed.

Lemma filter_NoDup_key {A} (f : A → Z) (l : list A) (x : A) :
  NoDup (f <$> l) → x ∈ l → filter (λ y, f y = f x) l = [x].
Proof.
  induction l as [|y l IH]; intros Hnd Hx; [by apply elem_of_nil in Hx|].
  rewrite fmap_cons in Hnd. apply NoDup_cons in Hnd as [Hy Hnd].
  apply elem_of_cons in Hx as [->|Hx].
  - rewrite filter_cons_True by done. f_equal.
    destruct (filter (λ y0, f y0 = f y) l) as [|z zs] eqn:E; [done|].
    assert (z ∈ filter (λ y0, f y0 = f y) l) as Hz by (rewrite E; left).
    apply list_elem_of_filter in Hz as [Hfz Hz]. exfalso. apply Hy.
    rewrite <-Hfz. by apply list_elem_of_fmap_2.
  - rewrite filter_cons_False; [by apply IH|].
    intros Hf. apply Hy. rewrite Hf. by apply list_elem_of_fmap_2.
Qed.

(** When every consumed row is covered by name, no row of the result is
    low. *)
Lemma sufficient_finds_none (d : db) (cart : list SelectedItem) :
  (∀ i inv, uses d cart i → inventory d !! i = Some inv →
     demand_of_name d cart (inv_item_name inv) ≤ inv_stock_level inv) →
  list_find (is_low (res_rows d cart)) (res_rows d cart) = None.
Proof using scan_perm.
  intros Hsuff. apply list_find_None, Forall_forall. intros r Hr.
  unfold is_low.
  destruct (res_rows_inventory _ _ _ Hr) as (inv & Hinv & -> & ->).
  rewrite name_demand_res_rows.
  pose proof (Hsuff _ _ (res_rows_uses _ _ _ Hr) Hinv). lia.
Qed.

(** C1 (as amended): for a cart within [int4] (its ids, its quantities
    and the amounts the query computes from them), when, for every
    inventory row the cart consumes, the demand aggregated over the cart by
    ingredient name (recipe quantity times quantity ordered, over every
    cart line and recipe row whose inventory row carries that name) is at
    most the row's stock level, equality included, the check returns a
    not-low result and leaves the store alone. For each cart line the
    breakdown has an entry that lists every recipe ingredient of the line's
    menu item with amount quantityNeeded times the line's quantity (the
    entry carries the line's name and quantity when the cart's ids are
    distinct), and nothing is listed that is not such an ingredient. *)
Theorem checkSufficientIngredients_sufficient (d : db)
    (cart : list SelectedItem) :
  within_int4 d cart →
  (∀ i inv, uses d cart i → inventory d !! i = Some inv →
     demand_of_name d cart (inv_item_name inv) ≤ inv_stock_level inv) →
  ∃ breakdown,
    run (checkSufficientIngredients cart) d = (Normal (NotLow breakdown), d)
    ∧ (∀ line, line ∈ cart →
         ∃ e, e ∈ breakdown
           ∧ (∀ mi inv, mi ∈ menu_ingredients d →
                mi_menu_item_id mi = id line →
                inventory d !! mi_inventory_id mi = Some inv →
                {| ingredientName := inv_item_name inv;
                   amount := mi_quantity_needed mi * quantity line |}
                  ∈ it_ingredient e)
           ∧ (NoDup (id <$> cart) →
                it_name e = name line ∧ it_amount e = quantity line))
    ∧ (∀ e x, e ∈ breakdown → x ∈ it_ingredient e →
         ∃ mi inv line, mi ∈ menu_ingredients d ∧ line ∈ cart
           ∧ mi_menu_item_id mi = id line
           ∧ inventory d !! mi_inventory_id mi = Some inv
           ∧ x = {| ingredientName := inv_item_name inv;
                    amount := mi_quantity_needed mi * quantity line |}).
Proof using scan_perm.
  intros Hrange Hsuff. rewrite checkSufficientIngredients_spec by done.
  rewrite sufficient_finds_none by done.
  set (rows := res_rows d cart).
  eexists. split; [reflexivity|]. split.
  - intros line Hline.
    pose proof (init_fold_get cart [] (id line)) as Hget.
    fold (init_itemToIngredientMap cart) in Hget.
    destruct (last (filter (λ l, id l = id line) cart)) as [l0|] eqn:Hlast.
    2:{ apply last_None in Hlast.
        assert (line ∈ filter (λ l, id l = id line) cart) as Hin
          by by apply list_elem_of_filter.
        rewrite Hlast in Hin. by apply elem_of_nil in Hin. }
    apply JsMap_get_elem_of in Hget.
    exists (add_ingredients rows (id line, entry_of l0)).2. split_and!.
    + unfold JsMap.values. apply list_elem_of_fmap_2.
      by apply list_elem_of_fmap_2.
    + intros mi inv Hmi Hid Hinv. simpl.
      apply list_elem_of_fmap. exists (row_of mi inv line). split; [done|].
      apply list_elem_of_filter. split; [done|].
      apply elem_of_res_rows, elem_of_cart_rows. by exists mi, inv, line.
    + intros Hnd. rewrite (filter_NoDup_key id) in Hlast by done.
      by injection Hlast as <-.
  - intros e x He Hx. unfold JsMap.values in He.
    apply list_elem_of_fmap in He as (ke' & -> & Hke').
    apply list_elem_of_fmap in Hke' as (ke & -> & Hke).
    apply init_fold_entries in Hke as [Hke|(l & Hl & ->)];
      [by apply elem_of_nil in Hke|].
    simpl in Hx. apply list_elem_of_fmap in Hx as (r & -> & Hr).
    apply list_elem_of_filter in Hr as [Hk Hr].
    apply elem_of_res_rows, elem_of_cart_rows in Hr
      as (mi & inv & line & Hmi & Hinv & Hline & Hid & ->).
    by exists mi, inv, line.
Qed.

(** ** Placing an order *)

Lemma for_of_insert_order_menu {A} (f : A → order_menu_row) (l : list A)
    (d : db) (t : option db) :
  for_of l (λ x, insert_order_menu (f x)) {| store := d; txn := t |}
  = (Normal (),
     {| store := with_order_menu d (order_menu d ++ (f <$> l)); txn := t |}).
Proof.
  revert d. induction l as [|x l IH]; intros d.
  - simpl. unfold mret, js_ret. rewrite app_nil_r. by destruct d.
  - cbn [for_of]. unfold mbind, js_bind, insert_order_menu, client_exec.
    cbn [store txn]. rewrite IH. unfold with_order_menu. simpl.
    by rewrite <-app_assoc.
Qed.

(** The handler, case by case, whatever the order of the rows: a check
    that throws is answered 500 and a low cart 400, the store being the one
    before; otherwise the order and its lines are inserted under the next
    value of the sequence, unless that key is taken, in which case the
    transaction is rolled back. *)
Lemma api_placeOrder_cases (now : Z) (order : Order) (d : db) :
  run (api_placeOrder now order) d
  = if decide (int4_query d (itemAmount order))
    then
      match check_rows (itemAmount order) (res_rows d (itemAmount order)) with
      | Abrupt _ => (Normal ServerError, d)
      | Normal (Low second) =>
          (Normal (BadRequest (low_stock_alert second)), d)
      | Normal (NotLow _) =>
          let orderID := orders_order_id_seq d + 1 in
          match orders d !! orderID with
          | Some _ => (Normal ServerError, with_seq d orderID)
          | None =>
              (Normal (Created ("Order placed successfully, your number is: "
                                +:+ pretty orderID)),
               placed now order d)
          end
      end
    else (Normal ServerError, d).
Proof.
  unfold run, api_placeOrder, try_catch.
  unfold mbind at 1. unfold js_bind at 1.
  rewrite checkSufficientIngredients_session. cbn [store].
  fold (res_rows d (itemAmount order)).
  destruct (decide (int4_query d (itemAmount order))) as [Hrange|Hrange];
    [|done].
  destruct (check_rows _ _) as [[second|breakdown]|e]; [done| |done].
  cbv zeta.
  unfold mbind, js_bind, BEGIN, client_query, pool_query, insert_orders.
  cbn [store txn default]. unfold with_seq at 1. cbn [orders].
  destruct (orders d !! (orders_order_id_seq d + 1)) as [o|] eqn:Ho.
  - unfold ROLLBACK, mret, js_ret. cbn [txn store]. done.
  - rewrite for_of_insert_order_menu. unfold COMMIT, mret, js_ret.
    cbn [store txn]. done.
Qed.

(** With the rows of its own query the check does not throw; a cart
    outside [int4] is answered 500 and nothing is written. *)
Lemma api_placeOrder_run (now : Z) (order : Order) (d : db) :
  run (api_placeOrder now order) d
  = if decide (within_int4 d (itemAmount order))
    then
      let rows := res_rows d (itemAmount order) in
      match list_find (is_low rows) rows with
      | Some (_, r) =>
          (Normal (BadRequest (low_stock_alert (shortage_at rows r))), d)
      | None =>
          let orderID := orders_order_id_seq d + 1 in
          match orders d !! orderID with
          | Some _ => (Normal ServerError, with_seq d orderID)
          | None =>
              (Normal (Created ("Order placed successfully, your number is: "
                                +:+ pretty orderID)),
               placed now order d)
          end
      end
    else (Normal ServerError, d).
Proof using scan_perm.
  rewrite api_placeOrder_cases.
  destruct (decide (within_int4 d (itemAmount order))) as [Hrange|Hrange].
  - rewrite decide_True by by apply int4_query_within.
    rewrite check_rows_spec by apply res_rows_keys.
    cbv zeta. by destruct (list_find _ _) as [[j r]|].
  - rewrite decide_False; [done|]. by rewrite int4_query_within.
Qed.

Lemma new_status_waiting (d : db) :
  new_status d = waiting ↔ ∃ k, has_status building d k.
Proof using scan_perm.
  unfold new_status. rewrite (Permutation_length (scan_perm _ _)).
  unfold select_orders_where. split.
  - case_bool_decide as Hlen; [intros _|done].
    destruct (filter _ _) as [|[k o] l] eqn:E; [simpl in Hlen; lia|].
    assert ((k, o) ∈ filter (λ o, order_status o.2 = building)
                       (map_to_list (orders d))) as Hin by (rewrite E; left).
    apply list_elem_of_filter in Hin as [Hst Hin].
    apply elem_of_map_to_list in Hin. by exists k, o.
  - intros (k & o & Hk & Hst). rewrite bool_decide_eq_true_2; [done|].
    assert ((k, o) ∈ filter (λ o, order_status o.2 = building)
                       (map_to_list (orders d))) as Hin.
    { apply list_elem_of_filter. split; [done|]. by apply elem_of_map_to_list. }
    destruct (filter _ _); [by apply elem_of_nil in Hin | simpl; lia].
Qed.

Lemma new_status_cases (d : db) :
  new_status d = waiting ∨ new_status d = building.
Proof. unfold new_status. case_bool_decide; [by left | by right]. Qed.

(** ** The lane *)

Lemma elem_of_select_ids (st : status) (d : db) (k : Z) :
  k ∈ (select_orders_where st d).*1 ↔ has_status st d k.
Proof.
  unfold select_orders_where, has_status. rewrite list_elem_of_fmap. split.
  - intros ([k' o] & -> & Hin). apply list_elem_of_filter in Hin as [Hst Hin].
    apply elem_of_map_to_list in Hin. by exists o.
  - intros (o & Hk & Hst). exists (k, o). split; [done|].
    apply list_elem_of_filter. split; [done|]. by apply elem_of_map_to_list.
Qed.

(** [ORDER BY order_id ASC LIMIT 1] selects the order of the status with
    the smallest id. *)
Lemma first_order_id_Some (st : status) (d : db) (k : Z) :
  first_order_id st d = Some k ↔
  has_status st d k ∧ ∀ k', has_status st d k' → k ≤ k'.
Proof.
  unfold first_order_id.
  set (ids := (select_orders_where st d).*1).
  pose proof (StronglySorted_merge_sort Z.le ids) as Hsorted.
  pose proof (merge_sort_Permutation Z.le ids) as Hperm.
  assert (∀ x, x ∈ merge_sort Z.le ids ↔ has_status st d x) as Hin.
  { intros x. rewrite Hperm. apply elem_of_select_ids. }
  destruct (merge_sort Z.le ids) as [|k0 rest]; simpl.
  - split; [done|]. intros [Hk _]. apply Hin in Hk. by apply elem_of_nil in Hk.
  - apply StronglySorted_inv in Hsorted as [_ Hmin].
    rewrite Forall_forall in Hmin.
    assert (∀ k', has_status st d k' → k0 ≤ k') as Hk0.
    { intros k' Hk'. apply Hin, elem_of_cons in Hk' as [->|Hk']; [lia|].
      by apply Hmin. }
    split.
    + intros [= <-]. split; [apply Hin; left | done].
    + intros [Hk Hle]. f_equal.
      assert (k0 ≤ k) by by apply Hk0.
      assert (k ≤ k0) by (apply Hle, Hin; left). lia.
Qed.

Lemma first_order_id_None (st : status) (d : db) :
  first_order_id st d = None ↔ ∀ k, ¬ has_status st d k.
Proof.
  unfold first_order_id. rewrite head_None. split.
  - intros Hnil k Hk. apply elem_of_select_ids in Hk.
    rewrite <-(merge_sort_Permutation Z.le), Hnil in Hk.
    by apply elem_of_nil in Hk.
  - intros Hno. destruct (merge_sort _ _) as [|k rest] eqn:E; [done|].
    exfalso. apply (Hno k), elem_of_select_ids.
    rewrite <-(merge_sort_Permutation Z.le), E. left.
Qed.

Lemma first_order_id_unique (d : db) (k : Z) :
  at_most_one_building d → has_status building d k →
  first_order_id building d = Some k.
Proof.
  intros Hone Hk. destruct (first_order_id building d) as [k0|] eqn:E.
  - apply first_order_id_Some in E as [Hk0 _]. f_equal. by apply Hone.
  - exfalso. by eapply first_order_id_None.
Qed.

Lemma elem_of_option_lists (k : Z) (b w : option Z) :
  k ∈ option_list b ++ option_list w ↔ Some k = b ∨ Some k = w.
Proof.
  rewrite elem_of_app. destruct b as [b|], w as [w|]; simpl;
    rewrite ?list_elem_of_singleton, ?elem_of_nil; naive_solver.
Qed.

(** What the [UPDATE] does to one row. *)
Lemma updateOrderQuery_lookup (d : db) (k : Z) :
  orders (updateOrderQuery d) !! k
  = (λ o,
       if decide (first_order_id building d = Some k) then set_status complete o
       else if decide (first_order_id waiting d = Some k)
            then set_status building o
            else o) <$> orders d !! k.
Proof.
  unfold updateOrderQuery. cbn [orders with_orders].
  rewrite map_lookup_imap. destruct (orders d !! k) as [o|]; [|done].
  simpl. f_equal.
  case_bool_decide as Hin; rewrite elem_of_option_lists in Hin.
  - case_bool_decide as Hb.
    + by rewrite decide_True.
    + rewrite decide_False by done. destruct Hin as [?|Hw]; [done|].
      rewrite bool_decide_eq_true_2 by done. by rewrite decide_True.
  - rewrite !decide_False; [done|..]; intros ?; apply Hin; auto.
Qed.

Lemma api_kitchenNext_run (d : db) :
  run api_kitchenNext d
  = (Normal (Success "Order status updated successfully"),
     updateOrderQuery d).
Proof. done. Qed.

Lemma updateOrderQuery_status (d : db) (k : Z) (o : orders_row) :
  orders d !! k = Some o →
  ∃ o', orders (updateOrderQuery d) !! k = Some o'
    ∧ employee_id o' = employee_id o
    ∧ order_time o' = order_time o
    ∧ order_total o' = order_total o
    ∧ order_status o'
      = if decide (first_order_id building d = Some k) then complete
        else if decide (first_order_id waiting d = Some k) then building
        else order_status o.
Proof.
  intros Hk. rewrite updateOrderQuery_lookup, Hk. simpl.
  eexists. split; [done|]. repeat case_decide; done.
Qed.

Lemma updateOrderQuery_building (d : db) (k : Z) :
  at_most_one_building d →
  has_status building (updateOrderQuery d) k →
  first_order_id waiting d = Some k.
Proof.
  intros Hone (o' & Hk' & Hst').
  rewrite updateOrderQuery_lookup in Hk'.
  destruct (orders d !! k) as [o|] eqn:Hk; [|done].
  simpl in Hk'. injection Hk' as <-.
  destruct (decide (first_order_id building d = Some k)) as [Hb|Hb]; [done|].
  destruct (decide (first_order_id waiting d = Some k)) as [Hw|Hw]; [done|].
  exfalso. apply Hb, first_order_id_unique; [done|]. by exists o.
Qed.

(** C3 (as amended): for every ledger state, one call of
    [PUT /api/kitchenNext] answers 200 and, in the one [UPDATE] it commits,
    turns the building order with the smallest id into complete and the
    waiting order with the smallest id into building; every other row,
    every other column and every other table is as before. When no order is
    building, no order becomes complete; when no order is waiting and at
    most one order was building, no order is building afterwards. *)
Theorem api_kitchenNext_spec (d : db) :
  let d' := (run api_kitchenNext d).2 in
  (run api_kitchenNext d).1
    = Normal (Success "Order status updated successfully")
  ∧ d' = updateOrderQuery d
  ∧ (∀ k, has_status building d k →
       (∀ k', has_status building d k' → k ≤ k') → has_status complete d' k)
  ∧ (∀ k, has_status waiting d k →
       (∀ k', has_status waiting d k' → k ≤ k') → has_status building d' k)
  ∧ (∀ k o, orders d !! k = Some o →
       ¬ (order_status o = building
          ∧ ∀ k', has_status building d k' → k ≤ k') →
       ¬ (order_status o = waiting
          ∧ ∀ k', has_status waiting d k' → k ≤ k') →
       orders d' !! k = Some o)
  ∧ (∀ k o, orders d !! k = Some o →
       ∃ o', orders d' !! k = Some o'
         ∧ employee_id o' = employee_id o
         ∧ order_time o' = order_time o
         ∧ order_total o' = order_total o)
  ∧ (∀ k, orders d !! k = None → orders d' !! k = None)
  ∧ (inventory d' = inventory d ∧ menu d' = menu d
     ∧ menu_ingredients d' = menu_ingredients d
     ∧ order_menu d' = order_menu d
     ∧ orders_order_id_seq d' = orders_order_id_seq d)
  ∧ ((∀ k, ¬ has_status building d k) →
       ∀ k, has_status complete d' k → has_status complete d k)
  ∧ (at_most_one_building d → (∀ k, ¬ has_status waiting d k) →
       ∀ k, ¬ has_status building d' k).
Proof.
  rewrite api_kitchenNext_run. cbn [fst snd]. cbv zeta.
  split_and!; try done.
  - intros k (o & Hk & Hst) Hmin.
    destruct (updateOrderQuery_status d k o Hk) as (o' & Hk' & _ & _ & _ & Hst').
    exists o'. split; [done|]. rewrite Hst'.
    rewrite decide_True; [done|].
    apply first_order_id_Some. split; [by exists o | done].
  - intros k (o & Hk & Hst) Hmin.
    destruct (updateOrderQuery_status d k o Hk) as (o' & Hk' & _ & _ & _ & Hst').
    exists o'. split; [done|]. rewrite Hst'.
    rewrite decide_False.
    + rewrite decide_True; [done|].
      apply first_order_id_Some. split; [by exists o | done].
    + intros Hb. apply first_order_id_Some in Hb as [(o0 & Hk0 & Hst0) _].
      congruence.
  - intros k o Hk Hnb Hnw. rewrite updateOrderQuery_lookup, Hk. simpl.
    rewrite decide_False.
    + rewrite decide_False; [done|].
      intros Hw. apply first_order_id_Some in Hw as [(o0 & Hk0 & Hst0) Hmin].
      apply Hnw. split; [congruence | done].
    + intros Hb. apply first_order_id_Some in Hb as [(o0 & Hk0 & Hst0) Hmin].
      apply Hnb. split; [congruence | done].
  - intros k o Hk.
    destruct (updateOrderQuery_status d k o Hk) as (o' & ? & ? & ? & ? & _).
    by exists o'.
  - intros k Hk. by rewrite updateOrderQuery_lookup, Hk.
  - intros Hnob k (o' & Hk' & Hst').
    rewrite updateOrderQuery_lookup in Hk'.
    destruct (orders d !! k) as [o|] eqn:Hk; [|done].
    simpl in Hk'. injection Hk' as <-.
    destruct (decide (first_order_id building d = Some k)) as [Hb|Hb].
    { apply first_order_id_Some in Hb as [Hb _]. by apply Hnob in Hb. }
    destruct (decide (first_order_id waiting d = Some k)) as [Hw|Hw]; [done|].
    by exists o.
  - intros Hone Hnow k Hk. apply updateOrderQuery_building in Hk; [|done].
    apply first_order_id_Some in Hk as [Hk _]. by apply Hnow in Hk.
Qed.

Lemma step_preserves_lane (d : db) (c : call) :
  at_most_one_building d → at_most_one_building (step d c).
Proof using scan_perm.
  intros Hone. destruct c as [now order|]; unfold step.
  - rewrite api_placeOrder_run. case_decide as Hrange; [|done]. cbv zeta.
    destruct (list_find _ _) as [[i r]|]; [done|].
    destruct (orders d !! (orders_order_id_seq d + 1)) as [o0|] eqn:Hfresh;
      [done|].
    cbn [snd]. intros k1 k2 (o1 & Hk1 & Hst1) (o2 & Hk2 & Hst2).
    unfold placed in Hk1, Hk2. cbn [orders] in Hk1, Hk2.
    destruct (new_status_cases d) as [Hnew|Hnew].
    + rewrite lookup_insert in Hk1, Hk2.
      case_decide; [simplify_eq; simpl in *; congruence|].
      case_decide; [simplify_eq; simpl in *; congruence|].
      apply Hone; [by exists o1 | by exists o2].
    + assert (∀ k, ¬ has_status building d k) as Hnob.
      { intros k Hk. assert (new_status d = waiting) as Hw
          by (apply new_status_waiting; by exists k). congruence. }
      assert (∀ k o, <[orders_order_id_seq d + 1 :=
                         {| employee_id := emID order; order_time := now;
                            order_total := total order;
                            order_status := new_status d |}]> (orders d) !! k
                     = Some o →
                     order_status o = building →
                     k = orders_order_id_seq d + 1) as Hnew'.
      { intros k o Hk Hst. rewrite lookup_insert in Hk.
        case_decide; [done|]. exfalso. apply (Hnob k). by exists o. }
      rewrite (Hnew' _ _ Hk1 Hst1). by rewrite (Hnew' _ _ Hk2 Hst2).
  - rewrite api_kitchenNext_run. cbn [snd]. intros k1 k2 Hk1 Hk2.
    apply updateOrderQuery_building in Hk1, Hk2; try done. congruence.
Qed.

(** C2: from a state with at most one building order, any sequence of
    [POST /api/placeOrder] and [PUT /api/kitchenNext] calls leaves at most
    one building order. A placement that succeeds inserts one order, with
    status waiting exactly when some order is building and building
    otherwise. An advance promotes at most one waiting order, and a
    promoted order has the smallest id among the waiting ones: none is
    skipped. *)
Theorem lane_invariant (d : db) (calls : list call) :
  at_most_one_building d →
  at_most_one_building (foldl step d calls)
  ∧ (∀ now order message d',
       run (api_placeOrder now order) d = (Normal (Created message), d') →
       ∃ k o, orders d !! k = None
         ∧ orders d' = <[k := o]> (orders d)
         ∧ (order_status o = waiting ↔ ∃ k', has_status building d k')
         ∧ (order_status o = building ↔ ¬ ∃ k', has_status building d k'))
  ∧ (∀ k, has_status waiting d k →
       has_status building (run api_kitchenNext d).2 k →
       ∀ k', has_status waiting d k' → k ≤ k')
  ∧ (∀ k1 k2, has_status waiting d k1 → has_status waiting d k2 →
       has_status building (run api_kitchenNext d).2 k1 →
       has_status building (run api_kitchenNext d).2 k2 → k1 = k2).
Proof using scan_perm.
  intros Hone. split_and!.
  - revert d Hone. induction calls as [|c calls IH]; intros d Hone; [done|].
    simpl. by apply IH, step_preserves_lane.
  - intros now order message d'. rewrite api_placeOrder_run.
    case_decide as Hrange; [|done]. cbv zeta.
    destruct (list_find _ _) as [[i r]|]; [done|].
    destruct (orders d !! (orders_order_id_seq d + 1)) as [o0|] eqn:Hfresh;
      [done|].
    intros [= _ <-]. eexists _, _. split_and!; [done..| |].
    + apply new_status_waiting.
    + cbn [order_status]. rewrite <-new_status_waiting.
      destruct (new_status_cases d) as [-> | ->]; naive_solver.
  - intros k _ Hk k' Hk'. rewrite api_kitchenNext_run in Hk. cbn [snd] in Hk.
    apply updateOrderQuery_building in Hk; [|done].
    apply first_order_id_Some in Hk as [_ Hmin]. by apply Hmin.
  - intros k1 k2 _ _ Hk1 Hk2. rewrite api_kitchenNext_run in Hk1, Hk2.
    cbn [snd] in *.
    apply updateOrderQuery_building in Hk1, Hk2; try done. congruence.
Qed.

(** ** The first failure *)

Lemma list_find_split {A} (P : A → Prop) `{!∀ x, Decision (P x)}
    (l : list A) (i : nat) (x : A) :
  list_find P l = Some (i, x) →
  ∃ pre post, l = pre ++ x :: post ∧ (∀ y, y ∈ pre → ¬ P y) ∧ P x.
Proof.
  intros (Hi & HP & Hleast)%list_find_Some.
  exists (take i l), (drop (S i) l). split_and!; [|  |done].
  - by rewrite take_drop_middle.
  - intros y (j & Hj)%list_elem_of_lookup_1.
    apply lookup_take_Some in Hj as [Hj Hlt]. by eapply Hleast.
Qed.

(** The second pass stops at the first low row: what follows it is not
    looked at, whatever it is. *)
Lemma find_low_prefix (a : gmap string usage) (pre post : list ingredient_row)
    (r : ingredient_row) (u : usage) :
  (∀ r', r' ∈ pre →
     ∃ u', a !! r_item_name r' = Some u' ∧ ¬ r_stock_level r' < used_total u') →
  a !! r_item_name r = Some u →
  r_stock_level r < used_total u →
  find_low a (pre ++ r :: post)
  = Normal (Some {| low_ingredientName := r_item_name r;
                    currStock := r_stock_level r;
                    neededStock := used_total u;
                    menuItemsUsing := itemUsed u |}).
Proof.
  intros Hpre Hu Hlow. induction pre as [|r0 pre IH]; simpl.
  - rewrite Hu. by rewrite bool_decide_eq_true_2.
  - destruct (Hpre r0) as (u0 & Hu0 & Hok); [left|].
    rewrite Hu0. rewrite bool_decide_eq_false_2 by done.
    apply IH. intros r' Hr'. apply Hpre. by right.
Qed.

Lemma cart_rows_stock_state (d d2 : db) (cart : list SelectedItem) :
  inventory d2 = inventory d → menu_ingredients d2 = menu_ingredients d →
  cart_rows d2 cart = cart_rows d cart.
Proof.
  intros Hi Hm. unfold cart_rows, sufficiency_from. by rewrite Hi, Hm.
Qed.

(** A consumed inventory row whose stock is below the demand of its name
    makes some row of the result low. *)
Lemma over_demand_finds_low (d : db) (cart : list SelectedItem)
    (i : Z) (inv : inventory_row) :
  uses d cart i →
  inventory d !! i = Some inv →
  inv_stock_level inv < demand_of_name d cart (inv_item_name inv) →
  ∃ j r, list_find (is_low (res_rows d cart)) (res_rows d cart) = Some (j, r).
Proof using scan_perm.
  intros Huses Hinv Hover.
  destruct (uses_res_rows d cart i inv Huses Hinv) as (r0 & Hr0 & Hi0 & Hn0 & Hs0).
  assert (is_low (res_rows d cart) r0) as Hlow0.
  { unfold is_low. by rewrite name_demand_res_rows, Hn0, Hs0. }
  destruct (list_find_elem_of (is_low (res_rows d cart)) _ r0 Hr0 Hlow0)
    as [[j r] Hfind].
  by exists j, r.
Qed.

(** With quantities that are not negative, a row that is over-demanded on
    its own is over-demanded by name. *)
Lemma over_demand_by_name (d : db) (cart : list SelectedItem)
    (i : Z) (inv : inventory_row) :
  inventory d !! i = Some inv →
  inv_stock_level inv < demand_of_name d cart (inv_item_name inv)
  ∨ ((∀ line, line ∈ cart → 0 ≤ quantity line)
     ∧ (∀ mi, mi ∈ menu_ingredients d → 0 ≤ mi_quantity_needed mi)
     ∧ inv_stock_level inv < demand_of_item d cart i) →
  inv_stock_level inv < demand_of_name d cart (inv_item_name inv).
Proof using scan_perm.
  intros Hinv [Hover|(Hq & Hn & Hover)]; [done|].
  pose proof (name_demand_ge_item d cart i inv Hq Hn Hinv) as Hge.
  rewrite name_demand_res_rows in Hge. lia.
Qed.

(** C6 (as amended): for a cart within [int4], when the cart consumes an
    inventory row whose stock is below the demand aggregated by ingredient
    name (as it is when the row's own demand is above its stock and no
    quantity of the cart or of a recipe is negative), the check returns a
    low result and leaves the store alone. The
    shortage reported is that of the first row of the result, in the order
    in which the server returned the rows to this call, whose stock is
    below the demand of its name: it carries that row's name and stock and
    the demand of the name. The rows after it are not looked at. When no
    two inventory rows share a name, the row reported is an inventory item
    whose own demand is above its stock. *)
Theorem checkSufficientIngredients_low (d : db) (cart : list SelectedItem)
    (i : Z) (inv : inventory_row) :
  within_int4 d cart →
  uses d cart i →
  inventory d !! i = Some inv →
  inv_stock_level inv < demand_of_name d cart (inv_item_name inv)
  ∨ ((∀ line, line ∈ cart → 0 ≤ quantity line)
     ∧ (∀ mi, mi ∈ menu_ingredients d → 0 ≤ mi_quantity_needed mi)
     ∧ inv_stock_level inv < demand_of_item d cart i) →
  ∃ pre r post second,
    res_rows d cart = pre ++ r :: post
    ∧ (∀ r', r' ∈ pre →
         demand_of_name d cart (r_item_name r') ≤ r_stock_level r')
    ∧ r_stock_level r < demand_of_name d cart (r_item_name r)
    ∧ run (checkSufficientIngredients cart) d = (Normal (Low second), d)
    ∧ low_ingredientName second = r_item_name r
    ∧ currStock second = r_stock_level r
    ∧ neededStock second = demand_of_name d cart (r_item_name r)
    ∧ (∀ post',
         find_low (foldl tally ∅ (res_rows d cart)) (pre ++ r :: post')
         = Normal (Some second))
    ∧ (distinct_names d →
         ∃ inv', inventory d !! r_inventory_id r = Some inv'
           ∧ low_ingredientName second = inv_item_name inv'
           ∧ currStock second = inv_stock_level inv'
           ∧ neededStock second = demand_of_item d cart (r_inventory_id r)
           ∧ inv_stock_level inv' < demand_of_item d cart (r_inventory_id r)).
Proof using scan_perm.
  intros Hrange Huses Hinv Hover%over_demand_by_name; [|done].
  destruct (over_demand_finds_low d cart i inv Huses Hinv Hover)
    as (j & r & Hfind).
  set (rows := res_rows d cart) in *.
  destruct (list_find_split _ _ _ _ Hfind) as (pre & post & Hsplit & Hpre & Hlow).
  assert (r ∈ rows) as Hr by (rewrite Hsplit; set_solver).
  assert (run (checkSufficientIngredients cart) d
          = (Normal (Low (shortage_at rows r)), d)) as Hrun.
  { rewrite checkSufficientIngredients_spec by done. fold rows.
    by rewrite Hfind. }
  exists pre, r, post, (shortage_at rows r).
  unfold is_low in Hlow, Hpre. unfold rows in Hlow, Hpre.
  rewrite name_demand_res_rows in Hlow.
  split_and!; try done.
  - intros r' Hr'. apply Hpre in Hr'. rewrite name_demand_res_rows in Hr'. lia.
  - simpl. apply name_demand_res_rows.
  - intros post'.
    pose proof (find_low_prefix (foldl tally ∅ rows) pre post' r
             {| used_total := name_demand rows (r_item_name r);
                itemUsed := used_label
                  <$> filter (λ r', r_item_name r' = r_item_name r) rows |})
      as Hprefix.
    cbn [used_total itemUsed] in Hprefix. apply Hprefix; clear Hprefix.
    + intros r' Hr'. eexists. split.
      * apply tally_row_lookup. fold rows. rewrite Hsplit. set_solver.
      * simpl. by apply Hpre.
    + by apply tally_row_lookup.
    + simpl. unfold rows. rewrite name_demand_res_rows. done.
  - intros Hdist.
    destruct (res_rows_inventory _ _ _ Hr) as (inv' & Hinv' & Hname & Hstock).
    exists inv'. simpl. split_and!; try done.
    + rewrite Hname. by apply name_demand_distinct.
    + rewrite <-Hstock. rewrite <-(name_demand_distinct d cart _ inv') by done.
      rewrite <-Hname. by rewrite name_demand_res_rows.
Qed.

(** ** Rejected placements and the inventory *)

(** C4 (as amended): for a cart within [int4], when the cart consumes an
    inventory row whose stock is below the demand aggregated by ingredient
    name (as it is when the row's own demand is above its stock and no
    quantity of the cart or of a recipe is negative), [POST
    /api/placeOrder] answers 400 with the low-stock alert,
    which spells out the shortage the check reports (ingredient name, the
    menu items that use it, the stock needed and the stock available), and
    the store after the call is the store before it: no order and no order
    line is written. *)
Theorem api_placeOrder_insufficient (now : Z) (order : Order) (d : db)
    (i : Z) (inv : inventory_row) :
  within_int4 d (itemAmount order) →
  uses d (itemAmount order) i →
  inventory d !! i = Some inv →
  inv_stock_level inv
    < demand_of_name d (itemAmount order) (inv_item_name inv)
  ∨ ((∀ line, line ∈ itemAmount order → 0 ≤ quantity line)
     ∧ (∀ mi, mi ∈ menu_ingredients d → 0 ≤ mi_quantity_needed mi)
     ∧ inv_stock_level inv < demand_of_item d (itemAmount order) i) →
  ∃ second,
    run (checkSufficientIngredients (itemAmount order)) d
      = (Normal (Low second), d)
    ∧ currStock second < neededStock second
    ∧ run (api_placeOrder now order) d
      = (Normal
           (BadRequest
              ("Low Stock Alert: The ingredient "
               +:+ low_ingredientName second
               +:+ " is being ordered in "
               +:+ String.concat ", " (menuItemsUsing second)
               +:+ ", which uses total of " +:+ pretty (neededStock second)
               +:+ ", and there is " +:+ pretty (currStock second)
               +:+ " available.")),
         d)
    ∧ orders (run (api_placeOrder now order) d).2 = orders d
    ∧ order_menu (run (api_placeOrder now order) d).2 = order_menu d.
Proof using scan_perm.
  intros Hrange Huses Hinv Hover%over_demand_by_name; [|done].
  destruct (over_demand_finds_low d _ i inv Huses Hinv Hover)
    as (j & r & Hfind).
  exists (shortage_at (res_rows d (itemAmount order)) r).
  rewrite checkSufficientIngredients_spec, api_placeOrder_run by done.
  rewrite decide_True by done. cbv zeta.
  rewrite Hfind. split_and!; try done.
  apply list_find_Some in Hfind as (_ & Hlow & _). exact Hlow.
Qed.

(** C9: neither the check nor [POST /api/placeOrder] writes to the
    inventory, whatever the cart and whatever the outcome: the check
    leaves the whole store as it is, and after a placement the inventory
    table, every stock level in it, is the one before. *)
Theorem inventory_untouched (now : Z) (order : Order)
    (cart : list SelectedItem) (d : db) :
  (run (checkSufficientIngredients cart) d).2 = d
  ∧ inventory (run (api_placeOrder now order) d).2 = inventory d
  ∧ ∀ i, inv_stock_level <$> inventory (run (api_placeOrder now order) d).2 !! i
         = inv_stock_level <$> inventory d !! i.
Proof.
  assert (inventory (run (api_placeOrder now order) d).2 = inventory d) as H.
  { rewrite api_placeOrder_cases. case_decide as Hrange; [|done].
    destruct (check_rows _ _) as [[second|breakdown]|e]; [done| |done].
    cbv zeta. by destruct (orders d !! _). }
  split_and!; [|done|].
  - unfold run. by rewrite checkSufficientIngredients_session.
  - intros i. by rewrite H.
Qed.

(** ** Aggregation by name *)

Lemma filter_sum_split {A} (f : A → Z) (P P1 P2 : A → Prop)
    `{!∀ x, Decision (P x), !∀ x, Decision (P1 x), !∀ x, Decision (P2 x)}
    (l : list A) :
  (∀ x, x ∈ l → P1 x → P x) → (∀ x, x ∈ l → P2 x → P x) →
  (∀ x, P1 x → P2 x → False) →
  sumZ (f <$> filter P l)
  = sumZ (f <$> filter P1 l) + sumZ (f <$> filter P2 l)
    + sumZ (f <$> filter (λ x, P x ∧ ¬ P1 x ∧ ¬ P2 x) l).
Proof.
  intros HP1 HP2 H12. induction l as [|x l IH]; [done|].
  assert (P1 x → P x) as H1x by apply HP1, list_elem_of_here.
  assert (P2 x → P x) as H2x by apply HP2, list_elem_of_here.
  rewrite !filter_cons.
  assert (sumZ (f <$> filter P l)
          = sumZ (f <$> filter P1 l) + sumZ (f <$> filter P2 l)
            + sumZ (f <$> filter (λ x, P x ∧ ¬ P1 x ∧ ¬ P2 x) l)) as IH'.
  { apply IH; intros y Hy; [apply HP1 | apply HP2]; by right. }
  pose proof (H12 x).
  repeat case_decide; rewrite ?fmap_cons; unfold sumZ in *; simpl;
    try lia; tauto.
Qed.

(** C10 (as amended): the check aggregates demand by the name of the
    inventory item, not by its id, for a cart within [int4]: the query
    returns its rows for such a cart only. When two distinct inventory rows
    carry one name, the
    demand recorded under the name is the demand on the first row plus the
    demand on the second (plus that on any further row of the name); that
    one total is what each of their rows is compared with, against the
    row's own stock level, and the check is low exactly when some row's
    stock is below the total of its name. So a shortage is reported for an
    inventory row as soon as the combined total is above its stock,
    whatever its own demand: when the first row is consumed, its stock is
    below the combined total and no row of another inventory item is low,
    the shortage reported carries its name, its stock and the combined
    total. *)
Theorem aggregation_by_name (d : db) (cart : list SelectedItem)
    (i1 i2 : Z) (inv1 inv2 : inventory_row) :
  within_int4 d cart →
  i1 ≠ i2 →
  inventory d !! i1 = Some inv1 →
  inventory d !! i2 = Some inv2 →
  inv_item_name inv1 = inv_item_name inv2 →
  let n := inv_item_name inv1 in
  demand_of_name d cart n
    = demand_of_item d cart i1 + demand_of_item d cart i2
      + sumZ (r_total_quantity_needed
                <$> filter (λ r, r_item_name r = n
                                 ∧ r_inventory_id r ≠ i1
                                 ∧ r_inventory_id r ≠ i2)
                      (cart_rows d cart))
  ∧ (∀ r, r ∈ res_rows d cart →
       r_inventory_id r = i1 ∨ r_inventory_id r = i2 →
       used_total <$> (foldl tally ∅ (res_rows d cart) !! r_item_name r)
         = Some (demand_of_name d cart n)
       ∧ (is_low (res_rows d cart) r
          ↔ r_stock_level r < demand_of_name d cart n))
  ∧ ((∃ second,
        run (checkSufficientIngredients cart) d = (Normal (Low second), d))
     ↔ ∃ r, r ∈ res_rows d cart
         ∧ r_stock_level r < demand_of_name d cart (r_item_name r))
  ∧ (uses d cart i1 →
     inv_stock_level inv1 < demand_of_name d cart n →
     (∀ r, r ∈ res_rows d cart → r_inventory_id r ≠ i1 →
        demand_of_name d cart (r_item_name r) ≤ r_stock_level r) →
     ∃ second,
       run (checkSufficientIngredients cart) d = (Normal (Low second), d)
       ∧ low_ingredientName second = n
       ∧ currStock second = inv_stock_level inv1
       ∧ neededStock second = demand_of_name d cart n).
Proof using scan_perm.
  intros Hrange Hne H1 H2 Hname n.
  assert (∀ r, r ∈ res_rows d cart →
            r_inventory_id r = i1 ∨ r_inventory_id r = i2 →
            r_item_name r = n ∧ (r_inventory_id r = i1 →
                                 r_stock_level r = inv_stock_level inv1))
    as Hrows.
  { intros r Hr Hid.
    destruct (res_rows_inventory _ _ _ Hr) as (inv & Hinv & Hn & Hs).
    destruct Hid as [Hid|Hid]; rewrite Hid in Hinv; simplify_eq.
    - done.
    - split; [by rewrite Hn | done]. }
  split_and!.
  - rewrite <-name_demand_cart_rows. unfold name_demand.
    rewrite <-!item_demand_cart_rows by by eexists. unfold item_demand.
    apply filter_sum_split.
    + intros r Hr Hid. apply elem_of_res_rows in Hr. apply Hrows; auto.
    + intros r Hr Hid. apply elem_of_res_rows in Hr. apply Hrows; auto.
    + intros r ??. congruence.
  - intros r Hr Hid. destruct (Hrows r Hr Hid) as [Hn _].
    rewrite tally_row_lookup by done. simpl.
    unfold is_low. by rewrite name_demand_res_rows, Hn.
  - rewrite checkSufficientIngredients_spec by done. split.
    + intros (second & Hrun).
      destruct (list_find _ _) as [[j r]|] eqn:Hfind; [|done].
      apply list_find_Some in Hfind as (Hj & Hlow & _).
      exists r. split; [by eapply list_elem_of_lookup_2|].
      unfold is_low in Hlow. by rewrite name_demand_res_rows in Hlow.
    + intros (r & Hr & Hlow).
      destruct (list_find_elem_of (is_low (res_rows d cart)) _ r Hr)
        as [[j r'] Hfind].
      { unfold is_low. by rewrite name_demand_res_rows. }
      rewrite Hfind. by eexists.
  - intros Huses Hlow Hothers.
    destruct (uses_res_rows d cart i1 inv1 Huses H1) as (r0 & Hr0 & Hi0 & Hn0 & Hs0).
    destruct (list_find_elem_of (is_low (res_rows d cart)) _ r0 Hr0)
      as [[j r] Hfind].
    { unfold is_low. by rewrite name_demand_res_rows, Hn0, Hs0. }
    rewrite checkSufficientIngredients_spec, Hfind by done.
    apply list_find_Some in Hfind as (Hj & Hlowr & _).
    apply list_elem_of_lookup_2 in Hj.
    assert (r_inventory_id r = i1) as Hid.
    { destruct (decide (r_inventory_id r = i1)) as [|Hx]; [done|].
      pose proof (Hothers r Hj Hx) as Hok. unfold is_low in Hlowr.
      rewrite name_demand_res_rows in Hlowr. lia. }
    destruct (Hrows r Hj (or_introl Hid)) as [Hn Hs].
    eexists. split; [done|]. simpl.
    rewrite name_demand_res_rows, Hn. split_and!; [done| by apply Hs | done].
Qed.

(** ** The order that is inserted *)

(** C8 (as amended): for a cart within [int4] that is sufficient by
    ingredient name, when the next value of the order sequence is free,
    [POST /api/placeOrder] answers 201 and inserts one order under that
    key, whose total is the [total] field of the request as it was sent,
    and appends to the order lines exactly one row per cart line, in the
    order of the cart. The server does not compute the total: the cart of
    the client sends subtotal plus tax, in the arithmetic of JavaScript
    numbers, and its [placeOrder] on a cart that is not empty resolves with
    the store so written. *)
Theorem api_placeOrder_inserts (now : Z) (order : Order) (d : db) :
  within_int4 d (itemAmount order) →
  (∀ i inv, uses d (itemAmount order) i → inventory d !! i = Some inv →
     demand_of_name d (itemAmount order) (inv_item_name inv)
       ≤ inv_stock_level inv) →
  orders d !! (orders_order_id_seq d + 1) = None →
  let orderID := orders_order_id_seq d + 1 in
  let d' := (run (api_placeOrder now order) d).2 in
  (run (api_placeOrder now order) d).1
    = Normal (Created ("Order placed successfully, your number is: "
                       +:+ pretty orderID))
  ∧ (∃ o, orders d' = <[orderID := o]> (orders d)
       ∧ order_total o = total order
       ∧ employee_id o = emID order
       ∧ order_time o = now)
  ∧ order_menu d'
    = order_menu d
      ++ ((λ line, {| om_order_id := orderID;
                      om_menu_item_id := id line;
                      om_quantity_ordered := quantity line |})
            <$> itemAmount order)
  ∧ length (order_menu d')
    = (length (order_menu d) + length (itemAmount order))%nat
  ∧ (itemAmount order ≠ [] →
     total order
       = JSON_number
           (Number_add (CartContext_subtotal (itemAmount order))
              (Number_mul (CartContext_subtotal (itemAmount order))
                 Number_0_0825)) →
     CartContext_placeOrder now (emID order) (itemAmount order) d
     = (Resolved, [], d')).
Proof using scan_perm.
  intros Hrange Hsuff Hfresh. cbv zeta.
  assert (run (api_placeOrder now order) d
          = (Normal (Created ("Order placed successfully, your number is: "
                              +:+ pretty (orders_order_id_seq d + 1))),
             placed now order d)) as Hrun.
  { rewrite api_placeOrder_run, decide_True by done. cbv zeta.
    by rewrite sufficient_finds_none, Hfresh by done. }
  rewrite Hrun. cbn [fst snd placed orders order_menu].
  split_and!; [done| |done| |].
  - eexists. by split.
  - by rewrite length_app, length_fmap.
  - intros Hne Htotal. unfold CartContext_placeOrder.
    rewrite bool_decide_eq_false_2
      by (destruct (itemAmount order); [done | simpl; lia]).
    fold (CartContext_tax (itemAmount order)) in Htotal.
    fold (CartContext_total (itemAmount order)) in Htotal.
    rewrite <-Htotal.
    assert ({| itemAmount := itemAmount order; total := total order;
               emID := emID order |} = order) as -> by by destruct order.
    by rewrite Hrun.
Qed.

(** An empty cart consumes nothing and is within [int4]. *)
Lemma empty_cart_within (d : db) : within_int4 d [].
Proof.
  split.
  - intros line Hline. by apply elem_of_nil in Hline.
  - intros mi line _ Hline. by apply elem_of_nil in Hline.
Qed.

Lemma empty_cart_uses (d : db) (i : Z) : ¬ uses d [] i.
Proof. intros (mi & line & _ & Hline & _). by apply elem_of_nil in Hline. Qed.

(** C7 (as amended): for the empty cart, the [placeOrder] of the client
    fails with the validation error "Your order is empty. Please add items
    first." before it sends the request: the store is not reached, so no
    order and no order line is created, and the cart stays as it is. The
    handler of [POST /api/placeOrder] has no such guard: a request with an
    empty [itemAmount] is checked and, when the next value of the order
    sequence is free, answered 201, with one order row and no order line
    inserted. *)
Theorem CartContext_placeOrder_empty (now userId : Z) (order : Order)
    (d : db) :
  CartContext_placeOrder now userId [] d
  = (Rejected "Your order is empty. Please add items first.", [], d)
  ∧ (itemAmount order = [] →
     orders d !! (orders_order_id_seq d + 1) = None →
     run (api_placeOrder now order) d
     = (Normal (Created ("Order placed successfully, your number is: "
                         +:+ pretty (orders_order_id_seq d + 1))),
        placed now order d)
     ∧ orders (placed now order d)
       = <[orders_order_id_seq d + 1 :=
             {| employee_id := emID order; order_time := now;
                order_total := total order;
                order_status := new_status d |}]> (orders d)
     ∧ order_menu (placed now order d) = order_menu d).
Proof using scan_perm.
  split; [done|]. intros Hempty Hfresh. split_and!; [|done|].
  - rewrite api_placeOrder_run, Hempty.
    rewrite decide_True by apply empty_cart_within. cbv zeta.
    rewrite sufficient_finds_none, Hfresh; [done|].
    intros i inv Huses. by apply empty_cart_uses in Huses.
  - unfold placed. cbn [order_menu]. by rewrite Hempty, app_nil_r.
Qed.

(** ** The kitchen view *)

Lemma elem_of_left_join {B} (l : list B) (x : option B) :
  x ∈ left_join l ↔ (l = [] ∧ x = None) ∨ (∃ y, y ∈ l ∧ x = Some y).
Proof.
  destruct l as [|b l].
  - change (left_join []) with [@None B].
    rewrite list_elem_of_singleton. split; [by left|].
    intros [[_ ->]|(y & Hy & _)]; [done | by apply elem_of_nil in Hy].
  - change (left_join (b :: l)) with (Some <$> (b :: l)).
    rewrite list_elem_of_fmap. split.
    + intros (y & -> & Hy). right. by exists y.
    + intros [[? _]|(y & Hy & ->)]; [done | by exists y].
Qed.

Lemma elem_of_kitchen_select (d : db) (r : kitchen_row) :
  r ∈ kitchen_select d ↔
  ∃ k o om mi,
    orders d !! k = Some o
    ∧ order_status o ∈ [building; waiting]
    ∧ om ∈ left_join (filter (λ om, om_order_id om = k) (order_menu d))
    ∧ mi ∈ left_join (recipe_of d om)
    ∧ r = kitchen_row_of d k o om mi.
Proof.
  unfold kitchen_select. rewrite list_elem_of_bind. split.
  - intros ([k o] & Hr & Ho). apply list_elem_of_filter in Ho as [Hst Ho].
    apply elem_of_map_to_list in Ho.
    apply list_elem_of_bind in Hr as (om & Hr & Hom).
    apply list_elem_of_bind in Hr as (mi & Hr & Hmi).
    apply list_elem_of_singleton in Hr. by exists k, o, om, mi.
  - intros (k & o & om & mi & Ho & Hst & Hom & Hmi & ->).
    exists (k, o). split.
    + apply list_elem_of_bind. exists om. split; [|done].
      apply list_elem_of_bind. exists mi. split; [|done].
      by apply list_elem_of_singleton.
    + apply list_elem_of_filter. split; [done|]. by apply elem_of_map_to_list.
Qed.

(** The rows the handler iterates over are the rows of the join. *)
Lemma elem_of_kitchen_rows (d : db) (r : kitchen_row) :
  r ∈ merge_sort kitchen_le (scan kitchen_row (kitchen_select d))
  ↔ r ∈ kitchen_select d.
Proof using scan_perm. by rewrite merge_sort_Permutation, scan_perm. Qed.

Lemma Object_values_elem_of {V} (o : list (Z * V)) (k : Z) (v : V) :
  (k, v) ∈ o → v ∈ Object_values o.
Proof.
  intros Hin. unfold Object_values. rewrite elem_of_app, !list_elem_of_fmap.
  destruct (decide (is_array_index k)) as [Hk|Hk].
  - left. exists (k, v). split; [done|].
    rewrite merge_sort_Permutation. by apply list_elem_of_filter.
  - right. exists (k, v). split; [done|]. by apply list_elem_of_filter.
Qed.

Lemma push_to_item_keeps (nm : option string) (q : option Z)
    (x : kitchen_ingredient) (items : list kitchen_item) (item : kitchen_item) :
  item ∈ items →
  ∃ item', item' ∈ push_to_item nm q x items
    ∧ kit_name item' = kit_name item
    ∧ kit_amount item' = kit_amount item
    ∧ ∀ y, y ∈ kit_ingredient item → y ∈ kit_ingredient item'.
Proof.
  induction items as [|i0 items IH]; intros Hin; [by apply elem_of_nil in Hin|].
  cbn [push_to_item]. apply elem_of_cons in Hin as [->|Hin].
  - case_decide.
    + eexists. split; [left|]. simpl. split_and!; [done..|].
      intros y Hy. apply elem_of_app. by left.
    + exists i0. split; [left | done].
  - case_decide.
    + exists item. split; [by right | done].
    + destruct (IH Hin) as (item' & Hin' & ?). exists item'.
      split; [by right | done].
Qed.

Lemma push_to_item_adds (nm : option string) (q : option Z)
    (x : kitchen_ingredient) (items : list kitchen_item) :
  ∃ item', item' ∈ push_to_item nm q x items
    ∧ kit_name item' = nm ∧ x ∈ kit_ingredient item'.
Proof.
  induction items as [|i0 items IH]; cbn [push_to_item].
  - eexists. split; [left|]. simpl. split; [done | left].
  - case_decide as Hn.
    + eexists. split; [left|]. simpl. split; [done|].
      apply elem_of_app. right. left.
    + destruct IH as (item' & Hin' & ?). exists item'.
      split; [by right | done].
Qed.

Lemma push_to_item_from (nm : option string) (q : option Z)
    (x : kitchen_ingredient) (items : list kitchen_item) (item' : kitchen_item) :
  item' ∈ push_to_item nm q x items →
  (∃ item, item ∈ items ∧ kit_name item' = kit_name item
     ∧ kit_amount item' = kit_amount item)
  ∨ (kit_name item' = nm ∧ kit_amount item' = q).
Proof.
  induction items as [|i0 items IH]; cbn [push_to_item].
  - intros ->%list_elem_of_singleton. by right.
  - case_decide as Hn.
    + intros [->|Hin]%elem_of_cons.
      * left. exists i0. split; [left | done].
      * left. exists item'. split; [by right | done].
    + intros [->|Hin]%elem_of_cons.
      * left. exists i0. split; [left | done].
      * destruct (IH Hin) as [(item & Hitem & ?)|?]; [|by right].
        left. exists item. split; [by right | done].
Qed.

Lemma push_to_item_names (nm : option string) (q : option Z)
    (x : kitchen_ingredient) (items : list kitchen_item) :
  NoDup (kit_name <$> items) →
  NoDup (kit_name <$> push_to_item nm q x items).
Proof.
  induction items as [|i0 items IH]; cbn [push_to_item].
  - intros _. apply NoDup_singleton.
  - rewrite fmap_cons. intros [Hi0 Hnd]%NoDup_cons. case_decide as Hn.
    + rewrite fmap_cons. simpl. by apply NoDup_cons.
    + rewrite fmap_cons. apply NoDup_cons. split; [|by apply IH].
      intros (item' & Hname & Hin)%list_elem_of_fmap.
      apply push_to_item_from in Hin as [(item & Hitem & Hn' & _)|[Hn' _]].
      * apply Hi0. rewrite Hname, Hn'. by apply list_elem_of_fmap_2.
      * congruence.
Qed.

Lemma NoDup_fmap_eq {A B} (f : A → B) (l : list A) (x y : A) :
  NoDup (f <$> l) → x ∈ l → y ∈ l → f x = f y → x = y.
Proof.
  induction l as [|z l IH]; intros Hnd Hx Hy Hf; [by apply elem_of_nil in Hx|].
  rewrite fmap_cons in Hnd. apply NoDup_cons in Hnd as [Hz Hnd].
  apply elem_of_cons in Hx as [->|Hx]; apply elem_of_cons in Hy as [->|Hy].
  - done.
  - exfalso. apply Hz. rewrite Hf. by apply list_elem_of_fmap_2.
  - exfalso. apply Hz. rewrite <-Hf. by apply list_elem_of_fmap_2.
  - by apply IH.
Qed.

Lemma kitchen_add_row_get (ordersMap : list (Z * kitchen_order))
    (r : kitchen_row) (k : Z) :
  JsMap.get k (kitchen_add_row ordersMap r)
  = if decide (k_order_id r = k)
    then
      let entry :=
        default {| ko_id := k_order_id r; ko_status := k_order_status r;
                   ko_item := [] |}
                (JsMap.get (k_order_id r) ordersMap) in
      Some {| ko_id := ko_id entry;
              ko_status := ko_status entry;
              ko_item := push_to_item (k_item_name r) (k_item_quantity r)
                           (ki_of r) (ko_item entry) |}
    else JsMap.get k ordersMap.
Proof.
  unfold kitchen_add_row. case_decide as Hk.
  - subst k. by rewrite JsMap_get_set_eq.
  - by rewrite JsMap_get_set_ne.
Qed.

Lemma kitchen_add_row_provenance (rows : list kitchen_row)
    (ordersMap : list (Z * kitchen_order)) (r : kitchen_row) :
  kitchen_provenance rows ordersMap →
  kitchen_provenance (rows ++ [r]) (kitchen_add_row ordersMap r).
Proof.
  intros Hprov k ko'. rewrite kitchen_add_row_get. case_decide as Hk.
  - subst k. cbv zeta. intros [= <-]. cbn [ko_id ko_status ko_item].
    destruct (JsMap.get (k_order_id r) ordersMap) as [ko|] eqn:Hget;
      cbn [default ko_id ko_status ko_item].
    + destruct (Hprov _ _ Hget) as (Hid & (r1 & Hr1 & Hk1 & Hst) & Hnd & Hitems).
      split_and!; [done| |by apply push_to_item_names|].
      * exists r1. split; [|done]. apply elem_of_app. by left.
      * intros item' [(item & Hitem & Hn & Ha)|[Hn Ha]]%push_to_item_from.
        -- destruct (Hitems _ Hitem) as (r2 & Hr2 & ? & ? & ?).
           exists r2. split; [apply elem_of_app; by left|].
           split_and!; congruence.
        -- exists r. split; [apply elem_of_app; right; left|]. by rewrite Hn, Ha.
    + split_and!; [done| |apply NoDup_singleton|].
      * exists r. split; [apply elem_of_app; right; left | done].
      * intros item' ->%list_elem_of_singleton. simpl.
        exists r. split; [apply elem_of_app; right; left | done].
  - intros Hget.
    destruct (Hprov _ _ Hget) as (Hid & (r1 & Hr1 & Hk1 & Hst) & Hnd & Hitems).
    split_and!; [done| |done|].
    + exists r1. split; [apply elem_of_app; by left | done].
    + intros item Hitem. destruct (Hitems _ Hitem) as (r2 & Hr2 & ?).
      exists r2. split; [apply elem_of_app; by left | done].
Qed.

Lemma kitchen_add_row_coverage (rows : list kitchen_row)
    (ordersMap : list (Z * kitchen_order)) (r : kitchen_row) :
  kitchen_coverage rows ordersMap →
  kitchen_coverage (rows ++ [r]) (kitchen_add_row ordersMap r).
Proof.
  intros Hcov r' [Hr'|Hr']%elem_of_app.
  2: apply list_elem_of_singleton in Hr' as ->.
  - destruct (Hcov _ Hr') as (ko & item & Hget & Hitem & Hn & Hx).
    rewrite kitchen_add_row_get. case_decide as Hk.
    + rewrite Hk, Hget. cbn [default].
      destruct (push_to_item_keeps (k_item_name r) (k_item_quantity r)
                  (ki_of r) _ _ Hitem) as (item' & Hin' & Hn' & _ & Hsub).
      eexists _, item'. split; [done|]. cbn [ko_item].
      split_and!; [done | congruence | by apply Hsub].
    + by exists ko, item.
  - rewrite kitchen_add_row_get, decide_True by done. cbv zeta.
    destruct (push_to_item_adds (k_item_name r) (k_item_quantity r) (ki_of r)
                (ko_item (default {| ko_id := k_order_id r;
                                     ko_status := k_order_status r;
                                     ko_item := [] |}
                            (JsMap.get (k_order_id r) ordersMap))))
      as (item' & Hin' & Hn' & Hx').
    eexists _, item'. split; [done|]. cbn [ko_item]. done.
Qed.

Lemma kitchen_fold (rows : list kitchen_row) :
  kitchen_provenance rows (foldl kitchen_add_row [] rows)
  ∧ kitchen_coverage rows (foldl kitchen_add_row [] rows).
Proof.
  induction rows as [|r rows [IH1 IH2]] using rev_ind.
  - split; [intros k ko Hget; done | intros r Hr; by apply elem_of_nil in Hr].
  - rewrite foldl_snoc. split;
      [by apply kitchen_add_row_provenance | by apply kitchen_add_row_coverage].
Qed.

Lemma left_join_inhabited {B} (l : list B) : ∃ x, x ∈ left_join l.
Proof.
  destruct l as [|b l].
  - exists None. apply elem_of_left_join. by left.
  - exists (Some b). apply elem_of_left_join. right. exists b. split; [left|done].
Qed.

Lemma api_kitchenOrders_kitchen_run (d : db) :
  run api_kitchenOrders_kitchen d
  = (Normal
       (Object_values
          (foldl kitchen_add_row []
             (merge_sort kitchen_le (scan kitchen_row (kitchen_select d))))),
     d).
Proof. done. Qed.

(** What the kitchen view returns: it reads the store and leaves it alone,
    and lists every order whose status is building or waiting, under its
    id and with its status. For each line of the order the entry has one
    item with the name of the line's menu item, and that item lists every
    recipe row of the menu item, with the name of the inventory item and,
    as amount, the column the query selects for it, [mi.quantity_needed].
    The quantity ordered is carried by the item, as its own amount (lines
    of one order whose menu items have one name share one item, so the
    item's amount is the line's when those lines agree on the quantity). *)
Theorem api_kitchenOrders_kitchen_spec (d : db) (k : Z) (o : orders_row) :
  orders d !! k = Some o →
  order_status o = building ∨ order_status o = waiting →
  ∃ view ko,
    run api_kitchenOrders_kitchen d = (Normal view, d)
    ∧ ko ∈ view ∧ ko_id ko = k ∧ ko_status ko = order_status o
    ∧ ∀ om, om ∈ order_menu d → om_order_id om = k →
        ∃ item, item ∈ ko_item ko
          ∧ kit_name item = menu_item_name <$> menu d !! om_menu_item_id om
          ∧ (∀ mi, mi ∈ menu_ingredients d →
               mi_menu_item_id mi = om_menu_item_id om →
               {| ki_ingredientName :=
                    inv_item_name <$> inventory d !! mi_inventory_id mi;
                  ki_amount := Some (mi_quantity_needed mi) |}
                 ∈ kit_ingredient item)
          ∧ ((∀ om', om' ∈ order_menu d → om_order_id om' = k →
                menu_item_name <$> menu d !! om_menu_item_id om'
                  = menu_item_name <$> menu d !! om_menu_item_id om →
                om_quantity_ordered om' = om_quantity_ordered om) →
             kit_amount item = Some (om_quantity_ordered om)).
Proof using scan_perm.
  intros Ho Hst. rewrite api_kitchenOrders_kitchen_run.
  set (rows := merge_sort kitchen_le (scan kitchen_row (kitchen_select d))).
  destruct (kitchen_fold rows) as [Hprov Hcov].
  set (ordersMap := foldl kitchen_add_row [] rows) in *.
  assert (order_status o ∈ [building; waiting]) as Hst'.
  { destruct Hst as [-> | ->]; set_solver. }
  assert (∀ om mi,
            om ∈ left_join (filter (λ om, om_order_id om = k) (order_menu d)) →
            mi ∈ left_join (recipe_of d om) →
            kitchen_row_of d k o om mi ∈ rows) as Hrow.
  { intros om mi Hom Hmi. apply elem_of_kitchen_rows, elem_of_kitchen_select.
    by exists k, o, om, mi. }
  destruct (left_join_inhabited
              (filter (λ om, om_order_id om = k) (order_menu d))) as [om0 Hom0].
  destruct (left_join_inhabited (recipe_of d om0)) as [mi0 Hmi0].
  destruct (Hcov _ (Hrow om0 mi0 Hom0 Hmi0)) as (ko & _ & Hget & _).
  cbn [kitchen_row_of k_order_id] in Hget.
  destruct (Hprov _ _ Hget) as (Hid & (r1 & Hr1 & Hk1 & Hst1) & Hnd & Hitems).
  exists (Object_values ordersMap), ko. split_and!; [done| |done| |].
  - eapply Object_values_elem_of. by apply JsMap_get_elem_of.
  - rewrite Hst1. apply elem_of_kitchen_rows, elem_of_kitchen_select in Hr1
      as (k' & o' & om' & mi' & Ho' & _ & _ & _ & ->).
    cbn [kitchen_row_of k_order_id k_order_status] in *. by simplify_eq.
  - intros om Hom Hk.
    assert (Some om ∈ left_join (filter (λ om, om_order_id om = k)
                                   (order_menu d))) as Hom'.
    { apply elem_of_left_join. right. exists om. split; [|done].
      by apply list_elem_of_filter. }
    destruct (left_join_inhabited (recipe_of d (Some om))) as [mi1 Hmi1].
    destruct (Hcov _ (Hrow _ _ Hom' Hmi1)) as (ko1 & item & Hget1 & Hitem & Hn & _).
    cbn [kitchen_row_of k_order_id k_item_name mbind option_bind] in Hget1, Hn.
    rewrite Hget in Hget1. injection Hget1 as <-.
    exists item. split_and!; [done..| |].
    + intros mi Hmi Hmenu.
      assert (Some mi ∈ left_join (recipe_of d (Some om))) as Hmi'.
      { apply elem_of_left_join. right. exists mi. split; [|done].
        by apply list_elem_of_filter. }
      destruct (Hcov _ (Hrow _ _ Hom' Hmi')) as (ko2 & item2 & Hget2 & Hitem2 & Hn2 & Hx).
      cbn [kitchen_row_of k_order_id k_item_name mbind option_bind] in Hget2, Hn2.
      rewrite Hget in Hget2. injection Hget2 as <-.
      assert (item2 = item) as ->.
      { eapply (NoDup_fmap_eq kit_name); [done..|]. congruence. }
      exact Hx.
    + intros Hsame. destruct (Hitems _ Hitem) as (r2 & Hr2 & Hk2 & Hn2 & Ha2).
      apply elem_of_kitchen_rows, elem_of_kitchen_select in Hr2
        as (k' & o' & om' & mi' & Ho' & _ & Hom2 & _ & ->).
      cbn [kitchen_row_of k_order_id k_item_name k_item_quantity] in *.
      subst k'. apply elem_of_left_join in Hom2 as [[Hnil _]|(om2 & Hom2 & ->)].
      * apply elem_of_left_join in Hom' as [[_ ?]|(y & Hy & _)]; [done|].
        rewrite Hnil in Hy. by apply elem_of_nil in Hy.
      * apply list_elem_of_filter in Hom2 as [Hk2 Hom2].
        rewrite Ha2. cbn [fmap option_fmap option_map]. f_equal.
        apply Hsame; [done..|]. cbn [mbind option_bind] in Hn2. congruence.
Qed.

Lemma at_most_one_building_count (d : db) :
  (length (select_orders_where building d) ≤ 1)%nat → at_most_one_building d.
Proof.
  intros Hlen k1 k2 (o1 & H1 & S1) (o2 & H2 & S2).
  assert ((k1, o1) ∈ select_orders_where building d) as Hin1.
  { apply list_elem_of_filter. split; [done|]. by apply elem_of_map_to_list. }
  assert ((k2, o2) ∈ select_orders_where building d) as Hin2.
  { apply list_elem_of_filter. split; [done|]. by apply elem_of_map_to_list. }
  destruct (select_orders_where building d) as [|x [|y l]].
  - by apply elem_of_nil in Hin1.
  - apply list_elem_of_singleton in Hin1, Hin2. congruence.
  - simpl in Hlen. lia.
Qed.

(** ** The lane in the order of arrival *)

Lemma elem_of_active_ids (d : db) (k : Z) :
  k ∈ active_ids d ↔ ∃ o, orders d !! k = Some o ∧ order_status o ≠ complete.
Proof.
  unfold active_ids. rewrite elem_of_dom. unfold is_Some.
  setoid_rewrite map_lookup_filter_Some. naive_solver.
Qed.

(** The statuses after the [UPDATE], on a lane with at most one building
    order. *)
Lemma updateOrderQuery_has_status (d : db) (st : status) (k : Z) :
  at_most_one_building d →
  has_status st (updateOrderQuery d) k ↔
  match st with
  | complete => has_status complete d k ∨ has_status building d k
  | building => first_order_id waiting d = Some k
  | waiting => has_status waiting d k ∧ first_order_id waiting d ≠ Some k
  end.
Proof.
  intros Hone. unfold has_status at 1. rewrite updateOrderQuery_lookup.
  destruct (orders d !! k) as [o|] eqn:Hk; simpl.
  2:{ split; [by intros (? & ? & _)|].
      destruct st.
      - intros Hw. apply first_order_id_Some in Hw as [(o & Ho & _) _].
        congruence.
      - intros [(o & Ho & _) _]. congruence.
      - intros [(o & Ho & _)|(o & Ho & _)]; congruence. }
  assert (has_status (order_status o) d k) as Hst by by exists o.
  assert (∀ st', has_status st' d k → st' = order_status o) as Honly.
  { intros st' (o' & Ho' & <-). congruence. }
  destruct (decide (first_order_id building d = Some k)) as [Hb|Hb].
  { apply first_order_id_Some in Hb as Hb'. destruct Hb' as [Hb' _].
    apply Honly in Hb' as Hbo. split.
    - intros (o' & [= <-] & <-). cbn [set_status order_status]. right.
      by rewrite Hbo.
    - destruct st.
      + intros Hw. apply first_order_id_Some in Hw as [Hw _].
        apply Honly in Hw. congruence.
      + intros [Hw _]. apply Honly in Hw. congruence.
      + intros _. by eexists. }
  destruct (decide (first_order_id waiting d = Some k)) as [Hw|Hw].
  { apply first_order_id_Some in Hw as Hw'. destruct Hw' as [Hw' _].
    apply Honly in Hw' as Hwo. split.
    - intros (o' & [= <-] & <-). done.
    - destruct st.
      + intros _. by eexists.
      + by intros [_ ?].
      + intros [Hc|Hc]; apply Honly in Hc; congruence. }
  split.
  - intros (o' & [= <-] & <-). destruct (order_status o) eqn:Ho.
    + exfalso. apply Hb. by apply first_order_id_unique.
    + done.
    + by left.
  - destruct st.
    + intros ?. done.
    + intros [Hst' _]. apply Honly in Hst'. by exists o.
    + intros [Hst'|Hst']; apply Honly in Hst'; [by exists o|].
      exfalso. apply Hb, first_order_id_unique; [done|]. by rewrite Hst'.
Qed.

Lemma placed_lookup (now : Z) (order : Order) (d : db) (k : Z) :
  orders (placed now order d) !! k
  = if decide (k = orders_order_id_seq d + 1)
    then Some {| employee_id := emID order; order_time := now;
                 order_total := total order; order_status := new_status d |}
    else orders d !! k.
Proof.
  unfold placed. cbn [orders]. rewrite lookup_insert.
  repeat case_decide; congruence.
Qed.

Lemma seq_ahead_fresh (d : db) :
  seq_ahead d → orders d !! (orders_order_id_seq d + 1) = None.
Proof.
  intros Hseq. destruct (orders d !! _) as [o|] eqn:Ho; [|done].
  apply Hseq in Ho. lia.
Qed.

Lemma placed_seq_ahead (now : Z) (order : Order) (d : db) :
  seq_ahead d → seq_ahead (placed now order d).
Proof.
  intros Hseq k o. rewrite placed_lookup. cbn [placed orders_order_id_seq].
  case_decide; [lia|]. intros Hk. apply Hseq in Hk. lia.
Qed.

Lemma placed_lane_in_order (now : Z) (order : Order) (d : db) :
  lane_in_order d → lane_in_order (placed now order d).
Proof using scan_perm.
  intros (Hseq & Hone & Hwait & Hdone).
  assert (∀ st k, has_status st (placed now order d) k ↔
            (k = orders_order_id_seq d + 1 ∧ st = new_status d)
            ∨ (k ≠ orders_order_id_seq d + 1 ∧ has_status st d k)) as Hst.
  { intros st k. unfold has_status. rewrite placed_lookup.
    case_decide as Hk; [|naive_solver]. split.
    - intros (o & [= <-] & <-). by left.
    - intros [[_ ->]|[? _]]; [|done]. by eexists. }
  assert (∀ st k, has_status st d k → k < orders_order_id_seq d + 1) as Hold.
  { intros st k (o & Hk & _). apply Hseq in Hk. lia. }
  split_and!.
  - by apply placed_seq_ahead.
  - intros k1 k2 [[-> Hn1]|[? Hk1]]%Hst [[-> Hn2]|[? Hk2]]%Hst; [done| | |].
    + exfalso. assert (new_status d = waiting) as Hw
        by (apply new_status_waiting; by exists k2). congruence.
    + exfalso. assert (new_status d = waiting) as Hw
        by (apply new_status_waiting; by exists k1). congruence.
    + by apply Hone.
  - intros kw [[-> Hn]|[? Hkw]]%Hst.
    + symmetry in Hn. apply new_status_waiting in Hn as [kb Hkb].
      exists kb. split; [|by eapply Hold]. apply Hst. right.
      split; [|done]. apply Hold in Hkb. lia.
    + destruct (Hwait kw Hkw) as (kb & Hkb & Hlt). exists kb.
      split; [|done]. apply Hst. right. split; [|done].
      apply Hold in Hkb. lia.
  - intros kc k o [[-> Hn]|[? Hkc]]%Hst.
    + destruct (new_status_cases d); congruence.
    + rewrite placed_lookup. case_decide as Hk.
      * intros _ _. subst k. by eapply Hold.
      * by apply Hdone.
Qed.

Lemma updateOrderQuery_lane_in_order (d : db) :
  lane_in_order d → lane_in_order (updateOrderQuery d).
Proof.
  intros (Hseq & Hone & Hwait & Hdone).
  assert (∀ k o', orders (updateOrderQuery d) !! k = Some o' →
            ∃ o, orders d !! k = Some o) as Hkeys.
  { intros k o'. rewrite updateOrderQuery_lookup.
    destruct (orders d !! k) as [o|]; [by exists o | done]. }
  split_and!.
  - intros k o' Hk. destruct (Hkeys _ _ Hk) as (o & Ho). by eapply Hseq.
  - intros k1 k2 Hk1 Hk2.
    apply updateOrderQuery_has_status in Hk1, Hk2; try done. congruence.
  - intros kw [Hkw Hnot]%updateOrderQuery_has_status; [|done].
    destruct (first_order_id waiting d) as [w|] eqn:Hw.
    + exists w. split; [by apply updateOrderQuery_has_status|].
      apply first_order_id_Some in Hw as [_ Hmin].
      assert (w ≤ kw) by by apply Hmin.
      assert (w ≠ kw) by congruence. lia.
    + exfalso. by eapply first_order_id_None.
  - intros kc k o' [Hc|Hb]%updateOrderQuery_has_status Hk Hst; try done.
    + destruct (Hkeys _ _ Hk) as (o & Ho).
      apply (Hdone kc k o); [done..|]. intros Hco.
      assert (has_status complete (updateOrderQuery d) k) as Hc'.
      { apply updateOrderQuery_has_status; [done|]. left. by exists o. }
      destruct Hc' as (o'' & Hk'' & Hst''). congruence.
    + assert (has_status (order_status o') (updateOrderQuery d) k) as Hk'
        by by exists o'.
      destruct (order_status o') eqn:Ho'; [| |done].
      * apply updateOrderQuery_has_status in Hk'; [|done].
        apply first_order_id_Some in Hk' as [Hk' _].
        destruct (Hwait k Hk') as (kb & Hkb & Hlt).
        by rewrite (Hone kc kb).
      * apply updateOrderQuery_has_status in Hk' as [Hk' _]; [|done].
        destruct (Hwait k Hk') as (kb & Hkb & Hlt).
        by rewrite (Hone kc kb).
Qed.

Lemma step_lane_in_order (d : db) (c : call) :
  lane_in_order d → lane_in_order (step d c).
Proof using scan_perm.
  intros Hlane. destruct c as [now order|]; unfold step.
  - rewrite api_placeOrder_run. case_decide as Hrange; [|done]. cbv zeta.
    destruct (list_find _ _) as [[i r]|]; [done|].
    rewrite seq_ahead_fresh by apply Hlane.
    by apply placed_lane_in_order.
  - rewrite api_kitchenNext_run. by apply updateOrderQuery_lane_in_order.
Qed.

(** Orders are served in the order of their ids. On a ledger whose orders
    got their ids from the sequence and were served in that order so far,
    any sequence of [POST /api/placeOrder] and [PUT /api/kitchenNext] calls
    keeps it so: the orders that are complete are older than every order
    that is not, a waiting order has an older building order before it, at
    most one order is building, and the sequence stays ahead of the keys. *)
Theorem lane_served_in_order (d : db) (calls : list call) :
  lane_in_order d → lane_in_order (foldl step d calls).
Proof using scan_perm.
  revert d. induction calls as [|c calls IH]; intros d Hlane; [done|].
  simpl. by apply IH, step_lane_in_order.
Qed.

(** On a ledger whose sequence is ahead of its keys, [POST /api/placeOrder]
    is answered 500 exactly for a cart outside [int4], on which the query
    of the check fails, and nothing is stored then. For a cart within
    [int4] it answers 201 and stores the order under the next value of the
    sequence, or answers 400 and stores nothing. The sequence is ahead of
    the keys afterwards. *)
Theorem api_placeOrder_outcomes (now : Z) (order : Order) (d : db) :
  seq_ahead d →
  (within_int4 d (itemAmount order) →
     (∃ message,
        run (api_placeOrder now order) d
        = (Normal (Created message), placed now order d))
     ∨ (∃ error,
          run (api_placeOrder now order) d = (Normal (BadRequest error), d)))
  ∧ (¬ within_int4 d (itemAmount order) →
       run (api_placeOrder now order) d = (Normal ServerError, d))
  ∧ seq_ahead (run (api_placeOrder now order) d).2.
Proof using scan_perm.
  intros Hseq. rewrite api_placeOrder_run.
  case_decide as Hrange; [|by split_and!].
  cbv zeta. destruct (list_find _ _) as [[i r]|].
  - split_and!; [right; by eexists | done | done].
  - rewrite seq_ahead_fresh by done.
    split_and!; [left; by eexists | done | by apply placed_seq_ahead].
Qed.

Lemma active_ids_updateOrderQuery (d : db) (b : Z) :
  lane_in_order d → has_status building d b →
  active_ids (updateOrderQuery d) = active_ids d ∖ {[ b ]}.
Proof.
  intros (Hseq & Hone & Hwait & Hdone) Hb.
  apply set_eq. intros k. rewrite elem_of_difference, elem_of_singleton,
    !elem_of_active_ids. split.
  - intros (o' & Hk' & Hst').
    assert (has_status (order_status o') (updateOrderQuery d) k) as Hk
      by by exists o'.
    destruct (order_status o') eqn:Ho'; [| |done].
    + apply updateOrderQuery_has_status in Hk; [|done].
      apply first_order_id_Some in Hk as [(o & Hk & Hw) _].
      split; [exists o; split; [done | congruence]|].
      intros ->. destruct Hb as (ob & Hkb & Hstb). congruence.
    + apply updateOrderQuery_has_status in Hk as [(o & Hk & Hw) _]; [|done].
      split; [exists o; split; [done | congruence]|].
      intros ->. destruct Hb as (ob & Hkb & Hstb). congruence.
  - intros [(o & Hk & Hst) Hne].
    assert (has_status (order_status o) d k) as Hk' by by exists o.
    destruct (order_status o) eqn:Ho; [| |done].
    + by destruct Hne, (Hone k b).
    + destruct (decide (first_order_id waiting d = Some k)) as [Hw|Hw].
      * assert (has_status building (updateOrderQuery d) k) as (o' & ? & ?)
          by by apply updateOrderQuery_has_status.
        exists o'. split; [done | congruence].
      * assert (has_status waiting (updateOrderQuery d) k) as (o' & ? & ?)
          by by apply updateOrderQuery_has_status.
        exists o'. split; [done | congruence].
Qed.

Lemma active_ids_building (d : db) (k : Z) :
  lane_in_order d → k ∈ active_ids d → ∃ b, has_status building d b.
Proof.
  intros (Hseq & Hone & Hwait & Hdone) (o & Hk & Hst)%elem_of_active_ids.
  destruct (order_status o) eqn:Ho; [| |done].
  - exists k. by exists o.
  - destruct (Hwait k) as (b & Hb & _); [by exists o | by exists b].
Qed.

Lemma updateOrderQuery_idle (d : db) :
  active_ids d = ∅ → updateOrderQuery d = d.
Proof.
  intros Hidle.
  assert (∀ st, st ≠ complete → first_order_id st d = None) as Hnone.
  { intros st Hst. apply first_order_id_None. intros k (o & Hk & Ho).
    assert (k ∈ active_ids d) as Hin
      by (apply elem_of_active_ids; exists o; split; [done | congruence]).
    rewrite Hidle in Hin. by apply elem_of_empty in Hin. }
  assert (orders (updateOrderQuery d) = orders d) as Ho.
  { apply map_eq. intros k. rewrite updateOrderQuery_lookup.
    rewrite !Hnone by done. destruct (orders d !! k); [|done]. simpl.
    by repeat case_decide. }
  unfold updateOrderQuery in *. cbn [orders with_orders] in Ho.
  unfold with_orders. rewrite Ho. by destruct d.
Qed.

Lemma advance_active_ids (d : db) :
  lane_in_order d →
  size (active_ids (updateOrderQuery d)) = (size (active_ids d) - 1)%nat.
Proof.
  intros Hlane. destruct (decide (active_ids d = ∅)) as [Hidle|Hbusy].
  - rewrite updateOrderQuery_idle by done. rewrite Hidle, size_empty. done.
  - apply set_choose_L in Hbusy as [k Hk].
    destruct (active_ids_building d k Hlane Hk) as (b & Hb).
    rewrite (active_ids_updateOrderQuery d b) by done.
    assert (b ∈ active_ids d) as Hin.
    { apply elem_of_active_ids. destruct Hb as (o & ? & ?).
      exists o. split; [done | congruence]. }
    rewrite size_difference by (by apply singleton_subseteq_l).
    by rewrite size_singleton.
Qed.

(** The lane drains: on a lane served in order, [n] calls of [PUT
    /api/kitchenNext] leave [n] fewer orders that are not complete, none
    when [n] is at least their number; every order is then complete, and
    an order that was complete stays complete. *)
Theorem kitchenNext_drains (d : db) (n : nat) :
  lane_in_order d →
  let d' := foldl step d (replicate n KitchenNext) in
  size (active_ids d') = (size (active_ids d) - n)%nat
  ∧ ((size (active_ids d) ≤ n)%nat →
       ∀ k o, orders d' !! k = Some o → order_status o = complete)
  ∧ (∀ k, has_status complete d k → has_status complete d' k).
Proof.
  intros Hlane. cbv zeta.
  assert (size (active_ids (foldl step d (replicate n KitchenNext)))
          = (size (active_ids d) - n)%nat
          ∧ (∀ k, has_status complete d k →
               has_status complete (foldl step d (replicate n KitchenNext)) k))
    as [Hsize Hkeep].
  { revert d Hlane. induction n as [|n IH]; intros d Hlane.
    - simpl. split; [lia | done].
    - cbn [replicate foldl step]. rewrite api_kitchenNext_run. cbn [snd].
      destruct (IH (updateOrderQuery d)) as [IH1 IH2];
        [by apply updateOrderQuery_lane_in_order|].
      rewrite IH1, advance_active_ids by done. split; [lia|].
      intros k Hk. apply IH2.
      apply updateOrderQuery_has_status; [apply Hlane | by left]. }
  split_and!; [done | | done].
  intros Hn k o Hk. destruct (decide (order_status o = complete)); [done|].
  assert (k ∈ active_ids (foldl step d (replicate n KitchenNext))) as Hin
    by (apply elem_of_active_ids; by exists o).
  assert (size (active_ids (foldl step d (replicate n KitchenNext))) = 0%nat)
    as H0 by lia.
  apply size_empty_inv in H0. by apply H0 in Hin.
Qed.

(** ** The menu board *)

Lemma elem_of_ids_of (st : status) (d : db) (k : Z) :
  k ∈ ids_of st d ↔ has_status st d k.
Proof.
  unfold ids_of. rewrite merge_sort_Permutation. apply elem_of_select_ids.
Qed.

Lemma ids_of_sorted (st : status) (d : db) : StronglySorted Z.le (ids_of st d).
Proof. apply StronglySorted_merge_sort; apply _. Qed.

Lemma ids_of_NoDup (st : status) (d : db) : NoDup (ids_of st d).
Proof.
  unfold ids_of. rewrite merge_sort_Permutation. unfold select_orders_where.
  assert (∀ l : list (Z * orders_row), NoDup l.*1 →
            NoDup (filter (λ o, order_status o.2 = st) l).*1) as Hfilter.
  { induction l as [|x l IH]; [done|]. rewrite fmap_cons, NoDup_cons.
    intros [Hx Hl]. rewrite filter_cons. case_decide; [|by apply IH].
    rewrite fmap_cons. apply NoDup_cons. split; [|by apply IH].
    intros Hin. apply Hx. apply list_elem_of_fmap in Hin as (y & -> & Hy).
    apply list_elem_of_filter in Hy as [_ Hy]. by apply list_elem_of_fmap_2. }
  apply Hfilter, NoDup_fst_map_to_list.
Qed.

Lemma max_complete_id_Some (d : db) (m : Z) :
  max_complete_id d = Some m ↔
  has_status complete d m ∧ ∀ k, has_status complete d k → k ≤ m.
Proof.
  unfold max_complete_id. fold (ids_of complete d).
  pose proof (ids_of_sorted complete d) as Hsorted.
  pose proof (elem_of_ids_of complete d) as Hin.
  destruct (last (ids_of complete d)) as [m0|] eqn:Hlast.
  - apply last_Some in Hlast as [l' Hl']. rewrite Hl' in Hsorted, Hin.
    apply StronglySorted_app in Hsorted as (Hle & _ & _).
    assert (has_status complete d m0) as Hm0
      by (apply Hin, elem_of_app; right; apply list_elem_of_here).
    assert (∀ k, has_status complete d k → k ≤ m0) as Hmax.
    { intros k [Hk|Hk]%Hin%elem_of_app.
      - apply Hle; [done | apply list_elem_of_here].
      - apply list_elem_of_singleton in Hk. lia. }
    split.
    + by intros [= <-].
    + intros [Hm Hall]. f_equal.
      assert (m ≤ m0) by by apply Hmax. assert (m0 ≤ m) by by apply Hall. lia.
  - apply last_None in Hlast. rewrite Hlast in Hin. split; [done|].
    intros [Hm _]. apply Hin in Hm. by apply elem_of_nil in Hm.
Qed.

Local Instance board_le_trans : Transitive board_le.
Proof. intros a b c. unfold board_le. lia. Qed.

Local Instance board_le_total : Total board_le.
Proof. intros a b. unfold board_le. lia. Qed.

Local Instance board_le_antisymm : AntiSymm (=) board_le.
Proof.
  intros [ca ka sa] [cb kb sb]. unfold board_le. cbn.
  intros Hab Hba. assert (ca = cb ∧ ka = kb ∧ status_rank sa = status_rank sb)
    as (-> & -> & Hs) by lia.
  f_equal. by destruct sa, sb.
Qed.

Lemma elem_of_board_select (d : db) (x : board_row) :
  x ∈ board_select d ↔
  ∃ k o, orders d !! k = Some o
    ∧ (order_status o ∈ [building; waiting] ∨ is_latest_complete d (k, o))
    ∧ x = {| b_case := if decide (is_latest_complete d (k, o)) then 0 else 1;
             b_order_id := k;
             b_order_status := order_status o |}.
Proof.
  unfold board_select. rewrite list_elem_of_fmap. split.
  - intros ([k o] & -> & Hin). apply list_elem_of_filter in Hin as [Hc Hin].
    apply elem_of_map_to_list in Hin. by exists k, o.
  - intros (k & o & Hk & Hc & ->). exists (k, o). split; [done|].
    apply list_elem_of_filter. split; [done|]. by apply elem_of_map_to_list.
Qed.

Lemma board_select_NoDup (d : db) : NoDup (board_select d).
Proof.
  unfold board_select. apply NoDup_fmap_2_strong.
  - intros [k1 o1] [k2 o2] [_ H1%elem_of_map_to_list]%list_elem_of_filter
      [_ H2%elem_of_map_to_list]%list_elem_of_filter [= _ Hk _].
    cbn in Hk. subst k2. congruence.
  - apply NoDup_filter, NoDup_map_to_list.
Qed.

Lemma elem_of_board_rows (d : db) (x : board_row) :
  x ∈ board_rows d ↔
  (max_complete_id d = Some (b_order_id x)
   ∧ x = board_row_of 0 complete (b_order_id x))
  ∨ (∃ st, st ∈ [building; waiting] ∧ has_status st d (b_order_id x)
       ∧ x = board_row_of 1 st (b_order_id x)).
Proof.
  unfold board_rows. rewrite !elem_of_app, !list_elem_of_fmap. split.
  - intros [(k & -> & Hk)|[(k & -> & Hk)|(k & -> & Hk)]].
    + left. destruct (max_complete_id d) as [m|]; simpl in Hk.
      * apply list_elem_of_singleton in Hk. by subst.
      * by apply elem_of_nil in Hk.
    + right. exists building. apply elem_of_ids_of in Hk.
      split_and!; [apply list_elem_of_here | done..].
    + right. exists waiting. apply elem_of_ids_of in Hk.
      split_and!; [apply list_elem_of_further, list_elem_of_here | done..].
  - intros [[Hm ->]|(st & Hst & Hk & ->)]; cbn [b_order_id board_row_of] in *.
    + left. eexists. split; [done|]. rewrite Hm. apply list_elem_of_here.
    + right. apply elem_of_ids_of in Hk. elem_cases Hst.
      * left. by eexists.
      * right. by eexists.
Qed.

Lemma board_rows_NoDup (d : db) : NoDup (board_rows d).
Proof.
  unfold board_rows. rewrite !NoDup_app. split_and!.
  - destruct (max_complete_id d); simpl; [apply NoDup_singleton | apply NoDup_nil_2].
  - intros x (k1 & -> & _)%list_elem_of_fmap
      [(k2 & [=] & _)%list_elem_of_fmap|(k2 & [=] & _)%list_elem_of_fmap]%elem_of_app.
  - apply NoDup_fmap_2; [by intros ?? [=] | apply ids_of_NoDup].
  - intros x (k1 & -> & _)%list_elem_of_fmap (k2 & [=] & _)%list_elem_of_fmap.
  - apply NoDup_fmap_2; [by intros ?? [=] | apply ids_of_NoDup].
Qed.

Lemma board_rows_sorted (d : db) : StronglySorted board_le (board_rows d).
Proof.
  unfold board_rows. apply StronglySorted_app_2; [| |apply StronglySorted_app_2].
  - intros x1 x2 (k1 & -> & _)%list_elem_of_fmap
      [(k2 & -> & _)%list_elem_of_fmap|(k2 & -> & _)%list_elem_of_fmap]%elem_of_app;
      left; cbn; lia.
  - destruct (max_complete_id d); simpl; repeat constructor.
  - intros x1 x2 (k1 & -> & _)%list_elem_of_fmap (k2 & -> & _)%list_elem_of_fmap.
    right. split; [done|]. left. cbn. lia.
  - eapply StronglySorted_fmap; [|apply ids_of_sorted].
    intros k1 k2 Hle. right. split; [done|]. right. by split.
  - eapply StronglySorted_fmap; [|apply ids_of_sorted].
    intros k1 k2 Hle. right. split; [done|]. right. by split.
Qed.

Lemma board_select_rows (d : db) : board_select d ≡ₚ board_rows d.
Proof.
  apply NoDup_Permutation; [apply board_select_NoDup | apply board_rows_NoDup|].
  intros x. rewrite elem_of_board_select, elem_of_board_rows. split.
  - intros (k & o & Hk & Hc & ->). cbn [b_order_id].
    destruct (decide (is_latest_complete d (k, o))) as [[Hst Hm]|Hnot].
    + left. cbn in Hst, Hm. unfold board_row_of. by rewrite Hst.
    + right. destruct Hc as [Hc|?]; [|done]. exists (order_status o).
      split_and!; [done | by exists o | done].
  - intros [[Hm ->]|(st & Hst & (o & Hk & <-) & ->)].
    + cbn [b_order_id board_row_of].
      apply max_complete_id_Some in Hm as Hm'. destruct Hm' as [(o & Hk & Hst) _].
      assert (is_latest_complete d (b_order_id x, o)) as Hl by done.
      exists (b_order_id x), o. split_and!; [done | by right|].
      rewrite decide_True by done. by rewrite Hst.
    + exists (b_order_id x), o. split_and!; [done | by left|].
      rewrite decide_False; [done|]. intros [Hc _]. cbn in Hc.
      rewrite Hc in Hst.
      repeat (apply elem_of_cons in Hst as [?|Hst]; [done|]).
      by apply elem_of_nil in Hst.
Qed.

Lemma board_json_rows (d : db) : board_json <$> board_rows d = board_of d.
Proof.
  unfold board_rows, board_of. rewrite !fmap_app, <-!list_fmap_compose. done.
Qed.

Lemma api_kitchenOrders_menu_run (d : db) :
  run (api_kitchenOrders (Some "menu")) d
  = (Normal (OrdersOk (board_of d)), d).
Proof using scan_perm.
  unfold run, api_kitchenOrders, try_catch, mbind, js_bind, pool_query.
  cbn [default store]. rewrite decide_False by done.
  rewrite decide_True by done. unfold mret, js_ret. cbn [store].
  do 3 f_equal. rewrite <-board_json_rows. f_equal.
  apply (StronglySorted_unique board_le).
  - apply StronglySorted_merge_sort; apply _.
  - apply board_rows_sorted.
  - by rewrite merge_sort_Permutation, scan_perm, board_select_rows.
Qed.

(** [GET /api/kitchenOrders?source=menu] answers with the latest completed
    order first, when there is one, then the building orders, then the
    waiting orders, each group by ascending id, whatever the order in which
    the server scans the table; completed orders other than the latest are
    not listed, and the store is left alone. Any [source] other than
    "kitchen" and "menu", or none, is answered with the empty list. *)
Theorem api_kitchenOrders_menu (d : db) :
  run (api_kitchenOrders (Some "menu")) d
  = (Normal (OrdersOk (board_of d)), d)
  ∧ (∀ k, listed complete k ∈ board_of d ↔
       has_status complete d k ∧ ∀ k', has_status complete d k' → k' ≤ k)
  ∧ (∀ source, source ≠ Some "kitchen" → source ≠ Some "menu" →
       run (api_kitchenOrders source) d = (Normal (OrdersOk []), d)).
Proof using scan_perm.
  split_and!.
  - apply api_kitchenOrders_menu_run.
  - intros k. rewrite <-max_complete_id_Some. unfold board_of.
    rewrite !elem_of_app, !list_elem_of_fmap. split.
    + intros [(k' & [= <-] & Hk)|[(k' & [=] & _)|(k' & [=] & _)]].
      destruct (max_complete_id d); simpl in Hk.
      * apply list_elem_of_singleton in Hk. by subst.
      * by apply elem_of_nil in Hk.
    + intros ->. left. eexists. split; [done|]. apply list_elem_of_here.
  - intros source Hk Hm. unfold run, api_kitchenOrders, try_catch.
    destruct source as [source|]; [|done].
    change (default "" (Some source)) with source.
    destruct (decide (source = "kitchen")) as [->|_]; [done|].
    destruct (decide (source = "menu")) as [->|_]; [done|]. done.
Qed.

(** ** The order of the kitchen view *)

Lemma JsMap_elem_of_get {V} (k : Z) (v : V) (m : list (Z * V)) :
  NoDup m.*1 → (k, v) ∈ m → JsMap.get k m = Some v.
Proof.
  induction m as [|[k' v'] m IH]; intros Hnd Hin; [by apply elem_of_nil in Hin|].
  rewrite fmap_cons in Hnd. apply NoDup_cons in Hnd as [Hk' Hnd].
  cbn [JsMap.get]. apply elem_of_cons in Hin as [[= <- <-]|Hin].
  - by rewrite decide_True.
  - rewrite decide_False; [by apply IH|]. intros ->. apply Hk'.
    by apply (list_elem_of_fmap_2 fst) in Hin.
Qed.

Lemma kitchen_fold_NoDup (rows : list kitchen_row) :
  NoDup (foldl kitchen_add_row [] rows).*1.
Proof.
  induction rows as [|r rows IH] using rev_ind; [apply NoDup_nil_2|].
  rewrite foldl_snoc. unfold kitchen_add_row at 1. by apply JsMap_set_NoDup.
Qed.

Lemma kitchen_fold_keys (rows : list kitchen_row) (k : Z) :
  k ∈ (foldl kitchen_add_row [] rows).*1 ↔ ∃ r, r ∈ rows ∧ k_order_id r = k.
Proof.
  destruct (kitchen_fold rows) as [Hprov Hcov]. split.
  - intros [ko Hget]%JsMap_get_is_Some.
    destruct (Hprov _ _ Hget) as (_ & (r & Hr & Hk & _) & _). by exists r.
  - intros (r & Hr & <-). destruct (Hcov _ Hr) as (ko & _ & Hget & _).
    apply JsMap_get_elem_of in Hget. by apply (list_elem_of_fmap_2 fst) in Hget.
Qed.

Lemma kitchen_fold_entry (rows : list kitchen_row) (k : Z) (ko : kitchen_order) :
  (k, ko) ∈ foldl kitchen_add_row [] rows →
  ko_id ko = k
  ∧ ∃ r, r ∈ rows ∧ k_order_id r = k ∧ ko_status ko = k_order_status r.
Proof.
  intros Hin. apply JsMap_elem_of_get in Hin; [|apply kitchen_fold_NoDup].
  destruct (kitchen_fold rows) as [Hprov _].
  destruct (Hprov _ _ Hin) as (Hid & Hr & _). done.
Qed.

(** The orders with a row in the join are the orders that are not
    complete. *)
Lemma kitchen_rows_active (d : db) (k : Z) :
  (∃ r, r ∈ kitchen_select d ∧ k_order_id r = k) ↔ k ∈ active_ids d.
Proof.
  rewrite elem_of_active_ids. split.
  - intros (r & (k' & o & om & mi & Hk & Hst & _ & _ & ->)%elem_of_kitchen_select
              & <-).
    exists o. split; [done|]. intros Hc. rewrite Hc in Hst.
    repeat (apply elem_of_cons in Hst as [?|Hst]; [done|]).
    by apply elem_of_nil in Hst.
  - intros (o & Hk & Hst).
    destruct (left_join_inhabited
                (filter (λ om, om_order_id om = k) (order_menu d))) as [om Hom].
    destruct (left_join_inhabited (recipe_of d om)) as [mi Hmi].
    exists (kitchen_row_of d k o om mi). split; [|done].
    apply elem_of_kitchen_select. exists k, o, om, mi. split_and!; try done.
    destruct (order_status o); [left | right; left | done].
Qed.

Lemma kitchen_rows_status (d : db) (r : kitchen_row) :
  r ∈ kitchen_select d → has_status (k_order_status r) d (k_order_id r).
Proof.
  intros (k' & o & om & mi & Hk & Hst & _ & _ & ->)%elem_of_kitchen_select.
  by exists o.
Qed.

Local Instance key_le_trans {V} : Transitive (@key_le V).
Proof. intros a b c. unfold key_le. lia. Qed.

Local Instance key_le_total {V} : Total (@key_le V).
Proof. intros a b. unfold key_le. lia. Qed.

Lemma Object_values_array {V} (o : list (Z * V)) :
  (∀ kv, kv ∈ o → is_array_index kv.1) →
  Object_values o = (merge_sort key_le o).*2.
Proof.
  intros Hall. unfold Object_values.
  assert (∀ P : Z * V → Prop, ∀ HP : ∀ x, Decision (P x),
            (∀ kv, kv ∈ o → P kv) → filter P o = o) as Hkeep.
  { intros P HP. induction o as [|x o IH]; intros HPo; [done|].
    rewrite filter_cons, decide_True by apply HPo, list_elem_of_here.
    f_equal. apply IH; intros kv Hkv.
    - by apply Hall, list_elem_of_further.
    - by apply HPo, list_elem_of_further. }
  assert (filter (λ kv : Z * V, ¬ is_array_index kv.1) o = []) as ->.
  { clear Hkeep. induction o as [|x o IH]; [done|].
    rewrite filter_cons, decide_False.
    - apply IH. intros kv Hkv. by apply Hall, list_elem_of_further.
    - intros Hx. apply Hx, Hall, list_elem_of_here. }
  rewrite Hkeep by done. by rewrite app_nil_r.
Qed.

Lemma StronglySorted_le_lt (l : list Z) :
  StronglySorted Z.le l → NoDup l → StronglySorted Z.lt l.
Proof.
  induction 1 as [|x l Hl IH Hx]; intros Hnd; [constructor|].
  apply NoDup_cons in Hnd as [Hnotin Hnd]. constructor; [by apply IH|].
  rewrite Forall_forall in Hx |- *. intros y Hy.
  assert (x ≤ y) by by apply Hx. assert (x ≠ y) by (by intros ->). lia.
Qed.

Lemma sorted_ids_unique (l1 l2 : list Z) :
  StronglySorted Z.lt l1 → StronglySorted Z.lt l2 →
  (∀ k, k ∈ l1 ↔ k ∈ l2) → l1 = l2.
Proof.
  intros H1 H2 Hin.
  assert (∀ l, StronglySorted Z.lt l → NoDup l) as Hnd.
  { induction 1 as [|x l Hl IH Hx]; [apply NoDup_nil_2|].
    apply NoDup_cons. split; [|done]. intros Hxl.
    rewrite Forall_forall in Hx. apply Hx in Hxl. lia. }
  apply (StronglySorted_unique_strong Z.lt); [|done..|].
  - intros x1 x2 _ _ ? ?. lia.
  - apply NoDup_Permutation; auto.
Qed.

(** The kitchen view, for order ids that are array indices: one entry per
    order that is not complete, under the order's id and status, by
    ascending id. *)
Lemma kitchen_view_spec (d : db) :
  (∀ k, k ∈ active_ids d → is_array_index k) →
  StronglySorted Z.lt (oj_id <$> kitchen_view d)
  ∧ (∀ k, k ∈ oj_id <$> kitchen_view d ↔ k ∈ active_ids d)
  ∧ (∀ o, o ∈ kitchen_view d → has_status (oj_status o) d (oj_id o)).
Proof using scan_perm.
  intros Harr. unfold kitchen_view.
  set (rows := merge_sort kitchen_le (scan kitchen_row (kitchen_select d))).
  set (ordersMap := foldl kitchen_add_row [] rows).
  assert (∀ k, (∃ r, r ∈ rows ∧ k_order_id r = k) ↔ k ∈ active_ids d) as Hrows.
  { intros k. rewrite <-kitchen_rows_active. unfold rows.
    by setoid_rewrite elem_of_kitchen_rows. }
  assert (∀ k, k ∈ ordersMap.*1 ↔ k ∈ active_ids d) as Hkeys.
  { intros k. unfold ordersMap. by rewrite kitchen_fold_keys. }
  rewrite Object_values_array.
  2:{ intros [k ko] Hin. apply Harr, Hkeys.
      by apply (list_elem_of_fmap_2 fst) in Hin. }
  pose proof (merge_sort_Permutation key_le ordersMap) as Hperm.
  assert (Forall (λ kv : Z * kitchen_order, ko_id kv.2 = kv.1)
            (merge_sort key_le ordersMap)) as Hids.
  { apply Forall_forall. intros [k ko] Hin. rewrite Hperm in Hin.
    by apply kitchen_fold_entry in Hin as [? _]. }
  assert (oj_id <$> (kitchen_json <$> (merge_sort key_le ordersMap).*2)
          = (merge_sort key_le ordersMap).*1) as Hfst.
  { clear Hperm. induction Hids as [|[k ko] l Hk _ IH]; [done|].
    rewrite !fmap_cons. cbn in Hk. rewrite IH. cbn. by rewrite Hk. }
  rewrite Hfst. split_and!.
  - apply StronglySorted_le_lt.
    + apply (StronglySorted_fmap _ key_le); [done|].
      apply StronglySorted_merge_sort; apply _.
    + rewrite Hperm. apply kitchen_fold_NoDup.
  - intros k. by rewrite Hperm.
  - intros o (ko & -> & (kv & -> & Hin)%list_elem_of_fmap)%list_elem_of_fmap.
    rewrite Hperm in Hin. destruct kv as [k ko].
    apply kitchen_fold_entry in Hin as (Hid & r & Hr & Hk & Hst).
    cbn [kitchen_json oj_id oj_status snd]. rewrite Hid, Hst, <-Hk.
    apply kitchen_rows_status. by apply elem_of_kitchen_rows.
Qed.

Lemma api_kitchenOrders_kitchen_view (d : db) :
  run (api_kitchenOrders (Some "kitchen")) d
  = (Normal (OrdersOk (kitchen_view d)), d).
Proof. done. Qed.

(** [GET /api/kitchenOrders?source=kitchen], for order ids that are array
    indices (serial ids are), lists every order that is building or waiting
    once, under its id and status, and in ascending order of the ids:
    [Object.values] gives up the order by status the statement asked for.
    Orders that are complete are not listed, and the store is left alone. *)
Theorem api_kitchenOrders_kitchen_order (d : db) :
  (∀ k, k ∈ active_ids d → is_array_index k) →
  ∃ view,
    run (api_kitchenOrders (Some "kitchen")) d = (Normal (OrdersOk view), d)
    ∧ StronglySorted Z.lt (oj_id <$> view)
    ∧ (∀ k, k ∈ oj_id <$> view ↔
         ∃ o, orders d !! k = Some o ∧ order_status o ≠ complete)
    ∧ (∀ o, o ∈ view → has_status (oj_status o) d (oj_id o)).
Proof using scan_perm.
  intros Harr. exists (kitchen_view d).
  destruct (kitchen_view_spec d Harr) as (Hsorted & Hin & Hst).
  split_and!; [apply api_kitchenOrders_kitchen_view | done | | done].
  intros k. by rewrite Hin, elem_of_active_ids.
Qed.

(** ** The screens *)

Lemma first_order_id_head (st : status) (d : db) :
  first_order_id st d = head (ids_of st d).
Proof. done. Qed.

Lemma ids_of_sorted_lt (st : status) (d : db) :
  StronglySorted Z.lt (ids_of st d).
Proof. apply StronglySorted_le_lt; [apply ids_of_sorted | apply ids_of_NoDup]. Qed.

Lemma ids_of_building (d : db) :
  at_most_one_building d →
  ids_of building d = option_list (first_order_id building d).
Proof.
  intros Hone. rewrite first_order_id_head.
  pose proof (elem_of_ids_of building d) as Hin.
  pose proof (ids_of_NoDup building d) as Hnd.
  destruct (ids_of building d) as [|b [|b' l]]; [done..|].
  exfalso. apply NoDup_cons in Hnd as [Hb _]. apply Hb.
  rewrite (Hone b b'); [left | apply Hin; left | apply Hin; right; left].
Qed.

(** On a lane served in order the active orders by ascending id are the
    building order and then the waiting orders. *)
Lemma lane_in_order_ids (d : db) (l : list Z) :
  lane_in_order d →
  StronglySorted Z.lt l → (∀ k, k ∈ l ↔ k ∈ active_ids d) →
  l = ids_of building d ++ ids_of waiting d.
Proof.
  intros (Hseq & Hone & Hwait & Hdone) Hsorted Hin.
  apply sorted_ids_unique; [done| |].
  - apply StronglySorted_app_2; [|apply ids_of_sorted_lt..].
    intros b w Hb%elem_of_ids_of Hw%elem_of_ids_of.
    destruct (Hwait w Hw) as (b' & Hb' & Hlt). by rewrite (Hone b b').
  - intros k. rewrite Hin, elem_of_active_ids, elem_of_app, !elem_of_ids_of.
    split.
    + intros (o & Hk & Hst). destruct (order_status o) eqn:Ho; [| |done].
      * left. by exists o.
      * right. by exists o.
    + intros [(o & Hk & Hst)|(o & Hk & Hst)]; exists o; split; congruence.
Qed.

(** The status of an order is determined by its id. *)
Lemma id_status_determined (d : db) (l1 l2 : list (Z * status)) :
  l1.*1 = l2.*1 →
  (∀ ks, ks ∈ l1 → has_status ks.2 d ks.1) →
  (∀ ks, ks ∈ l2 → has_status ks.2 d ks.1) →
  l1 = l2.
Proof.
  revert l2. induction l1 as [|[k1 s1] l1 IH]; intros [|[k2 s2] l2];
    [done..|].
  rewrite !fmap_cons. intros [= Hk Hl] H1 H2. cbn in Hk. subst k2.
  f_equal.
  - destruct (H1 (k1, s1)) as (o1 & Ho1 & Hs1); [left|].
    destruct (H2 (k1, s2)) as (o2 & Ho2 & Hs2); [left|].
    cbn in *. congruence.
  - apply IH; [done|..]; intros ks Hks; [apply H1 | apply H2]; by right.
Qed.

Lemma kitchen_view_lane (d : db) :
  lane_in_order d →
  (∀ k, k ∈ active_ids d → is_array_index k) →
  id_status (kitchen_view d)
  = ((λ k, (k, building)) <$> ids_of building d)
    ++ ((λ k, (k, waiting)) <$> ids_of waiting d).
Proof using scan_perm.
  intros Hlane Harr.
  destruct (kitchen_view_spec d Harr) as (Hsorted & Hin & Hst).
  apply (id_status_determined d).
  - assert (∀ (st : status) (l : list Z), ((λ k, (k, st)) <$> l).*1 = l)
      as Hfst.
    { intros st l. induction l as [|k l IH]; [done|].
      rewrite !fmap_cons. by f_equal. }
    unfold id_status. rewrite fmap_app, !Hfst, <-list_fmap_compose.
    by apply lane_in_order_ids.
  - intros ks (o & -> & Ho)%list_elem_of_fmap. by apply Hst.
  - intros ks [(k & -> & Hk)%list_elem_of_fmap|(k & -> & Hk)%list_elem_of_fmap]%elem_of_app;
      by apply elem_of_ids_of.
Qed.

(** The waiting orders after an advance are the waiting orders but the
    first, which is the order then building. *)
Lemma ids_of_updateOrderQuery (d : db) :
  lane_in_order d →
  ids_of building (updateOrderQuery d) = option_list (head (ids_of waiting d))
  ∧ ids_of waiting (updateOrderQuery d) = tail (ids_of waiting d).
Proof.
  intros Hlane. pose proof Hlane as (Hseq & Hone & Hwait & Hdone).
  pose proof (ids_of_sorted_lt waiting d) as Hsorted.
  pose proof (ids_of_NoDup waiting d) as Hnd.
  split; (apply sorted_ids_unique; [apply ids_of_sorted_lt| |]).
  - destruct (head (ids_of waiting d)); simpl; repeat constructor.
  - intros k. rewrite elem_of_ids_of, updateOrderQuery_has_status by done.
    rewrite first_order_id_head. destruct (head (ids_of waiting d)); simpl.
    + rewrite list_elem_of_singleton. naive_solver.
    + rewrite elem_of_nil. naive_solver.
  - destruct (ids_of waiting d) as [|w ws]; [constructor|].
    by apply StronglySorted_inv in Hsorted as [? _].
  - intros k. rewrite elem_of_ids_of, updateOrderQuery_has_status by done.
    rewrite first_order_id_head, <-elem_of_ids_of.
    destruct (ids_of waiting d) as [|w ws]; simpl.
    + rewrite elem_of_nil. naive_solver.
    + apply NoDup_cons in Hnd as [Hw _]. rewrite elem_of_cons. split.
      * intros [[->|?] Hne]; [by destruct Hne | done].
      * intros Hk. split; [by right|]. intros [= ->]. done.
Qed.

Lemma active_ids_updateOrderQuery_subseteq (d : db) (k : Z) :
  k ∈ active_ids (updateOrderQuery d) → k ∈ active_ids d.
Proof.
  rewrite !elem_of_active_ids, updateOrderQuery_lookup.
  intros (o' & Hk & Hst). destruct (orders d !! k) as [o|] eqn:Ho; [|done].
  simpl in Hk. exists o. split; [done|]. intros Hc. apply Hst.
  injection Hk as <-.
  destruct (decide (first_order_id building d = Some k)) as [Hb|Hb]; [done|].
  destruct (decide (first_order_id waiting d = Some k)) as [Hw|Hw]; [|done].
  apply first_order_id_Some in Hw as [(o0 & Ho0 & Hst0) _]. congruence.
Qed.

(** Kitchen.tsx, the optimistic update of [handleNextOrder] against the
    next poll, on a lane served in order whose ids are array indices: when
    the screen holds what the server last sent and that is two orders or
    more, the ids and statuses it shows after the update are the ones the
    server sends next. With one order on the screen the update throws on
    [orders[1]] after the server has advanced: the screen keeps the order
    the server has completed until the next poll, which sends none. *)
Theorem Kitchen_handleNextOrder_agrees (d : db) :
  lane_in_order d →
  (∀ k, k ∈ active_ids d → is_array_index k) →
  let orders := Kitchen_fetchOrders [] d in
  let orders' := (Kitchen_handleNextOrder orders d).1 in
  let d' := (Kitchen_handleNextOrder orders d).2 in
  d' = (run api_kitchenNext d).2
  ∧ ((2 ≤ length orders)%nat →
       id_status orders' = id_status (Kitchen_fetchOrders orders' d'))
  ∧ ((length orders < 2)%nat →
       orders' = orders ∧ Kitchen_fetchOrders orders' d' = []).
Proof using scan_perm.
  intros Hlane Harr. cbv zeta.
  unfold Kitchen_fetchOrders, Kitchen_handleNextOrder.
  rewrite !api_kitchenOrders_kitchen_view, api_kitchenNext_run. cbn [fst snd].
  pose proof (kitchen_view_lane d Hlane Harr) as Hview.
  assert (lane_in_order (updateOrderQuery d)) as Hlane'
    by by apply updateOrderQuery_lane_in_order.
  assert (∀ k, k ∈ active_ids (updateOrderQuery d) → is_array_index k) as Harr'.
  { intros k Hk. by apply Harr, active_ids_updateOrderQuery_subseteq. }
  pose proof (kitchen_view_lane _ Hlane' Harr') as Hview'.
  destruct (ids_of_updateOrderQuery d Hlane) as [Hb' Hw'].
  rewrite Hb', Hw' in Hview'.
  pose proof Hlane as (Hseq & Hone & Hwait & Hdone).
  rewrite (ids_of_building d Hone) in Hview.
  assert (first_order_id building d = None → ids_of waiting d = []) as Hidle.
  { intros Hb. destruct (ids_of waiting d) as [|w ws] eqn:Hws; [done|].
    exfalso. destruct (Hwait w) as (b & Hb0 & _).
    { apply elem_of_ids_of. rewrite Hws. left. }
    by apply (first_order_id_None building d) in Hb0. }
  assert (∀ l, id_status l = [] → l = []) as Hnil by (by intros [|??]).
  destruct (kitchen_view d) as [|o0 [|o1 rest]] eqn:Hv; cbn [fst snd length].
  - split_and!; [done | lia |]. intros _. split; [done|].
    apply Hnil. rewrite Hview'.
    destruct (first_order_id building d) as [b|]; [done|].
    by rewrite Hidle.
  - split_and!; [done | lia |]. intros _. split; [done|].
    apply Hnil. rewrite Hview'.
    destruct (first_order_id building d) as [b|].
    + destruct (ids_of waiting d) as [|w ws]; [done|]. done.
    + by rewrite Hidle.
  - split_and!; [done | | lia]. intros _. rewrite Hview'.
    destruct (first_order_id building d) as [b|].
    + destruct (ids_of waiting d) as [|w ws]; [done|].
      cbn in Hview. injection Hview as _ _ Hk1 _ Hrest.
      cbn. unfold id_status in Hrest. by rewrite Hk1, Hrest.
    + by rewrite Hidle in Hview.
Qed.

(** MenuBoard.tsx: after a poll the board shows the first six orders of the
    answer, at most six, and the latest completed order first when there
    is one; the orders left out are the waiting orders with the largest
    ids. *)
Theorem MenuBoard_fetchOrders_shows (orders : list order_json) (d : db) :
  MenuBoard_fetchOrders orders d = take 6 (board_of d)
  ∧ (length (MenuBoard_fetchOrders orders d) ≤ 6)%nat
  ∧ (∀ m, max_complete_id d = Some m →
       head (MenuBoard_fetchOrders orders d) = Some (listed complete m))
  ∧ (at_most_one_building d →
       ∀ o, o ∈ board_of d → o ∉ MenuBoard_fetchOrders orders d →
         oj_status o = waiting
         ∧ ∀ o', o' ∈ MenuBoard_fetchOrders orders d →
             oj_status o' = waiting → oj_id o' < oj_id o).
Proof using scan_perm.
  unfold MenuBoard_fetchOrders. rewrite api_kitchenOrders_menu_run. cbn [fst].
  split_and!; [done | rewrite length_take; lia | |].
  - intros m Hm. unfold board_of. rewrite Hm. done.
  - intros Hone o Ho Hnot.
    rewrite <-(take_drop 6 (board_of d)) in Ho.
    apply elem_of_app in Ho as [?|Ho]; [done|].
    unfold board_of in *. rewrite (ids_of_building d Hone) in *.
    pose proof (ids_of_sorted_lt waiting d) as Hsorted.
    set (pre := (listed complete <$> option_list (max_complete_id d))
                ++ (listed building
                      <$> option_list (first_order_id building d))) in *.
    assert (length pre ≤ 2)%nat as Hpre.
    { unfold pre. rewrite length_app, !length_fmap.
      destruct (max_complete_id d), (first_order_id building d); simpl; lia. }
    rewrite app_assoc in Ho, Hnot |- *. fold pre in Ho, Hnot |- *.
    rewrite drop_app in Ho. rewrite take_app in Hnot |- *.
    rewrite drop_ge, app_nil_l in Ho by lia.
    rewrite take_ge in Hnot |- * by lia.
    rewrite <-fmap_drop in Ho. rewrite <-fmap_take in Hnot |- *.
    apply list_elem_of_fmap in Ho as (k & -> & Hk).
    split; [done|]. intros o' [Ho'|Ho']%elem_of_app Hst.
    + exfalso. unfold pre in Ho'.
      apply elem_of_app in Ho' as [Ho'|Ho'];
        apply list_elem_of_fmap in Ho' as (k' & -> & _); done.
    + apply list_elem_of_fmap in Ho' as (k' & -> & Hk'). cbn.
      rewrite <-(take_drop (6 - length pre) (ids_of waiting d)) in Hsorted.
      by eapply StronglySorted_app_1_elem_of.
Qed.

(** ** The cart *)

Lemma filter_index_keep (l : list SelectedItem) (k m : nat) :
  (m < k)%nat →
  (filter (λ ix : nat * SelectedItem, ix.1 ≠ m)
     (imap (λ j y, ((k + j)%nat, y)) l)).*2 = l.
Proof.
  revert k. induction l as [|y l IH]; intros k Hlt; [done|].
  rewrite imap_cons, filter_cons. cbn [fst].
  rewrite decide_True by lia. rewrite fmap_cons. cbn [snd]. f_equal.
  rewrite (imap_ext _ (λ j y, ((S k + j)%nat, y))).
  2:{ intros j z _. cbn. f_equal. lia. }
  apply IH. lia.
Qed.

Lemma removeItem_shifted (l : list SelectedItem) (n i : nat) :
  (filter (λ ix : nat * SelectedItem, ix.1 ≠ (n + i)%nat)
     (imap (λ j x, ((n + j)%nat, x)) l)).*2
  = delete i l.
Proof.
  revert n i. induction l as [|x l IH]; intros n i; [done|].
  rewrite imap_cons, filter_cons. cbn [fst].
  rewrite (imap_ext _ (λ j y, ((S n + j)%nat, y))).
  2:{ intros j y _. cbn. f_equal. lia. }
  destruct i as [|i].
  - rewrite decide_False by lia. cbn [delete list_delete].
    apply filter_index_keep. lia.
  - rewrite decide_True by lia. rewrite fmap_cons. cbn [snd delete list_delete].
    f_equal. replace (n + S i)%nat with (S n + i)%nat by lia. apply IH.
Qed.

(** [removeItem] deletes the line at the index, and nothing when the index
    is past the end. *)
Lemma CartContext_removeItem_delete (index : nat) (prev : list SelectedItem) :
  CartContext_removeItem index prev = delete index prev.
Proof.
  unfold CartContext_removeItem.
  rewrite <-(removeItem_shifted prev 0 index). done.
Qed.

Lemma units_of_app (n : string) (l1 l2 : list SelectedItem) :
  units_of n (l1 ++ l2) = units_of n l1 + units_of n l2.
Proof. unfold units_of. by rewrite filter_app, fmap_app, sumZ_app. Qed.

Lemma units_of_cons (n : string) (x : SelectedItem) (l : list SelectedItem) :
  units_of n (x :: l)
  = (if decide (name x = n) then quantity x else 0) + units_of n l.
Proof. unfold units_of. rewrite filter_cons. by case_decide. Qed.

Lemma addItem_found (item : MenuItem) (prev : list SelectedItem)
    (idx : nat) (x : SelectedItem) :
  list_find (λ x, name x = m_name item) prev = Some (idx, x) →
  ∃ pre post, prev = pre ++ x :: post
    ∧ name x = m_name item
    ∧ CartContext_addItem item prev
      = pre ++ with_quantity (quantity x + 1) x :: post.
Proof.
  intros Hfind. unfold CartContext_addItem. rewrite Hfind.
  apply list_find_Some in Hfind as (Hidx & Hname & _).
  exists (take idx prev), (drop (S idx) prev).
  split_and!; [by rewrite take_drop_middle | done |].
  apply insert_take_drop. by eapply lookup_lt_Some.
Qed.

(** [addItem] adds one unit of the item's name to the cart and leaves the
    units of every other name as they are, whether the cart had a line of
    that name or not. *)
Theorem CartContext_addItem_units (item : MenuItem)
    (prev : list SelectedItem) (n : string) :
  units_of n (CartContext_addItem item prev)
  = units_of n prev + (if decide (n = m_name item) then 1 else 0).
Proof.
  destruct (list_find (λ x, name x = m_name item) prev) as [[idx x]|] eqn:Hfind.
  - destruct (addItem_found _ _ _ _ Hfind) as (pre & post & -> & Hname & ->).
    rewrite !units_of_app, !units_of_cons. cbn [with_quantity name quantity].
    rewrite Hname. repeat case_decide; try congruence; lia.
  - unfold CartContext_addItem. rewrite Hfind.
    rewrite units_of_app, units_of_cons. cbn [name quantity].
    change (units_of n []) with 0.
    repeat case_decide; try congruence; lia.
Qed.

Lemma cart_step_names (prev next : list SelectedItem) (a : cart_action) :
  NoDup (name <$> prev) → cart_step prev a = Some next →
  NoDup (name <$> next).
Proof.
  intros Hnd. destruct a as [item|index| |index qty]; cbn [cart_step].
  - intros [= <-].
    destruct (list_find (λ x, name x = m_name item) prev) as [[idx x]|] eqn:Hfind.
    + destruct (addItem_found _ _ _ _ Hfind) as (pre & post & -> & _ & ->).
      by rewrite fmap_app, fmap_cons in *.
    + unfold CartContext_addItem. rewrite Hfind. rewrite fmap_app.
      apply NoDup_app. split_and!; [done | | apply NoDup_singleton].
      intros n (x & -> & Hx)%list_elem_of_fmap Hn.
      apply list_elem_of_singleton in Hn. cbn in Hn.
      apply list_find_None in Hfind. rewrite Forall_forall in Hfind.
      by apply (Hfind x).
  - intros [= <-]. rewrite CartContext_removeItem_delete.
    rewrite list_fmap_delete. eapply sublist_NoDup; [done|].
    apply sublist_delete.
  - intros [= <-]. apply NoDup_nil_2.
  - unfold CartContext_setQuantity.
    destruct (prev !! index) as [x|] eqn:Hx; [|done]. intros [= <-].
    rewrite list_fmap_insert. cbn [with_quantity name].
    rewrite list_insert_id; [done|]. by rewrite list_lookup_fmap, Hx.
Qed.

Lemma cart_step_quantities (prev next : list SelectedItem) (a : cart_action) :
  (∀ line, line ∈ prev → 0 ≤ quantity line) → cart_step prev a = Some next →
  ∀ line, line ∈ next → 0 ≤ quantity line.
Proof.
  intros Hq. destruct a as [item|index| |index qty]; cbn [cart_step].
  - intros [= <-] line.
    destruct (list_find (λ x, name x = m_name item) prev) as [[idx x]|] eqn:Hfind.
    + destruct (addItem_found _ _ _ _ Hfind) as (pre & post & -> & _ & ->).
      rewrite elem_of_app, elem_of_cons.
      intros [?|[->|?]].
      * apply Hq, elem_of_app. by left.
      * cbn. assert (0 ≤ quantity x); [|lia].
        apply Hq, elem_of_app. right. left.
      * apply Hq, elem_of_app. right. by right.
    + unfold CartContext_addItem. rewrite Hfind. rewrite elem_of_app.
      intros [?|Hl]; [by apply Hq|].
      apply list_elem_of_singleton in Hl. by subst.
  - intros [= <-] line. rewrite CartContext_removeItem_delete.
    intros Hin. apply Hq. by eapply list_elem_of_delete_inv.
  - intros [= <-] line Hin. by apply elem_of_nil in Hin.
  - unfold CartContext_setQuantity.
    destruct (prev !! index) as [x|] eqn:Hx; [|done]. intros [= <-] line.
    intros (i & Hi)%list_elem_of_lookup_1.
    apply list_lookup_insert_Some in Hi as [(_ & <- & _)|[_ Hi]].
    + cbn. lia.
    + apply Hq. by eapply list_elem_of_lookup_2.
Qed.

(** The cart keeps its lines apart by name and its quantities at zero or
    more: starting from a cart of which this is true (the empty cart is
    one), whatever the customer does to it with [addItem], [removeItem],
    [clearOrder] and [setQuantity], no two lines carry one name and no line
    has a negative quantity. *)
Theorem cart_invariant (prev cart : list SelectedItem)
    (actions : list cart_action) :
  NoDup (name <$> prev) →
  (∀ line, line ∈ prev → 0 ≤ quantity line) →
  cart_run prev actions = Some cart →
  NoDup (name <$> cart) ∧ ∀ line, line ∈ cart → 0 ≤ quantity line.
Proof.
  revert prev. induction actions as [|a actions IH]; intros prev Hnd Hq.
  - by intros [= <-].
  - cbn [cart_run]. destruct (cart_step prev a) as [next|] eqn:Hstep; [|done].
    cbn. apply IH.
    + by eapply cart_step_names.
    + by eapply cart_step_quantities.
Qed.



(** The quantity field of the cart panel: what is typed goes through
    [parseInt(value, 10) || 1] and then [Math.max(0, qty)], so the line of
    the field ends with the number typed when that is positive, with 1 when
    the field is empty, not a number, or 0, and with 0 when the number is
    negative; the other lines are as before. *)
Theorem Navbar_quantity_field (prev : list SelectedItem) (index : nat)
    (x : SelectedItem) (parsed : option Z) :
  prev !! index = Some x →
  ∃ updated,
    CartContext_setQuantity index (Navbar_newQty parsed) prev = Some updated
    ∧ updated !! index
      = Some (with_quantity
                match parsed with
                | Some q => if decide (0 < q) then q
                            else if decide (q = 0) then 1 else 0
                | None => 1
                end x)
    ∧ (∀ j, j ≠ index → updated !! j = prev !! j)
    ∧ length updated = length prev.
Proof.
  intros Hx. unfold CartContext_setQuantity. rewrite Hx. cbn.
  eexists. split; [done|].
  assert (index < length prev)%nat as Hlt by by eapply lookup_lt_Some.
  split_and!.
  - rewrite list_lookup_insert_eq by done. do 2 f_equal.
    destruct parsed as [q|]; cbn; repeat case_decide; lia.
  - intros j Hj. by rewrite list_lookup_insert_ne.
  - by rewrite length_insert.
Qed.

(** ** Checking out *)

Lemma low_stock_alert_nonempty (second : shortage) :
  low_stock_alert second ≠ "".
Proof. done. Qed.

Lemma CartContext_placeOrder_run (now userId : Z) (cart : list SelectedItem)
    (d : db) :
  cart ≠ [] → seq_ahead d →
  CartContext_placeOrder now userId cart d
  = if decide (within_int4 d cart)
    then
      match list_find (is_low (res_rows d cart)) (res_rows d cart) with
      | Some (_, r) =>
          (Rejected (low_stock_alert (shortage_at (res_rows d cart) r)),
           cart, d)
      | None =>
          (Resolved, [],
           placed now {| itemAmount := cart;
                         total := JSON_number (CartContext_total cart);
                         emID := userId |} d)
      end
    else (Rejected "[object Object]", cart, d).
Proof using scan_perm.
  intros Hcart Hseq. unfold CartContext_placeOrder.
  rewrite bool_decide_eq_false_2 by (by destruct cart).
  rewrite api_placeOrder_run. cbn [itemAmount].
  case_decide as Hrange; [|done]. cbv zeta.
  destruct (list_find _ _) as [[i r]|].
  - by rewrite decide_False by apply low_stock_alert_nonempty.
  - by rewrite seq_ahead_fresh.
Qed.

(** Checking out a cart that is not empty, on a ledger whose sequence is
    ahead of its keys. Within [int4], [placeOrder] of the cart either
    resolves, with the cart emptied and the order stored with the total
    the cart sends (subtotal plus tax, in the arithmetic of numbers, as
    JSON carries it), or rejects with the server's low stock alert as its
    message, and then the cart and the store are as before. Outside
    [int4] the check throws, the server answers 500 with the error as an
    object, and [placeOrder] rejects with the message "[object Object]";
    the cart and the store are as before. *)
Theorem CartContext_placeOrder_outcome (now userId : Z)
    (cart : list SelectedItem) (d : db) :
  cart ≠ [] → seq_ahead d →
  (within_int4 d cart
   ∧ CartContext_placeOrder now userId cart d
     = (Resolved, [],
        placed now {| itemAmount := cart;
                      total := JSON_number (CartContext_total cart);
                      emID := userId |} d)
   ∧ ∃ breakdown,
       run (checkSufficientIngredients cart) d = (Normal (NotLow breakdown), d))
  ∨ (within_int4 d cart
     ∧ ∃ second,
         CartContext_placeOrder now userId cart d
         = (Rejected (low_stock_alert second), cart, d)
         ∧ run (checkSufficientIngredients cart) d = (Normal (Low second), d))
  ∨ (¬ within_int4 d cart
     ∧ CartContext_placeOrder now userId cart d
       = (Rejected "[object Object]", cart, d)
     ∧ run (checkSufficientIngredients cart) d
       = (Abrupt NumericValueOutOfRange, d)).
Proof using scan_perm.
  intros Hcart Hseq. rewrite CartContext_placeOrder_run by done.
  case_decide as Hrange.
  - rewrite checkSufficientIngredients_spec by done.
    destruct (list_find _ _) as [[i r]|].
    + right. left. split; [done|]. by eexists.
    + left. split_and!; [done | done | by eexists].
  - right. right. split_and!; [done | done |].
    by apply checkSufficientIngredients_throws.
Qed.

Lemma sumZ_zero (l : list Z) : (∀ x, x ∈ l → x = 0) → sumZ l = 0.
Proof.
  induction l as [|x l IH]; intros Hl; [done|].
  change (sumZ (x :: l)) with (x + sumZ l).
  rewrite (Hl x) by left. rewrite IH; [done|]. intros y Hy. apply Hl. by right.
Qed.

(** A number times 0 is 0, of either sign, or NaN; adding such a number to
    0 or to NaN gives 0 or NaN. *)
Lemma Number_mul_zero (x : number) :
  Number_mul x (Number_of_Z 0) = S754_zero false
  ∨ Number_mul x (Number_of_Z 0) = S754_zero true
  ∨ Number_mul x (Number_of_Z 0) = S754_nan.
Proof. destruct x as [[]|[]| |[] m e]; cbv; auto. Qed.

Lemma CartContext_subtotal_zero (cart : list SelectedItem) :
  (∀ line, line ∈ cart → quantity line = 0) →
  CartContext_subtotal cart = S754_zero false
  ∨ CartContext_subtotal cart = S754_nan.
Proof.
  intros Hzero. unfold CartContext_subtotal.
  assert (∀ acc, acc = S754_zero false ∨ acc = S754_nan →
            foldl (λ acc item,
                     Number_add acc
                       (Number_mul (price item) (Number_of_Z (quantity item))))
                  acc cart = S754_zero false
            ∨ foldl (λ acc item,
                       Number_add acc
                         (Number_mul (price item)
                            (Number_of_Z (quantity item))))
                    acc cart = S754_nan) as Hfold.
  { induction cart as [|x cart IH]; intros acc Hacc; [done|].
    cbn [foldl]. apply IH.
    - intros line Hl. apply Hzero. by right.
    - rewrite (Hzero x) by left.
      destruct (Number_mul_zero (price x)) as [-> | [-> | ->]],
        Hacc as [-> | ->]; cbv; auto. }
  apply Hfold. by left.
Qed.

(** The total of a cart of quantities 0, as the server reads it. *)
Lemma CartContext_total_zero (cart : list SelectedItem) :
  (∀ line, line ∈ cart → quantity line = 0) →
  JSON_number (CartContext_total cart) = Number_of_Z 0.
Proof.
  intros Hzero. unfold CartContext_total, CartContext_tax.
  by destruct (CartContext_subtotal_zero cart Hzero) as [-> | ->].
Qed.

(** A cart whose lines all have quantity 0 is not empty for the guard of
    [placeOrder]: with ids within [int4] and no stock level below zero the
    check finds nothing low, and the order is placed, with a total of 0
    and one order line of quantity 0 per cart line. *)
Theorem zero_quantity_order_is_placed (now userId : Z)
    (cart : list SelectedItem) (d : db) :
  cart ≠ [] →
  (∀ line, line ∈ cart → quantity line = 0) →
  (∀ line, line ∈ cart → int4 (id line)) →
  (∀ i inv, inventory d !! i = Some inv → 0 ≤ inv_stock_level inv) →
  seq_ahead d →
  let order := {| itemAmount := cart;
                  total := JSON_number (CartContext_total cart);
                  emID := userId |} in
  CartContext_placeOrder now userId cart d = (Resolved, [], placed now order d)
  ∧ (order_total <$> orders (placed now order d) !! (orders_order_id_seq d + 1)
     = Some (Number_of_Z 0))
  ∧ JSON_number (CartContext_total cart) = Number_of_Z 0
  ∧ order_menu (placed now order d)
    = order_menu d
      ++ ((λ line, {| om_order_id := orders_order_id_seq d + 1;
                      om_menu_item_id := id line;
                      om_quantity_ordered := 0 |}) <$> cart).
Proof using scan_perm.
  intros Hcart Hzero Hid Hstock Hseq. cbv zeta.
  rewrite CartContext_placeOrder_run by done.
  rewrite decide_True.
  2:{ split.
      - intros line Hline. split; [by apply Hid|].
        rewrite (Hzero line) by done. unfold int4. lia.
      - intros mi line _ Hline _ _. rewrite (Hzero line) by done.
        unfold int4. lia. }
  assert (∀ r, r ∈ res_rows d cart →
            r_total_quantity_needed r = 0 ∧ 0 ≤ r_stock_level r) as Hrows.
  { intros r (mi & inv & line & _ & Hinv & Hline & _ & ->)%elem_of_res_rows%elem_of_cart_rows.
    cbn. rewrite (Hzero line) by done. split; [lia|]. by eapply Hstock. }
  assert (list_find (is_low (res_rows d cart)) (res_rows d cart) = None)
    as ->.
  { apply list_find_None, Forall_forall. intros r Hr. unfold is_low.
    destruct (Hrows r Hr) as [_ Hst].
    assert (name_demand (res_rows d cart) (r_item_name r) = 0) as ->; [|lia].
    unfold name_demand. apply sumZ_zero.
    intros x (r' & -> & [_ Hr']%list_elem_of_filter)%list_elem_of_fmap.
    by apply Hrows. }
  split_and!; [done | | by apply CartContext_total_zero |].
  - rewrite placed_lookup, decide_True by done. cbn.
    by rewrite CartContext_total_zero.
  - cbn [placed order_menu itemAmount]. f_equal.
    apply list_fmap_ext. intros i line Hl%list_elem_of_lookup_2.
    by rewrite (Hzero line).
Qed.

(** ** The inventory *)

Lemma restore_same (d : db) : restore d d = d.
Proof. by destruct d. Qed.

Lemma add_inventory_try_run (body : InventoryItem) (c : catalog) :
  pg_run (add_inventory_try body) c
  = let key := inventory_inventory_id_seq c + 1 in
    match inventory (ledger c) !! key with
    | Some _ => (Returned InventoryError, with_inventory_seq c key)
    | None =>
        (Returned (InventoryCreated "Successfully add item."),
         with_inventory (with_inventory_seq c key)
           (<[key := {| inv_item_name := item_name body;
                        inv_stock_level := stockLevel body;
                        inv_purchase_price := toFixed2 (cost body) |}]>
              (inventory (ledger c))))
    end.
Proof.
  unfold pg_run, add_inventory_try, pg_try, mbind, pg_bind, pg_BEGIN,
    insert_inventory, pg_exec.
  cbn [tables snapshot default with_inventory_seq ledger
       inventory_inventory_id_seq]. cbv zeta.
  destruct (inventory (ledger c) !! (inventory_inventory_id_seq c + 1));
    cbn [pg_ROLLBACK pg_COMMIT mret pg_ret tables snapshot]; [|done].
  unfold pg_ROLLBACK, mret, pg_ret. cbn [tables snapshot].
  unfold restore_tables, catalog_store, with_inventory_seq.
  cbn [ledger menu_description menu_menu_item_id_seq
       inventory_inventory_id_seq]. by rewrite restore_same.
Qed.

(** The sequence of [inventory] has reached every key of the table. *)
Lemma api_add_inventory_fresh (c : catalog) :
  (∀ k row, inventory (ledger c) !! k = Some row →
     k ≤ inventory_inventory_id_seq c) →
  inventory (ledger c) !! (inventory_inventory_id_seq c + 1) = None.
Proof.
  intros Hseq. destruct (inventory (ledger c) !! _) as [row|] eqn:Hk; [|done].
  apply Hseq in Hk. lia.
Qed.

(** The handler, by the state of the pool. *)
Lemma api_add_inventory_run (body : InventoryItem) (p : process) :
  api_add_inventory body p
  = if decide (checked_out p < Pool_max)%nat
    then
      ((Answered (pg_run (add_inventory_try body) (database p)).1),
       {| checked_out := S (checked_out p);
          database := (pg_run (add_inventory_try body) (database p)).2 |})
    else (NoAnswer, p).
Proof.
  unfold api_add_inventory, pool_connect. case_decide; [|done].
  by destruct (pg_run _ _).
Qed.

(** [POST /api/add-inventory] looks nothing up and does not release its
    client. While the pool has a client to hand out, on an inventory whose
    sequence is ahead of its keys, it is answered 201 and adds one row,
    under the next key, with the name and stock level of the body and its
    cost rounded to cents, whether or not a row of that name exists; the
    rows there were, the menu, the recipes and the orders are as before,
    and one more client is checked out. Adding a name the inventory has
    leaves two rows of that name. With every client of the pool checked
    out, the call gets no answer and nothing changes. *)
Theorem api_add_inventory_adds (body : InventoryItem) (p : process) :
  (∀ k row, inventory (ledger (database p)) !! k = Some row →
     k ≤ inventory_inventory_id_seq (database p)) →
  let c := database p in
  let key := inventory_inventory_id_seq c + 1 in
  let p' := (api_add_inventory body p).2 in
  let c' := database p' in
  ((checked_out p < Pool_max)%nat →
   (api_add_inventory body p).1
     = Answered (Returned (InventoryCreated "Successfully add item."))
   ∧ checked_out p' = S (checked_out p)
   ∧ inventory (ledger c) !! key = None
   ∧ inventory (ledger c')
     = <[key := {| inv_item_name := item_name body;
                   inv_stock_level := stockLevel body;
                   inv_purchase_price := toFixed2 (cost body) |}]>
         (inventory (ledger c))
   ∧ (∀ i row, inventory (ledger c) !! i = Some row →
        inventory (ledger c') !! i = Some row)
   ∧ (menu (ledger c') = menu (ledger c)
      ∧ menu_ingredients (ledger c') = menu_ingredients (ledger c)
      ∧ orders (ledger c') = orders (ledger c)
      ∧ order_menu (ledger c') = order_menu (ledger c))
   ∧ (∀ i row, inventory (ledger c) !! i = Some row →
        inv_item_name row = item_name body → ¬ distinct_names (ledger c')))
  ∧ ((Pool_max ≤ checked_out p)%nat →
     api_add_inventory body p = (NoAnswer, p)).
Proof.
  intros Hseq. cbv zeta. rewrite api_add_inventory_run. split.
  2:{ intros Hfull. by rewrite decide_False by lia. }
  intros Hfree. rewrite decide_True by done.
  rewrite add_inventory_try_run. cbv zeta.
  pose proof (api_add_inventory_fresh (database p) Hseq) as Hfresh.
  rewrite Hfresh.
  cbn [fst snd with_inventory ledger inventory menu menu_ingredients orders
       order_menu with_inventory_seq checked_out database].
  assert (∀ i row, inventory (ledger (database p)) !! i = Some row →
            <[inventory_inventory_id_seq (database p) + 1 :=
                {| inv_item_name := item_name body;
                   inv_stock_level := stockLevel body;
                   inv_purchase_price := toFixed2 (cost body) |}]>
              (inventory (ledger (database p))) !! i = Some row) as Hkeep.
  { intros i row Hi. rewrite lookup_insert_ne; [done|]. intros <-. congruence. }
  split_and!; try done.
  intros i row Hi Hname Hdistinct.
  assert (i = inventory_inventory_id_seq (database p) + 1) as ->;
    [|congruence].
  eapply Hdistinct; [by apply Hkeep | apply lookup_insert_eq | done].
Qed.

Lemma api_update_inventory_run (body : inventory_update) (c : catalog) :
  pg_run (api_update_inventory body) c
  = let assignments :=
      (set_item_name <$> option_list (iu_name body))
      ++ (set_stock_level <$> option_list (iu_stockLevel body))
      ++ (set_purchase_price <$> option_list (toFixed2 <$> iu_cost body)) in
    match assignments, iu_id body with
    | [], _ | _ :: _, None => (Returned InventoryError, c)
    | _ :: _, Some id =>
        (Returned (InventoryCreated "Successfully update inventory"),
         with_inventory c
           (alter (λ row, foldl assign_inventory row assignments) id
                  (inventory (ledger c))))
    end.
Proof.
  unfold pg_run, api_update_inventory, pg_try, mbind, pg_bind, pg_BEGIN,
    update_inventory, pg_exec.
  cbn [tables snapshot default]. cbv zeta.
  assert (restore_tables c c = c) as Hrestore.
  { unfold restore_tables, catalog_store. rewrite restore_same. by destruct c. }
  destruct (_ ++ _) as [|a assignments]; [|destruct (iu_id body)];
    cbn [pg_ROLLBACK pg_COMMIT mret pg_ret tables snapshot];
    unfold pg_ROLLBACK, pg_COMMIT, mret, pg_ret; cbn [tables snapshot];
    by rewrite ?Hrestore.
Qed.

Lemma api_update_inventory_full (id : Z) (n : string) (stock : Z) (price : Q)
    (c : catalog) :
  let body := {| iu_id := Some id; iu_name := Some n;
                 iu_stockLevel := Some stock; iu_cost := Some price |} in
  let c' := (pg_run (api_update_inventory body) c).2 in
  (pg_run (api_update_inventory body) c).1
    = Returned (InventoryCreated "Successfully update inventory")
  ∧ (inventory (ledger c') !! id
     = (λ _, {| inv_item_name := n; inv_stock_level := stock;
                inv_purchase_price := toFixed2 price |})
         <$> inventory (ledger c) !! id)
  ∧ (∀ i, i ≠ id → inventory (ledger c') !! i = inventory (ledger c) !! i)
  ∧ (inventory (ledger c) !! id = None → c' = c).
Proof.
  cbv zeta. rewrite api_update_inventory_run.
  cbn [iu_id iu_name iu_stockLevel iu_cost]. cbv zeta.
  assert ((set_item_name <$> option_list (Some n))
          ++ (set_stock_level <$> option_list (Some stock))
          ++ (set_purchase_price <$> option_list (toFixed2 <$> Some price))
          = [set_item_name n; set_stock_level stock;
             set_purchase_price (toFixed2 price)]) as -> by done.
  cbn [fst snd with_inventory ledger inventory].
  split_and!; [done| | |].
  - rewrite lookup_alter_eq. by destruct (inventory (ledger c) !! id).
  - intros i Hi. by rewrite lookup_alter_ne.
  - intros Hnone. unfold with_inventory.
    assert (alter (λ row, foldl assign_inventory row
                            [set_item_name n; set_stock_level stock;
                             set_purchase_price (toFixed2 price)])
                  id (inventory (ledger c)) = inventory (ledger c)) as ->.
    { apply map_eq. intros i. destruct (decide (i = id)) as [->|Hi].
      - by rewrite lookup_alter_eq, Hnone.
      - by rewrite lookup_alter_ne. }
    destruct c as [[]]. done.
Qed.

(** [PUT /api/update-inventory] with a name, a stock level and a cost, as
    the form sends it: it is answered 201; the row of the id, if there is
    one, gets the three values (the cost rounded to cents) and every other
    row is as before; for an id that has no row nothing changes, and the
    answer is 201 all the same. *)
Theorem api_update_inventory_sets (id : Z) (n : string) (stock : Z) (price : Q)
    (c : catalog) :
  let body := {| iu_id := Some id; iu_name := Some n;
                 iu_stockLevel := Some stock; iu_cost := Some price |} in
  let c' := (pg_run (api_update_inventory body) c).2 in
  (pg_run (api_update_inventory body) c).1
    = Returned (InventoryCreated "Successfully update inventory")
  ∧ (inventory (ledger c') !! id
     = (λ _, {| inv_item_name := n; inv_stock_level := stock;
                inv_purchase_price := toFixed2 price |})
         <$> inventory (ledger c) !! id)
  ∧ (∀ i, i ≠ id → inventory (ledger c') !! i = inventory (ledger c) !! i)
  ∧ (inventory (ledger c) !! id = None → c' = c).
Proof. apply api_update_inventory_full. Qed.

Lemma toFixed2_nonneg (x : Q) : (0 <= x)%Q → (0 <= toFixed2 x)%Q.
Proof.
  intros Hx. unfold toFixed2. destruct (Qlt_le_dec x 0) as [Hlt|_].
  { exfalso. by apply (Qlt_not_le x 0). }
  set (y := (x * 100 + (1 # 2))%Q).
  assert (0 <= y)%Q as Hy.
  { unfold y. apply (Qle_trans _ (0 * 100 + 0)); [done|].
    apply Qplus_le_compat; [|done]. by apply Qmult_le_compat_r. }
  clearbody y.
  assert (0 ≤ Qnum y / Z.pos (Qden y)) as Hfloor.
  { apply Z.div_pos; [|lia]. unfold Qle in Hy. cbn in Hy. lia. }
  unfold Qle, Qdiv, Qmult, Qinv, inject_Z. cbn. lia.
Qed.

Lemma Inventory_handleSubmit_run (selectedItem : InventoryItem)
    (p : process) :
  Inventory_handleSubmit selectedItem p
  = if bool_decide (item_name selectedItem = "" ∨ stockLevel selectedItem = 0)
    then (Alerted "Please fill out all the required field", p)
    else if bool_decide ((cost selectedItem < 0)%Q ∨ stockLevel selectedItem < 0)
    then (Alerted "Cannot have negative number!", p)
    else if decide (checked_out p < Pool_max)%nat
    then
      match inventory_id selectedItem with
      | Some id =>
          if decide (id = 0)
          then
            (Sent (Answered
                     (pg_run (add_inventory_try selectedItem) (database p)).1),
             {| checked_out := S (checked_out p);
                database :=
                  (pg_run (add_inventory_try selectedItem) (database p)).2 |})
          else
            let body := {| iu_id := Some id;
                           iu_name := Some (item_name selectedItem);
                           iu_stockLevel := Some (stockLevel selectedItem);
                           iu_cost := Some (cost selectedItem) |} in
            (Sent (Answered
                     (pg_run (api_update_inventory body) (database p)).1),
             {| checked_out := checked_out p;
                database :=
                  (pg_run (api_update_inventory body) (database p)).2 |})
      | None =>
          (Sent (Answered
                   (pg_run (add_inventory_try selectedItem) (database p)).1),
           {| checked_out := S (checked_out p);
              database :=
                (pg_run (add_inventory_try selectedItem) (database p)).2 |})
      end
    else (Sent NoAnswer, p).
Proof.
  unfold Inventory_handleSubmit. repeat case_bool_decide; try done.
  cbv zeta. rewrite api_add_inventory_run. unfold pool_connect.
  case_decide.
  - destruct (inventory_id selectedItem) as [id|]; [case_decide|]; try done.
  - by destruct (inventory_id selectedItem) as [id|]; [case_decide|].
Qed.

(** The inventory form keeps stock levels and prices at zero or more. It
    sends nothing for an item with no name, with a stock level of 0, or
    with a negative stock level or cost, and the process is then as
    before. What it sends while the pool has a client to hand out is
    answered 201 (on an inventory whose sequence is ahead of its keys);
    with every client checked out it gets no answer and the process is as
    before. Afterwards no stock level and no price of the inventory is
    negative when none was before. A stock level cannot be set to 0
    through the form. *)
Theorem Inventory_handleSubmit_keeps_nonneg (selectedItem : InventoryItem)
    (p : process) :
  (∀ k row, inventory (ledger (database p)) !! k = Some row →
     k ≤ inventory_inventory_id_seq (database p)) →
  inventory_nonneg (ledger (database p)) →
  let outcome := (Inventory_handleSubmit selectedItem p).1 in
  let p' := (Inventory_handleSubmit selectedItem p).2 in
  inventory_nonneg (ledger (database p'))
  ∧ ((∃ message, outcome = Alerted message ∧ p' = p)
     ∨ (outcome = Sent NoAnswer ∧ p' = p
        ∧ (Pool_max ≤ checked_out p)%nat)
     ∨ (∃ message,
          outcome = Sent (Answered (Returned (InventoryCreated message)))
          ∧ (checked_out p < Pool_max)%nat
          ∧ item_name selectedItem ≠ ""
          ∧ 0 < stockLevel selectedItem
          ∧ (0 <= cost selectedItem)%Q)).
Proof.
  intros Hseq Hnonneg. cbv zeta. rewrite Inventory_handleSubmit_run.
  case_bool_decide as Hreq; [split; [done|]; left; by eexists|].
  case_bool_decide as Hneg; [split; [done|]; left; by eexists|].
  case_decide as Hfree;
    [|split; [done|]; right; left; split_and!; [done | done | lia]].
  assert (item_name selectedItem ≠ "" ∧ 0 < stockLevel selectedItem
          ∧ (0 <= cost selectedItem)%Q) as (Hname & Hstock & Hcost).
  { split_and!.
    - intros ?. apply Hreq. by left.
    - assert (stockLevel selectedItem ≠ 0) by (intros ?; apply Hreq; by right).
      assert (¬ stockLevel selectedItem < 0) by (intros ?; apply Hneg; by right).
      lia.
    - apply Qnot_lt_le. intros ?. apply Hneg. by left. }
  pose proof (toFixed2_nonneg _ Hcost) as Hprice.
  assert (inventory_nonneg
            (ledger (pg_run (add_inventory_try selectedItem) (database p)).2)
          ∧ (pg_run (add_inventory_try selectedItem) (database p)).1
            = Returned (InventoryCreated "Successfully add item.")) as Hadd.
  { rewrite add_inventory_try_run. cbv zeta.
    rewrite api_add_inventory_fresh by done. split; [|done].
    unfold inventory_nonneg. cbn [snd with_inventory ledger inventory].
    intros i row. rewrite lookup_insert. case_decide.
    - intros [= <-]. cbn. split; [lia | done].
    - apply Hnonneg. }
  cbv zeta.
  destruct (inventory_id selectedItem) as [id|]; [case_decide|].
  - destruct Hadd as [Hadd ->]. cbn [fst snd database].
    split; [done|]. right. right. by eexists.
  - destruct (api_update_inventory_full id (item_name selectedItem)
                (stockLevel selectedItem) (cost selectedItem) (database p))
      as (-> & Hid & Hother & _).
    cbn [fst snd database]. split; [|right; right; by eexists].
    intros i row. destruct (decide (i = id)) as [->|Hi].
    + rewrite Hid. destruct (inventory (ledger (database p)) !! id); [|done].
      intros [= <-]. cbn. split; [lia | done].
    + rewrite Hother by done. apply Hnonneg.
  - destruct Hadd as [Hadd ->]. cbn [fst snd database].
    split; [done|]. right. right. by eexists.
Qed.

(** ** The menu *)

Lemma with_menu_ingredients_same (c : catalog) :
  with_menu_ingredients c (menu_ingredients (ledger c)) = c.
Proof. by destruct c as [[]]. Qed.

Lemma catalog_restore_same (c : catalog) : restore_tables c c = c.
Proof.
  unfold restore_tables, catalog_store. rewrite restore_same. by destruct c.
Qed.

(** The loop over the ingredients of a body. *)
Lemma pg_for_of_ingredients (k : Z) (keep : Z → bool)
    (f : IngredientQuantity → Pg catalog unit) (l : list IngredientQuantity)
    (c : catalog) (before : option catalog) :
  (∀ ingredient,
     f ingredient
     = if keep (ingredient_quantity ingredient)
       then insert_menu_ingredients
              {| mi_menu_item_id := k;
                 mi_inventory_id := ingredient_id ingredient;
                 mi_quantity_needed := ingredient_quantity ingredient |}
       else mret ()) →
  pg_for_of l f {| tables := c; snapshot := before |}
  = (Returned (),
     {| tables :=
          with_menu_ingredients c
            (menu_ingredients (ledger c) ++ recipe_rows k keep l);
        snapshot := before |}).
Proof.
  intros Hf. revert c. induction l as [|x l IH]; intros c.
  - cbn. unfold mret, pg_ret, recipe_rows. cbn.
    by rewrite app_nil_r, with_menu_ingredients_same.
  - cbn [pg_for_of]. unfold mbind, pg_bind. rewrite Hf.
    unfold recipe_rows. rewrite filter_cons.
    destruct (keep (ingredient_quantity x)) eqn:Hkeep.
    + unfold insert_menu_ingredients, pg_exec. cbn [tables snapshot].
      rewrite IH. rewrite decide_True by done. do 3 f_equal.
      cbn [with_menu_ingredients ledger menu_ingredients]. unfold recipe_rows.
      rewrite fmap_cons, <-app_assoc. done.
    + unfold mret, pg_ret. rewrite IH. by rewrite decide_False by done.
Qed.

Lemma api_add_menu_run (body : add_menu_body) (c : catalog) :
  pg_run (api_add_menu body) c
  = let key := menu_menu_item_id_seq c + 1 in
    match menu (ledger c) !! key with
    | Some _ => (Returned MenuError, with_menu_seq c key)
    | None =>
        (Returned (MenuOk "Menu item and ingredients added successfully"),
         let c1 :=
           with_menu (with_menu_seq c key)
             (<[key := form_menu_row (am_name body) (am_price body)
                         (am_category body) (am_isActive body)]>
                (menu (ledger c)))
             match truthy_text (am_description body) with
             | Some text => <[key := text]> (menu_description c)
             | None => delete key (menu_description c)
             end in
         with_menu_ingredients c1
           (menu_ingredients (ledger c)
            ++ recipe_rows key (λ q, bool_decide (0 < q))
                 (am_ingredientList body)))
    end.
Proof.
  unfold pg_run, api_add_menu, pg_try.
  unfold mbind at 1. unfold pg_bind at 1. unfold pg_BEGIN.
  cbn [tables snapshot default].
  unfold mbind at 1. unfold pg_bind at 1. unfold insert_menu, pg_exec.
  cbn [tables snapshot with_menu_seq ledger menu_menu_item_id_seq
       menu_description]. cbv zeta.
  destruct (menu (ledger c) !! (menu_menu_item_id_seq c + 1)) as [row|].
  - unfold pg_ROLLBACK, mbind, pg_bind, mret, pg_ret. cbn [tables snapshot].
    unfold restore_tables, catalog_store, with_menu_seq.
    cbn [ledger menu_description menu_menu_item_id_seq
         inventory_inventory_id_seq]. by rewrite restore_same.
  - unfold mbind at 1. unfold pg_bind at 1.
    rewrite (pg_for_of_ingredients (menu_menu_item_id_seq c + 1)
               (λ q, bool_decide (0 < q))) by done.
    unfold pg_COMMIT, mbind, pg_bind, mret, pg_ret. cbn [tables snapshot].
    done.
Qed.

Lemma api_update_menu_run (body : update_menu_body) (c : catalog) :
  pg_run (api_update_menu body) c
  = match menu_assignments body, um_id body with
    | [], _ | _ :: _, None => (Returned MenuError, c)
    | _ :: _, Some id =>
        (Returned (MenuOk "Successfully updated menu item and ingredients"),
         let c1 := updated_menu (menu_assignments body) id c in
         if bool_decide (0 < length (um_ingredientList body))%nat
         then
           with_menu_ingredients c1
             (filter (λ mi, mi_menu_item_id mi ≠ id)
                     (menu_ingredients (ledger c1))
              ++ recipe_rows id (λ q, negb (bool_decide (q = 0)))
                   (um_ingredientList body))
         else c1)
    end.
Proof.
  unfold pg_run, api_update_menu, pg_try.
  unfold mbind at 1. unfold pg_bind at 1. unfold pg_BEGIN.
  cbn [tables snapshot default]. cbv zeta. fold (menu_assignments body).
  unfold mbind at 1. unfold pg_bind at 1. unfold update_menu, pg_exec.
  cbn [tables snapshot].
  destruct (menu_assignments body) as [|a assignments] eqn:Ha.
  { unfold pg_ROLLBACK, mbind, pg_bind, mret, pg_ret. cbn [tables snapshot].
    by rewrite catalog_restore_same. }
  destruct (um_id body) as [id|] eqn:Hid.
  2:{ unfold pg_ROLLBACK, mbind, pg_bind, mret, pg_ret. cbn [tables snapshot].
      by rewrite catalog_restore_same. }
  cbv zeta. set (c1 := updated_menu (a :: assignments) id c).
  case_bool_decide as Hlen.
  - unfold mbind at 1. unfold pg_bind at 1.
    unfold mbind at 1. unfold pg_bind at 1.
    unfold delete_menu_ingredients, pg_exec. cbn [tables snapshot].
    rewrite (pg_for_of_ingredients id (λ q, negb (bool_decide (q = 0)))).
    2:{ intros ingredient. by case_bool_decide. }
    unfold pg_COMMIT, mbind, pg_bind, mret, pg_ret. cbn [tables snapshot].
    do 2 f_equal. cbn [with_menu_ingredients ledger menu_ingredients
                       menu_description menu_menu_item_id_seq
                       inventory_inventory_id_seq inventory menu orders
                       order_menu orders_order_id_seq].
    unfold with_menu_ingredients. do 3 f_equal.
    apply list_filter_iff. intros mi. split; [intros ? ?|intros ? [=]]; congruence.
  - unfold mbind, pg_bind, mret, pg_ret, pg_COMMIT. cbn [tables snapshot]. done.
Qed.

Lemma recipe_rows_elem_of (k : Z) (keep : Z → bool)
    (l : list IngredientQuantity) (mi : menu_ingredients_row) :
  mi ∈ recipe_rows k keep l ↔
  ∃ ingredient, ingredient ∈ l
    ∧ keep (ingredient_quantity ingredient) = true
    ∧ mi = {| mi_menu_item_id := k;
              mi_inventory_id := ingredient_id ingredient;
              mi_quantity_needed := ingredient_quantity ingredient |}.
Proof.
  unfold recipe_rows. rewrite list_elem_of_fmap.
  setoid_rewrite list_elem_of_filter. naive_solver.
Qed.

Lemma api_add_menu_full (body : add_menu_body) (c : catalog) :
  catalog_seq_ahead c →
  let key := menu_menu_item_id_seq c + 1 in
  let c' := (pg_run (api_add_menu body) c).2 in
  (pg_run (api_add_menu body) c).1
    = Returned (MenuOk "Menu item and ingredients added successfully")
  ∧ menu (ledger c) !! key = None
  ∧ menu (ledger c')
    = <[key := form_menu_row (am_name body) (am_price body)
                 (am_category body) (am_isActive body)]> (menu (ledger c))
  ∧ menu_description c' !! key = truthy_text (am_description body)
  ∧ menu_ingredients (ledger c')
    = menu_ingredients (ledger c)
      ++ recipe_rows key (λ q, bool_decide (0 < q)) (am_ingredientList body)
  ∧ (recipe_positive (ledger c) → recipe_positive (ledger c'))
  ∧ (inventory (ledger c') = inventory (ledger c)
     ∧ orders (ledger c') = orders (ledger c)
     ∧ order_menu (ledger c') = order_menu (ledger c))
  ∧ catalog_seq_ahead c'.
Proof.
  intros [Hiseq Hmseq]. cbv zeta. rewrite api_add_menu_run. cbv zeta.
  assert (menu (ledger c) !! (menu_menu_item_id_seq c + 1) = None) as Hfresh.
  { destruct (menu (ledger c) !! _) as [row|] eqn:Hk; [|done].
    apply Hmseq in Hk. lia. }
  rewrite Hfresh.
  cbn [fst snd with_menu_ingredients with_menu with_menu_seq ledger menu
       menu_ingredients menu_description inventory orders order_menu
       menu_menu_item_id_seq inventory_inventory_id_seq].
  split_and!; try done.
  - destruct (truthy_text (am_description body)).
    + by rewrite lookup_insert_eq.
    + by rewrite lookup_delete_eq.
  - intros Hpos mi [Hmi|Hmi]%elem_of_app; [by apply Hpos|].
    apply recipe_rows_elem_of in Hmi as (x & _ & Hq & ->).
    cbn. by apply bool_decide_eq_true in Hq.
  - unfold catalog_seq_ahead.
    cbn [with_menu_ingredients with_menu with_menu_seq ledger inventory menu
         inventory_inventory_id_seq menu_menu_item_id_seq].
    split; [done|].
    intros k row. rewrite lookup_insert. case_decide; [lia|].
    intros Hk. apply Hmseq in Hk. lia.
Qed.

(** [POST /api/add-menu], on a catalog whose sequences are ahead of its
    keys: it is answered 200; the menu gets one row, under the next key,
    with the name, price, category and active flag of the body, and the
    description of the body unless that is absent, null or empty; the
    recipes get one row for each ingredient of the body whose quantity is
    above 0, in the order of the body, and none for the others, so that
    recipes of positive quantities stay so; the inventory and the orders
    are as before. *)
Theorem api_add_menu_adds (body : add_menu_body) (c : catalog) :
  catalog_seq_ahead c →
  let key := menu_menu_item_id_seq c + 1 in
  let c' := (pg_run (api_add_menu body) c).2 in
  (pg_run (api_add_menu body) c).1
    = Returned (MenuOk "Menu item and ingredients added successfully")
  ∧ menu (ledger c) !! key = None
  ∧ menu (ledger c')
    = <[key := form_menu_row (am_name body) (am_price body)
                 (am_category body) (am_isActive body)]> (menu (ledger c))
  ∧ menu_description c' !! key = truthy_text (am_description body)
  ∧ menu_ingredients (ledger c')
    = menu_ingredients (ledger c)
      ++ recipe_rows key (λ q, bool_decide (0 < q)) (am_ingredientList body)
  ∧ (recipe_positive (ledger c) → recipe_positive (ledger c'))
  ∧ (inventory (ledger c') = inventory (ledger c)
     ∧ orders (ledger c') = orders (ledger c)
     ∧ order_menu (ledger c') = order_menu (ledger c))
  ∧ catalog_seq_ahead c'.
Proof. apply api_add_menu_full. Qed.

Lemma updated_menu_other (assignments : list menu_assignment) (id : Z)
    (c : catalog) :
  (∀ k, k ≠ id →
     menu (ledger (updated_menu assignments id c)) !! k
       = menu (ledger c) !! k
     ∧ menu_description (updated_menu assignments id c) !! k
       = menu_description c !! k)
  ∧ (menu (ledger c) !! id = None → updated_menu assignments id c = c)
  ∧ menu_ingredients (ledger (updated_menu assignments id c))
    = menu_ingredients (ledger c)
  ∧ inventory (ledger (updated_menu assignments id c)) = inventory (ledger c)
  ∧ orders (ledger (updated_menu assignments id c)) = orders (ledger c)
  ∧ order_menu (ledger (updated_menu assignments id c))
    = order_menu (ledger c)
  ∧ menu_menu_item_id_seq (updated_menu assignments id c)
    = menu_menu_item_id_seq c
  ∧ inventory_inventory_id_seq (updated_menu assignments id c)
    = inventory_inventory_id_seq c
  ∧ (∀ k, is_Some (menu (ledger (updated_menu assignments id c)) !! k)
          ↔ is_Some (menu (ledger c) !! k)).
Proof.
  unfold updated_menu. destruct (menu (ledger c) !! id) as [row|] eqn:Hid.
  2:{ split_and!; try done. }
  cbv zeta. cbn [with_menu ledger menu menu_description menu_ingredients
                 inventory orders order_menu menu_menu_item_id_seq
                 inventory_inventory_id_seq].
  split_and!; try done.
  - intros k Hk. rewrite lookup_insert_ne by done. split; [done|].
    destruct (foldl _ _ _).2; by rewrite ?lookup_insert_ne, ?lookup_delete_ne.
  - intros k. rewrite lookup_insert. case_decide; [|done]. subst k.
    rewrite Hid. split; by eexists.
Qed.

Lemma api_update_menu_full (body : update_menu_body) (id : Z) (c : catalog) :
  um_id body = Some id → menu_assignments body ≠ [] →
  let c' := (pg_run (api_update_menu body) c).2 in
  (pg_run (api_update_menu body) c).1
    = Returned (MenuOk "Successfully updated menu item and ingredients")
  ∧ menu_ingredients (ledger c')
    = match um_ingredientList body with
      | [] => menu_ingredients (ledger c)
      | _ :: _ =>
          filter (λ mi, mi_menu_item_id mi ≠ id) (menu_ingredients (ledger c))
          ++ recipe_rows id (λ q, negb (bool_decide (q = 0)))
               (um_ingredientList body)
      end
  ∧ menu (ledger c') = menu (ledger (updated_menu (menu_assignments body) id c))
  ∧ menu_description c'
    = menu_description (updated_menu (menu_assignments body) id c)
  ∧ (inventory (ledger c') = inventory (ledger c)
     ∧ orders (ledger c') = orders (ledger c)
     ∧ order_menu (ledger c') = order_menu (ledger c)
     ∧ menu_menu_item_id_seq c' = menu_menu_item_id_seq c
     ∧ inventory_inventory_id_seq c' = inventory_inventory_id_seq c).
Proof.
  intros Hid Hassign. cbv zeta. rewrite api_update_menu_run, Hid.
  destruct (menu_assignments body) as [|a assignments] eqn:Ha; [done|].
  cbv zeta. cbn [fst snd].
  destruct (updated_menu_other (a :: assignments) id c)
    as (_ & _ & Hmi & Hinv & Ho & Hom & Hs1 & Hs2 & _).
  destruct (um_ingredientList body) as [|x l] eqn:Hl.
  - rewrite bool_decide_eq_false_2 by (simpl; lia). by split_and!.
  - rewrite bool_decide_eq_true_2 by (simpl; lia).
    cbn [with_menu_ingredients ledger menu_ingredients menu menu_description
         inventory orders order_menu menu_menu_item_id_seq
         inventory_inventory_id_seq].
    rewrite Hmi. by split_and!.
Qed.

(** [PUT /api/update-menu], for a body with an id and at least one field
    to set: it is answered 201 whether or not the menu has a row of the id,
    and every other menu row and its description are as before. When the
    ingredient list of the body is not empty the recipe rows of the id are
    deleted and one row is inserted for each ingredient whose quantity is
    not 0, in the order of the body, a negative quantity included; when
    the list is empty the recipes are as before. A recipe of positive
    quantities stays so when no quantity of the body is negative. *)
Theorem api_update_menu_replaces (body : update_menu_body) (id : Z)
    (c : catalog) :
  um_id body = Some id → menu_assignments body ≠ [] →
  let c' := (pg_run (api_update_menu body) c).2 in
  (pg_run (api_update_menu body) c).1
    = Returned (MenuOk "Successfully updated menu item and ingredients")
  ∧ menu_ingredients (ledger c')
    = match um_ingredientList body with
      | [] => menu_ingredients (ledger c)
      | _ :: _ =>
          filter (λ mi, mi_menu_item_id mi ≠ id) (menu_ingredients (ledger c))
          ++ recipe_rows id (λ q, negb (bool_decide (q = 0)))
               (um_ingredientList body)
      end
  ∧ (∀ k, k ≠ id →
       menu (ledger c') !! k = menu (ledger c) !! k
       ∧ menu_description c' !! k = menu_description c !! k)
  ∧ (menu (ledger c) !! id = None → menu (ledger c') = menu (ledger c))
  ∧ (recipe_positive (ledger c) →
     (∀ x, x ∈ um_ingredientList body → 0 ≤ ingredient_quantity x) →
     recipe_positive (ledger c'))
  ∧ (inventory (ledger c') = inventory (ledger c)
     ∧ orders (ledger c') = orders (ledger c)
     ∧ order_menu (ledger c') = order_menu (ledger c)).
Proof.
  intros Hid Hassign. cbv zeta.
  destruct (api_update_menu_full body id c Hid Hassign)
    as (Hr & Hmi & Hm & Hd & Hinv & Ho & Hom & _).
  destruct (updated_menu_other (menu_assignments body) id c)
    as (Hother & Hnone & _).
  split_and!; try done.
  - intros k Hk. rewrite Hm, Hd. by apply Hother.
  - intros Hno. by rewrite Hm, Hnone.
  - intros Hpos Hq mi. rewrite Hmi.
    destruct (um_ingredientList body) as [|x l]; [apply Hpos|].
    intros [[_ Hin]%list_elem_of_filter|Hin]%elem_of_app; [by apply Hpos|].
    apply recipe_rows_elem_of in Hin as (y & Hy & Hkeep & ->). cbn.
    apply negb_true_iff, bool_decide_eq_false in Hkeep.
    assert (0 ≤ ingredient_quantity y) by by apply Hq. lia.
Qed.

(** What counts as a field to set. A body of [PUT /api/update-menu] or
    [PUT /api/update-inventory] that sets no field at all makes a statement
    with an empty [SET] list: the answer is 500 and nothing changes, not
    even the recipe when the body carries ingredients. A name, price or
    category that is null is passed over, but a description that is null
    is stored as the text null and an active flag that is null as false:
    on a menu row of the id such a body is answered 201. *)
Theorem update_fields_to_set (id : option Z) (k : Z) (row : menu_row)
    (l : list IngredientQuantity) (c : catalog) :
  pg_run (api_update_menu
            {| um_id := id; um_name := None; um_price := None;
               um_category := None; um_description := undefined;
               um_isActive := undefined; um_ingredientList := l |}) c
    = (Returned MenuError, c)
  ∧ pg_run (api_update_inventory
              {| iu_id := id; iu_name := None; iu_stockLevel := None;
                 iu_cost := None |}) c
    = (Returned InventoryError, c)
  ∧ (menu (ledger c) !! k = Some row →
     let c' :=
       (pg_run (api_update_menu
                  {| um_id := Some k; um_name := None; um_price := None;
                     um_category := None; um_description := null;
                     um_isActive := null; um_ingredientList := [] |}) c).2 in
     menu (ledger c') !! k
       = Some (form_menu_row (menu_item_name row) (sales_price row)
                 (menu_category row) false)
     ∧ menu_description c' !! k = Some "null").
Proof.
  split_and!.
  - rewrite api_update_menu_run. done.
  - rewrite api_update_inventory_run. done.
  - intros Hk. cbv zeta. rewrite api_update_menu_run.
    assert (menu_assignments
              {| um_id := Some k; um_name := None; um_price := None;
                 um_category := None; um_description := null;
                 um_isActive := null; um_ingredientList := [] |}
            = [set_description "null"; set_is_active false]) as -> by done.
    cbn [um_id um_ingredientList length].
    rewrite bool_decide_eq_false_2 by lia. cbn [snd].
    unfold updated_menu. rewrite Hk. cbn [foldl assign_menu fst snd].
    cbn [with_menu ledger menu menu_description].
    by rewrite !lookup_insert_eq.
Qed.

(** ** The menu form *)

Lemma updated_menu_form (n : string) (p : Q) (cat desc : string) (b : bool)
    (id : Z) (c : catalog) :
  menu (ledger (updated_menu (form_assignments n p cat desc b) id c)) !! id
  = (λ _, form_menu_row n (toFixed2 p) cat b) <$> menu (ledger c) !! id.
Proof.
  unfold updated_menu. destruct (menu (ledger c) !! id) as [row|] eqn:Hid.
  - cbn [form_assignments foldl assign_menu fst snd with_menu ledger menu].
    by rewrite lookup_insert_eq.
  - by rewrite Hid.
Qed.

Lemma MenuAdjust_handleSubmit_run (selectedItem : MenuAdjust_item)
    (c : catalog) :
  pg_run (MenuAdjust_handleSubmit selectedItem) c
  = if bool_decide (sel_name selectedItem = "" ∨ sel_category selectedItem = "")
    then (Returned (Alerted "Please fill in all required fields"), c)
    else if bool_decide (sel_price selectedItem < 0)%Q
    then (Returned (Alerted "Number cannot be negative!"), c)
    else
      let category := toLowerCase (sel_category selectedItem) in
      if bool_decide (category ∉ validCategories)
      then (Returned (Alerted "Invalid category. Please enter one of the following categories: Entree, Drink, Side, Extra."), c)
      else
        let sent (r : result menu_response * catalog) :=
          (match r.1 with
           | Returned response => Returned (Sent response)
           | Threw e => Threw e
           end, r.2) in
        let edited (id : Z) :=
          sent (pg_run (api_update_menu
                  {| um_id := Some id;
                     um_name := Some (sel_name selectedItem);
                     um_price := Some (sel_price selectedItem);
                     um_category := Some category;
                     um_description := value (sel_description selectedItem);
                     um_isActive := value (sel_isActive selectedItem);
                     um_ingredientList := sel_ingredientList selectedItem |})
                  c) in
        let added :=
          sent (pg_run (api_add_menu
                  {| am_name := sel_name selectedItem;
                     am_price := sel_price selectedItem;
                     am_category := category;
                     am_description := Some (sel_description selectedItem);
                     am_isActive := sel_isActive selectedItem;
                     am_ingredientList := sel_ingredientList selectedItem |})
                  c) in
        match sel_id selectedItem with
        | Some id => edited id
        | None => added
        end.
Proof.
  unfold MenuAdjust_handleSubmit. repeat case_bool_decide; try done.
  cbv zeta. unfold pg_run, mbind, pg_bind.
  destruct (sel_id selectedItem) as [id|].
  - by destruct (api_update_menu _ _) as [[response|e] c'].
  - by destruct (api_add_menu _ _) as [[response|e] c'].
Qed.

(** The menu form keeps the menu well formed. It sends nothing for an
    item with no name or no category, with a negative price, or with a
    category that in lower case is not entree, drink, side or extra, and
    the store is then as before. What it sends is answered with success
    (on a catalog whose sequences are ahead of its keys), and afterwards
    every menu row has a name, a price of zero or more and one of the four
    categories, when that was so before; and every recipe quantity is
    positive, when that was so before and no quantity of the form is
    negative, which [handleItemClick] and [handleIngredientChange] see
    to. *)
Theorem MenuAdjust_handleSubmit_keeps (selectedItem : MenuAdjust_item)
    (c : catalog) :
  catalog_seq_ahead c →
  menu_ok (ledger c) →
  recipe_positive (ledger c) →
  (∀ x, x ∈ sel_ingredientList selectedItem → 0 ≤ ingredient_quantity x) →
  let outcome := (pg_run (MenuAdjust_handleSubmit selectedItem) c).1 in
  let c' := (pg_run (MenuAdjust_handleSubmit selectedItem) c).2 in
  menu_ok (ledger c') ∧ recipe_positive (ledger c') ∧ catalog_seq_ahead c'
  ∧ ((∃ message, outcome = Returned (Alerted message) ∧ c' = c)
     ∨ (∃ message, outcome = Returned (Sent (MenuOk message))
          ∧ sel_name selectedItem ≠ ""
          ∧ (0 <= sel_price selectedItem)%Q
          ∧ toLowerCase (sel_category selectedItem) ∈ validCategories))
  ∧ (∀ ingredientId change x,
       x ∈ MenuAdjust_handleIngredientChange ingredientId change
             (sel_ingredientList selectedItem) →
       0 ≤ ingredient_quantity x)
  ∧ (∀ ingredientList x,
       x ∈ MenuAdjust_handleItemClick ingredientList
             (sel_ingredientList selectedItem) →
       0 ≤ ingredient_quantity x).
Proof.
  intros Hseq Hmenu Hpos Hq. cbv zeta. rewrite MenuAdjust_handleSubmit_run.
  assert (∀ ingredientId change x,
            x ∈ MenuAdjust_handleIngredientChange ingredientId change
                  (sel_ingredientList selectedItem) →
            0 ≤ ingredient_quantity x) as Hchange.
  { intros i ch x (y & -> & Hy)%list_elem_of_fmap.
    case_decide; [cbn; lia | by apply Hq]. }
  assert (∀ ingredientList x,
            x ∈ MenuAdjust_handleItemClick ingredientList
                  (sel_ingredientList selectedItem) →
            0 ≤ ingredient_quantity x) as Hclick.
  { intros l x (y & -> & Hy)%list_elem_of_fmap. cbn.
    destruct (list_find _ _) as [[j z]|] eqn:Hfind; [|done].
    apply list_find_Some in Hfind as (Hz%list_elem_of_lookup_2 & _).
    by apply Hq. }
  case_bool_decide as Hreq; [split_and!; try done; left; by eexists|].
  case_bool_decide as Hneg; [split_and!; try done; left; by eexists|].
  cbv zeta.
  case_bool_decide as Hcat; [split_and!; try done; left; by eexists|].
  assert (sel_name selectedItem ≠ "" ∧ (0 <= sel_price selectedItem)%Q
          ∧ toLowerCase (sel_category selectedItem) ∈ validCategories)
    as (Hname & Hprice & Hvalid).
  { split_and!.
    - intros ?. apply Hreq. by left.
    - by apply Qnot_lt_le.
    - done. }
  cbv zeta. destruct (sel_id selectedItem) as [id|].
  2: (set (body := {| am_name := sel_name selectedItem; am_price := _ |});
        destruct (api_add_menu_full body c Hseq)
          as (Hr & Hfresh & Hm & _ & _ & Hrecipe & _ & Hseq');
        rewrite Hr; cbn [fst snd]; split_and!; try done;
        [ intros k m; rewrite Hm, lookup_insert; case_decide;
          [intros [= <-]; by cbn | apply Hmenu]
        | by apply Hrecipe
        | right; by eexists ]).
  - set (body := {| um_id := Some id; um_name := _ |}).
    assert (menu_assignments body
            = form_assignments (sel_name selectedItem) (sel_price selectedItem)
                (toLowerCase (sel_category selectedItem))
                (sel_description selectedItem) (sel_isActive selectedItem))
      as Hassign by done.
    destruct (api_update_menu_full body id c eq_refl)
      as (Hr & Hmi & Hm & Hd & Hinv & Ho & Hom & Hs1 & Hs2).
    { by rewrite Hassign. }
    destruct (updated_menu_other (menu_assignments body) id c)
      as (Hother & _ & _ & _ & _ & _ & _ & _ & Hdom).
    rewrite Hr. cbn [fst snd]. split_and!; try done.
    + intros k m. rewrite Hm. destruct (decide (k = id)) as [->|Hk].
      * rewrite Hassign, updated_menu_form.
        destruct (menu (ledger c) !! id); [|done]. intros [= <-]. cbn.
        split_and!; [done | by apply toFixed2_nonneg | done].
      * destruct (Hother k Hk) as [-> _]. apply Hmenu.
    + intros mi. rewrite Hmi. unfold body. cbn [um_ingredientList].
      destruct (sel_ingredientList selectedItem) as [|x l] eqn:Hl;
        [apply Hpos|].
      intros [[_ Hin]%list_elem_of_filter|Hin]%elem_of_app; [by apply Hpos|].
      apply recipe_rows_elem_of in Hin as (y & Hy & Hkeep & ->). cbn.
      apply negb_true_iff, bool_decide_eq_false in Hkeep.
      assert (0 ≤ ingredient_quantity y) by by apply Hq. lia.
    + destruct Hseq as [Hiseq Hmseq]. split.
      * rewrite Hinv, Hs2. apply Hiseq.
      * intros k row Hk. rewrite Hs1.
        assert (is_Some (menu (ledger c) !! k)) as [row0 Hrow0].
        { apply Hdom. rewrite <-Hm. by eexists. }
        by eapply Hmseq.
    + right. by eexists.
Qed.

(** ** Listing the menu *)

Lemma api_active_items_run (c : catalog) :
  pg_run api_active_items c = (Returned (Listed (active_items c)), c).
Proof. done. Qed.

Lemma elem_of_active_items (c : catalog) (item : MenuItem) :
  item ∈ active_items c ↔
  ∃ k m, menu (ledger c) !! k = Some m ∧ is_active m = true
    ∧ item = {| m_id := k; m_name := menu_item_name m;
                m_price := sales_price m; m_category := menu_category m |}.
Proof using scan_perm.
  unfold active_items. rewrite list_elem_of_fmap. split.
  - intros ([k m] & -> & Hin). rewrite scan_perm in Hin.
    apply list_elem_of_filter in Hin as [Hactive Hin].
    apply elem_of_map_to_list in Hin. by exists k, m.
  - intros (k & m & Hk & Hactive & ->). exists (k, m). split; [done|].
    rewrite scan_perm. apply list_elem_of_filter. split; [done|].
    by apply elem_of_map_to_list.
Qed.

Lemma assign_is_active (body : update_menu_body) (row : menu_row)
    (description : option string) :
  is_active (foldl assign_menu (row, description) (menu_assignments body)).1
  = default (is_active row) (Boolean_of (um_isActive body)).
Proof.
  unfold menu_assignments.
  destruct (um_name body), (um_price body), (um_category body),
    (um_description body), (um_isActive body); done.
Qed.

(** [GET /api/active-items] lists the active rows of the menu, each once,
    and leaves the store alone. An item that [PUT /api/update-menu]
    switches off is not listed afterwards, and one it switches on is; an
    update that does not carry the flag leaves the item listed or not as
    it was. *)
Theorem api_active_items_lists (c : catalog) :
  pg_run api_active_items c = (Returned (Listed (active_items c)), c)
  ∧ NoDup (m_id <$> active_items c)
  ∧ (∀ item, item ∈ active_items c ↔
       ∃ k m, menu (ledger c) !! k = Some m ∧ is_active m = true
         ∧ item = {| m_id := k; m_name := menu_item_name m;
                     m_price := sales_price m;
                     m_category := menu_category m |})
  ∧ (∀ body id row,
       um_id body = Some id → menu_assignments body ≠ [] →
       menu (ledger c) !! id = Some row →
       (∃ item, item ∈ active_items (pg_run (api_update_menu body) c).2
                ∧ m_id item = id)
       ↔ default (is_active row) (Boolean_of (um_isActive body)) = true).
Proof using scan_perm.
  split_and!; [done | | apply elem_of_active_items |].
  - unfold active_items. rewrite <-list_fmap_compose.
    change (NoDup (scan (Z * menu_row)
                     (filter (λ m : Z * menu_row, is_active m.2 = true)
                        (map_to_list (menu (ledger c))))).*1).
    rewrite scan_perm.
    assert (∀ l : list (Z * menu_row), NoDup l.*1 →
              NoDup (filter (λ m : Z * menu_row, is_active m.2 = true) l).*1)
      as Hfilter.
    { induction l as [|x l IH]; [done|]. rewrite fmap_cons, NoDup_cons.
      intros [Hx Hl]. rewrite filter_cons. case_decide; [|by apply IH].
      rewrite fmap_cons. apply NoDup_cons. split; [|by apply IH].
      intros Hin. apply Hx. apply list_elem_of_fmap in Hin as (y & -> & Hy).
      apply list_elem_of_filter in Hy as [_ Hy]. by apply list_elem_of_fmap_2. }
    apply Hfilter, NoDup_fst_map_to_list.
  - intros body id row Hid Hassign Hrow.
    destruct (api_update_menu_full body id c Hid Hassign)
      as (_ & _ & Hm & _).
    assert (menu (ledger (pg_run (api_update_menu body) c).2) !! id
            = Some (foldl assign_menu (row, menu_description c !! id)
                      (menu_assignments body)).1) as Hnew.
    { rewrite Hm. unfold updated_menu. rewrite Hrow.
      cbn [with_menu ledger menu]. by rewrite lookup_insert_eq. }
    rewrite <-(assign_is_active body row (menu_description c !! id)). split.
    + intros (item & (k & m & Hk & Hactive & ->)%elem_of_active_items & Hitem).
      cbn in Hitem. subst k. congruence.
    + intros Hactive. eexists. split.
      * apply elem_of_active_items. by eexists id, _.
      * done.
Qed.

Lemma item_of_row_app (row : all_items_row) (l1 l2 : list ingredient_json) :
  foldl (λ item x, push_ingredient_json x item) (item_of_row row l1) l2
  = item_of_row row (l1 ++ l2).
Proof.
  revert l1. induction l2 as [|x l2 IH]; intros l1; cbn [foldl].
  - by rewrite app_nil_r.
  - unfold push_ingredient_json at 2. cbn [item_of_row mj_id mj_name mj_price
      mj_category mj_description mj_isActive mj_ingredients].
    change {| mj_id := ai_menu_item_id row; mj_name := ai_menu_item_name row;
              mj_price := ai_sales_price row;
              mj_category := ai_menu_category row;
              mj_description := ai_description row;
              mj_isActive := ai_is_active row;
              mj_ingredients := l1 ++ [x] |}
      with (item_of_row row (l1 ++ [x])).
    by rewrite IH, <-app_assoc.
Qed.

(** What a row does to the entry of a menu item. *)
Lemma all_items_add_row_get (itemsMap : list (Z * menu_item_json))
    (row : all_items_row) (k : Z) :
  JsMap.get k (all_items_add_row itemsMap row)
  = if decide (ai_menu_item_id row = k)
    then
      Some (foldl (λ item x, push_ingredient_json x item)
              (default (item_of_row row [])
                       (JsMap.get (ai_menu_item_id row) itemsMap))
              (ingredient_of_row row))
    else JsMap.get k itemsMap.
Proof.
  unfold all_items_add_row, ingredient_of_row. cbv zeta.
  destruct (JsMap.get (ai_menu_item_id row) itemsMap) as [item|] eqn:Hget.
  - rewrite Hget. cbn [default].
    destruct (ai_inventory_id row) as [inventory_id|].
    + destruct (decide (inventory_id = 0)).
      * case_decide; [by subst|done].
      * case_decide.
        -- subst. by rewrite JsMap_get_set_eq.
        -- by rewrite JsMap_get_set_ne.
    + case_decide; [by subst|done].
  - rewrite JsMap_get_set_eq. cbn [default].
    fold (item_of_row row []).
    destruct (ai_inventory_id row) as [inventory_id|].
    + destruct (decide (inventory_id = 0)).
      * case_decide.
        -- subst. by rewrite JsMap_get_set_eq.
        -- by rewrite JsMap_get_set_ne.
      * case_decide.
        -- subst. by rewrite JsMap_get_set_eq.
        -- by rewrite !JsMap_get_set_ne.
    + case_decide.
      * subst. by rewrite JsMap_get_set_eq.
      * by rewrite JsMap_get_set_ne.
Qed.

Lemma all_items_add_row_NoDup (itemsMap : list (Z * menu_item_json))
    (row : all_items_row) :
  NoDup itemsMap.*1 → NoDup (all_items_add_row itemsMap row).*1.
Proof.
  intros Hnd. unfold all_items_add_row. cbv zeta.
  set (m1 := match JsMap.get (ai_menu_item_id row) itemsMap with
             | Some _ => itemsMap
             | None => JsMap.set _ _ itemsMap
             end).
  assert (NoDup m1.*1) as Hm1.
  { unfold m1. destruct (JsMap.get _ _); [done | by apply JsMap_set_NoDup]. }
  destruct (ai_inventory_id row) as [inventory_id|]; [|done].
  destruct (JsMap.get (ai_menu_item_id row) m1); [|done].
  case_decide; [done | by apply JsMap_set_NoDup].
Qed.

(** The entries after the rows: the entry of a menu item is opened by the
    first row of the item and lists what the rows of the item add, in
    their order. *)
Lemma all_items_fold (rows : list all_items_row) :
  NoDup (foldl all_items_add_row [] rows).*1
  ∧ ∀ k, JsMap.get k (foldl all_items_add_row [] rows)
         = match filter (λ r, ai_menu_item_id r = k) rows with
           | [] => None
           | r0 :: rs => Some (item_of_row r0 ((r0 :: rs) ≫= ingredient_of_row))
           end.
Proof.
  induction rows as [|r rows [IHnd IH]] using rev_ind.
  - split; [apply NoDup_nil_2 | done].
  - rewrite foldl_snoc. split; [by apply all_items_add_row_NoDup|].
    intros k. rewrite all_items_add_row_get, filter_app, filter_cons, filter_nil.
    case_decide as Hk.
    + subst k. rewrite IH.
      destruct (filter _ rows) as [|r0 rs]; cbn [from_option app];
        unfold Datatypes.id.
      * rewrite item_of_row_app. cbn. by rewrite app_nil_r.
      * rewrite item_of_row_app. f_equal. f_equal.
        change (r0 :: rs ++ [r]) with ((r0 :: rs) ++ [r]).
        rewrite bind_app. cbn. by rewrite app_nil_r.
    + rewrite IH, app_nil_r. done.
Qed.

Lemma all_items_rows_of_id (c : catalog) (m : Z * menu_row)
    (r : all_items_row) :
  r ∈ all_items_rows_of c m →
  ai_menu_item_id r = m.1 ∧ item_of_row r [] = 
    {| mj_id := m.1; mj_name := menu_item_name m.2;
       mj_price := sales_price m.2; mj_category := menu_category m.2;
       mj_description := menu_description c !! m.1;
       mj_isActive := is_active m.2; mj_ingredients := [] |}.
Proof.
  unfold all_items_rows_of. intros (mi & Hr & _)%list_elem_of_bind.
  apply list_elem_of_singleton in Hr. by subst.
Qed.

Lemma all_items_rows_of_ingredients (c : catalog) (m : Z * menu_row) :
  all_items_rows_of c m ≫= ingredient_of_row = listed_ingredients c m.1.
Proof.
  unfold all_items_rows_of, listed_ingredients, recipe.
  induction (menu_ingredients (ledger c)) as [|mi l IH]; [done|].
  rewrite filter_cons. case_decide as Hmi; [|done].
  assert (∀ l' : list menu_ingredients_row,
            (left_join (mi :: l')) = Some mi :: (Some <$> l')) as Hjoin by done.
  rewrite Hjoin. rewrite !bind_cons.
  assert (∀ l' : list menu_ingredients_row,
            ((Some <$> l') ≫= λ mi0 : option menu_ingredients_row,
               [ {| ai_menu_item_id := m.1;
                    ai_menu_item_name := menu_item_name m.2;
                    ai_sales_price := sales_price m.2;
                    ai_menu_category := menu_category m.2;
                    ai_description := menu_description c !! m.1;
                    ai_is_active := is_active m.2;
                    ai_inventory_id :=
                      fst <$> (mi0 ≫= λ mi1,
                                 (λ row, (mi_inventory_id mi1, row))
                                   <$> inventory (ledger c) !! mi_inventory_id mi1);
                    ai_item_name :=
                      (λ i, inv_item_name i.2)
                        <$> (mi0 ≫= λ mi1,
                               (λ row, (mi_inventory_id mi1, row))
                                 <$> inventory (ledger c) !! mi_inventory_id mi1);
                    ai_quantity_needed := mi_quantity_needed <$> mi0 |} ])
              ≫= ingredient_of_row
            = l' ≫= λ mi1,
                match inventory (ledger c) !! mi_inventory_id mi1 with
                | Some i =>
                    if decide (mi_inventory_id mi1 = 0) then []
                    else [ {| ing_id := mi_inventory_id mi1;
                              ing_name := Some (inv_item_name i);
                              quantity_used := Some (mi_quantity_needed mi1) |} ]
                | None => []
                end) as Hrest.
  { induction l' as [|mi1 l' IH']; [done|].
    rewrite fmap_cons, !bind_cons, bind_app, IH'. f_equal.
    cbn. unfold ingredient_of_row. cbn.
    destruct (inventory (ledger c) !! mi_inventory_id mi1); cbn; [|done].
    by case_decide. }
  rewrite bind_app, Hrest. f_equal.
  cbn. unfold ingredient_of_row. cbn.
  destruct (inventory (ledger c) !! mi_inventory_id mi); cbn; [|done].
  by case_decide.
Qed.

Lemma filter_all {A} (P : A → Prop) `{!∀ x, Decision (P x)} (l : list A) :
  (∀ x, x ∈ l → P x) → filter P l = l.
Proof.
  induction l as [|x l IH]; intros Hl; [done|].
  rewrite filter_cons, decide_True by apply Hl, list_elem_of_here.
  f_equal. apply IH. intros y Hy. by apply Hl, list_elem_of_further.
Qed.

Lemma filter_none {A} (P : A → Prop) `{!∀ x, Decision (P x)} (l : list A) :
  (∀ x, x ∈ l → ¬ P x) → filter P l = [].
Proof.
  induction l as [|x l IH]; intros Hl; [done|].
  rewrite filter_cons, decide_False by apply Hl, list_elem_of_here.
  apply IH. intros y Hy. by apply Hl, list_elem_of_further.
Qed.

Lemma all_items_select_filter (c : catalog) (k : Z) (m : menu_row) :
  menu (ledger c) !! k = Some m →
  filter (λ r, ai_menu_item_id r = k) (all_items_select c)
  ≡ₚ all_items_rows_of c (k, m).
Proof.
  intros Hk. unfold all_items_select.
  rewrite <-(map_to_list_delete _ _ _ Hk), bind_cons, filter_app.
  rewrite filter_all.
  2:{ intros r Hr. by apply all_items_rows_of_id in Hr as [? _]. }
  rewrite filter_none; [by rewrite app_nil_r|].
  intros r ([k' m'] & Hr & Hin)%list_elem_of_bind.
  apply all_items_rows_of_id in Hr as [-> _]. cbn.
  apply elem_of_map_to_list in Hin. intros ->.
  by rewrite lookup_delete_eq in Hin.
Qed.

Lemma all_items_rows_of_inhabited (c : catalog) (m : Z * menu_row) :
  all_items_rows_of c m ≠ [].
Proof.
  unfold all_items_rows_of.
  destruct (left_join_inhabited
              (filter (λ mi, mi_menu_item_id mi = m.1)
                      (menu_ingredients (ledger c)))) as [mi Hmi].
  intros Hnil.
  assert (∃ r, r ∈ all_items_rows_of c m) as [r Hr].
  { eexists. apply list_elem_of_bind. exists mi. split; [|done].
    apply list_elem_of_here. }
  unfold all_items_rows_of in Hr. rewrite Hnil in Hr.
  by apply elem_of_nil in Hr.
Qed.

Lemma api_all_items_run (c : catalog) :
  pg_run api_all_items c
  = (Returned
       (Listed (JsMap.values
                  (foldl all_items_add_row []
                     (scan all_items_row (all_items_select c))))), c).
Proof. done. Qed.

Lemma api_all_items_full (c : catalog) :
  ∃ items,
    pg_run api_all_items c = (Returned (Listed items), c)
    ∧ NoDup (mj_id <$> items)
    ∧ (∀ item, item ∈ items → is_Some (menu (ledger c) !! mj_id item))
    ∧ (∀ k m, menu (ledger c) !! k = Some m →
         ∃ item, item ∈ items
           ∧ mj_id item = k
           ∧ mj_name item = menu_item_name m
           ∧ mj_price item = sales_price m
           ∧ mj_category item = menu_category m
           ∧ mj_description item = menu_description c !! k
           ∧ mj_isActive item = is_active m
           ∧ mj_ingredients item ≡ₚ listed_ingredients c k).
Proof using scan_perm.
  eexists. split; [apply api_all_items_run|].
  set (rows := scan all_items_row (all_items_select c)).
  destruct (all_items_fold rows) as [Hnd Hget].
  set (itemsMap := foldl all_items_add_row [] rows) in *.
  assert (∀ k item, (k, item) ∈ itemsMap → mj_id item = k
            ∧ is_Some (menu (ledger c) !! k)) as Hentry.
  { intros k item Hin. apply JsMap_elem_of_get in Hin; [|done].
    rewrite Hget in Hin.
    destruct (filter _ rows) as [|r0 rs] eqn:Hf; [done|].
    injection Hin as <-. cbn [item_of_row mj_id].
    assert (r0 ∈ filter (λ r, ai_menu_item_id r = k) rows) as Hr0
      by (rewrite Hf; left).
    apply list_elem_of_filter in Hr0 as [Hid Hr0]. split; [done|].
    unfold rows in Hr0. rewrite scan_perm in Hr0.
    apply list_elem_of_bind in Hr0 as ([k' m'] & Hr0 & Hin').
    apply all_items_rows_of_id in Hr0 as [Hid' _]. cbn in Hid'.
    apply elem_of_map_to_list in Hin'. rewrite <-Hid, Hid'. by eexists. }
  split_and!.
  - unfold JsMap.values.
    assert (mj_id <$> itemsMap.*2 = itemsMap.*1) as ->; [|done].
    clear Hnd Hget. induction itemsMap as [|[k item] l IH]; [done|].
    rewrite !fmap_cons. cbn [fst snd]. f_equal.
    + apply Hentry. left.
    + apply IH. intros k' item' Hin. apply Hentry. by right.
  - intros item (kv & -> & Hin)%list_elem_of_fmap. destruct kv as [k item].
    apply Hentry in Hin as [Hid Hk]. cbn [snd]. by rewrite Hid.
  - intros k m Hk.
    pose proof (all_items_select_filter c k m Hk) as Hperm.
    assert (filter (λ r, ai_menu_item_id r = k) rows
            ≡ₚ all_items_rows_of c (k, m)) as Hrows.
    { unfold rows. by rewrite scan_perm. }
    specialize (Hget k).
    destruct (filter _ rows) as [|r0 rs] eqn:Hf.
    { apply Permutation_nil in Hrows.
      by apply all_items_rows_of_inhabited in Hrows. }
    assert (r0 ∈ all_items_rows_of c (k, m)) as Hr0
      by (rewrite <-Hrows; left).
    apply all_items_rows_of_id in Hr0 as [Hid Hhead].
    exists (item_of_row r0 ((r0 :: rs) ≫= ingredient_of_row)).
    injection Hhead as H1 H2 H3 H4 H5 H6.
    split_and!; try done.
    + apply (JsMap_values_elem_of k). done.
    + cbn [item_of_row mj_ingredients].
      rewrite Hrows. by rewrite all_items_rows_of_ingredients.
Qed.

(** [GET /api/all-items] lists every row of the menu once, with its name,
    price, category, description and active flag, and leaves the store
    alone. The ingredients of an item are its recipe rows, each with the
    id and the name of its inventory row and the quantity the recipe
    needs, in the order the server returns the rows; a recipe row is left
    out when its inventory row is missing or has the id 0. *)
Theorem api_all_items_lists (c : catalog) :
  ∃ items,
    pg_run api_all_items c = (Returned (Listed items), c)
    ∧ NoDup (mj_id <$> items)
    ∧ (∀ item, item ∈ items → is_Some (menu (ledger c) !! mj_id item))
    ∧ (∀ k m, menu (ledger c) !! k = Some m →
         ∃ item, item ∈ items
           ∧ mj_id item = k
           ∧ mj_name item = menu_item_name m
           ∧ mj_price item = sales_price m
           ∧ mj_category item = menu_category m
           ∧ mj_description item = menu_description c !! k
           ∧ mj_isActive item = is_active m
           ∧ mj_ingredients item ≡ₚ listed_ingredients c k).
Proof using scan_perm. apply api_all_items_full. Qed.

(** What the manager saves is what the manager sees. After [POST
    /api/add-menu] on a catalog whose sequences are ahead of its keys and
    that has no recipe row left over for the next key, [GET /api/all-items]
    lists the new item under that key with the name, price, category and
    active flag of the body, and with one ingredient for each ingredient of
    the body whose quantity is above 0 and whose id is the id, other than
    0, of an inventory row: the id, the name the inventory has for it
    (not the name the body carried) and the quantity. *)
Theorem api_add_menu_then_all_items (body : add_menu_body) (c : catalog) :
  catalog_seq_ahead c →
  recipe (ledger c) (menu_menu_item_id_seq c + 1) = [] →
  let key := menu_menu_item_id_seq c + 1 in
  let c' := (pg_run (api_add_menu body) c).2 in
  ∃ items item,
    pg_run api_all_items c' = (Returned (Listed items), c')
    ∧ item ∈ items
    ∧ mj_id item = key
    ∧ mj_name item = am_name body
    ∧ mj_price item = am_price body
    ∧ mj_category item = am_category body
    ∧ mj_description item = truthy_text (am_description body)
    ∧ mj_isActive item = am_isActive body
    ∧ mj_ingredients item
      ≡ₚ (x ← filter (λ x, 0 < ingredient_quantity x) (am_ingredientList body);
          match inventory (ledger c) !! ingredient_id x with
          | Some i =>
              if decide (ingredient_id x = 0) then []
              else [ {| ing_id := ingredient_id x;
                        ing_name := Some (inv_item_name i);
                        quantity_used := Some (ingredient_quantity x) |} ]
          | None => []
          end).
Proof using scan_perm.
  intros Hseq Hrecipe. cbv zeta.
  destruct (api_add_menu_full body c Hseq)
    as (_ & Hfresh & Hm & Hd & Hmi & _ & (Hinv & _) & _).
  set (c' := (pg_run (api_add_menu body) c).2) in *.
  destruct (api_all_items_full c') as (items & Hrun & _ & _ & Hitems).
  destruct (Hitems (menu_menu_item_id_seq c + 1)
              (form_menu_row (am_name body) (am_price body) (am_category body)
                 (am_isActive body)))
    as (item & Hin & Hid & Hn & Hp & Hc & Hdesc & Ha & Hing).
  { rewrite Hm. apply lookup_insert_eq. }
  exists items, item. split_and!; try done.
  - by rewrite Hdesc, Hd.
  - rewrite Hing. unfold listed_ingredients, recipe. rewrite Hmi, filter_app.
    unfold recipe in Hrecipe. rewrite Hrecipe, app_nil_l. rewrite Hinv.
    rewrite filter_all.
    2:{ intros mi (x & _ & _ & ->)%recipe_rows_elem_of. done. }
    unfold recipe_rows.
    rewrite (list_filter_iff _ (λ x, 0 < ingredient_quantity x)).
    2:{ intros x. by rewrite bool_decide_eq_true. }
    induction (filter _ (am_ingredientList body)) as [|x l IH]; [done|].
    rewrite fmap_cons, !bind_cons, IH. done.
Qed.


(** ** Staff *)

Lemma staff_restore_same (s : staff) : restore_tables s s = s.
Proof. by destruct s. Qed.

Lemma api_login_run (body : login_body) (s : staff) :
  pg_run (api_login body) s
  = (Returned
       match scan (Z * employees_row)
               (filter (λ e : Z * employees_row,
                          login_match (String_js (lb_username body))
                                      (String_js (lb_password body)) e.2)
                       (map_to_list (employees s))) with
       | employee :: _ =>
           LoginOk {| lj_id := employee.1;
                      lj_firstName := emp_first_name employee.2;
                      lj_isEmployee := true;
                      lj_isManager := emp_is_manager employee.2 |}
       | [] => InvalidCredentials
       end, s).
Proof.
  unfold pg_run, api_login, pg_try, mbind, pg_bind, pg_query.
  cbn [tables]. by destruct (scan _ _).
Qed.

Lemma api_login_full (body : login_body) (s : staff) :
  let u := String_js (lb_username body) in
  let p := String_js (lb_password body) in
  (∃ employee row,
     pg_run (api_login body) s = (Returned (LoginOk employee), s)
     ∧ employees s !! lj_id employee = Some row
     ∧ login_match u p row
     ∧ lj_firstName employee = emp_first_name row
     ∧ lj_isManager employee = emp_is_manager row
     ∧ lj_isEmployee employee = true)
  ∨ (pg_run (api_login body) s = (Returned InvalidCredentials, s)
     ∧ ∀ k row, employees s !! k = Some row → ¬ login_match u p row).
Proof using scan_perm.
  cbv zeta. rewrite api_login_run.
  destruct (scan _ _) as [|[k row] rest] eqn:Hscan.
  - right. split; [done|]. intros k row Hk Hmatch.
    assert ((k, row) ∈ scan (Z * employees_row)
              (filter (λ e : Z * employees_row,
                         login_match (String_js (lb_username body))
                                     (String_js (lb_password body)) e.2)
                      (map_to_list (employees s)))) as Hin.
    { rewrite scan_perm. apply list_elem_of_filter. split; [done|].
      by apply elem_of_map_to_list. }
    rewrite Hscan in Hin. by apply elem_of_nil in Hin.
  - left.
    assert ((k, row) ∈ scan (Z * employees_row)
              (filter (λ e : Z * employees_row,
                         login_match (String_js (lb_username body))
                                     (String_js (lb_password body)) e.2)
                      (map_to_list (employees s)))) as Hin.
    { rewrite Hscan. apply list_elem_of_here. }
    rewrite scan_perm in Hin. apply list_elem_of_filter in Hin as [Hmatch Hin].
    apply elem_of_map_to_list in Hin. eexists _, row. by split_and!.
Qed.


Lemma employees_assignments_row (body : update_employee_body)
    (row : employees_row) :
  foldl assign_employees row (employees_assignments body)
  = {| emp_first_name :=
         match not_nullish (ue_firstName body) with
         | Some v => Some v
         | None => emp_first_name row
         end;
       emp_last_name :=
         match not_nullish (ue_lastName body) with
         | Some v => Some v
         | None => emp_last_name row
         end;
       emp_username :=
         match not_nullish (ue_username body) with
         | Some v => Some v
         | None => emp_username row
         end;
       emp_password_hash :=
         match not_nullish (ue_password body) with
         | Some v => Some v
         | None => emp_password_hash row
         end;
       emp_is_manager :=
         default (emp_is_manager row) (not_nullish (ue_isManager body));
       emp_is_active :=
         default (emp_is_active row) (not_nullish (ue_isActive body));
       emp_is_employee := emp_is_employee row |}.
Proof.
  unfold employees_assignments.
  destruct (not_nullish (ue_firstName body)), (not_nullish (ue_lastName body)),
    (not_nullish (ue_username body)), (not_nullish (ue_password body)),
    (not_nullish (ue_isManager body)), (not_nullish (ue_isActive body));
    by destruct row.
Qed.

Lemma api_update_employee_run (body : update_employee_body) (s : staff) :
  pg_run (api_update_employee body) s
  = match employees_assignments body, Number_js (ue_id body) with
    | [], _ | _ :: _, None => (Returned EmployeeError, s)
    | _ :: _, Some id =>
        (Returned (EmployeeCreated "Successfully update employee"),
         {| employees :=
              alter (λ row, foldl assign_employees row
                              (employees_assignments body)) id (employees s);
            employees_employee_id_seq := employees_employee_id_seq s |})
    end.
Proof.
  unfold pg_run, api_update_employee, pg_try, mbind, pg_bind, pg_BEGIN,
    update_employees, pg_exec.
  cbn [tables snapshot default]. cbv zeta.
  pose proof (staff_restore_same s) as Hrestore.
  destruct (employees_assignments body) as [|a assignments];
    [|destruct (Number_js (ue_id body))];
    cbn [pg_ROLLBACK pg_COMMIT mret pg_ret tables snapshot];
    unfold pg_ROLLBACK, pg_COMMIT, mret, pg_ret; cbn [tables snapshot];
    by rewrite ?Hrestore.
Qed.

Lemma api_update_employee_sets (body : update_employee_body) (id : Z)
    (s : staff) :
  Number_js (ue_id body) = Some id → employees_assignments body ≠ [] →
  pg_run (api_update_employee body) s
  = (Returned (EmployeeCreated "Successfully update employee"),
     {| employees :=
          alter (λ row, foldl assign_employees row
                          (employees_assignments body)) id (employees s);
        employees_employee_id_seq := employees_employee_id_seq s |}).
Proof.
  intros Hid Hset. rewrite api_update_employee_run, Hid.
  by destruct (employees_assignments body).
Qed.

Lemma employees_assignments_active (body : update_employee_body) (b : bool) :
  ue_isActive body = value b → employees_assignments body ≠ [].
Proof.
  intros Hb. unfold employees_assignments. rewrite Hb. cbn [not_nullish].
  intros Hnil. repeat (apply app_eq_nil in Hnil as [_ Hnil]). done.
Qed.

(** Switching an employee off locks the account. [PUT
    /api/update-employee] with the id of the employee and the active flag
    false is answered 201, whatever else the body sets; the other rows are
    as before, the row of the id, if there is one, is not active
    afterwards, and [POST /api/login] is answered with that id for no
    username and password. *)
Theorem api_update_employee_deactivates (body : update_employee_body)
    (id : Z) (s : staff) :
  ue_id body = value id → ue_isActive body = value false →
  let s' := (pg_run (api_update_employee body) s).2 in
  (pg_run (api_update_employee body) s).1
    = Returned (EmployeeCreated "Successfully update employee")
  ∧ (∀ k, k ≠ id → employees s' !! k = employees s !! k)
  ∧ (∀ row, employees s' !! id = Some row → emp_is_active row = false)
  ∧ (is_Some (employees s' !! id) ↔ is_Some (employees s !! id))
  ∧ (∀ login employee,
       (pg_run (api_login login) s').1 = Returned (LoginOk employee) →
       lj_id employee ≠ id).
Proof using scan_perm.
  intros Hid Hactive. cbv zeta.
  rewrite (api_update_employee_sets body id s)
    by (by rewrite ?Hid; eauto using employees_assignments_active).
  cbn [fst snd employees].
  assert (∀ row,
            alter (λ row, foldl assign_employees row
                            (employees_assignments body)) id (employees s)
              !! id = Some row →
            emp_is_active row = false) as Hoff.
  { intros row. rewrite lookup_alter_eq.
    destruct (employees s !! id) as [old|]; [|done].
    cbn [fmap option_fmap option_map]. intros [= <-].
    rewrite employees_assignments_row, Hactive. done. }
  split_and!; [done | | done | |].
  - intros k Hk. by rewrite lookup_alter_ne.
  - rewrite lookup_alter_eq. by rewrite fmap_is_Some.
  - intros login employee Hrun Heq.
    destruct (api_login_full login
                {| employees :=
                     alter (λ row, foldl assign_employees row
                                     (employees_assignments body)) id
                           (employees s);
                   employees_employee_id_seq := employees_employee_id_seq s |})
      as [(employee' & row & Hrun' & Hk & (_ & _ & Ha) & _)|[Hrun' _]];
      rewrite Hrun' in Hrun; [|done].
    cbn [fst] in Hrun. injection Hrun as <-. cbn [employees] in Hk.
    rewrite Heq in Hk. apply Hoff in Hk. congruence.
Qed.

Lemma api_add_employee_run (body : add_employee_body) (s : staff) :
  pg_run (api_add_employee body) s
  = let key := employees_employee_id_seq s + 1 in
    match employees s !! key with
    | Some _ =>
        (Returned EmployeeError,
         {| employees := employees s; employees_employee_id_seq := key |})
    | None =>
        (Returned (EmployeeCreated "Successfully add employee."),
         {| employees := <[key := added_employee body]> (employees s);
            employees_employee_id_seq := key |})
    end.
Proof.
  unfold pg_run, api_add_employee, pg_try, mbind, pg_bind, pg_BEGIN,
    insert_employees, pg_exec.
  cbn [tables snapshot default]. cbv zeta.
  by destruct (employees s !! (employees_employee_id_seq s + 1)).
Qed.

Lemma staff_seq_fresh (s : staff) :
  staff_seq_ahead s → employees s !! (employees_employee_id_seq s + 1) = None.
Proof.
  intros Hseq. destruct (employees s !! _) as [row|] eqn:Hk; [|done].
  apply Hseq in Hk. lia.
Qed.

Lemma staff_seq_ahead_insert (s : staff) (row : employees_row) :
  staff_seq_ahead s →
  staff_seq_ahead
    {| employees := <[employees_employee_id_seq s + 1 := row]> (employees s);
       employees_employee_id_seq := employees_employee_id_seq s + 1 |}.
Proof.
  intros Hseq k r. cbn [employees employees_employee_id_seq].
  intros [[<- _]|[_ Hk]]%lookup_insert_Some; [lia|]. apply Hseq in Hk. lia.
Qed.

Lemma api_employees_run (s : staff) :
  pg_run api_employees s
  = (Returned
       (staff_json_of
          <$> scan (Z * employees_row)
                (filter (λ e : Z * employees_row, emp_is_employee e.2 = true)
                        (map_to_list (employees s)))), s).
Proof. done. Qed.

Lemma elem_of_api_employees (s : staff) (user : staff_json) :
  user ∈ staff_json_of
           <$> scan (Z * employees_row)
                 (filter (λ e : Z * employees_row, emp_is_employee e.2 = true)
                         (map_to_list (employees s)))
  ↔ ∃ k row, employees s !! k = Some row ∧ emp_is_employee row = true
      ∧ user = staff_json_of (k, row).
Proof using scan_perm.
  rewrite list_elem_of_fmap. split.
  - intros ([k row] & -> & Hin). rewrite scan_perm in Hin.
    apply list_elem_of_filter in Hin as [He Hin].
    apply elem_of_map_to_list in Hin. by exists k, row.
  - intros (k & row & Hk & He & ->). exists (k, row). split; [done|].
    rewrite scan_perm. apply list_elem_of_filter. split; [done|].
    by apply elem_of_map_to_list.
Qed.

(** A new employee can log in. [POST /api/add-employee], on a table whose
    sequence is ahead of its keys, is answered 201 and adds one row under
    the next key, with the texts [String] makes of the fields of the body,
    and [GET /api/employees] lists it. When the active flag of the body is
    true, [POST /api/login] with the username and password of the body is
    answered 200 afterwards, and with the new id, first name and manager
    flag when no row matched them before; when the flag is false, absent
    or null, no login is answered with the new id. *)
Theorem api_add_employee_then_login (body : add_employee_body) (s : staff) :
  staff_seq_ahead s →
  let key := employees_employee_id_seq s + 1 in
  let s' := (pg_run (api_add_employee body) s).2 in
  let login := {| lb_username := ae_username body;
                  lb_password := ae_password body |} in
  (pg_run (api_add_employee body) s).1
    = Returned (EmployeeCreated "Successfully add employee.")
  ∧ employees s !! key = None
  ∧ employees s' = <[key := added_employee body]> (employees s)
  ∧ staff_seq_ahead s'
  ∧ (∃ users, pg_run api_employees s' = (Returned users, s')
       ∧ staff_json_of (key, added_employee body) ∈ users)
  ∧ (Boolean_js (ae_isActive body) = true →
     ∃ employee,
       pg_run (api_login login) s' = (Returned (LoginOk employee), s')
       ∧ ((∀ k row, employees s !! k = Some row →
             ¬ login_match (String_js (ae_username body))
                           (String_js (ae_password body)) row) →
          employee
          = {| lj_id := key;
               lj_firstName := Some (String_js (ae_firstName body));
               lj_isEmployee := true;
               lj_isManager := Boolean_js (ae_isManager body) |}))
  ∧ (Boolean_js (ae_isActive body) = false →
     ∀ any employee,
       (pg_run (api_login any) s').1 = Returned (LoginOk employee) →
       lj_id employee ≠ key).
Proof using scan_perm.
  intros Hseq. cbv zeta. rewrite api_add_employee_run. cbv zeta.
  pose proof (staff_seq_fresh s Hseq) as Hfresh. rewrite Hfresh.
  cbn [fst snd employees].
  set (key := employees_employee_id_seq s + 1) in *.
  set (s' := {| employees := <[key := added_employee body]> (employees s);
                employees_employee_id_seq := key |}).
  assert (employees s' !! key = Some (added_employee body)) as Hnew
    by apply lookup_insert_eq.
  split_and!; [done | done | done | by apply staff_seq_ahead_insert | | |].
  - eexists. split; [apply api_employees_run|].
    apply elem_of_api_employees. by exists key, (added_employee body).
  - intros Hactive.
    destruct (api_login_full
                {| lb_username := ae_username body;
                   lb_password := ae_password body |} s')
      as [(employee & row & Hrun & Hk & Hmatch & Hf & Hm & He)|[_ Hnone]].
    + exists employee. split; [done|]. intros Hbefore.
      cbn [lb_username lb_password] in Hmatch.
      assert (lj_id employee = key) as Hkey.
      { destruct (decide (lj_id employee = key)) as [|Hne]; [done|].
        exfalso. unfold s' in Hk. cbn [employees] in Hk.
        rewrite lookup_insert_ne in Hk by done. by apply Hbefore in Hk. }
      rewrite Hkey, Hnew in Hk. injection Hk as <-.
      destruct employee. cbn in *. by subst.
    + exfalso. apply (Hnone key (added_employee body) Hnew).
      by split_and!.
  - intros Hoff any employee Hrun Heq.
    destruct (api_login_full any s')
      as [(employee' & row & Hrun' & Hk & (_ & _ & Ha) & _)|[Hrun' _]];
      rewrite Hrun' in Hrun; [|done].
    cbn [fst] in Hrun. injection Hrun as <-.
    rewrite Heq, Hnew in Hk. injection Hk as <-.
    cbn [added_employee emp_is_active] in Ha. congruence.
Qed.

Lemma api_google_login_run (tokeninfo : string → tokeninfo_result)
    (token : string) (googleUser : google_user) (s : staff) :
  token ≠ "" → tokeninfo token = Verified googleUser →
  pg_run (api_google_login tokeninfo (Some token)) s
  = match scan (Z * employees_row)
            (filter (λ e : Z * employees_row,
                       google_match (not_nullish (email googleUser)) e.2)
                    (map_to_list (employees s))) with
    | employee :: _ =>
        (Returned (GoogleOk
           {| ej_id := employee.1;
              ej_firstName := json_of_column (emp_first_name employee.2);
              ej_lastName := json_of_column (emp_last_name employee.2);
              ej_isEmployee := emp_is_employee employee.2;
              ej_isManager := emp_is_manager employee.2 |}), s)
    | [] =>
        let key := employees_employee_id_seq s + 1 in
        match employees s !! key with
        | Some _ =>
            (Returned DatabaseError,
             {| employees := employees s; employees_employee_id_seq := key |})
        | None =>
            (Returned (GoogleOk
               {| ej_id := key;
                  ej_firstName := given_name googleUser;
                  ej_lastName := family_name googleUser;
                  ej_isEmployee := false;
                  ej_isManager := false |}),
             {| employees :=
                  <[key := {| emp_first_name :=
                                not_nullish (given_name googleUser);
                              emp_last_name :=
                                not_nullish (family_name googleUser);
                              emp_username := not_nullish (email googleUser);
                              emp_password_hash := None;
                              emp_is_manager := false;
                              emp_is_active := true;
                              emp_is_employee := false |}]> (employees s);
                employees_employee_id_seq := key |})
        end
    end.
Proof.
  intros Htoken Hinfo. unfold api_google_login.
  destruct token as [|a token]; [done|]. rewrite Hinfo.
  unfold pg_run, pg_try, mbind, pg_bind, pg_query, insert_employees, pg_exec.
  cbn [tables snapshot]. destruct (scan _ _); [|done].
  cbn [tables snapshot]. cbv zeta.
  by destruct (employees s !! (employees_employee_id_seq s + 1)).
Qed.

(** Signing in with Google, for a token that [tokeninfo] verifies with an
    email, on a table whose sequence is ahead of its keys. When an active
    row has the email as its username, the answer is 200 with the id and
    flags of such a row and the store is as before. When no row has it,
    the answer is 200 with the next key, and the row added under it is
    active, no employee, no manager, and has no password: signing in again
    is answered with the same id and adds nothing, no [POST /api/login] is
    answered with that id, and [GET /api/employees] does not list it. *)
Theorem api_google_login_account (tokeninfo : string → tokeninfo_result)
    (token : string) (googleUser : google_user) (e : string) (s : staff) :
  token ≠ "" → tokeninfo token = Verified googleUser →
  email googleUser = value e → staff_seq_ahead s →
  let sign_in := api_google_login tokeninfo (Some token) in
  let key := employees_employee_id_seq s + 1 in
  ((∃ k row, employees s !! k = Some row ∧ emp_username row = Some e
      ∧ emp_is_active row = true) →
   ∃ data row,
     pg_run sign_in s = (Returned (GoogleOk data), s)
     ∧ employees s !! ej_id data = Some row
     ∧ emp_username row = Some e ∧ emp_is_active row = true
     ∧ ej_isEmployee data = emp_is_employee row
     ∧ ej_isManager data = emp_is_manager row)
  ∧ ((∀ k row, employees s !! k = Some row → emp_username row ≠ Some e) →
     let s' := (pg_run sign_in s).2 in
     (pg_run sign_in s).1
       = Returned (GoogleOk {| ej_id := key;
                               ej_firstName := given_name googleUser;
                               ej_lastName := family_name googleUser;
                               ej_isEmployee := false;
                               ej_isManager := false |})
     ∧ employees s'
       = <[key := {| emp_first_name := not_nullish (given_name googleUser);
                     emp_last_name := not_nullish (family_name googleUser);
                     emp_username := Some e;
                     emp_password_hash := None;
                     emp_is_manager := false;
                     emp_is_active := true;
                     emp_is_employee := false |}]> (employees s)
     ∧ (∃ data, pg_run sign_in s' = (Returned (GoogleOk data), s')
          ∧ ej_id data = key
          ∧ ej_isEmployee data = false ∧ ej_isManager data = false)
     ∧ (∀ login employee,
          (pg_run (api_login login) s').1 = Returned (LoginOk employee) →
          lj_id employee ≠ key)
     ∧ (∃ users, pg_run api_employees s' = (Returned users, s')
          ∧ ∀ user, user ∈ users → sj_id user ≠ key)).
Proof using scan_perm.
  intros Htoken Hinfo Hemail Hseq. cbv zeta.
  pose proof (api_google_login_run tokeninfo token googleUser) as Hrun.
  specialize (λ s, Hrun s Htoken Hinfo).
  rewrite Hemail in Hrun. cbn [not_nullish] in Hrun.
  set (P := λ e0 : Z * employees_row, google_match (Some e) e0.2) in *.
  assert (∀ (t : staff) k row, (k, row) ∈ scan _ (filter P (map_to_list (employees t)))
            ↔ employees t !! k = Some row ∧ emp_username row = Some e
              ∧ emp_is_active row = true) as Hscan.
  { intros t k row. rewrite scan_perm, list_elem_of_filter, elem_of_map_to_list.
    unfold P, google_match. cbn [snd]. split.
    - by intros [(_ & ? & ?) ?].
    - intros (? & ? & ?). by split_and!. }
  pose proof (staff_seq_fresh s Hseq) as Hfresh.
  split.
  - intros (k & row & Hk & Hu & Ha). rewrite Hrun.
    destruct (scan _ (filter P (map_to_list (employees s))))
      as [|[k' row'] rest] eqn:Hl.
    + exfalso. assert ((k, row) ∈ @nil (Z * employees_row)) as Hin.
      { rewrite <-Hl. by apply Hscan. }
      by apply elem_of_nil in Hin.
    + assert ((k', row') ∈ scan _ (filter P (map_to_list (employees s))))
        as Hin by (rewrite Hl; apply list_elem_of_here).
      apply Hscan in Hin as (Hk' & Hu' & Ha').
      eexists _, row'. by split_and!.
  - intros Hnone. rewrite Hrun.
    destruct (scan _ (filter P (map_to_list (employees s))))
      as [|[k' row'] rest] eqn:Hl.
    2:{ exfalso.
        assert ((k', row') ∈ scan _ (filter P (map_to_list (employees s))))
          as Hin by (rewrite Hl; apply list_elem_of_here).
        apply Hscan in Hin as (Hk' & Hu' & _). by apply Hnone in Hk'. }
    cbv zeta. rewrite Hfresh. cbn [fst snd employees].
    set (key := employees_employee_id_seq s + 1) in *.
    set (new := {| emp_first_name := not_nullish (given_name googleUser);
                   emp_last_name := not_nullish (family_name googleUser);
                   emp_username := Some e;
                   emp_password_hash := None;
                   emp_is_manager := false;
                   emp_is_active := true;
                   emp_is_employee := false |}).
    set (s' := {| employees := <[key := new]> (employees s);
                  employees_employee_id_seq := key |}).
    assert (employees s' !! key = Some new) as Hnew by apply lookup_insert_eq.
    split_and!; [done | done | | |].
    + rewrite Hrun.
      assert (scan _ (filter P (map_to_list (employees s'))) = [(key, new)])
        as ->.
      { apply Permutation_singleton_r. rewrite scan_perm.
        unfold s'. cbn [employees].
        rewrite map_to_list_insert by done. rewrite filter_cons.
        rewrite decide_True by (unfold P, google_match; by split_and!).
        rewrite filter_none; [done|].
        intros [k row] Hin%elem_of_map_to_list (_ & Hu & _).
        by apply Hnone in Hin. }
      eexists. split; [done|]. done.
    + intros login employee Hlogin Heq.
      destruct (api_login_full login s')
        as [(employee' & row & Hrun' & Hk & (_ & Hp & _) & _)|[Hrun' _]];
        rewrite Hrun' in Hlogin; [|done].
      cbn [fst] in Hlogin. injection Hlogin as <-.
      rewrite Heq, Hnew in Hk. injection Hk as <-. done.
    + eexists. split; [apply api_employees_run|].
      intros user (k & row & Hk & He & ->)%elem_of_api_employees Heq.
      cbn [staff_json_of sj_id fst] in Heq. subst k.
      rewrite Hnew in Hk. injection Hk as <-. done.
Qed.

Lemma not_nullish_json_of_column (x : option string) :
  not_nullish (json_of_column x) = x.
Proof. by destruct x. Qed.

Lemma Employee_select_row (row : employees_row) (k : Z) (password : field string) :
  foldl assign_employees row
    (employees_assignments
       {| ue_id := value k;
          ue_firstName := json_of_column (emp_first_name row);
          ue_lastName := json_of_column (emp_last_name row);
          ue_username := json_of_column (emp_username row);
          ue_password := password;
          ue_isManager := value (emp_is_manager row);
          ue_isActive := value (emp_is_active row) |})
  = {| emp_first_name := emp_first_name row;
       emp_last_name := emp_last_name row;
       emp_username := emp_username row;
       emp_password_hash :=
         match not_nullish password with
         | Some v => Some v
         | None => emp_password_hash row
         end;
       emp_is_manager := emp_is_manager row;
       emp_is_active := emp_is_active row;
       emp_is_employee := emp_is_employee row |}.
Proof.
  rewrite employees_assignments_row.
  cbn [ue_firstName ue_lastName ue_username ue_password ue_isManager
       ue_isActive].
  rewrite !not_nullish_json_of_column.
  by destruct (emp_first_name row), (emp_last_name row), (emp_username row).
Qed.

(** The edit form of the employee page, for a row [GET /api/employees]
    lists. Selecting the row and saving it untouched is answered 201 and
    leaves the store as it was, the password included, since the list
    carries none and a field that is undefined is not sent. Once the
    password field has been typed in, saving sets the password hash to the
    text the field holds, the empty text included, and changes nothing
    else: an active employee with a username then logs in with that
    username and that text. With no row selected nothing is sent. *)
Theorem Employee_edit_round_trip (k : Z) (row : employees_row) (s : staff) :
  employees s !! k = Some row → emp_is_employee row = true →
  let user := staff_json_of (k, row) in
  (∃ users, pg_run api_employees s = (Returned users, s) ∧ user ∈ users)
  ∧ pg_run (Employee_handleEditEmployee (Employee_select user)) s
    = (Returned (Some (EmployeeCreated "Successfully update employee")), s)
  ∧ (∀ typed,
       let saved :=
         pg_run (Employee_handleEditEmployee
                   (Employee_handleEditChange (change_password typed)
                      (Employee_select user))) s in
       saved.1 = Returned (Some (EmployeeCreated "Successfully update employee"))
       ∧ employees saved.2
         = <[k := {| emp_first_name := emp_first_name row;
                     emp_last_name := emp_last_name row;
                     emp_username := emp_username row;
                     emp_password_hash := Some typed;
                     emp_is_manager := emp_is_manager row;
                     emp_is_active := emp_is_active row;
                     emp_is_employee := emp_is_employee row |}]> (employees s)
       ∧ ∀ u, emp_username row = Some u → emp_is_active row = true →
           ∃ employee,
             pg_run (api_login {| lb_username := value u;
                                  lb_password := value typed |}) saved.2
             = (Returned (LoginOk employee), saved.2))
  ∧ pg_run (Employee_handleEditEmployee None) s = (Returned None, s).
Proof using scan_perm.
  intros Hk Hemployee. cbv zeta.
  assert (∀ body response t,
            pg_run (api_update_employee body) s = (Returned response, t) →
            pg_run (response ← api_update_employee body; mret (Some response)) s
            = (Returned (Some response), t)) as Hsend.
  { intros body response t. unfold pg_run, mbind, pg_bind, mret, pg_ret.
    destruct (api_update_employee body _) as [[r|err] c]; [|done].
    by intros [= -> ->]. }
  split_and!.
  - eexists. split; [apply api_employees_run|].
    apply elem_of_api_employees. by exists k, row.
  - unfold Employee_select, Employee_handleEditEmployee.
    apply Hsend. unfold Employee_body, staff_json_of.
    cbn [e_id e_firstName e_lastName e_username e_password e_isManager
         e_isActive sj_id sj_firstName sj_lastName sj_username sj_isManager
         sj_isActive fst snd].
    rewrite (api_update_employee_sets _ k);
      [|done|by eapply employees_assignments_active].
    f_equal. rewrite alter_id; [by destruct s|].
    intros row' Hk'. assert (row' = row) as -> by congruence.
    rewrite Employee_select_row. by destruct row.
  - intros typed.
    unfold Employee_select, Employee_handleEditChange,
      Employee_handleEditEmployee.
    unfold Employee_body, staff_json_of.
    cbn [e_id e_firstName e_lastName e_username e_password e_isManager
         e_isActive sj_id sj_firstName sj_lastName sj_username sj_isManager
         sj_isActive fst snd].
    erewrite Hsend;
      [|apply (api_update_employee_sets _ k);
        [done|by eapply employees_assignments_active]].
    cbn [fst snd employees].
    assert (alter
              (λ row0, foldl assign_employees row0
                 (employees_assignments
                    {| ue_id := value k;
                       ue_firstName := json_of_column (emp_first_name row);
                       ue_lastName := json_of_column (emp_last_name row);
                       ue_username := json_of_column (emp_username row);
                       ue_password := value typed;
                       ue_isManager := value (emp_is_manager row);
                       ue_isActive := value (emp_is_active row) |}))
              k (employees s)
            = <[k := {| emp_first_name := emp_first_name row;
                        emp_last_name := emp_last_name row;
                        emp_username := emp_username row;
                        emp_password_hash := Some typed;
                        emp_is_manager := emp_is_manager row;
                        emp_is_active := emp_is_active row;
                        emp_is_employee := emp_is_employee row |}]>
                (employees s)) as ->.
    { apply map_eq. intros i. destruct (decide (i = k)) as [->|Hne].
      - rewrite lookup_alter_eq, lookup_insert_eq, Hk.
        cbn [fmap option_fmap option_map]. by rewrite Employee_select_row.
      - by rewrite lookup_alter_ne, lookup_insert_ne. }
    split_and!; [done | done |].
    intros u Hu Ha.
    match goal with |- context [pg_run _ ?t] => set (s' := t) end.
    destruct (api_login_full {| lb_username := value u;
                                lb_password := value typed |} s')
      as [(employee & _ & Hrun & _)|[_ Hnone]]; [by exists employee|].
    exfalso. eapply (Hnone k).
    + unfold s'. cbn [employees]. apply lookup_insert_eq.
    + by split_and!.
  - done.
Qed.

End Server.

(** * The statements at sample inputs *)

Lemma scan_id_perm (R : Type) (l : list R) : scan_id R l ≡ₚ l.
Proof. done. Qed.

Lemma scan_rev_perm (R : Type) (l : list R) : scan_rev R l ≡ₚ l.
Proof. apply reverse_Permutation. Qed.

Lemma sample_within (d : db) (cart : list SelectedItem) :
  bool_decide (int4_query d cart) = true → within_int4 d cart.
Proof.
  intros H%bool_decide_eq_true. by apply int4_query_within.
Qed.

Lemma sample_nonneg_cart (q : Z) :
  0 ≤ q → ∀ line, line ∈ cart_X q → 0 ≤ quantity line.
Proof. intros Hq line Hl. unfold cart_X in Hl. elem_cases Hl. done. Qed.

Lemma sample_nonneg_recipe (d : db) :
  Forall (λ mi, 0 ≤ mi_quantity_needed mi) (menu_ingredients d) →
  ∀ mi, mi ∈ menu_ingredients d → 0 ≤ mi_quantity_needed mi.
Proof. intros H mi Hmi. by eapply Forall_forall in H. Qed.

Lemma sample_uses (d : db) (q : Z) (mi : menu_ingredients_row) :
  mi ∈ menu_ingredients d → mi_menu_item_id mi = 7 →
  uses d (cart_X q) (mi_inventory_id mi).
Proof.
  intros Hmi Hid.
  exists mi, {| id := 7; name := "Entree-X"; price := Number_of_Z 10;
                quantity := q |}.
  split_and!; [done | apply list_elem_of_here | done..].
Qed.

(** Every inventory row of a sample store is covered, by name. *)
Lemma sample_sufficient (d : db) (cart : list SelectedItem) :
  bool_decide
    (map_Forall (λ _ inv,
       demand_of_name d cart (inv_item_name inv) ≤ inv_stock_level inv)
       (inventory d)) = true →
  ∀ i inv, uses d cart i → inventory d !! i = Some inv →
    demand_of_name d cart (inv_item_name inv) ≤ inv_stock_level inv.
Proof.
  intros H i inv _ Hinv. apply bool_decide_eq_true in H.
  by apply (H i inv).
Qed.

(** Every inventory row of a sample store is covered, item by item. *)
Lemma sample_sufficient_by_item (d : db) (cart : list SelectedItem) :
  bool_decide
    (map_Forall (λ i inv, demand_of_item d cart i ≤ inv_stock_level inv)
       (inventory d)) = true →
  ∀ i inv, inventory d !! i = Some inv →
    demand_of_item d cart i ≤ inv_stock_level inv.
Proof.
  intros H i inv Hinv. apply bool_decide_eq_true in H. by apply (H i inv).
Qed.

(** The lane invariant at work: two placements on an empty ledger, then one
    advance. The second order waits behind the first. *)
Lemma lane_invariant_witness :
  at_most_one_building (db_lane [])
  ∧ at_most_one_building
      (foldl (step scan_id) (db_lane [])
         [PlaceOrder 0 sample_order_body; PlaceOrder 1 sample_order_body;
          KitchenNext])
  ∧ order_status
      <$> orders (foldl (step scan_id) (db_lane [])
                    [PlaceOrder 0 sample_order_body;
                     PlaceOrder 1 sample_order_body]) !! 2
    = Some waiting.
Proof.
  assert (at_most_one_building (db_lane [])) as H0.
  { apply at_most_one_building_count. vm_compute. lia. }
  split_and!; [exact H0 | | by vm_compute].
  exact (proj1 (lane_invariant scan_id scan_id_perm (db_lane []) _ H0)).
Defined.

(** One advance on a lane with order 1 building and orders 2 and 3
    waiting: 1 completes, 2 is promoted, 3 stays as it is. *)
Lemma api_kitchenNext_spec_witness :
  has_status complete
    (run api_kitchenNext
       (db_lane [(1, building); (2, waiting); (3, waiting)])).2 1
  ∧ has_status building
      (run api_kitchenNext
         (db_lane [(1, building); (2, waiting); (3, waiting)])).2 2
  ∧ orders (run api_kitchenNext
              (db_lane [(1, building); (2, waiting); (3, waiting)])).2 !! 3
    = Some (sample_order waiting).
Proof.
  set (d := db_lane [(1, building); (2, waiting); (3, waiting)]).
  destruct (api_kitchenNext_spec d) as (_ & _ & Hb & Hw & Hother & _).
  assert (∀ k', has_status building d k' → 1 ≤ k') as Hminb.
  { intros k' Hk'. apply elem_of_select_ids in Hk'. vm_compute in Hk'.
    elem_cases Hk'; lia. }
  assert (∀ k', has_status waiting d k' → 2 ≤ k') as Hmin.
  { intros k' Hk'. apply elem_of_select_ids in Hk'. vm_compute in Hk'.
    elem_cases Hk'; lia. }
  split_and!.
  - apply Hb; [by exists (sample_order building) | exact Hminb].
  - apply Hw; [by exists (sample_order waiting) | exact Hmin].
  - apply Hother; [done | by intros [? _] |]. intros [_ H3].
    assert (3 ≤ 2) by (apply H3; by exists (sample_order waiting)). lia.
Defined.

(** C3 as the specification states it fails on a ledger with two building
    orders: with orders 1 and 2 building and none waiting, the advance
    completes order 1 only, and order 2 is still building afterwards. *)
Lemma api_kitchenNext_two_building :
  has_status building (db_lane [(1, building); (2, building)]) 2
  ∧ (∀ k, ¬ has_status waiting (db_lane [(1, building); (2, building)]) k)
  ∧ has_status complete
      (run api_kitchenNext (db_lane [(1, building); (2, building)])).2 1
  ∧ has_status building
      (run api_kitchenNext (db_lane [(1, building); (2, building)])).2 2.
Proof.
  split_and!.
  - by exists (sample_order building).
  - intros k Hk. apply elem_of_select_ids in Hk. vm_compute in Hk.
    by apply elem_of_nil in Hk.
  - exists (sample_order complete). split; by vm_compute.
  - exists (sample_order building). split; by vm_compute.
Qed.

(** Scenario A with the stock lowered to the demand: two Entree-X need 4
    units of Ingredient-Y and 4 are in stock, and the cart is sufficient. *)
Lemma checkSufficientIngredients_sufficient_witness :
  within_int4 (db_stock 4) (cart_X 2)
  ∧ (∀ i inv, uses (db_stock 4) (cart_X 2) i →
       inventory (db_stock 4) !! i = Some inv →
       demand_of_name (db_stock 4) (cart_X 2) (inv_item_name inv)
         ≤ inv_stock_level inv)
  ∧ demand_of_name (db_stock 4) (cart_X 2) "Ingredient-Y" = 4
  ∧ ∃ breakdown,
      run (checkSufficientIngredients scan_id (cart_X 2)) (db_stock 4)
        = (Normal (NotLow breakdown), db_stock 4).
Proof.
  assert (within_int4 (db_stock 4) (cart_X 2)) as Hrange
    by (apply sample_within; by vm_compute).
  assert (∀ i inv, uses (db_stock 4) (cart_X 2) i →
            inventory (db_stock 4) !! i = Some inv →
            demand_of_name (db_stock 4) (cart_X 2) (inv_item_name inv)
              ≤ inv_stock_level inv) as Hsuff
    by (apply sample_sufficient; by vm_compute).
  split_and!; [exact Hrange | exact Hsuff | by vm_compute |].
  destruct (checkSufficientIngredients_sufficient scan_id scan_id_perm
              (db_stock 4) (cart_X 2) Hrange Hsuff) as (breakdown & Hrun & _).
  by exists breakdown.
Defined.

(** Scenario B: two Entree-X need 4 units, 3 are in stock; the placement
    is answered 400 with the alert and the store is the one before. *)
Lemma api_placeOrder_insufficient_witness :
  within_int4 (db_stock 3) (cart_X 2)
  ∧ uses (db_stock 3) (cart_X 2) 1
  ∧ (∀ line, line ∈ cart_X 2 → 0 ≤ quantity line)
  ∧ (∀ mi, mi ∈ menu_ingredients (db_stock 3) → 0 ≤ mi_quantity_needed mi)
  ∧ 3 < demand_of_item (db_stock 3) (cart_X 2) 1
  ∧ run (api_placeOrder scan_id 0
           {| itemAmount := cart_X 2; total := Number_of_Z 20; emID := 1 |})
        (db_stock 3)
    = (Normal
         (BadRequest
            "Low Stock Alert: The ingredient Ingredient-Y is being ordered in Entree-X x2, which uses total of 4, and there is 3 available."),
       db_stock 3).
Proof.
  assert (within_int4 (db_stock 3) (cart_X 2)) as Hrange
    by (apply sample_within; by vm_compute).
  assert (uses (db_stock 3) (cart_X 2) 1) as Hu.
  { apply (sample_uses (db_stock 3) 2
             {| mi_menu_item_id := 7; mi_inventory_id := 1;
                mi_quantity_needed := 2 |}); [apply list_elem_of_here | done]. }
  assert (∀ line, line ∈ cart_X 2 → 0 ≤ quantity line) as Hq
    by by apply sample_nonneg_cart.
  assert (∀ mi, mi ∈ menu_ingredients (db_stock 3) → 0 ≤ mi_quantity_needed mi)
    as Hn.
  { apply sample_nonneg_recipe. by repeat constructor. }
  assert (3 < demand_of_item (db_stock 3) (cart_X 2) 1) as Hover
    by by vm_compute.
  split_and!; [done..|].
  destruct (api_placeOrder_insufficient scan_id scan_id_perm 0
              {| itemAmount := cart_X 2; total := Number_of_Z 20; emID := 1 |}
              (db_stock 3) 1
              {| inv_item_name := "Ingredient-Y"; inv_stock_level := 3;
                 inv_purchase_price := 1 |} Hrange Hu eq_refl
              (or_intror (conj Hq (conj Hn Hover))))
    as (second & Hcheck & _ & Hrun & _).
  rewrite Hrun. vm_compute in Hcheck. by injection Hcheck as <-.
Defined.

(** Scenario B for the check alone: the shortage names Ingredient-Y, 3
    available, 4 needed. *)
Lemma checkSufficientIngredients_low_witness :
  within_int4 (db_stock 3) (cart_X 2)
  ∧ uses (db_stock 3) (cart_X 2) 1
  ∧ 3 < demand_of_name (db_stock 3) (cart_X 2) "Ingredient-Y"
  ∧ ∃ second,
      run (checkSufficientIngredients scan_id (cart_X 2)) (db_stock 3)
        = (Normal (Low second), db_stock 3)
      ∧ low_ingredientName second = "Ingredient-Y"
      ∧ currStock second = 3
      ∧ neededStock second = 4.
Proof.
  assert (within_int4 (db_stock 3) (cart_X 2)) as Hrange
    by (apply sample_within; by vm_compute).
  assert (uses (db_stock 3) (cart_X 2) 1) as Hu.
  { apply (sample_uses (db_stock 3) 2
             {| mi_menu_item_id := 7; mi_inventory_id := 1;
                mi_quantity_needed := 2 |}); [apply list_elem_of_here | done]. }
  assert (3 < demand_of_name (db_stock 3) (cart_X 2) "Ingredient-Y") as Hover
    by by vm_compute.
  split_and!; [done..|].
  destruct (checkSufficientIngredients_low scan_id scan_id_perm (db_stock 3)
              (cart_X 2) 1
              {| inv_item_name := "Ingredient-Y"; inv_stock_level := 3;
                 inv_purchase_price := 1 |} Hrange Hu eq_refl (or_introl Hover))
    as (pre & r & post & second & _ & _ & _ & Hrun & _).
  exists second. split; [exact Hrun|].
  vm_compute in Hrun. by injection Hrun as <-.
Defined.

(** The kitchen view of a lane with one building order. *)
Lemma api_kitchenOrders_kitchen_spec_witness :
  orders db_kitchen !! 1 = Some (sample_order building)
  ∧ ∃ view ko,
      run (api_kitchenOrders_kitchen scan_id) db_kitchen = (Normal view, db_kitchen)
      ∧ ko ∈ view ∧ ko_id ko = 1 ∧ ko_status ko = building.
Proof.
  split; [done|].
  destruct (api_kitchenOrders_kitchen_spec scan_id scan_id_perm db_kitchen 1
              (sample_order building) eq_refl (or_introl eq_refl))
    as (view & ko & H1 & H2 & H3 & H4 & _).
  by exists view, ko.
Defined.

(** Scenario A through the handler: order 1 is created with one line. *)
Lemma api_placeOrder_inserts_witness :
  within_int4 (db_stock 5) (cart_X 2)
  ∧ (∀ i inv, uses (db_stock 5) (cart_X 2) i →
       inventory (db_stock 5) !! i = Some inv →
       demand_of_name (db_stock 5) (cart_X 2) (inv_item_name inv)
         ≤ inv_stock_level inv)
  ∧ orders (db_stock 5) !! 1 = None
  ∧ (run (api_placeOrder scan_id 0
            {| itemAmount := cart_X 2; total := Number_of_Z 20; emID := 9 |})
         (db_stock 5)).1
    = Normal (Created "Order placed successfully, your number is: 1")
  ∧ length (order_menu
              (run (api_placeOrder scan_id 0
                      {| itemAmount := cart_X 2; total := Number_of_Z 20;
                         emID := 9 |}) (db_stock 5)).2) = 1%nat.
Proof.
  assert (within_int4 (db_stock 5) (cart_X 2)) as Hrange
    by (apply sample_within; by vm_compute).
  assert (∀ i inv, uses (db_stock 5) (cart_X 2) i →
            inventory (db_stock 5) !! i = Some inv →
            demand_of_name (db_stock 5) (cart_X 2) (inv_item_name inv)
              ≤ inv_stock_level inv) as Hsuff
    by (apply sample_sufficient; by vm_compute).
  split_and!; [exact Hrange | exact Hsuff | done | |].
  - exact (proj1 (api_placeOrder_inserts scan_id scan_id_perm 0
             {| itemAmount := cart_X 2; total := Number_of_Z 20; emID := 9 |}
             (db_stock 5) Hrange Hsuff eq_refl)).
  - exact (proj1 (proj2 (proj2 (proj2
             (api_placeOrder_inserts scan_id scan_id_perm 0
                {| itemAmount := cart_X 2; total := Number_of_Z 20;
                   emID := 9 |}
                (db_stock 5) Hrange Hsuff eq_refl))))).
Defined.

(** The empty cart at the client, and at the handler. *)
Lemma CartContext_placeOrder_empty_witness :
  CartContext_placeOrder scan_id 0 1 [] (db_stock 5)
  = (Rejected "Your order is empty. Please add items first.", [], db_stock 5)
  ∧ (run (api_placeOrder scan_id 0
            {| itemAmount := []; total := Number_of_Z 0; emID := 1 |})
         (db_stock 5)).1
    = Normal (Created "Order placed successfully, your number is: 1").
Proof.
  destruct (CartContext_placeOrder_empty scan_id scan_id_perm 0 1
              {| itemAmount := []; total := Number_of_Z 0; emID := 1 |}
              (db_stock 5)) as [Hguard Hserver].
  split; [exact Hguard|].
  destruct (Hserver eq_refl eq_refl) as (-> & _). done.
Defined.

(** Two rows named salt: 3 of the first (5 in stock) and 50 of the second
    (100 in stock) are needed. The first row is reported short, with 53
    needed, although its own demand is 3. *)
Lemma aggregation_by_name_witness :
  within_int4 (db_salt 5 100 3 50) (cart_X 1)
  ∧ inventory (db_salt 5 100 3 50) !! 1
    = Some {| inv_item_name := "salt"; inv_stock_level := 5;
              inv_purchase_price := 1 |}
  ∧ inventory (db_salt 5 100 3 50) !! 2
    = Some {| inv_item_name := "salt"; inv_stock_level := 100;
              inv_purchase_price := 1 |}
  ∧ demand_of_item (db_salt 5 100 3 50) (cart_X 1) 1 = 3
  ∧ demand_of_item (db_salt 5 100 3 50) (cart_X 1) 2 = 50
  ∧ demand_of_name (db_salt 5 100 3 50) (cart_X 1) "salt" = 53
  ∧ ∃ second,
      run (checkSufficientIngredients scan_id (cart_X 1)) (db_salt 5 100 3 50)
        = (Normal (Low second), db_salt 5 100 3 50)
      ∧ low_ingredientName second = "salt"
      ∧ currStock second = 5
      ∧ neededStock second = 53.
Proof.
  set (d := db_salt 5 100 3 50).
  assert (within_int4 d (cart_X 1)) as Hrange
    by (apply sample_within; by vm_compute).
  split_and!;
    [exact Hrange | done.. | by vm_compute | by vm_compute | by vm_compute |].
  destruct (aggregation_by_name scan_id scan_id_perm d (cart_X 1) 1 2
              {| inv_item_name := "salt"; inv_stock_level := 5;
                 inv_purchase_price := 1 |}
              {| inv_item_name := "salt"; inv_stock_level := 100;
                 inv_purchase_price := 1 |}
              Hrange ltac:(done) eq_refl eq_refl eq_refl)
    as (_ & _ & _ & Hreport).
  destruct Hreport as (second & Hrun & Hname & Hstock & Hneeded).
  - apply (sample_uses d 1
             {| mi_menu_item_id := 7; mi_inventory_id := 1;
                mi_quantity_needed := 3 |}); [apply list_elem_of_here | done].
  - by vm_compute.
  - intros r Hr Hid. vm_compute in Hr. elem_cases Hr; [done|]. by vm_compute.
  - exists second. split_and!; [done..|]. rewrite Hneeded. by vm_compute.
Defined.

(** C1 as the specification states it fails in two ways. When two
    inventory rows share a name: each row named salt has 5 in stock and a
    demand of 3, so every inventory item is covered, and the check still
    answers low, with 6 needed of salt. And outside [int4]: Entree-X has no
    recipe, so nothing is demanded of any inventory item, and for
    2147483648 of it the query fails on its cast and the check throws. *)
Lemma sufficient_by_item_is_low :
  ((∀ i inv, inventory (db_salt 5 5 3 3) !! i = Some inv →
      demand_of_item (db_salt 5 5 3 3) (cart_X 1) i ≤ inv_stock_level inv)
   ∧ (run (checkSufficientIngredients scan_id (cart_X 1)) (db_salt 5 5 3 3)).1
     = Normal (Low {| low_ingredientName := "salt";
                      currStock := 5;
                      neededStock := 6;
                      menuItemsUsing := ["Entree-X x1"; "Entree-X x1"] |}))
  ∧ ((∀ i inv, inventory db_plain !! i = Some inv →
        demand_of_item db_plain (cart_X 2147483648) i ≤ inv_stock_level inv)
     ∧ (run (checkSufficientIngredients scan_id (cart_X 2147483648))
            db_plain).1
       = Abrupt NumericValueOutOfRange).
Proof.
  split_and!; [|by vm_compute| |by vm_compute];
    apply sample_sufficient_by_item; by vm_compute.
Qed.

(** C4 as the specification states it fails in two ways. With a recipe
    quantity below zero on a row of the same name: two Entree-X demand 6 of
    the first row named salt, which has 5, and minus 20 of the second, so
    salt is not short by name, and the placement is answered 201 and the
    order written. And outside [int4]: 2147483648 Entree-X demand more
    Ingredient-Y than the 5 in stock, and the placement is answered 500,
    not 400. *)
Lemma over_demanded_item_is_placed :
  (inventory (db_salt 5 100 3 (-10)) !! 1
     = Some {| inv_item_name := "salt"; inv_stock_level := 5;
               inv_purchase_price := 1 |}
   ∧ uses (db_salt 5 100 3 (-10)) (cart_X 2) 1
   ∧ 5 < demand_of_item (db_salt 5 100 3 (-10)) (cart_X 2) 1
   ∧ (run (api_placeOrder scan_id 0
             {| itemAmount := cart_X 2; total := Number_of_Z 20; emID := 1 |})
          (db_salt 5 100 3 (-10))).1
     = Normal (Created "Order placed successfully, your number is: 1")
   ∧ orders (db_salt 5 100 3 (-10)) !! 1 = None
   ∧ orders (run (api_placeOrder scan_id 0
                    {| itemAmount := cart_X 2; total := Number_of_Z 20;
                       emID := 1 |})
                 (db_salt 5 100 3 (-10))).2 !! 1
     = Some {| employee_id := 1; order_time := 0;
               order_total := Number_of_Z 20; order_status := building |})
  ∧ (inventory (db_stock 5) !! 1
       = Some {| inv_item_name := "Ingredient-Y"; inv_stock_level := 5;
                 inv_purchase_price := 1 |}
     ∧ uses (db_stock 5) (cart_X 2147483648) 1
     ∧ 5 < demand_of_item (db_stock 5) (cart_X 2147483648) 1
     ∧ run (api_placeOrder scan_id 0
              {| itemAmount := cart_X 2147483648; total := Number_of_Z 20;
                 emID := 1 |}) (db_stock 5)
       = (Normal ServerError, db_stock 5)).
Proof.
  split_and!; try by vm_compute.
  - apply (sample_uses _ 2
             {| mi_menu_item_id := 7; mi_inventory_id := 1;
                mi_quantity_needed := 3 |}); [apply list_elem_of_here | done].
  - apply (sample_uses _ 2147483648
             {| mi_menu_item_id := 7; mi_inventory_id := 1;
                mi_quantity_needed := 2 |}); [apply list_elem_of_here | done].
Qed.

(** C6 as the specification states it fails in four ways. When two
    inventory rows share a name: pepper is over-demanded (2 needed, 1 in
    stock), yet the shortage reported is salt with 5 in stock and 53
    needed, and no inventory row named salt has a demand above its stock,
    or of 53. When the server returns the rows in another order: with salt
    and pepper both short, the same cart on the same store is reported
    short of salt by one order of the rows and short of pepper by the
    opposite one. Outside [int4]: 2147483648 Entree-X demand more
    Ingredient-Y than there is, and the check throws. With a recipe
    quantity below zero on a row of the same name: the first row named salt
    is over-demanded and the check answers not low. *)
Lemma reported_shortage_not_over_demanded :
  ((inventory db_salt_pepper !! 3
      = Some {| inv_item_name := "pepper"; inv_stock_level := 1;
                inv_purchase_price := 1 |}
    ∧ uses db_salt_pepper (cart_X 1) 3
    ∧ 1 < demand_of_item db_salt_pepper (cart_X 1) 3)
   ∧ (run (checkSufficientIngredients scan_id (cart_X 1)) db_salt_pepper).1
     = Normal (Low {| low_ingredientName := "salt";
                      currStock := 5;
                      neededStock := 53;
                      menuItemsUsing := ["Entree-X x1"; "Entree-X x1"] |})
   ∧ (∀ i inv, inventory db_salt_pepper !! i = Some inv →
        inv_item_name inv = "salt" →
        demand_of_item db_salt_pepper (cart_X 1) i ≤ inv_stock_level inv
        ∧ demand_of_item db_salt_pepper (cart_X 1) i ≠ 53))
  ∧ ((run (checkSufficientIngredients scan_id (cart_X 1)) db_two_short).1
       = Normal (Low {| low_ingredientName := "salt";
                        currStock := 1;
                        neededStock := 2;
                        menuItemsUsing := ["Entree-X x1"] |})
     ∧ (run (checkSufficientIngredients scan_rev (cart_X 1)) db_two_short).1
       = Normal (Low {| low_ingredientName := "pepper";
                        currStock := 1;
                        neededStock := 2;
                        menuItemsUsing := ["Entree-X x1"] |}))
  ∧ (inventory (db_stock 5) !! 1
       = Some {| inv_item_name := "Ingredient-Y"; inv_stock_level := 5;
                 inv_purchase_price := 1 |}
     ∧ uses (db_stock 5) (cart_X 2147483648) 1
     ∧ 5 < demand_of_item (db_stock 5) (cart_X 2147483648) 1
     ∧ run (checkSufficientIngredients scan_id (cart_X 2147483648))
           (db_stock 5)
       = (Abrupt NumericValueOutOfRange, db_stock 5))
  ∧ (inventory (db_salt 5 100 3 (-10)) !! 1
       = Some {| inv_item_name := "salt"; inv_stock_level := 5;
                 inv_purchase_price := 1 |}
     ∧ uses (db_salt 5 100 3 (-10)) (cart_X 2) 1
     ∧ 5 < demand_of_item (db_salt 5 100 3 (-10)) (cart_X 2) 1
     ∧ ∃ breakdown,
         run (checkSufficientIngredients scan_id (cart_X 2))
             (db_salt 5 100 3 (-10))
         = (Normal (NotLow breakdown), db_salt 5 100 3 (-10))).
Proof.
  split_and!; try by vm_compute.
  - apply (sample_uses db_salt_pepper 1
             {| mi_menu_item_id := 7; mi_inventory_id := 3;
                mi_quantity_needed := 2 |}); [|done].
    unfold db_salt_pepper, sample_db; simpl. set_solver.
  - apply (bool_decide_unpack
             (map_Forall (λ i inv,
                inv_item_name inv = "salt" →
                demand_of_item db_salt_pepper (cart_X 1) i ≤ inv_stock_level inv
                ∧ demand_of_item db_salt_pepper (cart_X 1) i ≠ 53)
                (inventory db_salt_pepper))).
    vm_compute. exact I.
  - apply (sample_uses _ 2147483648
             {| mi_menu_item_id := 7; mi_inventory_id := 1;
                mi_quantity_needed := 2 |}); [apply list_elem_of_here | done].
  - apply (sample_uses _ 2
             {| mi_menu_item_id := 7; mi_inventory_id := 1;
                mi_quantity_needed := 3 |}); [apply list_elem_of_here | done].
  - eexists. by vm_compute.
Qed.

(** C5 fails at an order of two Entree-X, whose recipe needs 2 units of
    Ingredient-Y: recipe quantity times quantity ordered is 4, and the
    kitchen view lists the ingredient with amount 2, the recipe quantity.
    The sufficiency check, which builds the same breakdown for the same
    two Entree-X, lists 4. *)
Lemma kitchen_amount_not_multiplied :
  (∃ om mi,
     orders db_kitchen !! 1 = Some (sample_order building)
     ∧ om ∈ order_menu db_kitchen ∧ om_order_id om = 1
     ∧ mi ∈ menu_ingredients db_kitchen
     ∧ mi_menu_item_id mi = om_menu_item_id om
     ∧ mi_quantity_needed mi * om_quantity_ordered om = 4)
  ∧ (run (api_kitchenOrders_kitchen scan_id) db_kitchen).1
    = Normal
        [ {| ko_id := 1;
             ko_status := building;
             ko_item :=
               [ {| kit_name := Some "Entree-X";
                    kit_amount := Some 2;
                    kit_ingredient :=
                      [ {| ki_ingredientName := Some "Ingredient-Y";
                           ki_amount := Some 2 |} ] |} ] |} ]
  ∧ (run (checkSufficientIngredients scan_id (cart_X 2)) db_kitchen).1
    = Normal (NotLow [ {| it_name := "Entree-X"; it_amount := 2;
                          it_ingredient :=
                            [ {| ingredientName := "Ingredient-Y";
                                 amount := 4 |} ] |} ]).
Proof.
  split_and!; [|by vm_compute..].
  eexists _, _. split_and!;
    [done | apply list_elem_of_here | done | apply list_elem_of_here
     | done | done].
Qed.

(** C7 as the specification states it fails for the handler: a request
    with an empty [itemAmount] is answered 201, and an order row with no
    lines is inserted. *)
Lemma api_placeOrder_accepts_empty_cart :
  (run (api_placeOrder scan_id 0
          {| itemAmount := []; total := Number_of_Z 0; emID := 1 |})
       (db_stock 5)).1
    = Normal (Created "Order placed successfully, your number is: 1")
  ∧ orders (db_stock 5) !! 1 = None
  ∧ orders (run (api_placeOrder scan_id 0
                   {| itemAmount := []; total := Number_of_Z 0; emID := 1 |})
                (db_stock 5)).2 !! 1
    = Some {| employee_id := 1; order_time := 0;
              order_total := Number_of_Z 0; order_status := building |}
  ∧ order_menu (run (api_placeOrder scan_id 0
                       {| itemAmount := []; total := Number_of_Z 0;
                          emID := 1 |})
                    (db_stock 5)).2 = [].
Proof. split_and!; by vm_compute. Qed.

(** C8 as the specification states it fails in four ways. Two Entree-X at
    10 sum to 20, and the order the cart places is stored with the number
    the cart sends, the tax included: 6093933245785702 times 2 to the
    minus 48, the number written 21.65. Outside [int4]: for 2147483648
    Entree-X, which has no recipe here, nothing is demanded, and the
    placement is answered 500 and nothing is inserted. When the next
    value of the order sequence is taken: the cart is sufficient, and the
    placement is answered 500 and neither an order nor an order line is
    inserted. And when two inventory rows share a name: every inventory
    item is covered by its stock, and the placement is answered 400 and
    nothing is inserted. *)
Lemma order_total_includes_tax :
  (CartContext_subtotal (cart_X 2) = Number_of_Z 20
   ∧ (∃ q, sum_price_quantity (cart_X 2) = Some q ∧ (q == 20)%Q)
   ∧ (CartContext_placeOrder scan_id 0 9 (cart_X 2) (db_stock 5)).1
     = (Resolved, [])
   ∧ orders (db_stock 5) !! 1 = None
   ∧ ∃ o, orders (CartContext_placeOrder scan_id 0 9 (cart_X 2) (db_stock 5)).2
            !! 1 = Some o
       ∧ order_total o = S754_finite false 6093933245785702 (-48)
       ∧ order_total o ≠ Number_of_Z 20
       ∧ ∃ q, Number_value (order_total o) = Some q ∧ ¬ (q == 20)%Q)
  ∧ ((∀ i inv, inventory db_plain !! i = Some inv →
        demand_of_item db_plain (cart_X 2147483648) i ≤ inv_stock_level inv)
     ∧ run (api_placeOrder scan_id 0
              {| itemAmount := cart_X 2147483648; total := Number_of_Z 0;
                 emID := 1 |}) db_plain
       = (Normal ServerError, db_plain))
  ∧ ((∀ i inv, inventory (db_lane [(2, building)]) !! i = Some inv →
        demand_of_item (db_lane [(2, building)]) (cart_X 1) i
          ≤ inv_stock_level inv)
     ∧ orders (db_lane [(2, building)]) !! 2 = Some (sample_order building)
     ∧ (run (api_placeOrder scan_id 0
               {| itemAmount := cart_X 1; total := Number_of_Z 10;
                  emID := 1 |}) (db_lane [(2, building)])).1
       = Normal ServerError
     ∧ orders (run (api_placeOrder scan_id 0
                      {| itemAmount := cart_X 1; total := Number_of_Z 10;
                         emID := 1 |}) (db_lane [(2, building)])).2
       = orders (db_lane [(2, building)])
     ∧ order_menu (run (api_placeOrder scan_id 0
                          {| itemAmount := cart_X 1; total := Number_of_Z 10;
                             emID := 1 |}) (db_lane [(2, building)])).2
       = order_menu (db_lane [(2, building)]))
  ∧ ((∀ i inv, inventory (db_salt 5 5 3 3) !! i = Some inv →
        demand_of_item (db_salt 5 5 3 3) (cart_X 1) i ≤ inv_stock_level inv)
     ∧ run (api_placeOrder scan_id 0
              {| itemAmount := cart_X 1; total := Number_of_Z 10;
                 emID := 1 |}) (db_salt 5 5 3 3)
       = (Normal
            (BadRequest
               "Low Stock Alert: The ingredient salt is being ordered in Entree-X x1, Entree-X x1, which uses total of 6, and there is 5 available."),
          db_salt 5 5 3 3)).
Proof.
  split_and!; try by vm_compute.
  - eexists. split; by vm_compute.
  - eexists. split_and!; [by vm_compute..|].
    eexists. split; [by vm_compute|]. intros H. vm_compute in H. discriminate.
  - apply sample_sufficient_by_item; by vm_compute.
  - apply sample_sufficient_by_item; by vm_compute.
  - apply sample_sufficient_by_item; by vm_compute.
Qed.

(** C10 as the specification states it fails outside [int4]: Entree-X uses
    two rows named salt, and for 2147483648 of it the query fails on its
    cast, so the check throws: no total is compared and no shortage is
    reported. *)
Lemma aggregation_out_of_range :
  inventory (db_salt 5 100 3 50) !! 1
    = Some {| inv_item_name := "salt"; inv_stock_level := 5;
              inv_purchase_price := 1 |}
  ∧ inventory (db_salt 5 100 3 50) !! 2
    = Some {| inv_item_name := "salt"; inv_stock_level := 100;
              inv_purchase_price := 1 |}
  ∧ uses (db_salt 5 100 3 50) (cart_X 2147483648) 1
  ∧ uses (db_salt 5 100 3 50) (cart_X 2147483648) 2
  ∧ run (checkSufficientIngredients scan_id (cart_X 2147483648))
        (db_salt 5 100 3 50)
    = (Abrupt NumericValueOutOfRange, db_salt 5 100 3 50).
Proof.
  split_and!; [done | done | | | by vm_compute].
  - apply (sample_uses _ 2147483648
             {| mi_menu_item_id := 7; mi_inventory_id := 1;
                mi_quantity_needed := 3 |}); [apply list_elem_of_here | done].
  - apply (sample_uses _ 2147483648
             {| mi_menu_item_id := 7; mi_inventory_id := 2;
                mi_quantity_needed := 50 |}); [|done].
    apply list_elem_of_further, list_elem_of_here.
Qed.

(** * The further properties at sample inputs *)

Lemma lane_in_order_empty (d : db) : orders d = ∅ → lane_in_order d.
Proof.
  intros Hempty.
  assert (∀ st k, ¬ has_status st d k) as Hnone.
  { intros st k (o & Hk & _). by rewrite Hempty, lookup_empty in Hk. }
  split_and!.
  - intros k o Hk. by rewrite Hempty, lookup_empty in Hk.
  - intros k1 k2 Hk1. by apply Hnone in Hk1.
  - intros kw Hkw. by apply Hnone in Hkw.
  - intros kc k o Hkc. by apply Hnone in Hkc.
Qed.

Lemma seq_ahead_sample (d : db) :
  map_Forall (λ k _, k ≤ orders_order_id_seq d) (orders d) → seq_ahead d.
Proof. intros H k o Hk. by apply (H k o). Qed.

Lemma array_index_sample (d : db) :
  map_Forall (λ k _, is_array_index k) (orders d) →
  ∀ k, k ∈ active_ids d → is_array_index k.
Proof. intros H k (o & Hk & _)%elem_of_active_ids. by apply (H k o). Qed.

Lemma lane_check_sound (d : db) : lane_check d → lane_in_order d.
Proof.
  intros (Hseq & Hone & Hwait & Hdone). split_and!.
  - intros k o Hk. by apply (Hseq k o).
  - by apply at_most_one_building_count.
  - intros kw Hkw%elem_of_ids_of. rewrite Forall_forall in Hwait.
    apply Hwait, Exists_exists in Hkw as (kb & Hkb & Hlt). exists kb.
    by apply elem_of_ids_of in Hkb.
  - intros kc k o Hkc%elem_of_ids_of Hk Hst. rewrite Forall_forall in Hdone.
    apply Hdone in Hkc. rewrite Forall_forall in Hkc. apply Hkc.
    rewrite elem_of_app, !elem_of_ids_of.
    destruct (order_status o) eqn:Ho; [left | right | done]; by exists o.
Qed.

Lemma db_queue_lane : lane_in_order db_queue.
Proof.
  apply lane_check_sound, (bool_decide_unpack (lane_check db_queue)).
  vm_compute. exact I.
Qed.

(** Two placements and an advance on an empty ledger: order 1 is complete
    and order 2 is building. *)
Lemma lane_served_in_order_witness :
  lane_in_order (db_lane [])
  ∧ lane_in_order
      (foldl (step scan_id) (db_lane [])
         [PlaceOrder 0 sample_order_body; PlaceOrder 1 sample_order_body;
          KitchenNext]).
Proof.
  assert (lane_in_order (db_lane [])) as H0 by by apply lane_in_order_empty.
  split; [exact H0|].
  exact (lane_served_in_order scan_id scan_id_perm (db_lane []) _ H0).
Defined.

(** Two Entree-X with 4 units in stock: the answer is 201; 2147483648 of
    them: the answer is 500. *)
Lemma api_placeOrder_outcomes_witness :
  seq_ahead (db_stock 4)
  ∧ (∃ message,
       run (api_placeOrder scan_id 0
              {| itemAmount := cart_X 2; total := Number_of_Z 20; emID := 1 |})
           (db_stock 4)
       = (Normal (Created message),
          placed scan_id 0
            {| itemAmount := cart_X 2; total := Number_of_Z 20; emID := 1 |}
            (db_stock 4)))
  ∧ run (api_placeOrder scan_id 0
           {| itemAmount := cart_X 2147483648; total := Number_of_Z 20;
              emID := 1 |}) (db_stock 4)
    = (Normal ServerError, db_stock 4)
  ∧ seq_ahead
      (run (api_placeOrder scan_id 0
              {| itemAmount := cart_X 2; total := Number_of_Z 20; emID := 1 |})
         (db_stock 4)).2.
Proof.
  assert (seq_ahead (db_stock 4)) as H0.
  { apply seq_ahead_sample.
    apply (bool_decide_unpack (map_Forall _ _)). vm_compute. exact I. }
  assert (within_int4 (db_stock 4) (cart_X 2)) as Hin
    by (apply sample_within; by vm_compute).
  assert (¬ within_int4 (db_stock 4) (cart_X 2147483648)) as Hout.
  { intros [Hlines _].
    destruct (Hlines {| id := 7; name := "Entree-X"; price := Number_of_Z 10;
                        quantity := 2147483648 |}) as [_ [_ Hq]];
      [apply list_elem_of_here|]. cbn in Hq. lia. }
  destruct (api_placeOrder_outcomes scan_id scan_id_perm 0
              {| itemAmount := cart_X 2; total := Number_of_Z 20; emID := 1 |}
              (db_stock 4) H0) as (Hok & _ & Hseq).
  destruct (api_placeOrder_outcomes scan_id scan_id_perm 0
              {| itemAmount := cart_X 2147483648; total := Number_of_Z 20;
                 emID := 1 |}
              (db_stock 4) H0) as (_ & Hfail & _).
  split_and!; [done | | by apply Hfail | done].
  destruct (Hok Hin) as [Hcreated|[error Hlow]]; [done|].
  exfalso. vm_compute in Hlow. discriminate Hlow.
Defined.

(** Three orders in the lane, three advances: none is left. *)
Lemma kitchenNext_drains_witness :
  lane_in_order db_queue
  ∧ size (active_ids db_queue) = 3%nat
  ∧ size (active_ids
            (foldl (step scan_id) db_queue (replicate 3 KitchenNext))) = 0%nat
  ∧ ∀ k o,
      orders (foldl (step scan_id) db_queue (replicate 3 KitchenNext)) !! k
        = Some o →
      order_status o = complete.
Proof.
  pose proof db_queue_lane as H0.
  destruct (kitchenNext_drains scan_id db_queue 3 H0) as (Hsize & Hall & _).
  assert (size (active_ids db_queue) = 3%nat) as H3 by by vm_compute.
  split_and!; [done | done | | ].
  - rewrite Hsize, H3. done.
  - apply Hall. rewrite H3. lia.
Defined.

(** Orders 1 and 2 complete, 3 building, 4 waiting: the board is sent 2,
    3 and 4. *)
Lemma api_kitchenOrders_menu_witness :
  run (api_kitchenOrders scan_id (Some "menu"))
      (db_lane [(1, complete); (2, complete); (3, building); (4, waiting)])
  = (Normal (OrdersOk [listed complete 2; listed building 3;
                       listed waiting 4]),
     db_lane [(1, complete); (2, complete); (3, building); (4, waiting)]).
Proof.
  destruct (api_kitchenOrders_menu scan_id scan_id_perm
              (db_lane [(1, complete); (2, complete); (3, building);
                        (4, waiting)])) as (Hrun & _).
  rewrite Hrun. by vm_compute.
Defined.

(** The kitchen view of the three orders lists them by ascending id. *)
Lemma api_kitchenOrders_kitchen_order_witness :
  (∀ k, k ∈ active_ids db_queue → is_array_index k)
  ∧ ∃ view,
      run (api_kitchenOrders scan_id (Some "kitchen")) db_queue
        = (Normal (OrdersOk view), db_queue)
      ∧ id_status view = [(1, building); (2, waiting); (3, waiting)].
Proof.
  assert (∀ k, k ∈ active_ids db_queue → is_array_index k) as H0.
  { apply array_index_sample.
    apply (bool_decide_unpack (map_Forall _ _)). vm_compute. exact I. }
  split; [exact H0|].
  destruct (api_kitchenOrders_kitchen_order scan_id scan_id_perm db_queue H0)
    as (view & Hrun & _).
  exists view. split; [exact Hrun|].
  vm_compute in Hrun. injection Hrun as <-. by vm_compute.
Defined.

(** With three orders on the screen the update of the screen agrees with
    the next poll. *)
Lemma Kitchen_handleNextOrder_agrees_witness :
  lane_in_order db_queue
  ∧ (∀ k, k ∈ active_ids db_queue → is_array_index k)
  ∧ id_status
      (Kitchen_handleNextOrder (Kitchen_fetchOrders scan_id [] db_queue)
         db_queue).1
    = id_status
        (Kitchen_fetchOrders scan_id
           (Kitchen_handleNextOrder
              (Kitchen_fetchOrders scan_id [] db_queue) db_queue).1
           (Kitchen_handleNextOrder
              (Kitchen_fetchOrders scan_id [] db_queue) db_queue).2).
Proof.
  pose proof db_queue_lane as H0.
  assert (∀ k, k ∈ active_ids db_queue → is_array_index k) as H1.
  { apply array_index_sample.
    apply (bool_decide_unpack (map_Forall _ _)). vm_compute. exact I. }
  split_and!; [exact H0 | exact H1 |].
  destruct (Kitchen_handleNextOrder_agrees scan_id scan_id_perm db_queue H0 H1)
    as (_ & Hagree & _).
  apply Hagree. vm_compute. lia.
Defined.

(** Eight orders, of which one is complete: the board shows six. *)
Lemma MenuBoard_fetchOrders_shows_witness :
  MenuBoard_fetchOrders scan_id []
    (db_lane [(1, complete); (2, building); (3, waiting); (4, waiting);
              (5, waiting); (6, waiting); (7, waiting); (8, waiting)])
  = [listed complete 1; listed building 2; listed waiting 3;
     listed waiting 4; listed waiting 5; listed waiting 6].
Proof.
  destruct (MenuBoard_fetchOrders_shows scan_id scan_id_perm []
              (db_lane [(1, complete); (2, building); (3, waiting);
                        (4, waiting); (5, waiting); (6, waiting);
                        (7, waiting); (8, waiting)])) as (Hshow & _).
  rewrite Hshow. by vm_compute.
Defined.

(** The cart after the sample actions. *)
Lemma cart_invariant_witness :
  ∃ cart,
    cart_run [] sample_actions = Some cart
    ∧ (quantity <$> cart) = [0; 1]
    ∧ NoDup (name <$> cart)
    ∧ ∀ line, line ∈ cart → 0 ≤ quantity line.
Proof.
  eexists. split; [by vm_compute|]. split; [by vm_compute|].
  apply (cart_invariant [] _ sample_actions).
  - apply NoDup_nil_2.
  - intros line Hl. by apply elem_of_nil in Hl.
  - by vm_compute.
Defined.

(** A negative number typed into the field of a line of two Entree-X. *)
Lemma Navbar_quantity_field_witness :
  ∃ updated,
    CartContext_setQuantity 0 (Navbar_newQty (Some (-4))) (cart_X 2)
      = Some updated
    ∧ quantity <$> updated = [0].
Proof.
  destruct (Navbar_quantity_field (cart_X 2) 0
              {| id := 7; name := "Entree-X"; price := Number_of_Z 10;
                 quantity := 2 |}
              (Some (-4)) eq_refl) as (updated & Hset & _).
  exists updated. split; [exact Hset|].
  vm_compute in Hset. injection Hset as <-. done.
Defined.

(** Two Entree-X checked out with 4 units in stock, and with 3; and
    2147483648 Entree-X. *)
Lemma CartContext_placeOrder_outcome_witness :
  seq_ahead (db_stock 4) ∧ seq_ahead (db_stock 3)
  ∧ (CartContext_placeOrder scan_id 0 1 (cart_X 2) (db_stock 4)).1
    = (Resolved, [])
  ∧ (CartContext_placeOrder scan_id 0 1 (cart_X 2) (db_stock 3))
    = (Rejected
         "Low Stock Alert: The ingredient Ingredient-Y is being ordered in Entree-X x2, which uses total of 4, and there is 3 available.",
       cart_X 2, db_stock 3)
  ∧ (CartContext_placeOrder scan_id 0 1 (cart_X 2147483648) (db_stock 4))
    = (Rejected "[object Object]", cart_X 2147483648, db_stock 4).
Proof.
  assert (∀ n, seq_ahead (db_stock n)) as H0.
  { intros n. apply seq_ahead_sample. intros k o Hk. vm_compute in Hk.
    discriminate Hk. }
  split_and!; [apply H0 | apply H0 | | |].
  - destruct (CartContext_placeOrder_outcome scan_id scan_id_perm 0 1
                (cart_X 2) (db_stock 4) ltac:(done) (H0 4))
      as [(_ & -> & _)|[(_ & second & _ & Hlow)|(_ & _ & Hthrow)]]; [done| |].
    + exfalso. vm_compute in Hlow. discriminate Hlow.
    + exfalso. vm_compute in Hthrow. discriminate Hthrow.
  - destruct (CartContext_placeOrder_outcome scan_id scan_id_perm 0 1
                (cart_X 2) (db_stock 3) ltac:(done) (H0 3))
      as [(_ & _ & breakdown & Hok)
         |[(_ & second & -> & Hlow)|(_ & _ & Hthrow)]].
    + exfalso. vm_compute in Hok. discriminate Hok.
    + vm_compute in Hlow. injection Hlow as <-. done.
    + exfalso. vm_compute in Hthrow. discriminate Hthrow.
  - destruct (CartContext_placeOrder_outcome scan_id scan_id_perm 0 1
                (cart_X 2147483648) (db_stock 4) ltac:(done) (H0 4))
      as [(_ & _ & breakdown & Hok)
         |[(_ & second & _ & Hlow)|(_ & -> & _)]]; [| |done].
    + exfalso. vm_compute in Hok. discriminate Hok.
    + exfalso. vm_compute in Hlow. discriminate Hlow.
Defined.

(** No Entree-X at all: the order is placed, with total 0. *)
Lemma zero_quantity_order_is_placed_witness :
  cart_X 0 ≠ []
  ∧ seq_ahead (db_stock 4)
  ∧ (CartContext_placeOrder scan_id 0 1 (cart_X 0) (db_stock 4)).1
    = (Resolved, [])
  ∧ JSON_number (CartContext_total (cart_X 0)) = Number_of_Z 0.
Proof.
  assert (seq_ahead (db_stock 4)) as H0.
  { apply seq_ahead_sample. intros k o Hk. vm_compute in Hk. discriminate Hk. }
  assert (∀ i inv, inventory (db_stock 4) !! i = Some inv →
            0 ≤ inv_stock_level inv) as H1.
  { apply (bool_decide_unpack
             (map_Forall (λ _ inv, 0 ≤ inv_stock_level inv)
                (inventory (db_stock 4)))). vm_compute. exact I. }
  assert (∀ line, line ∈ cart_X 0 → quantity line = 0) as H2.
  { intros line Hl. unfold cart_X in Hl. elem_cases Hl. done. }
  assert (∀ line, line ∈ cart_X 0 → int4 (id line)) as H3.
  { intros line Hl. unfold cart_X in Hl. elem_cases Hl. cbn. unfold int4. lia. }
  destruct (zero_quantity_order_is_placed scan_id scan_id_perm 0 1 (cart_X 0)
              (db_stock 4) ltac:(done) H2 H3 H1 H0) as (-> & _ & Htotal & _).
  by split_and!.
Defined.

(** With an id outside [int4] the same cart is not placed: the query fails
    on its cast. *)
Remark zero_quantity_order_out_of_range :
  CartContext_placeOrder scan_id 0 1
    [ {| id := 2147483648; name := "Entree-X"; price := Number_of_Z 10;
         quantity := 0 |} ] (db_stock 4)
  = (Rejected "[object Object]",
     [ {| id := 2147483648; name := "Entree-X"; price := Number_of_Z 10;
          quantity := 0 |} ], db_stock 4).
Proof. by vm_compute. Qed.


(** ** The catalog *)

Lemma sample_catalog_seq_ahead : catalog_seq_ahead sample_catalog.
Proof.
  split.
  - apply (bool_decide_unpack
             (map_Forall (λ k _, k ≤ 1) (inventory (db_stock 4)))).
    vm_compute. exact I.
  - apply (bool_decide_unpack (map_Forall (λ k _, k ≤ 7) sample_menu)).
    vm_compute. exact I.
Qed.

Lemma sample_catalog_menu_ok : menu_ok (ledger sample_catalog).
Proof.
  intros k m Hk. change (sample_menu !! k = Some m) in Hk.
  unfold sample_menu in Hk. apply lookup_singleton_Some in Hk as [_ <-].
  split_and!; [done | by vm_compute |]. cbn. unfold validCategories.
  apply list_elem_of_here.
Qed.

Lemma sample_catalog_recipe_positive : recipe_positive (ledger sample_catalog).
Proof.
  intros mi Hmi.
  change (mi ∈ [ {| mi_menu_item_id := 7; mi_inventory_id := 1;
                    mi_quantity_needed := 2 |} ]) in Hmi.
  apply list_elem_of_singleton in Hmi as ->. done.
Qed.

Lemma sample_catalog_inventory_nonneg :
  inventory_nonneg (ledger sample_catalog).
Proof.
  intros i row Hi. change (inventory (db_stock 4) !! i = Some row) in Hi.
  assert (i = 1) as ->.
  { destruct (decide (i = 1)) as [|Hne]; [done|].
    unfold db_stock, sample_db, sample_inventory in Hi. cbn in Hi.
    rewrite lookup_insert_ne in Hi by done. by rewrite lookup_empty in Hi. }
  vm_compute in Hi. injection Hi as <-. split; [done | by vm_compute].
Qed.

(** A second row named Ingredient-Y is added under key 2 by a process
    that has leaked no client; one that has leaked ten does not answer. *)
Lemma api_add_inventory_adds_witness :
  (∀ k row, inventory (ledger (database (sample_process 0))) !! k = Some row →
     k ≤ inventory_inventory_id_seq (database (sample_process 0)))
  ∧ (api_add_inventory
       {| inventory_id := None; item_name := "Ingredient-Y";
          stockLevel := 3; cost := 5 # 2 |} (sample_process 0)).1
    = Answered (Returned (InventoryCreated "Successfully add item."))
  ∧ checked_out
      (api_add_inventory
         {| inventory_id := None; item_name := "Ingredient-Y";
            stockLevel := 3; cost := 5 # 2 |} (sample_process 0)).2 = 1%nat
  ∧ ¬ distinct_names
        (ledger (database
                   (api_add_inventory
                      {| inventory_id := None; item_name := "Ingredient-Y";
                         stockLevel := 3; cost := 5 # 2 |}
                      (sample_process 0)).2))
  ∧ api_add_inventory
      {| inventory_id := None; item_name := "Ingredient-Y";
         stockLevel := 3; cost := 5 # 2 |} (sample_process 10)
    = (NoAnswer, sample_process 10).
Proof.
  pose proof (proj1 sample_catalog_seq_ahead) as H0.
  split; [exact H0|].
  destruct (api_add_inventory_adds
              {| inventory_id := None; item_name := "Ingredient-Y";
                 stockLevel := 3; cost := 5 # 2 |} (sample_process 0) H0)
    as (Hfree & _).
  destruct (api_add_inventory_adds
              {| inventory_id := None; item_name := "Ingredient-Y";
                 stockLevel := 3; cost := 5 # 2 |} (sample_process 10) H0)
    as (_ & Hfull).
  destruct Hfree as (Hrun & Hout & _ & _ & _ & _ & Hdup);
    [unfold Pool_max; cbn; lia|].
  split_and!; [exact Hrun | exact Hout | | apply Hfull; by cbn].
  apply (Hdup 1 {| inv_item_name := "Ingredient-Y"; inv_stock_level := 4;
                   inv_purchase_price := 1 |}); by vm_compute.
Defined.

(** A new item sent by the inventory form. *)
Lemma Inventory_handleSubmit_keeps_nonneg_witness :
  (∀ k row, inventory (ledger (database (sample_process 0))) !! k = Some row →
     k ≤ inventory_inventory_id_seq (database (sample_process 0)))
  ∧ inventory_nonneg (ledger (database (sample_process 0)))
  ∧ inventory_nonneg
      (ledger (database
                 (Inventory_handleSubmit
                    {| inventory_id := None; item_name := "Rice";
                       stockLevel := 3; cost := 5 # 2 |}
                    (sample_process 0)).2)).
Proof.
  pose proof (proj1 sample_catalog_seq_ahead) as H0.
  pose proof sample_catalog_inventory_nonneg as H1.
  split_and!; [exact H0 | exact H1 |].
  exact (proj1 (Inventory_handleSubmit_keeps_nonneg
                  {| inventory_id := None; item_name := "Rice";
                     stockLevel := 3; cost := 5 # 2 |}
                  (sample_process 0) H0 H1)).
Defined.

(** Drink-W is added under key 8 with one recipe row. *)
Lemma api_add_menu_adds_witness :
  catalog_seq_ahead sample_catalog
  ∧ (pg_run (api_add_menu sample_add_menu) sample_catalog).1
    = Returned (MenuOk "Menu item and ingredients added successfully")
  ∧ menu_ingredients
      (ledger (pg_run (api_add_menu sample_add_menu) sample_catalog).2)
    = [ {| mi_menu_item_id := 7; mi_inventory_id := 1;
           mi_quantity_needed := 2 |};
        {| mi_menu_item_id := 8; mi_inventory_id := 1;
           mi_quantity_needed := 1 |} ].
Proof.
  pose proof sample_catalog_seq_ahead as H0.
  split; [exact H0|].
  destruct (api_add_menu_adds sample_add_menu sample_catalog H0)
    as (Hrun & _ & _ & _ & Hmi & _).
  split; [exact Hrun|]. rewrite Hmi. by vm_compute.
Defined.

(** The recipe of Entree-X is replaced by the row of the body. *)
Lemma api_update_menu_replaces_witness :
  um_id sample_update_menu = Some 7
  ∧ menu_assignments sample_update_menu ≠ []
  ∧ (pg_run (api_update_menu sample_update_menu) sample_catalog).1
    = Returned (MenuOk "Successfully updated menu item and ingredients")
  ∧ menu_ingredients
      (ledger (pg_run (api_update_menu sample_update_menu) sample_catalog).2)
    = [ {| mi_menu_item_id := 7; mi_inventory_id := 1;
           mi_quantity_needed := -1 |} ].
Proof.
  assert (menu_assignments sample_update_menu ≠ []) as H1 by done.
  split_and!; [done | exact H1 | |].
  - exact (proj1 (api_update_menu_replaces sample_update_menu 7
                    sample_catalog eq_refl H1)).
  - destruct (api_update_menu_replaces sample_update_menu 7 sample_catalog
                eq_refl H1) as (_ & Hmi & _).
    rewrite Hmi. by vm_compute.
Defined.

(** The form of a new side is sent and the menu stays well formed. *)
Lemma MenuAdjust_handleSubmit_keeps_witness :
  catalog_seq_ahead sample_catalog
  ∧ menu_ok (ledger sample_catalog)
  ∧ recipe_positive (ledger sample_catalog)
  ∧ (∀ x, x ∈ sel_ingredientList sample_form → 0 ≤ ingredient_quantity x)
  ∧ menu_ok
      (ledger (pg_run (MenuAdjust_handleSubmit sample_form) sample_catalog).2)
  ∧ recipe_positive
      (ledger (pg_run (MenuAdjust_handleSubmit sample_form) sample_catalog).2).
Proof.
  pose proof sample_catalog_seq_ahead as H0.
  pose proof sample_catalog_menu_ok as H1.
  pose proof sample_catalog_recipe_positive as H2.
  assert (∀ x, x ∈ sel_ingredientList sample_form → 0 ≤ ingredient_quantity x)
    as H3.
  { intros x Hx. apply list_elem_of_singleton in Hx as ->. done. }
  destruct (MenuAdjust_handleSubmit_keeps sample_form sample_catalog
              H0 H1 H2 H3) as (Hok & Hpos & _).
  by split_and!.
Defined.

(** The one active item of the sample catalog. *)
Lemma api_active_items_lists_witness :
  pg_run (api_active_items scan_id) sample_catalog
  = (Returned (Listed [ {| m_id := 7; m_name := "Entree-X"; m_price := 10%Q;
                           m_category := "entree" |} ]),
     sample_catalog).
Proof.
  destruct (api_active_items_lists scan_id scan_id_perm sample_catalog)
    as (Hrun & _).
  rewrite Hrun. by vm_compute.
Defined.

(** The sample catalog is listed and left alone. *)
Lemma api_all_items_lists_witness :
  ∃ items,
    pg_run (api_all_items scan_id) sample_catalog
      = (Returned (Listed items), sample_catalog)
    ∧ mj_id <$> items = [7].
Proof.
  destruct (api_all_items_lists scan_id scan_id_perm sample_catalog)
    as (items & Hrun & _).
  exists items. split; [exact Hrun|].
  vm_compute in Hrun. injection Hrun as <-. by vm_compute.
Defined.

(** Drink-W as the manager sees it after adding it: the ingredient is
    listed under the name of the inventory. *)
Lemma api_add_menu_then_all_items_witness :
  catalog_seq_ahead sample_catalog
  ∧ recipe (ledger sample_catalog)
      (menu_menu_item_id_seq sample_catalog + 1) = []
  ∧ ∃ items item,
      pg_run (api_all_items scan_id)
        (pg_run (api_add_menu sample_add_menu) sample_catalog).2
      = (Returned (Listed items),
         (pg_run (api_add_menu sample_add_menu) sample_catalog).2)
      ∧ item ∈ items
      ∧ mj_id item = 8
      ∧ mj_name item = "Drink-W"
      ∧ mj_ingredients item
        ≡ₚ [ {| ing_id := 1; ing_name := Some "Ingredient-Y";
                quantity_used := Some 1 |} ].
Proof.
  pose proof sample_catalog_seq_ahead as H0.
  assert (recipe (ledger sample_catalog)
            (menu_menu_item_id_seq sample_catalog + 1) = []) as H1
    by by vm_compute.
  split_and!; [exact H0 | exact H1 |].
  destruct (api_add_menu_then_all_items scan_id scan_id_perm sample_add_menu
              sample_catalog H0 H1)
    as (items & item & Hrun & Hin & Hid & Hn & _ & _ & _ & _ & Hing).
  exists items, item. split_and!; [exact Hrun | exact Hin | exact Hid
                                  | exact Hn |].
  rewrite Hing. by vm_compute.
Defined.


(** ** Staff *)

Lemma sample_staff_seq_ahead : staff_seq_ahead sample_staff.
Proof.
  intros k row Hk. unfold sample_staff in Hk. cbn [employees] in Hk.
  apply lookup_singleton_Some in Hk as [<- _]. done.
Qed.


(** Once switched off, employee 1 is no answer of a login. *)
Lemma api_update_employee_deactivates_witness :
  (pg_run (api_update_employee sample_deactivate) sample_staff).1
  = Returned (EmployeeCreated "Successfully update employee")
  ∧ ∀ login employee,
      (pg_run (api_login scan_id login)
         (pg_run (api_update_employee sample_deactivate) sample_staff).2).1
        = Returned (LoginOk employee) →
      lj_id employee ≠ 1.
Proof.
  destruct (api_update_employee_deactivates scan_id scan_id_perm
              sample_deactivate 1 sample_staff eq_refl eq_refl)
    as (Hrun & _ & _ & _ & Hlocked).
  by split.
Defined.

(** The second employee is added under key 2 and logs in. *)
Lemma api_add_employee_then_login_witness :
  staff_seq_ahead sample_staff
  ∧ (pg_run (api_add_employee sample_add_employee) sample_staff).1
    = Returned (EmployeeCreated "Successfully add employee.")
  ∧ pg_run (api_login scan_id {| lb_username := value "sam";
                                 lb_password := value "hidden" |})
      (pg_run (api_add_employee sample_add_employee) sample_staff).2
    = (Returned (LoginOk {| lj_id := 2; lj_firstName := Some "Sam";
                            lj_isEmployee := true; lj_isManager := false |}),
       (pg_run (api_add_employee sample_add_employee) sample_staff).2).
Proof.
  pose proof sample_staff_seq_ahead as H0.
  destruct (api_add_employee_then_login scan_id scan_id_perm
              sample_add_employee sample_staff H0)
    as (Hrun & _ & _ & _ & _ & Hlogin & _).
  split_and!; [exact H0 | exact Hrun |].
  destruct (Hlogin eq_refl) as (employee & Hin & Hnew).
  cbn [sample_add_employee ae_username ae_password] in Hin.
  rewrite Hin, Hnew; [done|].
  intros k row Hk. unfold sample_staff in Hk. cbn [employees] in Hk.
  apply lookup_singleton_Some in Hk as [_ <-]. by intros [[=] _].
Defined.

(** A customer signs in with Google for the first time. *)
Lemma api_google_login_account_witness :
  staff_seq_ahead sample_staff
  ∧ (pg_run (api_google_login scan_id sample_tokeninfo (Some "token"))
       sample_staff).1
    = Returned (GoogleOk {| ej_id := 2; ej_firstName := value "Kim";
                            ej_lastName := undefined; ej_isEmployee := false;
                            ej_isManager := false |}).
Proof.
  pose proof sample_staff_seq_ahead as H0.
  split; [exact H0|].
  destruct (api_google_login_account scan_id scan_id_perm sample_tokeninfo
              "token"
              {| email := value "customer@example.org";
                 given_name := value "Kim"; family_name := undefined |}
              "customer@example.org" sample_staff
              ltac:(done) eq_refl eq_refl H0) as [_ Hfirst].
  destruct Hfirst as (Hrun & _).
  - intros k row Hk. unfold sample_staff in Hk. cbn [employees] in Hk.
    apply lookup_singleton_Some in Hk as [_ <-]. done.
  - exact Hrun.
Defined.

(** Employee 1 selected and saved untouched. *)
Lemma Employee_edit_round_trip_witness :
  pg_run (Employee_handleEditEmployee
            (Employee_select (staff_json_of (1, sample_employee))))
    sample_staff
  = (Returned (Some (EmployeeCreated "Successfully update employee")),
     sample_staff).
Proof.
  destruct (Employee_edit_round_trip scan_id scan_id_perm 1 sample_employee
              sample_staff eq_refl eq_refl) as (_ & Hsaved & _).
  exact Hsaved.
Defined.
